(* ===== verification/_CoqProject ===== *)
-Q . S2P
Prelude.v
Types.v
AlarmCache.v
Delivery.v
Samples.v
RuntimeState.v
Alerting.v
Watch.v
State.v
StateFile.v
Events.v
Ws.v
ChainDetails.v
Rpc.v
Lifecycle.v
Encryption.v
ConfigLoad.v
Dashboard.v
Metrics.v
Cli.v
Govulncheck.v
WsSession.v
HttpClients.v
Logs.v
Supervise.v
Privacy.v
