(* ===== verification/Prelude.v ===== *)
(** * A verification development for NosNode Seer

    NosNode Seer (the repository's [main.go] and [seer/]) watches Cosmos
    validators and raises alerts.  One process holds a [Config] with a
    [ChainConfig] per chain.  For every chain three goroutines run: [watch]
    decides from the chain's state whether alerts are to be raised or resolved,
    [monitorHealth] probes the RPC nodes every minute, and [monitorChain] picks
    an endpoint, refreshes the validator's information and runs a websocket
    session that turns block and vote events into block results.  Alerts go
    through a gate into a bounded queue; one worker takes them out and sends
    each to four destinations, with a cache of what every destination has
    accepted so that nothing is sent twice.  Updates also go to a dashboard and
    to Prometheus.  At shutdown the queue is drained and the alarms, block
    results and down nodes are written to a state file from which the next start
    restores them.

    ** Files and the code they model

    - [Prelude]: record update, 64-bit integers, time, binary64, Go maps, string
      functions, and the monad [M] of state-passing computations that may panic.
    - [Types]: the records and enumerations of [types.go], [alert.go],
      [validator.go], [dashboard/types.go] and [prometheus.go].
    - [AlarmCache] ([alert.go]): [reserveDelivery], [completeDelivery],
      [recordDashboardAlarm], [clearNoBlocks] and the rest of [alarmCache], with
      an abstract machine they refine.
    - [Delivery] ([alert.go], [run.go]): the four senders, their errors and
      retries, [deliverAlert], its four goroutines, and the worker.
    - [Samples]: a concrete configuration for the witnesses.
    - [RuntimeState] ([runtime_state.go]): the accessors of shared state and the
      alert gate.
    - [Alerting] ([alert.go]): [alert], [checkStalledAlert],
      [checkPercentageAlert], [recordFinalBlock].
    - [Watch] ([alert.go]): the loop [watch], one check per definition.
    - [State] ([state.go]): decoding, choosing between primary and backup,
      snapshot and restore.
    - [StateFile] ([state.go]): [writeStateAtomic] over a directory in which
      every system call can fail and the machine can stop at any point.
    - [Events] ([rpc_contract.go], [cometbft_adapter.go]): decoding and
      classification of consensus events.
    - [Ws] ([ws.go]): the goroutine that records results, the two handlers, and
      opening a connection.  [WsSession] ([ws.go]): the goroutines of [WsRun]
      and their channels as a step relation.
    - [ChainDetails] ([chain-details.go]): prefixes and the public registry.
    - [Rpc] ([rpc.go], [validator.go], [cometbft_adapter.go]): choosing and
      probing endpoints, refreshing the validator.
    - [Lifecycle] ([run.go]): monitors, ingress, the bounded queue, the dashboard
      alarms the monitors record and clear, the worker and [shutdown] as a step
      relation.
    - [Encryption] ([encryption.go]): encrypted configurations.
    - [ConfigLoad] ([types.go], [run.go]): [loadConfig], [validateConfig] and the
      start of [Run].
    - [Dashboard] ([dashboard/server.go]): caches, redaction and routes.
    - [Metrics] ([prometheus.go]): gauges and the delivery counter.
    - [Cli] ([main.go]): flags, dispatch, the legacy working directory.
    - [Govulncheck] ([scripts/check-govulncheck.go]): the baseline check of CI.
    - [HttpClients] ([cometbft_adapter.go], [alert.go]): constructing HTTP clients
      without touching shared ones.
    - [Logs] ([init.go], [rpc.go]): the log channel and healthcheck pings.
    - [Supervise] ([run.go]): [monitorChain], and what [Run] starts.
    - [Privacy] ([ws.go], [dashboard/server.go] and what feeds it): what can be
      learned from the dashboard with logs hidden, over two runs.

    ** How state and effects are modelled

    A chain is the record [ChainConfig] inside the map [Chains] of [Config], so
    goroutines that share a chain share that entry.  Operations are functions of
    the state; those that may panic live in [M], where [None] is a panic.  Errors
    are values of a sum or an option.  Code under one mutex is one atomic step.
    Where the interleaving matters (the four deliveries of an alert, the queue
    and shutdown, a websocket session, the steps of [monitorChain]) goroutines
    are interleaved explicitly.  Time is a number of nanoseconds and is read
    once per step; integers that Go keeps in 64 bits wrap where that can be
    seen; percentages and metrics are binary64.

    What is not part of the program is an interface: [JsonCodec] (state
    documents), [FileEnv] (failing system calls, temporary names), [RpcEnv] (the
    answers of nodes), [LoadEnv] (YAML, files and HTTP), [Crypto] (Argon2id,
    AES, HMAC), [DashJson], and [PromLib] (the Prometheus registry with its
    laws).  Each that has laws has an instance in the witnesses.  Strings that go
    through [JsonCodec] are taken to be valid UTF-8, as encoding/json replaces
    what is not; [PromLib] has the check of label values.

    ** What the theorems show

    - Delivery: accepted deliveries of a message to a destination alternate
      between trigger and resolution, whatever the network does; only accepted
      deliveries are remembered, where accepted means the answer of the network
      and not the code's own label; two deliveries of the same message are never in
      progress at once; the four goroutines' interleaving does not matter; the
      cache refines a machine of open, closed and in-flight alarms.
    - Alerts: they are addressed exactly to the destinations enabled at both
      levels; every kind of alarm of a chain alternates over any interleaving
      with blocks, refreshes and probes; rounds of [watch] never panic.
    - Durable state: a crash at any point leaves the old or the new state
      loadable; a successful write survives; restarts keep open alarms, block
      history and down nodes.
    - Start and stop: loading establishes the invariant the monitors rely on;
      [Run] starts every goroutine with one reader per channel; shutdown saves
      only after the queue is drained and every alert is on the dashboard, never
      sends on a closed queue, and cannot get stuck; supervision and websocket sessions end once
      their context is done.
    - Blocks: each final update is one result, with the highest status seen, and
      the counters are exactly those results; updates of a session arrive in
      order.
    - Endpoints: the first usable node is used, then the public fallback; a
      refresh is all or nothing, field by field; a round of supervision connects to the endpoint
      chosen with the key just published.
    - Configuration: encryption round trips and only authentic files decrypt;
      the problems reported are characterised; flags round trip; where a
      configuration that was asked for is looked up.
    - Outputs: what the dashboard serves and the gauges are functions of the
      updates sent; with hidden logs the dashboard does not depend on where the
      nodes are; the delivery counter has a bounded set of series and counts
      what the destinations accepted; the baseline script compares two sets.

    Some theorems state behaviour that is not what was meant: the alarm of a node
    that was down at a restart, the healthcheck that panics without a rate, the
    validation messages of a switch whose cases fall through.

    ** Bounds and fuel

    Recursions are structural except for the matcher of the dashboard's regular
    expression, the splitting of strings and the trimming of blanks, which use the
    length of their input as fuel: every turn consumes at least one byte.  The queue holds 64 alerts,
    as in the code; other channels are lists without a bound, which is what the
    goroutines that drain them provide.  Step relations have no bound; their
    termination theorems come with an explicit rank.

    ** Not modelled

    The text of most log lines and its printing; sockets, TLS and HTTP servers,
    the embedded files; mutexes themselves; permissions of written files; names of
    temporary files beyond being fresh in one directory; nil entries for nodes or
    chains in YAML (a panic in the code, outside the loaders' interface here);
    the order in which several goroutines waiting for the same channel are
    served; the choice of a select whose context is done while its channel is
    ready ([emitStat] then takes the context, so metrics sent at the very end
    of a run are left out); drain timeouts as durations (a timeout is a step that may happen). *)

From Stdlib Require Import SpecFloat.
From stdpp Require Export base option list strings gmap pretty numbers relations.

#[export] Set Default Goal Selector "!".
#[export] Set Warnings "-clear-no-such-hyp".

Local Open Scope Z_scope.

(** ** Functional record update

    [r <| f := v |>] is [r] with field [f] replaced.  A record becomes
    updatable by giving its eta-expansion as an instance of [Eta]; the setter
    of each field is then computed from it. *)

Class Eta (R : Type) := MkEta { eta_of : R -> R }.

Class FieldSet {R T : Type} (p : R -> T) := MkFieldSet { field_set : (T -> T) -> R -> R }.
Arguments MkFieldSet {R T p} _.
Arguments field_set {R T} p {_} g r /.

Ltac derive_field_set :=
  lazymatch goal with
  | |- @FieldSet ?R ?T ?p =>
      let inst := constr:(_ : Eta R) in
      lazymatch eval hnf in inst with
      | @MkEta _ ?body =>
          lazymatch eval pattern p in body with
          | ?abs p =>
              let s := eval cbv beta in (fun (g : T -> T) => abs (fun r => g (p r))) in
              exact (MkFieldSet s)
          end
      end
  end.

#[export] Hint Extern 1 (FieldSet _) => derive_field_set : typeclass_instances.

Declare Scope seer_scope.
Delimit Scope seer_scope with seer.

#[warnings="-postfix-notation-not-level-1"]
Notation "r <| f := v |>" := (field_set f (fun _ => v) r)
  (at level 12, f at next level, v at level 200, left associativity) : seer_scope.

Open Scope seer_scope.

(** ** Machine integers

    Go's [int] and [int64] are 64-bit two's complement on every platform the
    program ships for; multiplication and negation wrap. *)

Definition wrap64 (z : Z) : Z := (z + 2 ^ 63) mod 2 ^ 64 - 2 ^ 63.

Definition in_int64 (z : Z) : Prop := - 2 ^ 63 <= z < 2 ^ 63.

Lemma wrap64_small (z : Z) : in_int64 z -> wrap64 z = z.
Proof. unfold in_int64, wrap64. intros H. rewrite Z.mod_small; lia. Qed.

Lemma wrap64_range (z : Z) : in_int64 (wrap64 z).
Proof.
  unfold in_int64, wrap64.
  pose proof (Z.mod_pos_bound (z + 2 ^ 63) (2 ^ 64)). lia.
Qed.

(** ** Time

    A [time.Time] is the number of nanoseconds since Go's zero time (January 1
    of year 1, UTC), so the zero value of the type is [0] and [IsZero] is a
    comparison with it.  A [time.Duration] is an [int64] of nanoseconds. *)

Abbreviation time := Z (only parsing).
Abbreviation duration := Z (only parsing).

Definition Millisecond : duration := 10 ^ 6.
Definition Second : duration := 10 ^ 9.
Definition Minute : duration := 60 * Second.
Definition Hour : duration := 60 * Minute.

(** [time.Unix(0, 0)]: the Unix epoch, which is not the zero time. *)
Definition unix_epoch : time := 62135596800 * Second.

Definition IsZero (t : time) : bool := t =? 0.
Definition Before (t u : time) : bool := t <? u.
Definition After (t u : time) : bool := u <? t.
Definition Add (t : time) (d : duration) : time := t + d.

(** [t.Sub(u)] saturates at the bounds of [time.Duration]. *)
Definition Sub (t u : time) : duration := Z.max (- 2 ^ 63) (Z.min (2 ^ 63 - 1) (t - u)).

(** [time.Since(t)] read at [now]. *)
Definition Since (now t : time) : duration := Sub now t.

(** [d.Hours() >= h] for a whole number of hours [h] below [2^10], such as the
    24 of [staleHours]: [Hours] adds a fraction of at most [1 - 1/3.6e12] to the
    whole hours, far from the next float below [h], so the comparison is the
    integral one. *)
Definition hours_ge (d : duration) (h : Z) : bool := h * Hour <=? d.

(** ** Floating point

    [float64] values are IEEE binary64 numbers with the operations of the
    Standard Library's executable specification of them. *)

Abbreviation float64 := spec_float (only parsing).

Definition f64_of_Z (z : Z) : float64 := binary_normalize 53 1024 z 0 false.
Definition f64_add (x y : float64) : float64 := SFadd 53 1024 x y.
Definition f64_mul (x y : float64) : float64 := SFmul 53 1024 x y.
Definition f64_div (x y : float64) : float64 := SFdiv 53 1024 x y.
Definition f64_lt (x y : float64) : bool := SFltb x y.

(** [d.Seconds()]: whole seconds plus the fraction. *)
Definition Seconds (d : duration) : float64 :=
  f64_add (f64_of_Z (Z.quot d Second)) (f64_div (f64_of_Z (Z.rem d Second)) (f64_of_Z Second)).

(** A [float64] that only ever holds non-negative integers and is only ever
    incremented by one or reset: below [2^53] the increment is exact, and at
    [2^53] adding one rounds back to the same value. *)
Definition f64_incr (z : Z) : Z := if z <? 2 ^ 53 then z + 1 else z.

(** ** Go maps

    A Go map may be [nil]: reading it finds nothing, deleting from it does
    nothing, and assigning into it panics. *)

Abbreviation gomap V := (option (gmap string V)).

Definition mget {V} (m : gomap V) (k : string) : option V := m ≫= fun x => x !! k.
Definition mdelete {V} (m : gomap V) (k : string) : gomap V := delete k <$> m.
Definition mset {V} (m : gomap V) (k : string) (v : V) : option (gmap string V) :=
  <[k := v]> <$> m.
Definition mlen {V} (m : gomap V) : Z := Z.of_nat (from_option size 0%nat m).

(** Reading a [map[string]time.Time]: an absent key reads as the zero time. *)
Definition mtime (m : gomap time) (k : string) : time := default 0 (mget m k).

(** A map of maps read at a key: an absent key reads as a [nil] inner map. *)
Definition minner {V} (m : gomap (gomap V)) (k : string) : gomap V := mget m k ≫= id.

(** ** Strings *)

Definition HasPrefix (s p : string) : bool := String.prefix p s.

Definition nl : string := String (Ascii.ascii_of_nat 10) EmptyString.

Definition Join (l : list string) (sep : string) : string := String.concat sep l.

(** ** State-passing computations that may panic

    [M S A] threads a state [S]; [None] is a runtime panic (a nil dereference
    or an assignment into a nil map). *)

Definition M (S A : Type) : Type := S -> option (A * S).

#[export] Instance M_ret S : MRet (M S) := fun A a s => Some (a, s).
#[export] Instance M_bind S : MBind (M S) :=
  fun A B f m s => match m s with Some (a, s') => f a s' | None => None end.

Definition getS {S} : M S S := fun s => Some (s, s).
Definition putS {S} (s : S) : M S unit := fun _ => Some (tt, s).
Definition modifyS {S} (f : S -> S) : M S unit := fun s => Some (tt, f s).
Definition stateM {S A} (f : S -> A * S) : M S A := fun s => Some (f s).
Definition panicM {S A} : M S A := fun _ => None.
Definition liftO {S A} (o : option A) : M S A := fun s => (fun a => (a, s)) <$> o.

Fixpoint iterM {S A} (f : A -> M S unit) (l : list A) : M S unit :=
  match l with
  | [] => mret tt
  | x :: l' => f x ≫= fun _ => iterM f l'
  end.

(** ** Automation *)

Create HintDb seer discriminated.
Create Rewrite HintDb seer_rw.

(** Case analysis on every [match] and [if] in sight, then simplification. *)
Ltac go := repeat (simplify_eq/=; try case_match); simplify_eq/=; try done.

(** Turn boolean tests into the propositions they decide. *)
Ltac breflect :=
  repeat match goal with
  | H : (_ && _)%bool = true |- _ => apply andb_true_iff in H as [? ?]
  | H : (_ || _)%bool = false |- _ => apply orb_false_iff in H as [? ?]
  | H : negb _ = true |- _ => apply negb_true_iff in H
  | H : negb _ = false |- _ => apply negb_false_iff in H
  | H : (_ =? _) = true |- _ => apply Z.eqb_eq in H
  | H : (_ =? _) = false |- _ => apply Z.eqb_neq in H
  | H : (_ <? _) = true |- _ => apply Z.ltb_lt in H
  | H : (_ <? _) = false |- _ => apply Z.ltb_ge in H
  | H : (_ <=? _) = true |- _ => apply Z.leb_le in H
  | H : (_ <=? _) = false |- _ => apply Z.leb_gt in H
  end.

(** ** Shared lemmas *)

Lemma bindM_Some {S A B} (m : M S A) (f : A -> M S B) (s s' : S) (b : B) :
  (m ≫= f) s = Some (b, s') <-> exists a s1, m s = Some (a, s1) /\ f a s1 = Some (b, s').
Proof.
  unfold mbind, M_bind. destruct (m s) as [[a s1] |] eqn:E.
  - split; [eauto | intros (a' & s1' & H1 & H2); by simplify_eq].
  - split; [done | by intros (? & ? & ? & ?)].
Qed.

Lemma bindM_run {S A B} (m : M S A) (f : A -> M S B) (s s' : S) (a : A) :
  m s = Some (a, s') -> (m ≫= f) s = f a s'.
Proof. intros H. unfold mbind, M_bind. by rewrite H. Qed.

Lemma bindM_assoc_run {S A B C} (m : M S A) (f : A -> M S B) (g : B -> M S C) (s s' : S) (b : B) :
  (m ≫= f) s = Some (b, s') -> (m ≫= fun x => f x ≫= g) s = g b s'.
Proof. intros (a & s1 & H1 & H2)%bindM_Some. by rewrite (bindM_run _ _ _ _ _ H1), (bindM_run _ _ _ _ _ H2). Qed.

Lemma iterM_invariant {S A} (f : A -> M S unit) (P : S -> Prop) (l : list A) :
  (forall x s, x ∈ l -> P s -> exists s', f x s = Some (tt, s') /\ P s') ->
  forall s, P s -> exists s', iterM f l s = Some (tt, s') /\ P s'.
Proof.
  induction l as [| x l IH]; intros Hf s Hs; simpl.
  - by exists s.
  - destruct (Hf x s) as (s1 & E1 & H1); [left | done |].
    destruct (IH) with (s := s1) as (s2 & E2 & H2); [| done |].
    { intros y t Hy. apply Hf. by right. }
    exists s2. split; [| done]. unfold mbind, M_bind. by rewrite E1.
Qed.

Lemma Sub_exact (t u : time) : in_int64 (t - u) -> Sub t u = t - u.
Proof. unfold Sub, in_int64. lia. Qed.

Lemma string_length_app (s t : string) : String.length (s +:+ t) = (String.length s + String.length t)%nat.
Proof. induction s as [| a s IH]; simpl; [done | by rewrite IH]. Qed.

Lemma mtime_Some (m : gmap string time) (k : string) :
  mtime (Some m) k = default 0 (m !! k).
Proof. done. Qed.

Lemma mtime_mdelete (m : gomap time) (k k' : string) :
  mtime (mdelete m k) k' = if decide (k = k') then 0 else mtime m k'.
Proof.
  destruct m as [m |]; unfold mtime, mdelete, mget; simpl.
  - rewrite lookup_delete. by case_decide.
  - by case_decide.
Qed.

(** An invariant of a step relation holds wherever it can be reached. *)
Lemma rtc_invariant {A} (R : A -> A -> Prop) (P : A -> Prop) :
  (forall x y, R x y -> P x -> P y) ->
  forall x y, rtc R x y -> P x -> P y.
Proof. intros HR x y Hrtc. induction Hrtc; eauto. Qed.
