(* ===== verification/Types.v ===== *)
(** * The data model

    The records of [seer/types.go], [seer/alert.go], [seer/validator.go],
    [seer/runtime_state.go], [seer/prometheus.go] and [seer/dashboard/types.go],
    field for field.  Mutexes have no counterpart: every method that runs under
    a lock is one definition, and so one atomic step of the interleavings
    considered elsewhere.  A pointer that may be nil is an [option]; a channel
    is the list of the values sent on it, oldest first. *)

From S2P Require Import Prelude.

Local Open Scope Z_scope.

(** ** Validator information (validator.go) *)

Record ValInfo := MkValInfo {
  vi_Moniker : string;
  vi_Bonded : bool;
  vi_Jailed : bool;
  vi_Tombstoned : bool;
  vi_Missed : Z;
  vi_Window : Z;
  vi_Conspub : list Z;
  vi_Valcons : string;
}.

#[export] Instance eta_ValInfo : Eta ValInfo := {| eta_of r :=
  MkValInfo (vi_Moniker r) (vi_Bonded r) (vi_Jailed r) (vi_Tombstoned r)
    (vi_Missed r) (vi_Window r) (vi_Conspub r) (vi_Valcons r) |}.

(** [&ValInfo{}]: every field at its zero value. *)
Definition zeroValInfo : ValInfo := MkValInfo "" false false false 0 0 [] "".

(** ** Nodes (types.go, runtime_state.go) *)

Record NodeConfig := MkNodeConfig {
  Url : string;
  AlertIfDown : bool;
  nc_down : bool;
  nc_wasDown : bool;
  nc_syncing : bool;
  nc_lastMsg : string;
  nc_downSince : time;
}.

#[export] Instance eta_NodeConfig : Eta NodeConfig := {| eta_of r :=
  MkNodeConfig (Url r) (AlertIfDown r) (nc_down r) (nc_wasDown r) (nc_syncing r)
    (nc_lastMsg r) (nc_downSince r) |}.

Record nodeRuntimeState := MkNodeRuntimeState {
  down : bool;
  wasDown : bool;
  syncing : bool;
  lastMsg : string;
  downSince : time;
}.

#[export] Instance eta_nodeRuntimeState : Eta nodeRuntimeState := {| eta_of r :=
  MkNodeRuntimeState (down r) (wasDown r) (syncing r) (lastMsg r) (downSince r) |}.

(** ** Notification settings (types.go) *)

Record PDConfig := MkPDConfig {
  PD_Enabled : bool; PD_ApiKey : string; PD_DefaultSeverity : string }.

#[export] Instance eta_PDConfig : Eta PDConfig := {| eta_of r :=
  MkPDConfig (PD_Enabled r) (PD_ApiKey r) (PD_DefaultSeverity r) |}.

Record DiscordConfig := MkDiscordConfig {
  DC_Enabled : bool; DC_Webhook : string; DC_Mentions : list string }.

#[export] Instance eta_DiscordConfig : Eta DiscordConfig := {| eta_of r :=
  MkDiscordConfig (DC_Enabled r) (DC_Webhook r) (DC_Mentions r) |}.

Record TeleConfig := MkTeleConfig {
  TC_Enabled : bool; TC_ApiKey : string; TC_Channel : string; TC_Mentions : list string }.

#[export] Instance eta_TeleConfig : Eta TeleConfig := {| eta_of r :=
  MkTeleConfig (TC_Enabled r) (TC_ApiKey r) (TC_Channel r) (TC_Mentions r) |}.

Record SlackConfig := MkSlackConfig {
  SC_Enabled : bool; SC_Webhook : string; SC_Mentions : list string }.

#[export] Instance eta_SlackConfig : Eta SlackConfig := {| eta_of r :=
  MkSlackConfig (SC_Enabled r) (SC_Webhook r) (SC_Mentions r) |}.

Record HealthcheckConfig := MkHealthcheckConfig {
  HC_Enabled : bool; HC_PingURL : string; HC_PingRate : duration }.

Record AlertConfig := MkAlertConfig {
  Stalled : Z;
  StalledAlerts : bool;
  ConsecutiveMissed : Z;
  ConsecutivePriority : string;
  ConsecutiveAlerts : bool;
  Window : Z;
  PercentagePriority : string;
  PercentageAlerts : bool;
  AlertIfInactive : bool;
  AlertIfNoServers : bool;
  PagerdutyAlerts : bool;
  DiscordAlerts : bool;
  TelegramAlerts : bool;
  AC_Pagerduty : PDConfig;
  AC_Discord : DiscordConfig;
  AC_Telegram : TeleConfig;
  AC_Slack : SlackConfig;
}.

#[export] Instance eta_AlertConfig : Eta AlertConfig := {| eta_of r :=
  MkAlertConfig (Stalled r) (StalledAlerts r) (ConsecutiveMissed r) (ConsecutivePriority r)
    (ConsecutiveAlerts r) (Window r) (PercentagePriority r) (PercentageAlerts r)
    (AlertIfInactive r) (AlertIfNoServers r) (PagerdutyAlerts r) (DiscordAlerts r)
    (TelegramAlerts r) (AC_Pagerduty r) (AC_Discord r) (AC_Telegram r) (AC_Slack r) |}.

(** ** A monitored chain (types.go)

    [client] and [wsclient] are the endpoint the connection was opened to. The
    six statistics are [float64] counters holding integers. A [nil] and an
    empty [blocksResults] are both the empty list: the code only ever stores
    [append([]int(nil), ...)] there, which yields [nil] for no elements. *)

Record ChainConfig := MkChainConfig {
  cc_name : string;
  wsclient : option string;
  client : option string;
  noNodes : bool;
  valInfo : option ValInfo;
  lastValInfo : option ValInfo;
  blocksResults : list Z;
  lastError : string;
  lastBlockTime : time;
  lastBlockAlarm : bool;
  stalledResolutionPending : bool;
  percentageAlarm : bool;
  lastBlockNum : Z;
  activeAlerts : Z;
  statTotalSigns : Z;
  statTotalProps : Z;
  statTotalMiss : Z;
  statPrevoteMiss : Z;
  statPrecommitMiss : Z;
  statConsecutiveMiss : Z;
  ChainId : string;
  ValAddress : string;
  ValconsOverride : string;
  ExtraInfo : string;
  Alerts : AlertConfig;
  PublicFallback : bool;
  Nodes : list NodeConfig;
}.

#[export] Instance eta_ChainConfig : Eta ChainConfig := {| eta_of r :=
  MkChainConfig (cc_name r) (wsclient r) (client r) (noNodes r) (valInfo r) (lastValInfo r)
    (blocksResults r) (lastError r) (lastBlockTime r) (lastBlockAlarm r)
    (stalledResolutionPending r) (percentageAlarm r) (lastBlockNum r) (activeAlerts r)
    (statTotalSigns r) (statTotalProps r) (statTotalMiss r) (statPrevoteMiss r)
    (statPrecommitMiss r) (statConsecutiveMiss r) (ChainId r) (ValAddress r)
    (ValconsOverride r) (ExtraInfo r) (Alerts r) (PublicFallback r) (Nodes r) |}.

(** ** Alert messages and the alarm cache (alert.go) *)

Record alertMsg := MkAlertMsg {
  am_pd : bool;
  am_disc : bool;
  am_tg : bool;
  am_slk : bool;
  severity : string;
  resolved : bool;
  chain : string;
  message : string;
  uniqueId : string;
  key : string;
  tgChannel : string;
  tgKey : string;
  tgMentions : string;
  discHook : string;
  discMentions : string;
  slkHook : string;
  slkMentions : string;
}.

#[export] Instance eta_alertMsg : Eta alertMsg := {| eta_of r :=
  MkAlertMsg (am_pd r) (am_disc r) (am_tg r) (am_slk r) (severity r) (resolved r) (chain r)
    (message r) (uniqueId r) (key r) (tgChannel r) (tgKey r) (tgMentions r) (discHook r)
    (discMentions r) (slkHook r) (slkMentions r) |}.

Inductive notifyDest := pd | tg | di | slk.

#[export] Instance notifyDest_eq_dec : EqDecision notifyDest.
Proof. solve_decision. Defined.

#[export] Instance notifyDest_countable : Countable notifyDest.
Proof.
  refine {| encode d := match d with pd => 1 | tg => 2 | di => 3 | slk => 4 end%positive;
            decode p := match p with
                        | 1 => Some pd | 2 => Some tg | 3 => Some di | 4 => Some slk
                        | _ => None
                        end%positive |}; by intros [].
Defined.

(** The maps that are serialised may be [nil] after decoding, at either level;
    [flappingAlarms] and [inFlight] are never serialised, and their inner maps
    are never [nil] once present. *)
Record alarmCache := MkAlarmCache {
  SentPdAlarms : gomap time;
  SentTgAlarms : gomap time;
  SentDiAlarms : gomap time;
  SentSlkAlarms : gomap time;
  AllAlarms : gomap (gomap time);
  flappingAlarms : gomap (gmap string time);
  inFlight : option (gmap notifyDest (gset string));
}.

#[export] Instance eta_alarmCache : Eta alarmCache := {| eta_of r :=
  MkAlarmCache (SentPdAlarms r) (SentTgAlarms r) (SentDiAlarms r) (SentSlkAlarms r)
    (AllAlarms r) (flappingAlarms r) (inFlight r) |}.

(** ** Dashboard messages (dashboard/types.go) *)

Record ChainStatus := MkChainStatus {
  cs_MsgType : string;
  cs_Name : string;
  cs_ChainId : string;
  cs_Moniker : string;
  cs_Bonded : bool;
  cs_Jailed : bool;
  cs_Tombstoned : bool;
  cs_Missed : Z;
  cs_Window : Z;
  cs_Nodes : Z;
  cs_HealthyNodes : Z;
  cs_ActiveAlerts : Z;
  cs_Height : Z;
  cs_LastError : string;
  cs_Blocks : list Z;
}.

#[export] Instance eta_ChainStatus : Eta ChainStatus := {| eta_of r :=
  MkChainStatus (cs_MsgType r) (cs_Name r) (cs_ChainId r) (cs_Moniker r) (cs_Bonded r)
    (cs_Jailed r) (cs_Tombstoned r) (cs_Missed r) (cs_Window r) (cs_Nodes r)
    (cs_HealthyNodes r) (cs_ActiveAlerts r) (cs_Height r) (cs_LastError r) (cs_Blocks r) |}.

Record LogMessage := MkLogMessage { lm_MsgType : string; lm_Ts : Z; lm_Msg : string }.

(** ** Prometheus updates (prometheus.go) *)

Inductive metricType :=
  | metricSigned | metricProposed | metricMissed | metricPrevote | metricPrecommit
  | metricConsecutive | metricWindowMissed | metricWindowSize | metricLastBlockSeconds
  | metricLastBlockSecondsNotFinal | metricTotalNodes | metricUnealthyNodes
  | metricNodeLagSeconds | metricNodeDownSeconds.

#[export] Instance metricType_eq_dec : EqDecision metricType.
Proof. solve_decision. Defined.

Record promUpdate := MkPromUpdate {
  pu_metric : metricType;
  pu_counter : SpecFloat.spec_float;
  pu_name : string;
  pu_chainId : string;
  pu_moniker : string;
  pu_endpoint : string;
}.

(** ** The running configuration (types.go)

    [alarms] is one cache: [loadConfig] makes the package-level [alarms], the
    [Config]'s own and (through [Run]) the notification sender's the same
    object.  [ingressWG] is the count of its wait group. *)

Record Config := MkConfig {
  alertChan : list alertMsg;
  updateChan : list ChainStatus;
  statsChan : list promUpdate;
  cancelled : bool;
  alarms : alarmCache;
  accepting : bool;
  ingressWG : Z;
  EnableDash : bool;
  Listen : string;
  HideLogs : bool;
  NodeDownMin : Z;
  NodeDownSeverity : string;
  Prom : bool;
  PrometheusListenPort : Z;
  Pagerduty : PDConfig;
  Discord : DiscordConfig;
  Telegram : TeleConfig;
  Slack : SlackConfig;
  Healthcheck : HealthcheckConfig;
  Chains : gmap string ChainConfig;
}.

#[export] Instance eta_Config : Eta Config := {| eta_of r :=
  MkConfig (alertChan r) (updateChan r) (statsChan r) (cancelled r) (alarms r)
    (accepting r) (ingressWG r) (EnableDash r) (Listen r) (HideLogs r) (NodeDownMin r)
    (NodeDownSeverity r) (Prom r) (PrometheusListenPort r) (Pagerduty r) (Discord r)
    (Telegram r) (Slack r) (Healthcheck r) (Chains r) |}.

(** ** Durable state (types.go, state.go) *)

Record savedState := MkSavedState {
  ss_Alarms : option alarmCache;
  ss_Blocks : gomap (list Z);
  ss_NodesDown : gomap (gomap time);
}.

Record stateDocument := MkStateDocument {
  Version : Z;
  sd_Alarms : option alarmCache;
  sd_Blocks : gomap (list Z);
  sd_NodesDown : gomap (gomap time);
}.

(** ** Product identity (identity.go) *)

Definition ProductName : string := "NosNode Seer".
Definition BrandName : string := "NosNode🔮".
