(* ===== verification/AlarmCache.v ===== *)
(** * The alarm cache (alert.go)

    The cache remembers, per destination, which alarms were accepted and which
    are being delivered right now, and, per chain, the alarms shown on the
    dashboard.  The first part is the code; the second an abstract
    specification of it ([AlarmSpec]) without lazily allocated maps, and the
    theorems that the code refines it; the third the interleaving of any number
    of delivery workers on one cache. *)

From S2P Require Import Prelude Types.

Local Open Scope Z_scope.

(** ** The operations *)

Definition newAlarmCache : alarmCache :=
  MkAlarmCache (Some ∅) (Some ∅) (Some ∅) (Some ∅) (Some ∅) (Some ∅) (Some ∅).

Definition stalledPrefix : string := "stalled: have not seen a new block on".

Definition clearNoBlocks (chainName : string) (a : alarmCache) : alarmCache :=
  match minner (AllAlarms a) chainName with
  | None => a
  | Some m =>
      a <| AllAlarms :=
        <[chainName := Some (filter (fun kv => HasPrefix kv.1 stalledPrefix = false) m)]>
          <$> AllAlarms a |>
  end.

Definition getCount (chainName : string) (a : alarmCache) : Z :=
  mlen (minner (AllAlarms a) chainName).

(** The map of a destination, allocated on first use. *)
Definition sentMapLocked (dest : notifyDest) (a : alarmCache) : gmap string time * alarmCache :=
  match dest with
  | pd => match SentPdAlarms a with
          | None => (∅, a <| SentPdAlarms := Some ∅ |>)
          | Some m => (m, a)
          end
  | tg => match SentTgAlarms a with
          | None => (∅, a <| SentTgAlarms := Some ∅ |>)
          | Some m => (m, a)
          end
  | di => match SentDiAlarms a with
          | None => (∅, a <| SentDiAlarms := Some ∅ |>)
          | Some m => (m, a)
          end
  | slk => match SentSlkAlarms a with
           | None => (∅, a <| SentSlkAlarms := Some ∅ |>)
           | Some m => (m, a)
           end
  end.

(** Writing through the map [sentMapLocked] returned. *)
Definition storeSent (dest : notifyDest) (m : gmap string time) (a : alarmCache) : alarmCache :=
  match dest with
  | pd => a <| SentPdAlarms := Some m |>
  | tg => a <| SentTgAlarms := Some m |>
  | di => a <| SentDiAlarms := Some m |>
  | slk => a <| SentSlkAlarms := Some m |>
  end.

Definition is_pd (dest : notifyDest) : bool := match dest with pd => true | _ => false end.

Definition flappingWindow : duration := 5 * Minute.

Definition reserveDelivery (now : time) (msg : alertMsg) (dest : notifyDest) (a : alarmCache)
  : bool * alarmCache :=
  let '(sent, a) := sentMapLocked dest a in
  let flight := default ∅ (inFlight a) in
  let flight := <[dest := default ∅ (flight !! dest)]> flight in
  let a := a <| inFlight := Some flight |> in
  let reserved := default ∅ (flight !! dest) in
  if bool_decide (message msg ∈ reserved) then (false, a)
  else if resolved msg && IsZero (mtime (Some sent) (message msg)) then (false, a)
  else if negb (resolved msg) && negb (IsZero (mtime (Some sent) (message msg))) then (false, a)
  else
    let trigger_pd := is_pd dest && negb (resolved msg) in
    let flaps := default ∅ (flappingAlarms a) in
    let a := if trigger_pd then a <| flappingAlarms := Some flaps |> else a in
    let flapping :=
      match flaps !! chain msg with
      | Some m => After (mtime (Some m) (message msg)) (Add now (- flappingWindow))
      | None => false
      end in
    if trigger_pd && flapping then (false, a)
    else (true, a <| inFlight := Some (<[dest := {[message msg]} ∪ reserved]> flight) |>).

Definition completeDelivery (now : time) (msg : alertMsg) (dest : notifyDest) (accepted : bool)
    (a : alarmCache) : alarmCache :=
  let a := a <| inFlight := alter (fun s => s ∖ {[message msg]}) dest <$> inFlight a |> in
  if negb accepted then a
  else
    let '(sent, a) := sentMapLocked dest a in
    if resolved msg then storeSent dest (delete (message msg) sent) a
    else
      let a := storeSent dest (<[message msg := now]> sent) a in
      if is_pd dest then
        let flaps := default ∅ (flappingAlarms a) in
        let inner := default ∅ (flaps !! chain msg) in
        a <| flappingAlarms := Some (<[chain msg := <[message msg := now]> inner]> flaps) |>
      else a.

(** [None] is the panic of assigning into a nil [AllAlarms]. *)
Definition recordDashboardAlarm (now : time) (chainName message : string) (resolved : bool)
    (a : alarmCache) : option alarmCache :=
  all ←
    match minner (AllAlarms a) chainName with
    | None => mset (AllAlarms a) chainName (Some ∅)
    | Some _ => AllAlarms a
    end;
  inner ← minner (Some all) chainName;
  let inner := if resolved then delete message inner else <[message := now]> inner in
  Some (a <| AllAlarms := Some (<[chainName := Some inner]> all) |>).

(** [getAlarms]: the order in which Go ranges over the map is not fixed, so it
    is an argument. *)
Definition getAlarms (order : gmap string time -> list string) (chainName : string)
    (hideLogs : bool) (a : alarmCache) : string :=
  if hideLogs then ""
  else match minner (AllAlarms a) chainName with
       | None => ""
       | Some m => foldl (fun result msg => result +:+ "🚨 " +:+ msg +:+ nl) "" (order m)
       end.

(** ** The abstract specification *)

Module AlarmSpec.

(** What a cache means: when an alarm was accepted by a destination (zero when
    it is not open there), whether it is being delivered, and when PagerDuty
    last accepted it for a chain. *)
Record view := MkView {
  v_sent : notifyDest -> string -> time;
  v_flight : notifyDest -> string -> bool;
  v_flap : string -> string -> time;
}.

Definition view_equiv (v w : view) : Prop :=
  (forall d k, v_sent v d k = v_sent w d k) /\
  (forall d k, v_flight v d k = v_flight w d k) /\
  (forall c k, v_flap v c k = v_flap w c k).

#[export] Instance view_Equiv : Equiv view := view_equiv.

#[export] Instance view_Equivalence : Equivalence (≡@{view}).
Proof.
  split.
  - by intros v.
  - intros v w (? & ? & ?). repeat split; congruence.
  - intros u v w (H1 & H2 & H3) (? & ? & ?).
    repeat split; intros; by rewrite ?H1, ?H2, ?H3.
Qed.

Definition is_open (v : view) (d : notifyDest) (k : string) : bool := negb (IsZero (v_sent v d k)).

Definition flapping (now : time) (v : view) (msg : alertMsg) : bool :=
  After (v_flap v (chain msg) (message msg)) (Add now (- flappingWindow)).

(** May a delivery of [msg] to [d] start? Nobody may be delivering it, a
    resolution needs an open alarm, a trigger a closed one, and PagerDuty
    triggers are held back while the alarm flaps. *)
Definition may_start (now : time) (msg : alertMsg) (d : notifyDest) (v : view) : bool :=
  negb (v_flight v d (message msg)) &&
  (if resolved msg then is_open v d (message msg)
   else negb (is_open v d (message msg)) && negb (is_pd d && flapping now v msg)).

Definition upd2 {A B T : Type} `{EqDecision A, EqDecision B} (f : A -> B -> T) (a : A) (b : B) (t : T)
  : A -> B -> T :=
  fun a' b' => if decide (a = a' /\ b = b') then t else f a' b'.

Definition start (msg : alertMsg) (d : notifyDest) (v : view) : view :=
  MkView (v_sent v) (upd2 (v_flight v) d (message msg) true) (v_flap v).

Definition finish (now : time) (msg : alertMsg) (d : notifyDest) (accepted : bool) (v : view) : view :=
  MkView
    (if accepted then upd2 (v_sent v) d (message msg) (if resolved msg then 0 else now) else v_sent v)
    (upd2 (v_flight v) d (message msg) false)
    (if accepted && is_pd d && negb (resolved msg)
     then upd2 (v_flap v) (chain msg) (message msg) now else v_flap v).

#[export] Instance may_start_Proper now msg d : Proper ((≡@{view}) ==> (=)) (may_start now msg d).
Proof.
  intros v w (H1 & H2 & H3). unfold may_start, is_open, flapping. by rewrite H1, H2, H3.
Qed.

#[export] Instance start_Proper msg d : Proper ((≡@{view}) ==> (≡)) (start msg d).
Proof.
  intros v w (H1 & H2 & H3). repeat split; simpl; try done.
  intros. unfold upd2. by case_decide.
Qed.

#[export] Instance finish_Proper now msg d acc : Proper ((≡@{view}) ==> (≡)) (finish now msg d acc).
Proof.
  intros v w (H1 & H2 & H3). repeat split; simpl; intros; unfold upd2; go.
Qed.

Definition sentField (d : notifyDest) (a : alarmCache) : gomap time :=
  match d with
  | pd => SentPdAlarms a
  | tg => SentTgAlarms a
  | di => SentDiAlarms a
  | slk => SentSlkAlarms a
  end.

Definition flightOf (a : alarmCache) (d : notifyDest) : gset string :=
  default ∅ (inFlight a ≫= (.!! d)).

Definition flapOf (a : alarmCache) (c : string) : gmap string time :=
  default ∅ (flappingAlarms a ≫= (.!! c)).

(** The abstraction function. *)
Definition view_of (a : alarmCache) : view :=
  MkView (fun d k => mtime (sentField d a) k)
         (fun d k => bool_decide (k ∈ flightOf a d))
         (fun c k => mtime (Some (flapOf a c)) k).

End AlarmSpec.

Import AlarmSpec.

(** ** Lemmas on the operations *)

Lemma mtime_default (m : gomap time) (k : string) : mtime (Some (default ∅ m)) k = mtime m k.
Proof. destruct m; done. Qed.

(** Allocating a destination's map changes nothing that can be observed. *)
Lemma sentMapLocked_spec (d : notifyDest) (a : alarmCache) :
  exists a', sentMapLocked d a = (default ∅ (sentField d a), a') /\
    (forall d', default ∅ (sentField d' a') = default ∅ (sentField d' a)) /\
    inFlight a' = inFlight a /\ flappingAlarms a' = flappingAlarms a /\
    AllAlarms a' = AllAlarms a.
Proof.
  destruct d; simpl; case_match eqn:E; eexists; split; try done; repeat split;
    intros []; simpl; by rewrite ?E.
Qed.

Lemma storeSent_spec (d : notifyDest) (m : gmap string time) (a : alarmCache) :
  (forall d', sentField d' (storeSent d m a) = if decide (d = d') then Some m else sentField d' a) /\
  inFlight (storeSent d m a) = inFlight a /\
  flappingAlarms (storeSent d m a) = flappingAlarms a /\
  AllAlarms (storeSent d m a) = AllAlarms a.
Proof. destruct d; repeat split; intros []; done. Qed.

Lemma view_of_equiv (a b : alarmCache) :
  (forall d, default ∅ (sentField d a) = default ∅ (sentField d b)) ->
  (forall d, flightOf a d = flightOf b d) ->
  (forall c, flapOf a c = flapOf b c) ->
  view_of a ≡ view_of b.
Proof.
  intros H1 H2 H3. repeat split; simpl; intros.
  - by rewrite <- mtime_default, H1, mtime_default.
  - by rewrite H2.
  - by rewrite H3.
Qed.

(** Preparing the bookkeeping of [inFlight] for a destination is invisible. *)
Lemma flight_prepare (fl : option (gmap notifyDest (gset string))) (d d' : notifyDest) :
  default ∅ (<[d := default ∅ (default ∅ fl !! d)]> (default ∅ fl) !! d') =
  default ∅ (fl ≫= (.!! d')).
Proof.
  rewrite lookup_insert. case_decide; subst; destruct fl; simpl; rewrite ?lookup_empty; done.
Qed.

Lemma flapOf_default (a : alarmCache) (c : string) :
  default ∅ (default ∅ (flappingAlarms a) !! c) = flapOf a c.
Proof. unfold flapOf. destruct (flappingAlarms a); simpl; by rewrite ?lookup_empty. Qed.

Lemma sent_flight_view (a a' : alarmCache) (d : notifyDest) :
  (forall d', default ∅ (sentField d' a') = default ∅ (sentField d' a)) ->
  inFlight a' = inFlight a -> flappingAlarms a' = flappingAlarms a ->
  view_of (a' <| inFlight := Some (<[d := default ∅ (default ∅ (inFlight a) !! d)]>
                                      (default ∅ (inFlight a))) |>) ≡ view_of a.
Proof.
  intros Hs Hf Hp. apply view_of_equiv; simpl.
  - intros d'. specialize (Hs d'). by destruct d'.
  - intros d'. unfold flightOf at 1. simpl. apply flight_prepare.
  - intros c. unfold flapOf. simpl. by rewrite Hp.
Qed.

Lemma flight_upd_view (a : alarmCache) (fl : gmap notifyDest (gset string)) (msg : alertMsg)
    (d : notifyDest) (s : gset string) :
  inFlight a = Some fl -> s = default ∅ (fl !! d) ->
  view_of (a <| inFlight := Some (<[d := {[message msg]} ∪ s]> fl) |>) ≡
  start msg d (view_of a).
Proof.
  intros Hfl ->. repeat split; simpl; try by intros [] ?.
  intros d' k. unfold upd2, flightOf. simpl. rewrite Hfl. simpl.
  rewrite lookup_insert.
  case_decide as Hd; [subst d' |].
  - case_decide as Hk; simpl.
    + apply bool_decide_eq_true. set_solver.
    + apply bool_decide_ext. set_solver.
  - rewrite decide_False by naive_solver. done.
Qed.

Lemma flap_alloc_view (a : alarmCache) :
  view_of (a <| flappingAlarms := Some (default ∅ (flappingAlarms a)) |>) ≡ view_of a.
Proof.
  apply view_of_equiv; [by intros [] | done |].
  intros c. unfold flapOf. simpl. by destruct (flappingAlarms a); simpl; rewrite ?lookup_empty.
Qed.

Lemma flap_test (now : time) (a : alarmCache) (c k : string) :
  0 <= now - flappingWindow ->
  match default ∅ (flappingAlarms a) !! c with
  | Some m => After (mtime (Some m) k) (Add now (- flappingWindow))
  | None => false
  end = After (mtime (Some (flapOf a c)) k) (Add now (- flappingWindow)).
Proof.
  intros Hnow. rewrite <- flapOf_default.
  destruct (_ !! c); simpl; [done |]. unfold After, Add, mtime, mget. simpl.
  rewrite lookup_empty. simpl. symmetry. apply Z.ltb_ge. lia.
Qed.

(** What [reserveDelivery] decides, and what it leaves behind, in terms of the
    abstract view. *)
Lemma reserve_view (now : time) (msg : alertMsg) (d : notifyDest) (a : alarmCache) :
  0 <= now - flappingWindow ->
  let '(ok, a') := reserveDelivery now msg d a in
  ok = may_start now msg d (view_of a) /\
  view_of a' ≡ (if ok then start msg d (view_of a) else view_of a) /\
  AllAlarms a' = AllAlarms a.
Proof.
  intros Hnow. unfold reserveDelivery.
  destruct (sentMapLocked_spec d a) as (a1 & -> & Hs & Hf & Hp & Ha).
  rewrite Hf. cbv zeta.
  pose proof (sent_flight_view a a1 d Hs Hf Hp) as Hv.
  set (fl := <[d := _]> _) in *.
  set (a2 := a1 <| inFlight := Some fl |>) in *.
  assert (flappingAlarms a2 = flappingAlarms a) as Hp2 by exact Hp.
  assert (AllAlarms a2 = AllAlarms a) as Ha2 by exact Ha.
  assert (inFlight a2 = Some fl) as Hf2 by done.
  clearbody a2. rewrite Hp2.
  assert (default ∅ (fl !! d) = flightOf a d) as Hr by apply flight_prepare.
  rewrite Hr, mtime_default, flap_test by done.
  unfold may_start, is_open, flapping; cbn [v_sent v_flight v_flap view_of].
  case_bool_decide as Hin; [by split_and! |]. cbn [negb andb].
  destruct (resolved msg) eqn:Hres, (IsZero _) eqn:Hz;
    cbn [andb negb]; rewrite ?andb_false_r, ?andb_true_r; cbn [andb negb];
    try by split_and!.
  - split; [done |]. split; [| by simpl].
    rewrite <- Hv, <- Hr. by apply flight_upd_view.
  - set (a3 := if is_pd d then _ else a2).
    assert (view_of a3 ≡ view_of a) as Hv3.
    { subst a3. rewrite <- Hv, <- Hp2. destruct (is_pd d); [apply flap_alloc_view | done]. }
    assert (AllAlarms a3 = AllAlarms a) as Ha3 by (subst a3; by destruct (is_pd d)).
    assert (inFlight a3 = Some fl) as Hf3 by (subst a3; by destruct (is_pd d)).
    clearbody a3.
    destruct (is_pd d && After _ _)%bool; simpl; [by split_and! |].
    split; [done |]. split; [| done].
    rewrite <- Hv3, <- Hr. by apply flight_upd_view.
Qed.

Lemma unflight_view (now : time) (msg : alertMsg) (d : notifyDest) (a : alarmCache) :
  view_of (a <| inFlight := alter (fun s => s ∖ {[message msg]}) d <$> inFlight a |>) ≡
  finish now msg d false (view_of a).
Proof.
  repeat split; simpl; try by intros [] ?.
  intros d' k. unfold upd2, flightOf. simpl. destruct (inFlight a) as [fl |]; simpl.
  - rewrite lookup_alter.
    case_decide as Hd; [subst d' |].
    + case_decide as Hk; destruct (fl !! d); simpl; try apply bool_decide_ext;
        try apply bool_decide_eq_false; set_solver.
    + by rewrite decide_False by naive_solver.
  - case_decide; [apply bool_decide_eq_false; set_solver | done].
Qed.

(** Writing one message of a destination's map. *)
Lemma store_view (a a' : alarmCache) (d : notifyDest) (k : string) (t : time) (m : gmap string time) :
  (forall d', default ∅ (sentField d' a') = default ∅ (sentField d' a)) ->
  inFlight a' = inFlight a -> flappingAlarms a' = flappingAlarms a ->
  (forall k', mtime (Some m) k' = if decide (k = k') then t else mtime (sentField d a) k') ->
  view_of (storeSent d m a') ≡
  MkView (upd2 (v_sent (view_of a)) d k t) (v_flight (view_of a)) (v_flap (view_of a)).
Proof.
  intros Hs Hf Hp Hm. destruct (storeSent_spec d m a') as (Hs' & Hf' & Hp' & _).
  repeat split; simpl; intros d' k'.
  - rewrite Hs'. unfold upd2. case_decide as Hd; [subst d' |].
    + rewrite Hm. case_decide as Hk; [by rewrite decide_True | by rewrite decide_False by naive_solver].
    + rewrite decide_False by naive_solver. by rewrite <- mtime_default, Hs, mtime_default.
  - unfold flightOf. by rewrite Hf', Hf.
  - unfold flapOf. by rewrite Hp', Hp.
Qed.

Lemma flap_upd_view (a : alarmCache) (msg : alertMsg) (now : time) :
  view_of (a <| flappingAlarms :=
    Some (<[chain msg := <[message msg := now]> (flapOf a (chain msg))]> (default ∅ (flappingAlarms a))) |>) ≡
  MkView (v_sent (view_of a)) (v_flight (view_of a))
         (upd2 (v_flap (view_of a)) (chain msg) (message msg) now).
Proof.
  repeat split; simpl; try by intros [] ?.
  intros c k. unfold upd2. unfold flapOf at 1. simpl. rewrite lookup_insert.
  case_decide as Hc; [subst c |]; simpl.
  - rewrite mtime_Some, lookup_insert. case_decide as Hk.
    + by rewrite decide_True.
    + by rewrite decide_False by naive_solver.
  - rewrite decide_False by naive_solver. by rewrite flapOf_default.
Qed.

(** What [completeDelivery] leaves behind. *)
Lemma complete_view (now : time) (msg : alertMsg) (d : notifyDest) (acc : bool) (a : alarmCache) :
  view_of (completeDelivery now msg d acc a) ≡ finish now msg d acc (view_of a) /\
  AllAlarms (completeDelivery now msg d acc a) = AllAlarms a.
Proof.
  unfold completeDelivery.
  pose proof (unflight_view now msg d a) as Hv.
  set (a1 := a <| inFlight := _ |>) in *.
  assert (AllAlarms a1 = AllAlarms a) as Ha1 by done. clearbody a1.
  destruct acc; cbn [negb]; [| done].
  destruct (sentMapLocked_spec d a1) as (a2 & -> & Hs & Hf & Hp & Ha).
  assert (forall t m, (forall k', mtime (Some m) k' =
            if decide (message msg = k') then t else mtime (sentField d a1) k') ->
          view_of (storeSent d m a2) ≡
          MkView (upd2 (v_sent (view_of a)) d (message msg) t)
                 (upd2 (v_flight (view_of a)) d (message msg) false) (v_flap (view_of a))) as Hstore.
  { intros t m Hm. rewrite (store_view a1 a2 d (message msg) t m Hs Hf Hp Hm).
    destruct Hv as (H1 & H2 & H3). repeat split; simpl; intros; [| apply H2 | apply H3].
    unfold upd2. case_decide; [done | apply H1]. }
  destruct (resolved msg) eqn:Hres.
  - split; [| by destruct (storeSent_spec d (delete (message msg) (default ∅ (sentField d a1))) a2)
                 as (_ & _ & _ & ->); rewrite Ha].
    rewrite (Hstore 0).
    + unfold finish. by rewrite Hres, andb_false_r.
    + intros k'. by rewrite <- (mtime_default (sentField d a1)), <- mtime_mdelete.
  - set (m := <[message msg := now]> (default ∅ (sentField d a1))).
    assert (view_of (storeSent d m a2) ≡ MkView (upd2 (v_sent (view_of a)) d (message msg) now)
       (upd2 (v_flight (view_of a)) d (message msg) false) (v_flap (view_of a))) as Hv3.
    { apply Hstore. intros k'. subst m. rewrite mtime_Some, lookup_insert.
      case_decide; [done |]. apply mtime_default. }
    assert (AllAlarms (storeSent d m a2) = AllAlarms a) as Ha3.
    { destruct (storeSent_spec d m a2) as (_ & _ & _ & ->). by rewrite Ha. }
    set (a3 := storeSent d m a2) in *. clearbody a3.
    unfold finish. rewrite Hres. destruct (is_pd d); cbn [negb andb]; [| done].
    split; [| done]. rewrite flapOf_default, flap_upd_view.
    destruct Hv3 as (H1 & H2 & H3). repeat split; simpl; intros; [apply H1 | apply H2 |].
    unfold upd2. case_decide; [done | apply H3].
Qed.

(** ** One destination at a time

    [local_eq d] relates two views that agree on everything a delivery to [d]
    reads or writes. *)

Definition local_eq (d : notifyDest) (v w : view) : Prop :=
  (forall k, v_sent v d k = v_sent w d k) /\
  (forall k, v_flight v d k = v_flight w d k) /\
  (d = pd -> forall c k, v_flap v c k = v_flap w c k).

#[export] Instance local_eq_Equivalence d : Equivalence (local_eq d).
Proof.
  split.
  - by intros v.
  - intros v w (H1 & H2 & H3). repeat split; intros; symmetry; auto.
  - intros u v w (H1 & H2 & H3) (? & ? & ?).
    repeat split; intros; rewrite ?H1, ?H2, ?H3; auto.
Qed.

#[export] Instance local_eq_subrelation d : subrelation (≡@{view}) (local_eq d).
Proof. intros v w (H1 & H2 & H3). by repeat split. Qed.

Lemma may_start_local (now : time) (msg : alertMsg) (d : notifyDest) (v w : view) :
  local_eq d v w -> may_start now msg d v = may_start now msg d w.
Proof.
  intros (H1 & H2 & H3). unfold may_start, is_open, flapping. rewrite H1, H2.
  destruct d; try done. by rewrite H3.
Qed.

Lemma start_local (msg : alertMsg) (d : notifyDest) (v w : view) :
  local_eq d v w -> local_eq d (start msg d v) (start msg d w).
Proof.
  intros (H1 & H2 & H3). repeat split; simpl; try done. intros. unfold upd2. by case_decide.
Qed.

Lemma finish_local (now : time) (msg : alertMsg) (d : notifyDest) (acc : bool) (v w : view) :
  local_eq d v w -> local_eq d (finish now msg d acc v) (finish now msg d acc w).
Proof.
  intros (H1 & H2 & H3). repeat split; simpl; intros; unfold upd2; go; by apply H3.
Qed.

(** Deliveries to other destinations do not interfere. *)
Lemma start_frame (msg : alertMsg) (d d' : notifyDest) (v : view) :
  d <> d' -> local_eq d (start msg d' v) v.
Proof.
  intros Hne. repeat split; simpl; try done. intros. unfold upd2. by rewrite decide_False by naive_solver.
Qed.

Lemma finish_frame (now : time) (msg : alertMsg) (d d' : notifyDest) (acc : bool) (v : view) :
  d <> d' -> local_eq d (finish now msg d' acc v) v.
Proof.
  intros Hne. repeat split; simpl; intros.
  - destruct acc; [| done]. unfold upd2. by rewrite decide_False by naive_solver.
  - unfold upd2. by rewrite decide_False by naive_solver.
  - destruct d'; simpl; rewrite ?andb_false_r; done.
Qed.

(** ** Workers sharing the cache

    Any number of goroutines reserve and complete deliveries and update the
    dashboard alarms, in any order; [w_active] are the deliveries between a
    successful reservation and its completion. *)

Record wstate := MkW { w_cache : alarmCache; w_active : list (notifyDest * alertMsg) }.

Inductive wstep : wstate -> wstate -> Prop :=
| ws_reserve now msg d a act a' :
    0 <= now - flappingWindow ->
    reserveDelivery now msg d a = (true, a') ->
    wstep (MkW a act) (MkW a' ((d, msg) :: act))
| ws_refuse now msg d a act a' :
    0 <= now - flappingWindow ->
    reserveDelivery now msg d a = (false, a') ->
    wstep (MkW a act) (MkW a' act)
| ws_complete now msg d accepted a act1 act2 :
    wstep (MkW a (act1 ++ (d, msg) :: act2))
          (MkW (completeDelivery now msg d accepted a) (act1 ++ act2))
| ws_record now c m r a act a' :
    recordDashboardAlarm now c m r a = Some a' ->
    wstep (MkW a act) (MkW a' act)
| ws_clear c a act : wstep (MkW a act) (MkW (clearNoBlocks c a) act).

Definition delivery_key (p : notifyDest * alertMsg) : notifyDest * string := (p.1, message p.2).

(** Reservations are exactly the deliveries in progress, each held once. *)
Definition flight_inv (w : wstate) : Prop :=
  NoDup (delivery_key <$> w_active w) /\
  forall d k, v_flight (view_of (w_cache w)) d k = true <-> (d, k) ∈ delivery_key <$> w_active w.

Lemma recordDashboardAlarm_view now c m r a a' :
  recordDashboardAlarm now c m r a = Some a' -> view_of a' ≡ view_of a.
Proof.
  unfold recordDashboardAlarm. intros H. apply bind_Some in H as (all & _ & H).
  apply bind_Some in H as (inner & _ & H). simplify_eq/=.
  apply view_of_equiv; by try intros [].
Qed.

Lemma clearNoBlocks_view c a : view_of (clearNoBlocks c a) ≡ view_of a.
Proof.
  unfold clearNoBlocks. destruct (minner _ _); [| done].
  apply view_of_equiv; by try intros [].
Qed.

Lemma wstep_flight_inv (w w' : wstate) : wstep w w' -> flight_inv w -> flight_inv w'.
Proof.
  unfold flight_inv.
  intros Hstep [Hnd Hfl]. destruct Hstep as [now msg d a act a' Hnow Hr | now msg d a act a' Hnow Hr
    | now msg d acc a act1 act2 | now c m r a act a' Hr | c a act]; cbn [w_cache w_active] in *.
  - pose proof (reserve_view now msg d a Hnow) as H. rewrite Hr in H. destruct H as (Hok & (_ & Hv & _) & _).
    symmetry in Hok. unfold may_start in Hok. breflect.
    rewrite fmap_cons. split.
    + constructor; [| done]. intros Hin. apply (Hfl d (message msg)) in Hin. congruence.
    + intros d' k. rewrite Hv, elem_of_cons, <- Hfl. cbn [start v_flight].
      unfold upd2, delivery_key; simpl. case_decide; naive_solver.
  - pose proof (reserve_view now msg d a Hnow) as H. rewrite Hr in H. destruct H as (_ & (_ & Hv & _) & _).
    split; [done |]. intros. by rewrite Hv.
  - destruct (complete_view now msg d acc a) as [(_ & Hv & _) _].
    rewrite fmap_app in *. rewrite fmap_cons in *.
    apply NoDup_app in Hnd as (Hn1 & Hd & [Hd' Hn2]%NoDup_cons). split.
    + apply NoDup_app. split_and!; [done | | done]. intros x Hx Hx2. apply (Hd _ Hx). by right.
    + intros d' k. rewrite Hv. cbn [finish v_flight]. unfold upd2.
      case_decide as Hk.
      * destruct Hk as [<- <-]. split; [done |]. intros Hin.
        exfalso. apply elem_of_app in Hin as [Hin | Hin]; [| done].
        apply (Hd _ Hin). by left.
      * rewrite Hfl, !elem_of_app, elem_of_cons. unfold delivery_key at 2; simpl. naive_solver.
  - destruct (recordDashboardAlarm_view _ _ _ _ _ _ Hr) as (_ & Hv & _).
    split; [done |]. intros. by rewrite Hv.
  - destruct (clearNoBlocks_view c a) as (_ & Hv & _).
    split; [done |]. intros. by rewrite Hv.
Qed.

Lemma wstep_reachable_inv (w : wstate) :
  rtc wstep (MkW newAlarmCache []) w -> flight_inv w.
Proof.
  intros Hr. apply (rtc_invariant _ _ wstep_flight_inv _ _ Hr).
  split; [constructor |]. intros d k. simpl. split; [| set_solver].
  intros H%bool_decide_eq_true. unfold flightOf in H. simpl in H. set_solver.
Qed.

(** ** Dashboard alarms *)

(** What the dashboard shows as active for a chain. *)
Definition dashboard (a : alarmCache) (c : string) : gmap string time :=
  default ∅ (minner (AllAlarms a) c).

(** [AllAlarms] itself is never nil after start-up. *)
Definition cache_ok (a : alarmCache) : Prop := is_Some (AllAlarms a).

Lemma dashboard_insert (a : alarmCache) (all : gmap string (gomap time)) (c c' : string)
    (m : gmap string time) :
  dashboard (a <| AllAlarms := Some (<[c := Some m]> all) |>) c' =
  if decide (c = c') then m else default ∅ (minner (Some all) c').
Proof.
  unfold dashboard, minner, mget. simpl. rewrite lookup_insert. by case_decide.
Qed.

Lemma record_dashboard (now : time) (c k : string) (r : bool) (a : alarmCache) :
  cache_ok a ->
  exists a', recordDashboardAlarm now c k r a = Some a' /\ cache_ok a' /\
    dashboard a' c = (if r then delete k (dashboard a c) else <[k := now]> (dashboard a c)) /\
    (forall c', c <> c' -> dashboard a' c' = dashboard a c').
Proof.
  intros [all Hall]. unfold recordDashboardAlarm. rewrite Hall.
  assert (dashboard a c = default ∅ (minner (Some all) c)) as Hd by (unfold dashboard; by rewrite Hall).
  assert (forall all' m, minner (Some all') c = Some m ->
            m = dashboard a c -> (forall c', c <> c' -> minner (Some all') c' = minner (Some all) c') ->
            exists a', (inner ← minner (Some all') c;
              Some (a <| AllAlarms := Some (<[c := Some (if r then delete k inner
                                                         else <[k := now]> inner)]> all') |>)) = Some a' /\
              cache_ok a' /\
              dashboard a' c = (if r then delete k (dashboard a c) else <[k := now]> (dashboard a c)) /\
              (forall c', c <> c' -> dashboard a' c' = dashboard a c')) as Hgen.
  { intros all' m Hm -> Hne. rewrite Hm. eexists. split; [reflexivity |]. split; [by eexists |].
    split.
    - by rewrite dashboard_insert, decide_True.
    - intros c' Hc. rewrite dashboard_insert, decide_False by done.
      unfold dashboard. by rewrite Hall, Hne. }
  destruct (minner (Some all) c) as [m |] eqn:Hm; simpl.
  - by apply (Hgen all m).
  - apply (Hgen _ ∅); [| done |].
    + unfold minner, mget. simpl. by rewrite lookup_insert_eq.
    + intros c' Hne. unfold minner, mget. simpl. by rewrite lookup_insert_ne.
Qed.

Lemma clear_dashboard (c c' : string) (a : alarmCache) :
  dashboard (clearNoBlocks c a) c' =
  if decide (c = c') then filter (fun kv => HasPrefix kv.1 stalledPrefix = false) (dashboard a c)
  else dashboard a c'.
Proof.
  unfold clearNoBlocks, dashboard. destruct (minner (AllAlarms a) c) as [m |] eqn:Hm; simpl.
  - destruct (AllAlarms a) as [all |]; simpl; [| done].
    unfold minner, mget. simpl. rewrite lookup_insert. by case_decide.
  - case_decide; subst; rewrite ?Hm; [by rewrite map_filter_empty | done].
Qed.

Lemma getCount_dashboard (c : string) (a : alarmCache) :
  getCount c a = Z.of_nat (size (dashboard a c)).
Proof. unfold getCount, dashboard, mlen. by destruct (minner _ _); simpl; rewrite ?map_size_empty. Qed.

(** ** Properties *)

(** C3: refinement.  Under a clock past the flapping window, [reserveDelivery]
    and [completeDelivery], with their lazily allocated maps, implement the
    abstract machine of [AlarmSpec]: a reservation is granted exactly when
    nobody is delivering the message to that destination and a resolution finds
    it open, a trigger finds it closed and (PagerDuty only) not flapping; a
    granted reservation and a completion have exactly the abstract effect, a
    refused reservation none. *)
Theorem alarmCache_refines_spec (now : time) (msg : alertMsg) (d : notifyDest) (a : alarmCache) :
  0 <= now - flappingWindow ->
  (reserveDelivery now msg d a).1 = may_start now msg d (view_of a) /\
  view_of (reserveDelivery now msg d a).2 ≡
    (if may_start now msg d (view_of a) then start msg d (view_of a) else view_of a) /\
  forall accepted,
    view_of (completeDelivery now msg d accepted a) ≡ finish now msg d accepted (view_of a).
Proof.
  intros Hnow. pose proof (reserve_view now msg d a Hnow) as H.
  destruct (reserveDelivery now msg d a) as [ok a'] eqn:E. destruct H as (Hok & Hv & _).
  simpl. rewrite <- Hok. split_and!; [done | done |].
  intros acc. apply complete_view.
Qed.

(** C6: safety.  However the goroutines that share the cache interleave
    (reservations, refusals, completions, dashboard updates, stalled-alarm
    clearing), at most one delivery of a message to a destination is between
    reservation and completion, and the in-flight sets are exactly those
    deliveries: no reservation is leaked, none is lost. *)
Theorem inFlight_exclusive (w : wstate) :
  rtc wstep (MkW newAlarmCache []) w ->
  NoDup (delivery_key <$> w_active w) /\
  forall d k, k ∈ flightOf (w_cache w) d <-> exists msg, (d, msg) ∈ w_active w /\ message msg = k.
Proof.
  intros H. destruct (wstep_reachable_inv w H) as [Hnd Hfl]. split; [done |].
  intros d k. specialize (Hfl d k). simpl in Hfl. rewrite bool_decide_eq_true in Hfl.
  rewrite Hfl, list_elem_of_fmap. unfold delivery_key. split.
  - intros ([d' msg] & Heq & Hin). simplify_eq/=. eauto.
  - intros (msg & Hin & <-). by exists (d, msg).
Qed.

(** Functional.  From a cache whose [AllAlarms] is allocated,
    [recordDashboardAlarm] never panics, adds (or, resolved, removes) exactly
    that message on exactly that chain, and [getCount] is the number of alarms
    shown for the chain; [clearNoBlocks] removes exactly the stalled-chain
    alarms of that chain. *)
Theorem dashboard_alarms_spec (now : time) (c k : string) (r : bool) (a : alarmCache) :
  cache_ok a ->
  (exists a', recordDashboardAlarm now c k r a = Some a' /\ cache_ok a' /\
    (forall c' k', dashboard a' c' !! k' =
       if decide (c = c' /\ k = k') then (if r then None else Some now) else dashboard a c' !! k') /\
    getCount c a' = Z.of_nat (size (dashboard a' c))) /\
  (forall c' k', dashboard (clearNoBlocks c a) c' !! k' =
     if decide (c = c' /\ HasPrefix k' stalledPrefix = true) then None else dashboard a c' !! k').
Proof.
  intros Hok. split.
  - destruct (record_dashboard now c k r a Hok) as (a' & E & Hok' & Hc & Hne).
    exists a'. split_and!; [done | done | | apply getCount_dashboard].
    intros c' k'. destruct (decide (c = c')) as [<- | Hcc].
    + rewrite Hc. destruct r; rewrite ?lookup_delete, ?lookup_insert; repeat case_decide; naive_solver.
    + rewrite Hne by done. by rewrite decide_False by naive_solver.
  - intros c' k'. rewrite clear_dashboard. destruct (decide (c = c')) as [<- |].
    + rewrite map_lookup_filter. case_decide as Hp.
      * destruct Hp as [_ Hp]. destruct (dashboard a c !! k'); [| done]. simpl.
        rewrite option_guard_False; [done | simpl; congruence].
      * destruct (dashboard a c !! k') eqn:E; [| done]. simpl.
        rewrite option_guard_True; [done |]. simpl.
        destruct (HasPrefix k' stalledPrefix) eqn:E'; naive_solver.
    + by rewrite decide_False by naive_solver.
Qed.

(** ** Witnesses *)

Definition sampleMsg : alertMsg :=
  MkAlertMsg true true true true "critical" false "Osmosis"
    "NosNode has missed 5 blocks on osmosis-1" "osmovalcons1xyzconsecutive" "routing-key"
    "@channel" "bot-token" "" "https://discord/hook" "" "https://slack/hook" "".

Lemma alarmCache_refines_spec_witness :
  0 <= unix_epoch - flappingWindow /\
  (reserveDelivery unix_epoch sampleMsg pd newAlarmCache).1 = true /\
  view_of (completeDelivery unix_epoch sampleMsg pd true newAlarmCache) ≡
    finish unix_epoch sampleMsg pd true (view_of newAlarmCache).
Proof.
  assert (0 <= unix_epoch - flappingWindow) as H by by vm_compute.
  destruct (alarmCache_refines_spec unix_epoch sampleMsg pd newAlarmCache H) as (H1 & _ & H3).
  split_and!; [exact H | rewrite H1; by vm_compute | apply H3].
Defined.

Lemma inFlight_exclusive_witness :
  let w := MkW (reserveDelivery unix_epoch sampleMsg pd newAlarmCache).2 [(pd, sampleMsg)] in
  rtc wstep (MkW newAlarmCache []) w /\ message sampleMsg ∈ flightOf (w_cache w) pd.
Proof.
  intros w.
  assert (rtc wstep (MkW newAlarmCache []) w) as Hr.
  { apply rtc_once, (ws_reserve unix_epoch); [by vm_compute | by vm_compute]. }
  split; [exact Hr |]. destruct (inFlight_exclusive w Hr) as [_ H].
  apply H. exists sampleMsg. split; [left | reflexivity].
Defined.

Lemma dashboard_alarms_spec_witness :
  cache_ok newAlarmCache /\
  exists a', recordDashboardAlarm unix_epoch "Osmosis" "m" false newAlarmCache = Some a' /\
    getCount "Osmosis" a' = 1.
Proof.
  assert (cache_ok newAlarmCache) as Hok by by eexists.
  split; [exact Hok |].
  destruct (dashboard_alarms_spec unix_epoch "Osmosis" "m" false newAlarmCache Hok)
    as ((a' & E & _ & _ & Hc) & _).
  exists a'. split; [exact E |]. vm_compute in E. injection E as <-. by vm_compute.
Defined.
