(* ===== verification/Delivery.v ===== *)
(** * Notification delivery (alert.go, run.go)

    The four senders, with the error types they return and the outcomes they
    report, and [deliverAlert], which runs them concurrently for one alert.
    What the network answers is an argument ([httpEnv], [tgEnv], [pdEnv]); the
    clock is read once when a delivery is reserved and once when it completes. *)

From S2P Require Import Prelude Types AlarmCache.
Import AlarmSpec.

Local Open Scope Z_scope.

(** ** Errors and outcomes *)

(** An error of a client library: [APIErr] is the type the library uses for an
    answer of the remote API ([*tgbotapi.Error], [pagerduty.APIError]). *)
Inductive rawError := APIErr (e : string) | OtherErr (e : string).

Inductive notifyError :=
  | NotificationTransportError (Destination : string) (cause : rawError)
  | NotificationAPIError (Destination : string) (cause : rawError)
  | NotificationHTTPError (Destination : string) (StatusCode : Z).

Definition Error (e : notifyError) : string :=
  match e with
  | NotificationTransportError d _ => d +:+ " notification transport failed"
  | NotificationAPIError d _ => d +:+ " notification rejected by remote API"
  | NotificationHTTPError d c => d +:+ " notification rejected with HTTP status " +:+ pretty c
  end.

Definition notificationAttemptTimeout : duration := 5 * Second.
Definition notificationQueueCapacity : Z := 64.
Definition pagerDutyMaxAttempts : nat := 2.
Definition pagerDutyRetryDelay : duration := 250 * Millisecond.
Definition deliveryAccepted : string := "accepted".
Definition deliveryRejected : string := "rejected".
Definition deliveryTransportError : string := "transport_error".

(** The outcome label of a failed attempt. *)
Definition error_outcome (e : notifyError) : string :=
  match e with
  | NotificationHTTPError _ _ | NotificationAPIError _ _ => deliveryRejected
  | NotificationTransportError _ _ => deliveryTransportError
  end.

Definition observeError (destination : string) (e : notifyError) : list (string * string) :=
  [(destination, error_outcome e)].

Definition observeAccepted (destination : string) : list (string * string) :=
  [(destination, deliveryAccepted)].

Definition classifyTelegramError (e : rawError) : notifyError :=
  match e with
  | APIErr _ => NotificationAPIError "telegram" e
  | OtherErr _ => NotificationTransportError "telegram" e
  end.

Definition classifyPagerDutyError (e : rawError) : notifyError :=
  match e with
  | APIErr _ => NotificationAPIError "pagerduty" e
  | OtherErr _ => NotificationTransportError "pagerduty" e
  end.

(** ** Messages *)

Record Attachment := MkAttachment {
  at_Text : string; at_Color : string; at_Title : string; at_TitleLink : string }.

Record SlackMessage := MkSlackMessage { sm_Text : string; sm_Attachments : list Attachment }.

Definition buildSlackMessage (msg : alertMsg) : SlackMessage :=
  let prefix := if resolved msg then "💜 Resolved: " else "🚨 ALERT: " in
  let color := if resolved msg then "good" else "danger" in
  let text := if resolved msg then "OK: " +:+ message msg else message msg in
  MkSlackMessage text
    [MkAttachment "" color
       (BrandName +:+ " " +:+ prefix +:+ " " +:+ chain msg +:+ " " +:+ slkMentions msg) ""].

Record DiscordEmbed := MkDiscordEmbed {
  de_Title : string; de_Url : string; de_Description : string; de_Color : Z }.

Record DiscordMessage := MkDiscordMessage {
  dm_Username : string; dm_AvatarUrl : string; dm_Content : string; dm_Embeds : list DiscordEmbed }.

Definition buildDiscordMessage (msg : alertMsg) : DiscordMessage :=
  let prefix := if resolved msg then "💜 Resolved: " else "🚨 ALERT: " in
  MkDiscordMessage BrandName "" (prefix +:+ chain msg) [MkDiscordEmbed "" "" (message msg) 0].

Definition buildTelegramText (msg : alertMsg) : string :=
  let prefix := if resolved msg then "💜 Resolved: " else "🚨 ALERT: " in
  BrandName +:+ " " +:+ chain msg +:+ ": " +:+ prefix +:+ " - " +:+ message msg.

(** [pagerduty.V2Event] with the fields the program sets. *)
Record V2Event := MkV2Event {
  RoutingKey : string; Action : string; DedupKey : string;
  Summary : string; Source : string; pd_Severity : string }.

Definition buildPagerDutyEvent (msg : alertMsg) : V2Event :=
  MkV2Event (key msg) (if resolved msg then "resolve" else "trigger") (uniqueId msg)
    (BrandName +:+ ": " +:+ message msg) (uniqueId msg) (severity msg).

(** A request that reached the network. *)
Inductive request :=
  | SlackRequest (hook : string) (body : SlackMessage)
  | DiscordRequest (hook : string) (body : DiscordMessage)
  | TelegramGetMe (token : string)      (** made by the library when the bot is created *)
  | TelegramRequest (token channel text : string)
  | PagerDutyRequest (event : V2Event).

(** ** The senders *)

(** What happens to one HTTP attempt: encoding the body, building the request,
    and the transport's error or the response status. *)
Record httpEnv := MkHttpEnv {
  env_marshal : option string;
  env_request : option string;
  env_do : string + Z;
}.

(** Creating the Telegram bot and sending the message. *)
Record tgEnv := MkTgEnv { env_bot : option rawError; env_send : option rawError }.

(** The answer to each PagerDuty attempt, numbered from 1. *)
Definition pdEnv : Type := nat -> option rawError.

Record delivery := MkDelivery {
  d_err : option notifyError;
  d_observed : list (string * string);
  d_requests : list request;
  d_slept : duration;
  d_cache : alarmCache;
}.

(** A delivery that was suppressed before any attempt. *)
Definition suppressed (a : alarmCache) : delivery := MkDelivery None [] [] 0 a.

(** Slack's and Discord's attempt after the reservation: they differ in the
    destination label, the accepted status and the body. *)
Definition http_attempt (name : string) (okStatus : Z) (req : request) (env : httpEnv)
  : option notifyError * list (string * string) * list request * bool :=
  match env_marshal env with
  | Some e =>
      let err := NotificationTransportError name (OtherErr e) in
      (Some err, observeError name err, [], false)
  | None =>
      match env_request env with
      | Some e =>
          let err := NotificationTransportError name (OtherErr e) in
          (Some err, observeError name err, [], false)
      | None =>
          match env_do env with
          | inl e =>
              let err := NotificationTransportError name (OtherErr e) in
              (Some err, observeError name err, [req], false)
          | inr status =>
              if negb (status =? okStatus) then
                let err := NotificationHTTPError name status in
                (Some err, observeError name err, [req], false)
              else (None, observeAccepted name, [req], true)
          end
      end
  end.

(** [http.StatusOK], [http.StatusNoContent]. *)
Definition StatusOK : Z := 200.
Definition StatusNoContent : Z := 204.

Definition notifySlack (t0 t1 : time) (env : httpEnv) (msg : alertMsg) (a : alarmCache) : delivery :=
  if negb (am_slk msg) then suppressed a
  else
    let '(ok, a) := reserveDelivery t0 msg slk a in
    if negb ok then suppressed a
    else
      let '(err, obs, reqs, accepted) :=
        http_attempt "slack" StatusOK (SlackRequest (slkHook msg) (buildSlackMessage msg)) env in
      MkDelivery err obs reqs 0 (completeDelivery t1 msg slk accepted a).

Definition notifyDiscord (t0 t1 : time) (env : httpEnv) (msg : alertMsg) (a : alarmCache) : delivery :=
  if negb (am_disc msg) then suppressed a
  else
    let '(ok, a) := reserveDelivery t0 msg di a in
    if negb ok then suppressed a
    else
      let '(err, obs, reqs, accepted) :=
        http_attempt "discord" StatusNoContent
          (DiscordRequest (discHook msg) (buildDiscordMessage msg)) env in
      MkDelivery err obs reqs 0 (completeDelivery t1 msg di accepted a).

Definition telegram_attempt (msg : alertMsg) (env : tgEnv)
  : option notifyError * list (string * string) * list request * bool :=
  let getMe := TelegramGetMe (tgKey msg) in
  match env_bot env with
  | Some e =>
      let err := classifyTelegramError e in (Some err, observeError "telegram" err, [getMe], false)
  | None =>
      let req := TelegramRequest (tgKey msg) (tgChannel msg) (buildTelegramText msg) in
      match env_send env with
      | Some e =>
          let err := classifyTelegramError e in (Some err, observeError "telegram" err, [getMe; req], false)
      | None => (None, observeAccepted "telegram", [getMe; req], true)
      end
  end.

Definition notifyTelegram (t0 t1 : time) (env : tgEnv) (msg : alertMsg) (a : alarmCache) : delivery :=
  if negb (am_tg msg) then suppressed a
  else
    let '(ok, a) := reserveDelivery t0 msg tg a in
    if negb ok then suppressed a
    else
      let '(err, obs, reqs, accepted) := telegram_attempt msg env in
      MkDelivery err obs reqs 0 (completeDelivery t1 msg tg accepted a).

(** The key of the example configuration, for which no request is made. *)
Definition exampleKey : string := "aaaaaaaaaaaabbbbbbbbbbbbbcccccccccccc".

(** The retry loop: [left] attempts remain, of which the next is [attempt]. *)
Fixpoint pagerDuty_loop (left attempt : nat) (lastErr : option notifyError) (msg : alertMsg)
    (env : pdEnv) : option notifyError * list (string * string) * list request * duration * bool :=
  match left with
  | O => (lastErr, [], [], 0, false)
  | S left' =>
      let req := PagerDutyRequest (buildPagerDutyEvent msg) in
      match env attempt with
      | None => (None, observeAccepted "pagerduty", [req], 0, true)
      | Some sendErr =>
          let err := classifyPagerDutyError sendErr in
          let obs := observeError "pagerduty" err in
          let slept := if (attempt <? pagerDutyMaxAttempts)%nat then pagerDutyRetryDelay else 0 in
          let '(e, o, r, d, accepted) := pagerDuty_loop left' (S attempt) (Some err) msg env in
          (e, obs ++ o, req :: r, slept + d, accepted)
      end
  end.

Definition notifyPagerDuty (t0 t1 : time) (env : pdEnv) (msg : alertMsg) (a : alarmCache) : delivery :=
  if negb (am_pd msg) then suppressed a
  else if String.eqb (key msg) exampleKey then suppressed a
  else
    let '(ok, a) := reserveDelivery t0 msg pd a in
    if negb ok then suppressed a
    else
      let '(err, obs, reqs, slept, accepted) := pagerDuty_loop pagerDutyMaxAttempts 1 None msg env in
      MkDelivery err obs reqs slept (completeDelivery t1 msg pd accepted a).

(** ** One alert to all destinations (run.go) *)

(** What the network and the clock answer during one alert's fan-out. *)
Record alertEnv := MkAlertEnv {
  ae_start : notifyDest -> time;
  ae_end : notifyDest -> time;
  ae_slack : httpEnv;
  ae_discord : httpEnv;
  ae_telegram : tgEnv;
  ae_pagerduty : pdEnv;
}.

Definition notify (d : notifyDest) (env : alertEnv) (msg : alertMsg) (a : alarmCache) : delivery :=
  match d with
  | pd => notifyPagerDuty (ae_start env pd) (ae_end env pd) (ae_pagerduty env) msg a
  | di => notifyDiscord (ae_start env di) (ae_end env di) (ae_discord env) msg a
  | tg => notifyTelegram (ae_start env tg) (ae_end env tg) (ae_telegram env) msg a
  | slk => notifySlack (ae_start env slk) (ae_end env slk) (ae_slack env) msg a
  end.

(** The four goroutines, run one after the other in the order they are spawned:
    what each did, and the cache they leave. *)
Definition deliverAlert (env : alertEnv) (msg : alertMsg) (a : alarmCache)
  : (notifyDest -> delivery) * alarmCache :=
  let r1 := notify pd env msg a in
  let r2 := notify di env msg (d_cache r1) in
  let r3 := notify tg env msg (d_cache r2) in
  let r4 := notify slk env msg (d_cache r3) in
  (fun d => match d with pd => r1 | di => r2 | tg => r3 | slk => r4 end, d_cache r4).

(** An attempt was accepted. *)
Definition accepted_delivery (r : delivery) : bool :=
  existsb (fun o => String.eqb o.2 deliveryAccepted) (d_observed r).

(** The single notification worker drains the queue alert by alert. *)
Fixpoint notificationWorker (h : list (alertEnv * alertMsg)) (a : alarmCache) : alarmCache :=
  match h with
  | [] => a
  | (env, msg) :: h' => notificationWorker h' (deliverAlert env msg a).2
  end.

(** The alerts destination [d] accepted, in order. *)
Fixpoint accepted_log (d : notifyDest) (h : list (alertEnv * alertMsg)) (a : alarmCache) : list alertMsg :=
  match h with
  | [] => []
  | (env, msg) :: h' =>
      let '(rs, a') := deliverAlert env msg a in
      (if accepted_delivery (rs d) then [msg] else []) ++ accepted_log d h' a'
  end.

(** A sequence of resolved flags alternates: the next is [expect]. *)
Fixpoint alternating (expect : bool) (l : list bool) : Prop :=
  match l with
  | [] => True
  | b :: l' => b = expect /\ alternating (negb expect) l'
  end.

(** ** The goroutines of [deliverAlert]

    Each of the four goroutines takes two atomic steps on the cache, its
    reservation and its completion, with the network attempt between them; a
    schedule says whose step is next. *)

Definition enabled (d : notifyDest) (msg : alertMsg) : bool :=
  match d with
  | pd => am_pd msg && negb (String.eqb (key msg) exampleKey)
  | di => am_disc msg
  | tg => am_tg msg
  | slk => am_slk msg
  end.

(** Whether the destination accepts the attempt that follows a reservation. *)
Definition accepts (d : notifyDest) (env : alertEnv) (msg : alertMsg) : bool :=
  match d with
  | pd => (pagerDuty_loop pagerDutyMaxAttempts 1 None msg (ae_pagerduty env)).2
  | di => (http_attempt "discord" StatusNoContent
             (DiscordRequest (discHook msg) (buildDiscordMessage msg)) (ae_discord env)).2
  | tg => (telegram_attempt msg (ae_telegram env)).2
  | slk => (http_attempt "slack" StatusOK
              (SlackRequest (slkHook msg) (buildSlackMessage msg)) (ae_slack env)).2
  end.

(** ** What a destination answers

    The services' documented answers, read off the network alone: Slack accepts
    with status 200, Discord with 204, Telegram if it knows the bot and takes
    the message, PagerDuty if it takes one of at most two attempts. *)

Definition answered (code : Z) (env : httpEnv) : bool :=
  match env_marshal env, env_request env, env_do env with
  | None, None, inr status => status =? code
  | _, _, _ => false
  end.

Definition network_accepts (d : notifyDest) (env : alertEnv) : bool :=
  match d with
  | slk => answered 200 (ae_slack env)
  | di => answered 204 (ae_discord env)
  | tg => match env_bot (ae_telegram env), env_send (ae_telegram env) with None, None => true | _, _ => false end
  | pd => existsb (fun n => match ae_pagerduty env n with None => true | Some _ => false end) [1%nat; 2%nat]
  end.

(** The alerts of a history that were sent to [d] and that [d] accepted. *)
Fixpoint network_log (d : notifyDest) (h : list (alertEnv * alertMsg)) (a : alarmCache) : list alertMsg :=
  match h with
  | [] => []
  | (env, msg) :: h' =>
      (if enabled d msg && may_start (ae_start env d) msg d (view_of a) && network_accepts d env then [msg] else []) ++
      network_log d h' (deliverAlert env msg a).2
  end.

Inductive phase := Ready | Sending | Finished.

Definition thread_step (env : alertEnv) (msg : alertMsg) (st : (notifyDest -> phase) * alarmCache)
    (d : notifyDest) : (notifyDest -> phase) * alarmCache :=
  let '(ph, a) := st in
  let set p := fun d' => if decide (d = d') then p else ph d' in
  match ph d with
  | Ready =>
      if enabled d msg then
        let '(ok, a') := reserveDelivery (ae_start env d) msg d a in
        (set (if ok then Sending else Finished), a')
      else (set Finished, a)
  | Sending => (set Finished, completeDelivery (ae_end env d) msg d (accepts d env msg) a)
  | Finished => (ph, a)
  end.

Definition run_schedule (env : alertEnv) (msg : alertMsg) (sched : list notifyDest) (a : alarmCache)
  : (notifyDest -> phase) * alarmCache :=
  foldl (thread_step env msg) (fun _ => Ready, a) sched.

(** ** Lemmas *)

Lemma notify_cache (d : notifyDest) (env : alertEnv) (msg : alertMsg) (a : alarmCache) :
  d_cache (notify d env msg a) =
  if enabled d msg then
    let '(ok, a') := reserveDelivery (ae_start env d) msg d a in
    if ok then completeDelivery (ae_end env d) msg d (accepts d env msg) a' else a'
  else a.
Proof.
  destruct d; cbn [notify enabled accepts];
    unfold notifyPagerDuty, notifyDiscord, notifyTelegram, notifySlack.
  - destruct (am_pd msg); cbn [negb andb]; [| done]. destruct (String.eqb _ _); cbn [negb]; [done |].
    destruct (reserveDelivery _ _ _ _) as [[] a']; cbn [negb]; [| done].
    by destruct (pagerDuty_loop _ _ _ _ _) as [[[[? ?] ?] ?] ?].
  - destruct (am_tg msg); cbn [negb]; [| done].
    destruct (reserveDelivery _ _ _ _) as [[] a']; cbn [negb]; [| done].
    by destruct (telegram_attempt _ _) as [[[? ?] ?] ?].
  - destruct (am_disc msg); cbn [negb]; [| done].
    destruct (reserveDelivery _ _ _ _) as [[] a']; cbn [negb]; [| done].
    by destruct (http_attempt _ _ _ _) as [[[? ?] ?] ?].
  - destruct (am_slk msg); cbn [negb]; [| done].
    destruct (reserveDelivery _ _ _ _) as [[] a']; cbn [negb]; [| done].
    by destruct (http_attempt _ _ _ _) as [[[? ?] ?] ?].
Qed.

(** *** Deliveries do not touch the dashboard alarms *)

Lemma reserve_frame now msg d a x :
  reserveDelivery now msg d (a <| AllAlarms := x |>) =
  ((reserveDelivery now msg d a).1, (reserveDelivery now msg d a).2 <| AllAlarms := x |>).
Proof.
  destruct a as [p t i k al f fl]. destruct d; unfold reserveDelivery; simpl.
  - destruct p; simpl; repeat case_match; done.
  - destruct t; simpl; repeat case_match; done.
  - destruct i; simpl; repeat case_match; done.
  - destruct k; simpl; repeat case_match; done.
Qed.

Lemma complete_frame now msg d acc a x :
  completeDelivery now msg d acc (a <| AllAlarms := x |>) = completeDelivery now msg d acc a <| AllAlarms := x |>.
Proof.
  destruct a as [p t i k al f fl]. destruct acc; [| done]. unfold completeDelivery.
  destruct d; [destruct p | destruct t | destruct i | destruct k]; simpl; destruct (resolved msg); done.
Qed.

Lemma notify_all_frame d env msg a x :
  d_cache (notify d env msg (a <| AllAlarms := x |>)) = d_cache (notify d env msg a) <| AllAlarms := x |>.
Proof.
  rewrite !notify_cache. destruct (enabled d msg); [| done]. rewrite reserve_frame.
  destruct (reserveDelivery _ _ _ _) as [[] a']; cbn [fst snd]; [apply complete_frame | done].
Qed.

Lemma deliverAlert_frame env msg a x :
  (deliverAlert env msg (a <| AllAlarms := x |>)).2 = (deliverAlert env msg a).2 <| AllAlarms := x |>.
Proof. unfold deliverAlert. cbn [snd]. by rewrite !notify_all_frame. Qed.

Lemma deliverAlert_all env msg a : AllAlarms (deliverAlert env msg a).2 = AllAlarms a.
Proof.
  assert (a = a <| AllAlarms := AllAlarms a |>) as E by by destruct a.
  rewrite E at 1. by rewrite deliverAlert_frame.
Qed.

(** The abstract effect of a whole delivery to [d]. *)
Definition deliver_view (env : alertEnv) (msg : alertMsg) (d : notifyDest) (v : view) : view :=
  if enabled d msg && may_start (ae_start env d) msg d v
  then finish (ae_end env d) msg d (accepts d env msg) (start msg d v) else v.

Definition clock_ok (env : alertEnv) : Prop := forall d, 0 <= ae_start env d - flappingWindow.

Lemma notify_view (d : notifyDest) (env : alertEnv) (msg : alertMsg) (a : alarmCache) :
  clock_ok env -> view_of (d_cache (notify d env msg a)) ≡ deliver_view env msg d (view_of a).
Proof.
  intros Hclk. rewrite notify_cache. unfold deliver_view. destruct (enabled d msg); [| done]. simpl.
  pose proof (reserve_view (ae_start env d) msg d a (Hclk d)) as H.
  destruct (reserveDelivery _ _ _ _) as [ok a']. destruct H as (<- & Hv & _).
  destruct ok; [| done]. destruct (complete_view (ae_end env d) msg d (accepts d env msg) a') as [-> _].
  by rewrite Hv.
Qed.

Lemma deliver_view_local (env : alertEnv) (msg : alertMsg) (d : notifyDest) (v w : view) :
  local_eq d v w -> local_eq d (deliver_view env msg d v) (deliver_view env msg d w).
Proof.
  intros H. unfold deliver_view. rewrite (may_start_local _ _ _ _ _ H).
  destruct (_ && _)%bool; [| done]. by apply finish_local, start_local.
Qed.

Lemma deliver_view_frame (env : alertEnv) (msg : alertMsg) (d d' : notifyDest) (v : view) :
  d <> d' -> local_eq d (deliver_view env msg d' v) v.
Proof.
  intros H. unfold deliver_view. destruct (_ && _)%bool; [| done].
  by rewrite finish_frame, start_frame.
Qed.

Lemma local_eq_all (v w : view) : (forall d, local_eq d v w) -> v ≡ w.
Proof.
  intros H. repeat split; intros.
  - by destruct (H d) as (? & _ & _).
  - by destruct (H d) as (_ & ? & _).
  - destruct (H pd) as (_ & _ & Hf). by apply Hf.
Qed.

(** What is known of thread [d] after any prefix of a schedule. *)
Definition thread_inv (env : alertEnv) (msg : alertMsg) (v0 : view) (d : notifyDest)
    (st : (notifyDest -> phase) * alarmCache) : Prop :=
  match st.1 d with
  | Ready => local_eq d (view_of st.2) v0
  | Sending => enabled d msg = true /\ may_start (ae_start env d) msg d v0 = true /\
               local_eq d (view_of st.2) (start msg d v0)
  | Finished => local_eq d (view_of st.2) (deliver_view env msg d v0)
  end.

Lemma thread_step_inv_self env msg v0 d st :
  clock_ok env -> thread_inv env msg v0 d st -> thread_inv env msg v0 d (thread_step env msg st d).
Proof.
  intros Hclk. destruct st as [ph a]. unfold thread_inv, thread_step. simpl.
  destruct (ph d) eqn:Hph; simpl; [intros H | intros (He & Hm & H) | by rewrite Hph].
  - unfold deliver_view.
    destruct (enabled d msg) eqn:He; simpl; [| by rewrite decide_True].
    pose proof (reserve_view (ae_start env d) msg d a (Hclk d)) as Hr.
    destruct (reserveDelivery _ _ _ _) as [ok a']. destruct Hr as (Hok & Hv & _).
    rewrite (may_start_local _ _ _ _ _ H) in Hok. simpl. rewrite decide_True by done.
    rewrite <- Hok. destruct ok; [split_and!; [done.. |] |]; rewrite Hv; [by apply start_local | done].
  - rewrite decide_True by done. unfold deliver_view. rewrite He, Hm. simpl.
    destruct (complete_view (ae_end env d) msg d (accepts d env msg) a) as [Hv _].
    rewrite Hv. by apply finish_local.
Qed.

Lemma thread_step_inv_other env msg v0 d d' st :
  clock_ok env -> d <> d' -> thread_inv env msg v0 d st ->
  thread_inv env msg v0 d (thread_step env msg st d').
Proof.
  intros Hclk Hne. destruct st as [ph a].
  assert ((thread_step env msg (ph, a) d').1 d = ph d /\
          local_eq d (view_of (thread_step env msg (ph, a) d').2) (view_of a)) as [Hph Hloc].
  { unfold thread_step. destruct (ph d') eqn:Hp; simpl.
    - destruct (enabled d' msg); simpl; [| by rewrite decide_False].
      pose proof (reserve_view (ae_start env d') msg d' a (Hclk d')) as Hr.
      destruct (reserveDelivery _ _ _ _) as [ok a']. destruct Hr as (_ & Hv & _). simpl.
      rewrite decide_False by done. split; [done |]. rewrite Hv.
      destruct ok; [by apply start_frame | done].
    - rewrite decide_False by done. split; [done |].
      destruct (complete_view (ae_end env d') msg d' (accepts d' env msg) a) as [Hv _].
      rewrite Hv. by apply finish_frame.
    - done. }
  unfold thread_inv. rewrite Hph. simpl. destruct (ph d); rewrite Hloc; done.
Qed.

Lemma run_schedule_inv env msg sched a d :
  clock_ok env -> thread_inv env msg (view_of a) d (run_schedule env msg sched a).
Proof.
  intros Hclk. unfold run_schedule.
  assert (thread_inv env msg (view_of a) d (fun _ => Ready, a)) as H by done.
  revert H. generalize (fun _ : notifyDest => Ready, a) as st.
  induction sched as [| d' sched IH]; intros st H; simpl; [done |].
  apply IH. destruct (decide (d = d')) as [<- |].
  - by apply thread_step_inv_self.
  - by apply thread_step_inv_other.
Qed.

Lemma fold_notify_local env msg (ds : list notifyDest) d :
  clock_ok env -> NoDup ds -> forall a,
  local_eq d (view_of (foldl (fun a d => d_cache (notify d env msg a)) a ds))
    (if decide (d ∈ ds) then deliver_view env msg d (view_of a) else view_of a).
Proof.
  intros Hclk. induction 1 as [| d' ds Hni Hnd IH]; intros a; cbn [foldl].
  { by rewrite decide_False by set_solver. }
  rewrite IH. destruct (decide (d = d')) as [<- | Hne].
  - rewrite decide_False by done. rewrite decide_True by by left.
    apply local_eq_subrelation, notify_view, Hclk.
  - assert (local_eq d (view_of (d_cache (notify d' env msg a))) (view_of a)) as Hf.
    { transitivity (deliver_view env msg d' (view_of a)); [| by apply deliver_view_frame].
      apply local_eq_subrelation, notify_view, Hclk. }
    destruct (decide (d ∈ ds)).
    + rewrite decide_True by by right. by apply deliver_view_local.
    + rewrite decide_False; [done | set_solver].
Qed.

Lemma deliverAlert_local env msg a d :
  clock_ok env -> local_eq d (view_of (deliverAlert env msg a).2) (deliver_view env msg d (view_of a)).
Proof.
  intros Hclk.
  change (deliverAlert env msg a).2
    with (foldl (fun a d => d_cache (notify d env msg a)) a [pd; di; tg; slk]).
  rewrite (fold_notify_local env msg [pd; di; tg; slk] d Hclk).
  - by destruct d.
  - apply (bool_decide_unpack _). vm_compute. done.
Qed.

Lemma http_attempt_observed name ok req env :
  let '(err, obs, reqs, acc) := http_attempt name ok req env in
  existsb (fun o => String.eqb o.2 deliveryAccepted) obs = acc /\ (acc = true <-> err = None).
Proof. unfold http_attempt. repeat case_match; simplify_eq/=; done. Qed.

Lemma telegram_attempt_observed msg env :
  let '(err, obs, reqs, acc) := telegram_attempt msg env in
  existsb (fun o => String.eqb o.2 deliveryAccepted) obs = acc /\ (acc = true <-> err = None).
Proof.
  unfold telegram_attempt, classifyTelegramError. repeat case_match; simplify_eq/=; done.
Qed.

Lemma pagerDuty_loop_observed left attempt lastErr msg env :
  let '(err, obs, reqs, slept, acc) := pagerDuty_loop left attempt lastErr msg env in
  existsb (fun o => String.eqb o.2 deliveryAccepted) obs = acc /\
  (is_Some lastErr -> (acc = true <-> err = None)).
Proof.
  revert attempt lastErr. induction left as [| left IH]; intros attempt lastErr; simpl.
  - split; [done |]. intros [e ->]. done.
  - destruct (env attempt) as [e |]; [| done].
    specialize (IH (S attempt) (Some (classifyPagerDutyError e))).
    destruct (pagerDuty_loop _ _ _ _ _) as [[[[? ?] ?] ?] ?]. destruct IH as [H1 H2].
    split; [| by eauto]. simpl. rewrite H1. by destruct e.
Qed.

Lemma notify_accepted d env msg a :
  accepted_delivery (notify d env msg a) =
  (enabled d msg && (reserveDelivery (ae_start env d) msg d a).1 && accepts d env msg)%bool.
Proof.
  destruct d; cbn [notify enabled accepts];
    unfold accepted_delivery, notifyPagerDuty, notifyDiscord, notifyTelegram, notifySlack.
  - destruct (am_pd msg); cbn [negb andb]; [| done]. destruct (String.eqb _ _); cbn [negb andb]; [done |].
    destruct (reserveDelivery _ _ _ _) as [[] a']; cbn [negb fst andb]; [| done].
    pose proof (pagerDuty_loop_observed pagerDutyMaxAttempts 1 None msg (ae_pagerduty env)) as H.
    destruct (pagerDuty_loop _ _ _ _ _) as [[[[? ?] ?] ?] ?]. apply H.
  - destruct (am_tg msg); cbn [negb andb]; [| done].
    destruct (reserveDelivery _ _ _ _) as [[] a']; cbn [negb fst andb]; [| done].
    pose proof (telegram_attempt_observed msg (ae_telegram env)) as H.
    destruct (telegram_attempt _ _) as [[[? ?] ?] ?]. apply H.
  - destruct (am_disc msg); cbn [negb andb]; [| done].
    destruct (reserveDelivery _ _ _ _) as [[] a']; cbn [negb fst andb]; [| done].
    pose proof (http_attempt_observed "discord" StatusNoContent
      (DiscordRequest (discHook msg) (buildDiscordMessage msg)) (ae_discord env)) as H.
    destruct (http_attempt _ _ _ _) as [[[? ?] ?] ?]. apply H.
  - destruct (am_slk msg); cbn [negb andb]; [| done].
    destruct (reserveDelivery _ _ _ _) as [[] a']; cbn [negb fst andb]; [| done].
    pose proof (http_attempt_observed "slack" StatusOK
      (SlackRequest (slkHook msg) (buildSlackMessage msg)) (ae_slack env)) as H.
    destruct (http_attempt _ _ _ _) as [[[? ?] ?] ?]. apply H.
Qed.

(** The senders' own idea of acceptance is the network's. *)
Lemma accepts_network d env msg : accepts d env msg = network_accepts d env.
Proof.
  destruct d; cbn [accepts network_accepts].
  - unfold pagerDutyMaxAttempts. cbn [pagerDuty_loop existsb].
    destruct (ae_pagerduty env 1%nat); [| done]. by destruct (ae_pagerduty env 2%nat).
  - unfold telegram_attempt. by destruct (env_bot (ae_telegram env)), (env_send (ae_telegram env)).
  - unfold http_attempt, answered, StatusNoContent. destruct (env_marshal (ae_discord env)), (env_request (ae_discord env)), (env_do (ae_discord env)) as [| st]; try done.
    by destruct (st =? 204).
  - unfold http_attempt, answered, StatusOK. destruct (env_marshal (ae_slack env)), (env_request (ae_slack env)), (env_do (ae_slack env)) as [| st]; try done.
    by destruct (st =? 200).
Qed.

(** An attempt fails exactly if it is not accepted. *)
Lemma notify_err d env msg a :
  enabled d msg = true -> (reserveDelivery (ae_start env d) msg d a).1 = true ->
  d_err (notify d env msg a) = None <-> accepts d env msg = true.
Proof.
  destruct d; cbn [notify enabled accepts];
    unfold notifyPagerDuty, notifyDiscord, notifyTelegram, notifySlack.
  - destruct (am_pd msg); cbn [negb andb]; [| done]. destruct (String.eqb _ _); cbn [negb andb]; [done |]. intros _.
    destruct (reserveDelivery _ _ _ _) as [[] a']; cbn [negb fst]; [| done]. intros _.
    unfold pagerDutyMaxAttempts. cbn [pagerDuty_loop].
    destruct (ae_pagerduty env 1%nat); [| done]. by destruct (ae_pagerduty env 2%nat).
  - destruct (am_tg msg); cbn [negb andb]; [| done]. intros _.
    destruct (reserveDelivery _ _ _ _) as [[] a']; cbn [negb fst]; [| done]. intros _.
    unfold telegram_attempt. by destruct (env_bot (ae_telegram env)), (env_send (ae_telegram env)).
  - destruct (am_disc msg); cbn [negb andb]; [| done]. intros _.
    destruct (reserveDelivery _ _ _ _) as [[] a']; cbn [negb fst]; [| done]. intros _.
    unfold http_attempt. destruct (env_marshal (ae_discord env)), (env_request (ae_discord env)), (env_do (ae_discord env)) as [| st]; try done. by destruct (negb _).
  - destruct (am_slk msg); cbn [negb andb]; [| done]. intros _.
    destruct (reserveDelivery _ _ _ _) as [[] a']; cbn [negb fst]; [| done]. intros _.
    unfold http_attempt. destruct (env_marshal (ae_slack env)), (env_request (ae_slack env)), (env_do (ae_slack env)) as [| st]; try done. by destruct (negb _).
Qed.

(** Whether an alert is delivered to [d] and accepted, from the abstract view. *)
Definition delivers (env : alertEnv) (msg : alertMsg) (d : notifyDest) (v : view) : bool :=
  enabled d msg && may_start (ae_start env d) msg d v && accepts d env msg.

Lemma delivers_local env msg d v w :
  local_eq d v w -> delivers env msg d v = delivers env msg d w.
Proof. intros H. unfold delivers. by rewrite (may_start_local _ _ _ _ _ H). Qed.

Lemma notify_delivers d env msg a :
  clock_ok env -> accepted_delivery (notify d env msg a) = delivers env msg d (view_of a).
Proof.
  intros Hclk. rewrite notify_accepted. unfold delivers.
  pose proof (reserve_view (ae_start env d) msg d a (Hclk d)) as H.
  destruct (reserveDelivery _ _ _ _) as [ok a']. by destruct H as (-> & _).
Qed.

Lemma notify_frame d d' env msg a :
  clock_ok env -> d <> d' -> local_eq d (view_of (d_cache (notify d' env msg a))) (view_of a).
Proof.
  intros Hclk Hne. transitivity (deliver_view env msg d' (view_of a)); [| by apply deliver_view_frame].
  apply local_eq_subrelation, notify_view, Hclk.
Qed.

Lemma deliverAlert_accepted d env msg a :
  clock_ok env ->
  accepted_delivery ((deliverAlert env msg a).1 d) = delivers env msg d (view_of a).
Proof.
  intros Hclk. destruct d; cbn [deliverAlert fst]; rewrite notify_delivers by done;
    apply delivers_local; repeat (rewrite notify_frame by done); done.
Qed.

(** What the senders report as accepted is what the network accepted. *)
Lemma accepted_log_network d h a :
  Forall (fun p => clock_ok p.1) h -> accepted_log d h a = network_log d h a.
Proof.
  intros Hh. revert a. induction Hh as [| [env msg] h Hclk Hh IH]; intros a; [done |].
  cbn [accepted_log network_log]. pose proof (deliverAlert_accepted d env msg a Hclk) as Hacc.
  destruct (deliverAlert env msg a) as [rs a']. cbn [fst snd] in *. unfold delivers in Hacc.
  by rewrite Hacc, accepts_network, IH.
Qed.

(** Whether an alarm is open after one more alert. *)
Lemma deliver_view_open env msg d k v :
  ae_end env d <> 0 -> v_flight v d (message msg) = false ->
  is_open (deliver_view env msg d v) d k =
  (if delivers env msg d v && bool_decide (message msg = k) then negb (resolved msg) else is_open v d k).
Proof.
  intros Hend Hfl. unfold deliver_view, delivers.
  destruct (enabled d msg && may_start (ae_start env d) msg d v)%bool; [| done]. simpl.
  unfold is_open at 1, finish. cbn [v_sent start]. destruct (accepts d env msg); simpl; [| done].
  unfold upd2. case_bool_decide as Hk.
  - rewrite decide_True by done. unfold IsZero. destruct (resolved msg); [done |].
    by rewrite (proj2 (Z.eqb_neq _ _) Hend).
  - by rewrite decide_False by naive_solver.
Qed.

Lemma deliver_view_flight env msg d v k :
  (forall k, v_flight v d k = false) -> v_flight (deliver_view env msg d v) d k = false.
Proof.
  intros H. unfold deliver_view. destruct (_ && _)%bool; [| done]. simpl.
  unfold upd2. repeat case_decide; naive_solver.
Qed.

Lemma may_start_open now msg d v :
  may_start now msg d v = true -> is_open v d (message msg) = resolved msg.
Proof.
  unfold may_start. intros H. destruct (resolved msg); breflect; [done |]. done.
Qed.

Definition env_ok (env : alertEnv) : Prop := clock_ok env /\ forall d, ae_end env d <> 0.

(** The flags of the alerts [d] accepted for message [k]. *)
Definition flags (k : string) (l : list alertMsg) : list bool :=
  resolved <$> filter (fun m => message m = k) l.

Lemma accepted_log_alternates d k (h : list (alertEnv * alertMsg)) :
  Forall (fun p => env_ok p.1) h -> forall a,
  (forall k, v_flight (view_of a) d k = false) ->
  alternating (is_open (view_of a) d k) (flags k (accepted_log d h a)) /\
  is_open (view_of (notificationWorker h a)) d k =
    from_option negb (is_open (view_of a) d k) (last (flags k (accepted_log d h a))).
Proof.
  induction 1 as [| [env msg] h [Hclk Hend] Hh IH]; intros a Hfl; [done |].
  cbn [accepted_log notificationWorker].
  pose proof (deliverAlert_local env msg a d Hclk) as (Hsent & Hflight & _).
  pose proof (deliverAlert_accepted d env msg a Hclk) as Hacc.
  destruct (deliverAlert env msg a) as [rs a'] eqn:E. cbn [fst snd] in *.
  assert (forall k, is_open (view_of a') d k = is_open (deliver_view env msg d (view_of a)) d k) as Hopen.
  { intros k'. unfold is_open. by rewrite Hsent. }
  destruct (IH a') as [IHalt IHlast].
  { intros k'. rewrite Hflight. by apply deliver_view_flight. }
  rewrite Hopen, deliver_view_open in IHalt, IHlast by (done || apply Hend).
  rewrite Hacc. destruct (delivers env msg d (view_of a)) eqn:Hd; [| done].
  unfold flags in *. cbn [app]. rewrite filter_cons. case_bool_decide as Hk; cbn [andb] in *.
  - rewrite decide_True by done. rewrite fmap_cons. cbn [alternating].
    unfold delivers in Hd. breflect. subst k.
    rewrite (may_start_open (ae_start env d) msg d (view_of a)) in * by done.
    split; [done |]. rewrite IHlast, last_cons. by destruct (last _).
  - by rewrite decide_False.
Qed.

Lemma finish_start_commit now msg d (acc : bool) v :
  v_flight v d (message msg) = false ->
  finish now msg d acc (start msg d v) ≡
  MkView (v_sent (finish now msg d acc v)) (v_flight v) (v_flap (finish now msg d acc v)).
Proof.
  intros Hf. repeat split; simpl; intros d' k; unfold upd2; repeat case_decide; naive_solver.
Qed.

(** The fixed label of a destination. *)
Definition dest_name (d : notifyDest) : string :=
  match d with pd => "pagerduty" | di => "discord" | tg => "telegram" | slk => "slack" end.

(** The attempts a destination may make for one alert. *)
Definition max_attempts (d : notifyDest) : nat := if is_pd d then pagerDutyMaxAttempts else 1.

(** The one request body an alert has for a destination. *)
Definition request_for (d : notifyDest) (msg : alertMsg) : request :=
  match d with
  | pd => PagerDutyRequest (buildPagerDutyEvent msg)
  | di => DiscordRequest (discHook msg) (buildDiscordMessage msg)
  | tg => TelegramRequest (tgKey msg) (tgChannel msg) (buildTelegramText msg)
  | slk => SlackRequest (slkHook msg) (buildSlackMessage msg)
  end.

Definition outcomes : list string := [deliveryAccepted; deliveryRejected; deliveryTransportError].

(** Whether a request carries the alert. *)
Definition carriesAlert (q : request) : bool := match q with TelegramGetMe _ => false | _ => true end.

Fixpoint alertRequests (reqs : list request) : list request :=
  match reqs with
  | [] => []
  | q :: reqs' => if carriesAlert q then q :: alertRequests reqs' else alertRequests reqs'
  end.

(** Every attempt of [d] is reported once, under its own label, sends the one
    request the alert has for [d], and there are at most [n] of them. *)
Definition attempts_ok (d : notifyDest) (msg : alertMsg) (n : nat)
    (obs : list (string * string)) (reqs : list request) : Prop :=
  (length obs <= n)%nat /\ (length (alertRequests reqs) <= length obs)%nat /\
  Forall (fun o => o.1 = dest_name d /\ o.2 ∈ outcomes) obs /\
  Forall (fun q => q = request_for d msg) (alertRequests reqs).

Lemma alertRequests_for d msg : alertRequests [request_for d msg] = [request_for d msg].
Proof. by destruct d. Qed.

Lemma http_attempt_ok d msg name ok req env :
  name = dest_name d -> req = request_for d msg ->
  let '(_, obs, reqs, _) := http_attempt name ok req env in attempts_ok d msg 1 obs reqs.
Proof.
  intros -> ->. unfold http_attempt, attempts_ok, outcomes.
  repeat case_match; simplify_eq; rewrite ?alertRequests_for; split_and!; try (simpl; lia);
    repeat constructor; simpl; unfold outcomes; set_solver.
Qed.

Lemma telegram_attempt_ok msg env :
  let '(_, obs, reqs, _) := telegram_attempt msg env in attempts_ok tg msg 1 obs reqs.
Proof.
  unfold telegram_attempt, attempts_ok, observeError, classifyTelegramError.
  repeat case_match; simplify_eq/=; split_and!; try lia;
    repeat constructor; simpl; unfold outcomes; set_solver.
Qed.

Lemma pagerDuty_loop_ok left attempt lastErr msg env :
  (left + attempt = S pagerDutyMaxAttempts)%nat ->
  let '(_, obs, reqs, slept, _) := pagerDuty_loop left attempt lastErr msg env in
  attempts_ok pd msg left obs reqs /\ 0 <= slept <= Z.of_nat (left - 1) * pagerDutyRetryDelay.
Proof.
  revert attempt lastErr. induction left as [| left IH]; intros attempt lastErr Hn; simpl.
  - unfold attempts_ok. simpl. repeat split; try constructor; lia.
  - assert (0 <= pagerDutyRetryDelay) as Hpos by by vm_compute.
    destruct (env attempt) as [e |].
    + specialize (IH (S attempt) (Some (classifyPagerDutyError e)) ltac:(lia)).
      destruct (pagerDuty_loop _ _ _ _ _) as [[[[err obs] reqs] slept] acc].
      destruct IH as [(H1 & H2 & H3 & H4) Hs]. split.
      * split_and!; simpl; [lia | lia | | by constructor].
        constructor; [| done]. split; [done |]. unfold outcomes. destruct e; simpl; set_solver.
      * destruct left as [| left]; [| case_match; nia].
        assert ((attempt <? pagerDutyMaxAttempts)%nat = false) as -> by (apply Nat.ltb_ge; lia).
        change pagerDutyRetryDelay with 250000000 in *. lia.
    + split; [| nia]. unfold attempts_ok. simpl. split_and!; try lia;
        repeat constructor; simpl; unfold outcomes; set_solver.
Qed.

Lemma notify_attempts d env msg a :
  let r := notify d env msg a in
  attempts_ok d msg (max_attempts d) (d_observed r) (d_requests r) /\
  0 <= d_slept r <= pagerDutyRetryDelay.
Proof.
  assert (attempts_ok d msg (max_attempts d) [] [] /\ 0 <= 0 <= pagerDutyRetryDelay) as Hnone.
  { split; [| by vm_compute]. repeat split; simpl; try constructor; lia. }
  destruct d; cbn [notify]; unfold notifyPagerDuty, notifyDiscord, notifyTelegram, notifySlack;
    (destruct (negb _); [exact Hnone |]); cbv zeta.
  - destruct (String.eqb _ _); [exact Hnone |].
    destruct (reserveDelivery _ _ _ _) as [[] a']; cbn [negb]; [| exact Hnone].
    pose proof (pagerDuty_loop_ok pagerDutyMaxAttempts 1 None msg (ae_pagerduty env) eq_refl) as H.
    destruct (pagerDuty_loop _ _ _ _ _) as [[[[? ?] ?] ?] ?]. destruct H as [? ?].
    split; [done |]. cbn [d_slept]. change (Z.of_nat (pagerDutyMaxAttempts - 1)) with 1 in *. lia.
  - destruct (reserveDelivery _ _ _ _) as [[] a']; cbn [negb]; [| exact Hnone].
    pose proof (telegram_attempt_ok msg (ae_telegram env)) as H.
    destruct (telegram_attempt _ _) as [[[? ?] ?] ?]. split; [done |]. by vm_compute.
  - destruct (reserveDelivery _ _ _ _) as [[] a']; cbn [negb]; [| exact Hnone].
    pose proof (http_attempt_ok di msg "discord" StatusNoContent (request_for di msg)
      (ae_discord env) eq_refl eq_refl) as H. simpl in H.
    destruct (http_attempt _ _ _ _) as [[[? ?] ?] ?]. split; [done |]. by vm_compute.
  - destruct (reserveDelivery _ _ _ _) as [[] a']; cbn [negb]; [| exact Hnone].
    pose proof (http_attempt_ok slk msg "slack" StatusOK (request_for slk msg)
      (ae_slack env) eq_refl eq_refl) as H. simpl in H.
    destruct (http_attempt _ _ _ _) as [[[? ?] ?] ?]. split; [done |]. by vm_compute.
Qed.

(** A suppressed delivery does nothing on the network and reports nothing. *)
Lemma notify_suppressed d env msg a :
  enabled d msg && (reserveDelivery (ae_start env d) msg d a).1 = false ->
  d_err (notify d env msg a) = None /\ d_observed (notify d env msg a) = [] /\
  d_requests (notify d env msg a) = [].
Proof.
  intros H. destruct d; cbn [notify enabled] in *;
    unfold notifyPagerDuty, notifyDiscord, notifyTelegram, notifySlack.
  - destruct (am_pd msg); simpl in *; [| done]. destruct (String.eqb _ _); simpl in *; [done |].
    destruct (reserveDelivery _ _ _ _) as [[] a']; done.
  - destruct (am_tg msg); simpl in *; [| done]. destruct (reserveDelivery _ _ _ _) as [[] a']; done.
  - destruct (am_disc msg); simpl in *; [| done]. destruct (reserveDelivery _ _ _ _) as [[] a']; done.
  - destruct (am_slk msg); simpl in *; [| done]. destruct (reserveDelivery _ _ _ _) as [[] a']; done.
Qed.

(** What an accepted delivery commits: the destination's record of the alarm,
    and PagerDuty's time of the trigger. *)
Definition commit (now : time) (msg : alertMsg) (d : notifyDest) (v : view) : view :=
  MkView (v_sent (finish now msg d true v)) (v_flight v) (v_flap (finish now msg d true v)).

Lemma notify_commit d env msg a :
  clock_ok env ->
  view_of (d_cache (notify d env msg a)) ≡
  (if accepted_delivery (notify d env msg a) then commit (ae_end env d) msg d (view_of a) else view_of a).
Proof.
  intros Hclk. rewrite notify_view, notify_delivers by done. unfold deliver_view, delivers.
  destruct (enabled d msg && may_start (ae_start env d) msg d (view_of a))%bool eqn:E; [| done]. simpl.
  assert (v_flight (view_of a) d (message msg) = false) as Hf.
  { unfold may_start in E. breflect. done. }
  rewrite finish_start_commit by done. by destruct (accepts d env msg).
Qed.

(** ** Properties *)

(** C1: safety over histories.  Feed any sequence of alerts to the notification
    worker, with any network answers: for every destination and every message,
    the deliveries that destination accepted alternate trigger, resolution,
    trigger, ...; so no destination is told twice of an open alarm, and none
    receives a resolution without having accepted the trigger.  Afterwards the
    cache holds the alarm as open exactly when the last one accepted was a
    trigger. *)
Theorem accepted_deliveries_alternate (d : notifyDest) (k : string) (h : list (alertEnv * alertMsg)) :
  Forall (fun p => env_ok p.1) h ->
  alternating false (flags k (accepted_log d h newAlarmCache)) /\
  is_open (view_of (notificationWorker h newAlarmCache)) d k =
    from_option negb false (last (flags k (accepted_log d h newAlarmCache))).
Proof.
  intros Hh.
  assert (is_open (view_of newAlarmCache) d k = false) as Hc.
  { unfold is_open. simpl. destruct d; unfold mtime, mget; simpl; by rewrite lookup_empty. }
  rewrite <- Hc. apply accepted_log_alternates; [done |].
  intros k'. simpl. apply bool_decide_eq_false. unfold flightOf. simpl. set_solver.
Qed.

(** C15: functional, error paths included.  If a destination is enabled and the
    alert may be sent there, the cache afterwards depends on what the network
    answered: if the destination accepted (Slack with 200, Discord with 204,
    Telegram without an error, PagerDuty at one of two attempts) no error is
    returned and exactly that destination's record of that message (and the
    PagerDuty flap time) changes; otherwise, whether encoding, the request, the
    transport, the status or the remote API failed, an error is returned and the
    cache is as it was, so the same alert is eligible again.  If it may not be
    sent, nothing is attempted, reported or changed. *)
Theorem delivery_commits_iff_accepted (d : notifyDest) (env : alertEnv) (msg : alertMsg) (a : alarmCache) :
  clock_ok env ->
  let r := notify d env msg a in
  if enabled d msg && may_start (ae_start env d) msg d (view_of a) then
    if network_accepts d env
    then d_err r = None /\ accepted_delivery r = true /\ view_of (d_cache r) ≡ commit (ae_end env d) msg d (view_of a)
    else d_err r <> None /\ accepted_delivery r = false /\ view_of (d_cache r) ≡ view_of a /\
      forall now, may_start now msg d (view_of (d_cache r)) = may_start now msg d (view_of a)
  else d_err r = None /\ d_observed r = [] /\ d_requests r = [] /\ view_of (d_cache r) ≡ view_of a.
Proof.
  intros Hclk r. pose proof (notify_commit d env msg a Hclk) as Hv. fold r in Hv.
  pose proof (notify_delivers d env msg a Hclk) as Hacc. fold r in Hacc. unfold delivers in Hacc.
  pose proof (reserve_view (ae_start env d) msg d a (Hclk d)) as Hres.
  destruct (reserveDelivery (ae_start env d) msg d a) as [ok a'] eqn:Er. destruct Hres as (Hok & _).
  destruct (enabled d msg && may_start (ae_start env d) msg d (view_of a)) eqn:Ha; cbn [andb] in Hacc.
  - apply andb_true_iff in Ha as [He Hm]. rewrite Hm in Hok.
    pose proof (notify_err d env msg a He) as Hn. rewrite Er in Hn. specialize (Hn Hok). fold r in Hn.
    rewrite <- (accepts_network d env msg). rewrite Hacc in Hv. destruct (accepts d env msg).
    + split_and!; [by apply Hn | done | done].
    + split_and!; [by intros ?%Hn | done | done |]. intros now. by rewrite Hv.
  - rewrite Hacc in Hv. destruct (notify_suppressed d env msg a) as (? & ? & ?); [by rewrite Er, Hok |]. by split_and!.
Qed.

(** Bounds.  One alert makes at most two PagerDuty attempts and one attempt
    at each other destination, sleeping at most the retry delay in total; every
    attempt is reported at most once, under its destination's fixed label and
    one of the three fixed outcomes, and every request is the one body built
    for the alert (so a PagerDuty retry carries the same dedup key). *)
Theorem delivery_attempts_bounded (d : notifyDest) (env : alertEnv) (msg : alertMsg) (a : alarmCache) :
  let r := notify d env msg a in
  (length (alertRequests (d_requests r)) <= length (d_observed r) <= (if is_pd d then 2 else 1))%nat /\
  0 <= d_slept r <= pagerDutyRetryDelay /\
  Forall (fun o => o.1 = dest_name d /\ o.2 ∈ outcomes) (d_observed r) /\
  Forall (fun q => q = request_for d msg) (alertRequests (d_requests r)).
Proof.
  destruct (notify_attempts d env msg a) as [(H1 & H2 & H3 & H4) Hs].
  split_and!; [done | | lia.. | done | done]. by destruct d.
Qed.

(** C16: refinement of the concurrent fan-out.  However the reservations and
    completions of the four goroutines of [deliverAlert] interleave, once all
    four are finished the cache is observably the one the sequential run
    leaves: no destination's delivery influences another's. *)
Theorem deliverAlert_schedule_independent (env : alertEnv) (msg : alertMsg) (sched : list notifyDest)
    (a : alarmCache) :
  clock_ok env ->
  (forall d, (run_schedule env msg sched a).1 d = Finished) ->
  view_of (run_schedule env msg sched a).2 ≡ view_of (deliverAlert env msg a).2.
Proof.
  intros Hclk Hdone. apply local_eq_all. intros d.
  pose proof (run_schedule_inv env msg sched a d Hclk) as H.
  unfold thread_inv in H. rewrite Hdone in H. rewrite H.
  symmetry. by apply deliverAlert_local.
Qed.

(** ** Witnesses *)

(** Everybody accepts, at a fixed time. *)
Definition sampleEnv : alertEnv :=
  MkAlertEnv (fun _ => unix_epoch) (fun _ => unix_epoch + Second)
    (MkHttpEnv None None (inr 200)) (MkHttpEnv None None (inr 204)) (MkTgEnv None None)
    (fun n => if (n =? 1)%nat then Some (OtherErr "timeout") else None).

Lemma sampleEnv_ok : env_ok sampleEnv.
Proof. split; intros d; by vm_compute. Qed.

Definition sampleResolved : alertMsg := sampleMsg <| resolved := true |>.

Lemma accepted_deliveries_alternate_witness :
  let h := [(sampleEnv, sampleMsg); (sampleEnv, sampleMsg); (sampleEnv, sampleResolved)] in
  Forall (fun p => env_ok p.1) h /\
  flags (message sampleMsg) (accepted_log slk h newAlarmCache) = [false; true] /\
  is_open (view_of (notificationWorker h newAlarmCache)) slk (message sampleMsg) = false.
Proof.
  intros h. assert (Forall (fun p => env_ok p.1) h) as Hh by (repeat constructor; apply sampleEnv_ok).
  split; [exact Hh |].
  assert (flags (message sampleMsg) (accepted_log slk h newAlarmCache) = [false; true]) as E
    by by vm_compute.
  split; [exact E |].
  destruct (accepted_deliveries_alternate slk (message sampleMsg) h Hh) as [_ H].
  rewrite H, E. reflexivity.
Defined.

(** PagerDuty accepts the second attempt; Slack's status 500 is not an acceptance. *)
Lemma delivery_commits_iff_accepted_witness :
  let bad := MkAlertEnv (ae_start sampleEnv) (ae_end sampleEnv) (MkHttpEnv None None (inr 500)) (ae_discord sampleEnv)
               (ae_telegram sampleEnv) (ae_pagerduty sampleEnv) in
  view_of (d_cache (notify pd sampleEnv sampleMsg newAlarmCache)) ≡
    commit (unix_epoch + Second) sampleMsg pd (view_of newAlarmCache) /\
  view_of (d_cache (notify slk bad sampleMsg newAlarmCache)) ≡ view_of newAlarmCache.
Proof.
  intros bad. split.
  - apply (delivery_commits_iff_accepted pd sampleEnv sampleMsg newAlarmCache (proj1 sampleEnv_ok)).
  - apply (delivery_commits_iff_accepted slk bad sampleMsg newAlarmCache (proj1 sampleEnv_ok)).
Defined.

Lemma deliverAlert_schedule_independent_witness :
  let sched := [slk; pd; tg; di; tg; pd; slk; di] in
  (forall d, (run_schedule sampleEnv sampleMsg sched newAlarmCache).1 d = Finished) /\
  view_of (run_schedule sampleEnv sampleMsg sched newAlarmCache).2 ≡
    view_of (deliverAlert sampleEnv sampleMsg newAlarmCache).2.
Proof.
  intros sched.
  assert (forall d, (run_schedule sampleEnv sampleMsg sched newAlarmCache).1 d = Finished) as H
    by (intros []; by vm_compute).
  split; [exact H |].
  exact (deliverAlert_schedule_independent sampleEnv sampleMsg sched newAlarmCache
           (proj1 sampleEnv_ok) H).
Defined.
