(* ===== verification/Samples.v ===== *)
(** * Concrete inputs

    One chain with two nodes and everything enabled, on which the witnesses of
    the other files evaluate the definitions. *)

From S2P Require Import Prelude Types AlarmCache.

Local Open Scope Z_scope.

Definition sampleAlerts : AlertConfig :=
  MkAlertConfig 10 true 5 "critical" true 10 "warning" true true true false false false
    (MkPDConfig true "routing-key" "critical")
    (MkDiscordConfig true "https://discord/hook" ["@ops"])
    (MkTeleConfig true "bot-token" "@channel" ["@ops"])
    (MkSlackConfig true "https://slack/hook" ["@ops"]).

Definition sampleValInfo : ValInfo :=
  MkValInfo "NosNode" true false false 11 100 [1; 2; 3] "osmovalcons1xyz".

Definition sampleNode (url : string) : NodeConfig := MkNodeConfig url true false false false "" 0.

Definition sampleChain : ChainConfig :=
  MkChainConfig "Osmosis" None None false (Some sampleValInfo) None [-1; -1; -1; -1] "" unix_epoch
    false false false 0 0 0 0 0 0 0 0 "osmosis-1" "osmovaloper1xyz" "" "" sampleAlerts false
    [sampleNode "tcp://a:26657"; sampleNode "tcp://b:26657"].

Definition sampleConfig : Config :=
  MkConfig [] [] [] false newAlarmCache true 0 true "8888" false 3 "critical" true 28686
    (MkPDConfig true "routing-key" "critical") (MkDiscordConfig true "" [])
    (MkTeleConfig true "" "" []) (MkSlackConfig true "" [])
    (MkHealthcheckConfig false "" 0) {[ "Osmosis" := sampleChain ]}.
