(* ===== verification/RuntimeState.v ===== *)
(** * Shared runtime state (runtime_state.go)

    The accessors through which the goroutines share a chain's state and the
    gate in front of the alert queue.  Each runs under one lock in the source
    and is one atomic function here. *)

From S2P Require Import Prelude Types AlarmCache Samples.

Local Open Scope Z_scope.

(** ** The alert ingress gate *)

Definition beginAlertIngress (c : Config) : bool * Config :=
  if negb (accepting c) then (false, c)
  else (true, c <| ingressWG := ingressWG c + 1 |>).

Definition finishAlertIngress (c : Config) : Config := c <| ingressWG := ingressWG c - 1 |>.

Definition enqueueAlert (m : alertMsg) (c : Config) : bool * Config :=
  let '(ok, c) := beginAlertIngress c in
  if negb ok then (false, c)
  else (true, finishAlertIngress (c <| alertChan := alertChan c ++ [m] |>)).

Definition startAlertIngress (c : Config) : Config := c <| accepting := true |>.
Definition stopAlertIngress (c : Config) : Config := c <| accepting := false |>.

(** ** Validator information *)

(** A deep copy: the pointer is fresh and so is the byte slice. *)
Definition cloneValInfo (info : option ValInfo) : option ValInfo :=
  i ← info; Some (i <| vi_Conspub := [] ++ vi_Conspub i |>).

Definition monitoringSnapshot (cc : ChainConfig) : option string * option ValInfo * option ValInfo :=
  (client cc, cloneValInfo (valInfo cc), cloneValInfo (lastValInfo cc)).

Definition rpcClientSnapshot (cc : ChainConfig) : option string :=
  let '(cl, _, _) := monitoringSnapshot cc in cl.

Definition setRPCClient (cl : option string) (cc : ChainConfig) : ChainConfig := cc <| client := cl |>.

Definition validatorInfoSnapshot (cc : ChainConfig) : option ValInfo * option ValInfo :=
  let '(_, current, previous) := monitoringSnapshot cc in (current, previous).

Definition publishValidatorInfo (next : ValInfo) (retainPrevious : bool) (cc : ChainConfig) : ChainConfig :=
  let cc := if retainPrevious then cc <| lastValInfo := cloneValInfo (valInfo cc) |> else cc in
  cc <| valInfo := cloneValInfo (Some next) |>.

(** ** Metrics *)

(** [mkUpdate] (types.go). *)
Definition mkUpdate (t : metricType) (v : SpecFloat.spec_float) (node : string) (cc : ChainConfig)
  : promUpdate :=
  let '(vi, _) := validatorInfoSnapshot cc in
  MkPromUpdate t v (cc_name cc) (ChainId cc) (from_option vi_Moniker "" vi) node.

(** [emitStat] waits for room on the channel unless its context is done. (When
    both are ready Go picks either; the model takes the context.) *)
Definition emitStat (ctxDone : bool) (u : promUpdate) (c : Config) : bool * Config :=
  if ctxDone then (false, c) else (true, c <| statsChan := statsChan c ++ [u] |>).

(** ** Nodes *)

Definition setNoNodes (b : bool) (cc : ChainConfig) : ChainConfig := cc <| noNodes := b |>.
Definition noNodesState (cc : ChainConfig) : bool := noNodes cc.

Definition nodeState (n : NodeConfig) : nodeRuntimeState :=
  MkNodeRuntimeState (nc_down n) (nc_wasDown n) (nc_syncing n) (nc_lastMsg n) (nc_downSince n).

(** Copy out, update, copy back; the updated copy is also returned. *)
Definition updateNodeState (update : nodeRuntimeState -> nodeRuntimeState) (n : NodeConfig)
  : nodeRuntimeState * NodeConfig :=
  let state := MkNodeRuntimeState (nc_down n) (nc_wasDown n) (nc_syncing n) (nc_lastMsg n)
                 (nc_downSince n) in
  let state := update state in
  (state,
   n <| nc_down := down state |> <| nc_wasDown := wasDown state |>
     <| nc_syncing := syncing state |> <| nc_lastMsg := lastMsg state |>
     <| nc_downSince := downSince state |>).

(** ** Block results *)

(** The newest result in front; the oldest drops out once there are any. *)
Definition recordBlockResult (result : Z) (cc : ChainConfig) : list Z * ChainConfig :=
  let blocks :=
    match blocksResults cc with
    | [] => [result]
    | _ => [result] ++ take (length (blocksResults cc) - 1) (blocksResults cc)
    end in
  ([] ++ blocks, cc <| blocksResults := blocks |>).

Definition blockResultsSnapshot (cc : ChainConfig) : list Z := [] ++ blocksResults cc.

(** ** Lemmas *)

Lemma cloneValInfo_id (i : option ValInfo) : cloneValInfo i = i.
Proof. by destruct i as [[] |]. Qed.

Lemma validatorInfoSnapshot_eq (cc : ChainConfig) :
  validatorInfoSnapshot cc = (valInfo cc, lastValInfo cc).
Proof. unfold validatorInfoSnapshot. simpl. by rewrite !cloneValInfo_id. Qed.

Lemma nodeState_update (f : nodeRuntimeState -> nodeRuntimeState) (n : NodeConfig) :
  nodeState (updateNodeState f n).2 = f (nodeState n) /\
  (updateNodeState f n).1 = f (nodeState n) /\
  Url (updateNodeState f n).2 = Url n /\ AlertIfDown (updateNodeState f n).2 = AlertIfDown n.
Proof. unfold nodeState, updateNodeState. simpl. by destruct (f _). Qed.

#[export] Hint Rewrite cloneValInfo_id validatorInfoSnapshot_eq : seer_rw.

(** Recording a whole list of results, oldest first. *)
Definition recordBlockResults (rs : list Z) (cc : ChainConfig) : ChainConfig :=
  foldl (fun cc r => (recordBlockResult r cc).2) cc rs.

Lemma recordBlockResult_blocks (r : Z) (cc : ChainConfig) :
  blocksResults cc <> [] ->
  blocksResults (recordBlockResult r cc).2 = take (length (blocksResults cc)) (r :: blocksResults cc).
Proof.
  intros H. unfold recordBlockResult. simpl. destruct (blocksResults cc) as [| x l]; [done |].
  simpl. by rewrite Nat.sub_0_r.
Qed.

Lemma recordBlockResults_blocks (rs : list Z) (cc : ChainConfig) :
  blocksResults cc <> [] ->
  blocksResults (recordBlockResults rs cc) =
    take (length (blocksResults cc)) (reverse rs ++ blocksResults cc).
Proof.
  unfold recordBlockResults. revert cc. induction rs as [| r rs IH]; intros cc Hne; cbn [foldl].
  - by rewrite take_ge.
  - pose proof (recordBlockResult_blocks r cc Hne) as E.
    assert (length (blocksResults (recordBlockResult r cc).2) = length (blocksResults cc)) as El.
    { rewrite E, length_take. simpl. lia. }
    rewrite IH, El, E.
    + rewrite reverse_cons, <- app_assoc. simpl.
      rewrite !firstn_app, take_take. f_equal. f_equal. lia.
    + intros H0. rewrite H0 in El. destruct (blocksResults cc); done.
Qed.

(** ** Properties *)

(** The block history is a sliding window of fixed length:
    after recording any results it holds the most recent ones, newest first,
    followed by what was left of the old history; the copy handed to the
    dashboard is the stored window. *)
Theorem blockResults_sliding_window (rs : list Z) (r : Z) (cc : ChainConfig) :
  blocksResults cc <> [] ->
  let cc' := recordBlockResults (rs ++ [r]) cc in
  blocksResults cc' = take (length (blocksResults cc)) (r :: reverse rs ++ blocksResults cc) /\
  length (blocksResults cc') = length (blocksResults cc) /\
  (recordBlockResult r (recordBlockResults rs cc)).1 = blocksResults cc'.
Proof.
  intros Hne cc'. pose proof (recordBlockResults_blocks (rs ++ [r]) cc Hne) as E.
  rewrite reverse_snoc in E. split_and!.
  - exact E.
  - subst cc'. rewrite E, length_take, length_app. simpl. lia.
  - subst cc'. unfold recordBlockResults. by rewrite foldl_app.
Qed.

Lemma blockResults_sliding_window_witness :
  blocksResults sampleChain <> [] /\
  blocksResults (recordBlockResults ([3; 0] ++ [4]) sampleChain) = [4; 0; 3; -1].
Proof.
  assert (blocksResults sampleChain <> []) as H by done.
  split; [exact H |].
  rewrite (proj1 (blockResults_sliding_window [3; 0] 4 sampleChain H)). reflexivity.
Defined.
