(* ===== verification/Alerting.v ===== *)
(** * Raising alerts (alert.go)

    [Config.alert], the stalled-chain and missed-percentage checks, and the
    block clock they depend on.  All are computations on the shared [Config];
    [None] is a panic.  A check reads the clock once. *)

From S2P Require Import Prelude Types AlarmCache Delivery Samples RuntimeState.

Local Open Scope Z_scope.

(** ** Access to one chain *)

Definition getChain (k : string) : M Config ChainConfig :=
  fun c => (fun cc => (cc, c)) <$> Chains c !! k.

Definition putChain (k : string) (cc : ChainConfig) : M Config unit :=
  modifyS (fun c => c <| Chains := <[k := cc]> (Chains c) |>).

(** [cc.activeAlerts = alarms.getCount(cc.name)] *)
Definition refreshActiveAlerts (k : string) : M Config unit :=
  cc ← getChain k;
  c ← getS;
  putChain k (cc <| activeAlerts := getCount (cc_name cc) (alarms c) |>).

(** ** Config.alert *)

(** The message for all destinations.  [slkMentions] keeps its zero value. *)
Definition buildAlert (c : Config) (ch : ChainConfig) (chainName msg sev : string) (res : bool)
    (id : option string) : alertMsg :=
  let a := Alerts ch in
  MkAlertMsg
    (PD_Enabled (Pagerduty c) && PD_Enabled (AC_Pagerduty a))
    (DC_Enabled (Discord c) && DC_Enabled (AC_Discord a))
    (TC_Enabled (Telegram c) && TC_Enabled (AC_Telegram a))
    (SC_Enabled (Slack c) && SC_Enabled (AC_Slack a))
    sev res chainName msg (default (ValAddress ch) id)
    (PD_ApiKey (AC_Pagerduty a)) (TC_Channel (AC_Telegram a)) (TC_ApiKey (AC_Telegram a))
    (Join (TC_Mentions (AC_Telegram a)) " ")
    (DC_Webhook (AC_Discord a)) (Join (DC_Mentions (AC_Discord a)) " ")
    (SC_Webhook (AC_Slack a)) "".

Definition alert (now : time) (chainName msg sev : string) (res : bool) (id : option string)
  : M Config unit :=
  fun c =>
    let '(ok, c) := beginAlertIngress c in
    if negb ok then Some (tt, c)
    else
      ch ← Chains c !! chainName;
      let c := c <| alertChan := alertChan c ++ [buildAlert c ch chainName msg sev res id] |> in
      al ← recordDashboardAlarm now chainName msg res (alarms c);
      Some (tt, finishAlertIngress (c <| alarms := al |>)).

(** ** Stalled chains *)

Definition stalledMessage (cc : ChainConfig) : string :=
  "stalled: have not seen a new block on " +:+ ChainId cc +:+ " in " +:+
  pretty (Stalled (Alerts cc)) +:+ " minutes".

(** The moment before which the last block must lie for the chain to count as
    stalled; the conversion to a [Duration] wraps. *)
Definition stalledSince (now : time) (cc : ChainConfig) : time :=
  Add now (wrap64 (wrap64 (- Stalled (Alerts cc)) * Minute)).

Definition stalledTriggers (now : time) (cc : ChainConfig) : bool :=
  StalledAlerts (Alerts cc) && negb (lastBlockAlarm cc) && negb (IsZero (lastBlockTime cc)) &&
  Before (lastBlockTime cc) (stalledSince now cc).

Definition stalledResolves (cc : ChainConfig) : bool :=
  StalledAlerts (Alerts cc) && lastBlockAlarm cc && stalledResolutionPending cc.

Definition checkStalledAlert (k : string) (now : time) : M Config unit :=
  cc ← getChain k;
  if stalledTriggers now cc then
    let cc := cc <| lastBlockAlarm := true |> in
    _ ← putChain k cc;
    let '(vi, _) := validatorInfoSnapshot cc in
    alert now (cc_name cc) (stalledMessage cc) "critical" false (Some (from_option vi_Valcons "" vi))
  else if stalledResolves cc then
    let cc := cc <| lastBlockAlarm := false |> <| stalledResolutionPending := false |> in
    _ ← putChain k cc;
    let '(vi, _) := validatorInfoSnapshot cc in
    _ ← alert now (cc_name cc) (stalledMessage cc) "info" true (Some (from_option vi_Valcons "" vi));
    modifyS (fun c => c <| alarms := clearNoBlocks (cc_name cc) (alarms c) |>)
  else mret tt.

Definition recordFinalBlock (now : time) (cc : ChainConfig) : time * ChainConfig :=
  let previous := lastBlockTime cc in
  let cc := cc <| lastBlockTime := now |> in
  let cc := if lastBlockAlarm cc then cc <| stalledResolutionPending := true |> else cc in
  (previous, cc).

Definition lastFinalBlockTime (cc : ChainConfig) : time := lastBlockTime cc.

(** ** Missed-block percentage *)

Definition percentMissed (vi : ValInfo) : SpecFloat.spec_float :=
  f64_div (f64_mul (f64_of_Z 100) (f64_of_Z (vi_Missed vi))) (f64_of_Z (vi_Window vi)).

Definition percentageMessage (cc : ChainConfig) (vi : ValInfo) : string :=
  vi_Moniker vi +:+ " has missed > " +:+ pretty (Window (Alerts cc)) +:+
  "% of the slashing window's blocks on " +:+ ChainId cc.

(** Above the threshold while quiet, or below it while alarmed. *)
Definition percentageToggles (cc : ChainConfig) (vi : ValInfo) : bool :=
  let threshold := f64_of_Z (Window (Alerts cc)) in
  if percentageAlarm cc then f64_lt (percentMissed vi) threshold
  else f64_lt threshold (percentMissed vi).

Definition checkPercentageAlert (k : string) (now : time) : M Config unit :=
  cc ← getChain k;
  match (validatorInfoSnapshot cc).1 with
  | None => mret tt
  | Some vi =>
      if negb (PercentageAlerts (Alerts cc)) || (vi_Window vi =? 0) then mret tt
      else if percentageToggles cc vi then
        let res := percentageAlarm cc in
        _ ← putChain k (cc <| percentageAlarm := negb res |>);
        _ ← alert now (cc_name cc) (percentageMessage cc vi)
              (if res then "info" else PercentagePriority (Alerts cc)) res
              (Some (vi_Valcons vi +:+ "percent"));
        refreshActiveAlerts k
      else mret tt
  end.

(** ** Invariants of the configuration *)

(** Chains are registered under their own name and the dashboard's map of maps
    is allocated: what [loadConfig] and [validateConfig] establish. *)
Definition config_ok (c : Config) : Prop :=
  cache_ok (alarms c) /\ forall k cc, Chains c !! k = Some cc -> cc_name cc = k.

(** [c'] is [c] after alerts [l] were queued and chain [k] became [cc]; nothing
    else changed but the dashboard alarms and queued metrics. *)
Record emits (k : string) (l : list alertMsg) (cc : ChainConfig) (c c' : Config) : Prop := {
  em_chan : alertChan c' = alertChan c ++ l;
  em_chain : Chains c' !! k = Some cc;
  em_other : forall k', k' <> k -> Chains c' !! k' = Chains c !! k';
  em_ok : config_ok c';
  em_rest : c <| alertChan := alertChan c' |> <| Chains := Chains c' |> <| alarms := alarms c' |>
              <| statsChan := statsChan c' |> = c';
}.

(** ** Lemmas *)

Lemma emits_refl k cc c : config_ok c -> Chains c !! k = Some cc -> emits k [] cc c c.
Proof. intros Hok Hc. split; [by rewrite app_nil_r | done | done | done |]. by destruct c. Qed.

Lemma emits_trans k l1 l2 cc1 cc2 c c1 c2 :
  emits k l1 cc1 c c1 -> emits k l2 cc2 c1 c2 -> emits k (l1 ++ l2) cc2 c c2.
Proof.
  intros [A1 A2 A3 A4 A5] [B1 B2 B3 B4 B5]. split; [| done | | done |].
  - by rewrite B1, A1, app_assoc.
  - intros k' Hk. by rewrite B3, A3.
  - rewrite <- B5. rewrite <- A5. done.
Qed.

Lemma emits_put k cc c :
  config_ok c -> cc_name cc = k -> emits k [] cc c (c <| Chains := <[k := cc]> (Chains c) |>).
Proof.
  intros [Hok Hn] Hk. split; simpl.
  - by rewrite app_nil_r.
  - by rewrite lookup_insert_eq.
  - intros k' Hne. by rewrite lookup_insert_ne.
  - split; [done |]. simpl. intros k' cc' H. rewrite lookup_insert in H. case_decide; naive_solver.
  - by destruct c.
Qed.

Lemma emits_alarms k cc c al :
  config_ok c -> Chains c !! k = Some cc -> cache_ok al -> emits k [] cc c (c <| alarms := al |>).
Proof.
  intros [Hok Hn] Hc Hal. split; simpl; [by rewrite app_nil_r | done | done | done |]. by destruct c.
Qed.

Lemma emits_stats k cc c st :
  config_ok c -> Chains c !! k = Some cc -> emits k [] cc c (c <| statsChan := st |>).
Proof.
  intros [Hok Hn] Hc. split; simpl; [by rewrite app_nil_r | done | done | done |]. by destruct c.
Qed.

(** The alert is queued, unless ingress has stopped; it never panics. *)
Lemma alert_emits now k msg sev res id cc c :
  config_ok c -> Chains c !! k = Some cc ->
  exists c', alert now k msg sev res id c = Some (tt, c') /\
    emits k (if accepting c then [buildAlert c cc k msg sev res id] else []) cc c c'.
Proof.
  intros [Hok Hn] Hc. unfold alert, beginAlertIngress.
  destruct (accepting c) eqn:Hacc; simpl.
  - rewrite Hc. simpl.
    destruct (record_dashboard now k msg res (alarms c) Hok) as (al & -> & Hal & _). simpl.
    eexists. split; [reflexivity |].
    split; [done | done | done | done |].
    destruct c; simpl in *. subst. unfold finishAlertIngress; simpl; f_equal; lia.
  - exists c. split; [done |]. by apply emits_refl.
Qed.

Lemma clear_cache_ok k a : cache_ok a -> cache_ok (clearNoBlocks k a).
Proof.
  intros [m Hm]. unfold cache_ok, clearNoBlocks. destruct (minner _ _); simpl; rewrite Hm; by eexists.
Qed.

Lemma getChain_run k cc c : Chains c !! k = Some cc -> getChain k c = Some (cc, c).
Proof. intros H. unfold getChain. by rewrite H. Qed.

(** Messages depend on the shared settings only. *)
Lemma buildAlert_settings c c' ch k msg sev res id :
  c <| alertChan := alertChan c' |> <| Chains := Chains c' |> <| alarms := alarms c' |>
    <| statsChan := statsChan c' |> = c' ->
  buildAlert c' ch k msg sev res id = buildAlert c ch k msg sev res id.
Proof. by intros <-. Qed.

(** Changing a chain's own state and then alerting about it. *)
Lemma put_alert_emits now k msg sev res id cc c :
  config_ok c -> cc_name cc = k ->
  exists c', (putChain k cc ≫= fun _ => alert now k msg sev res id) c = Some (tt, c') /\
    emits k (if accepting c then [buildAlert c cc k msg sev res id] else []) cc c c'.
Proof.
  intros Hok Hk. unfold mbind, M_bind, putChain, modifyS.
  pose proof (emits_put k cc c Hok Hk) as Hput.
  destruct (alert_emits now k msg sev res id cc _ (em_ok _ _ _ _ _ Hput) (em_chain _ _ _ _ _ Hput))
    as (c' & E & He).
  exists c'. split; [exact E |].
  exact (emits_trans _ _ _ _ _ _ _ _ Hput He).
Qed.

Lemma refresh_emits k cc c :
  config_ok c -> Chains c !! k = Some cc ->
  exists c' n, refreshActiveAlerts k c = Some (tt, c') /\ emits k [] (cc <| activeAlerts := n |>) c c'.
Proof.
  intros Hok Hc. unfold refreshActiveAlerts, mbind, M_bind. rewrite (getChain_run _ _ _ Hc).
  eexists _, _. split; [reflexivity |]. apply emits_put; [done |]. simpl. by apply Hok.
Qed.

(** The alert [checkStalledAlert] raises. *)
Definition stalledAlert (c : Config) (cc : ChainConfig) (res : bool) : alertMsg :=
  buildAlert c cc (cc_name cc) (stalledMessage cc) (if res then "info" else "critical") res
    (Some (from_option vi_Valcons "" (valInfo cc))).

Lemma checkStalledAlert_emits k now cc c :
  config_ok c -> Chains c !! k = Some cc ->
  exists c', checkStalledAlert k now c = Some (tt, c') /\
    (if stalledTriggers now cc then
       emits k (if accepting c then [stalledAlert c cc false] else []) (cc <| lastBlockAlarm := true |>) c c'
     else if stalledResolves cc then
       emits k (if accepting c then [stalledAlert c cc true] else [])
         (cc <| lastBlockAlarm := false |> <| stalledResolutionPending := false |>) c c'
     else c' = c).
Proof.
  intros Hok Hc. assert (cc_name cc = k) as Hk by by apply Hok.
  unfold checkStalledAlert. rewrite (bindM_run _ _ _ _ _ (getChain_run _ _ _ Hc)).
  rewrite !validatorInfoSnapshot_eq. subst k.
  destruct (stalledTriggers now cc); [| destruct (stalledResolves cc)].
  - pose proof (put_alert_emits now (cc_name cc) (stalledMessage cc) "critical" false
      (Some (from_option vi_Valcons "" (valInfo cc))) (cc <| lastBlockAlarm := true |>) c Hok eq_refl) as H.
    exact H.
  - pose proof (put_alert_emits now (cc_name cc) (stalledMessage cc) "info" true
      (Some (from_option vi_Valcons "" (valInfo cc)))
      (cc <| lastBlockAlarm := false |> <| stalledResolutionPending := false |>) c Hok eq_refl)
      as (c1 & E & He).
    eexists. split; [exact (bindM_assoc_run _ _ _ _ _ _ E) |].
    eapply (eq_ind _ (fun l => emits _ l _ _ _)); [| apply app_nil_r].
    eapply emits_trans; [exact He |].
    apply emits_alarms; [apply He | apply He | apply clear_cache_ok, He].
  - by exists c.
Qed.

(** The alert [checkPercentageAlert] raises. *)
Definition percentageAlert (c : Config) (cc : ChainConfig) (vi : ValInfo) : alertMsg :=
  let res := percentageAlarm cc in
  buildAlert c cc (cc_name cc) (percentageMessage cc vi)
    (if res then "info" else PercentagePriority (Alerts cc)) res (Some (vi_Valcons vi +:+ "percent")).

(** When [checkPercentageAlert] acts. *)
Definition percentageActs (cc : ChainConfig) (vi : ValInfo) : bool :=
  PercentageAlerts (Alerts cc) && negb (vi_Window vi =? 0) && percentageToggles cc vi.

Lemma checkPercentageAlert_emits k now cc c :
  config_ok c -> Chains c !! k = Some cc ->
  exists c', checkPercentageAlert k now c = Some (tt, c') /\
    match valInfo cc with
    | Some vi =>
        if percentageActs cc vi then
          exists n, emits k (if accepting c then [percentageAlert c cc vi] else [])
            (cc <| percentageAlarm := negb (percentageAlarm cc) |> <| activeAlerts := n |>) c c'
        else c' = c
    | None => c' = c
    end.
Proof.
  intros Hok Hc. assert (cc_name cc = k) as Hk by by apply Hok. subst k.
  unfold checkPercentageAlert. rewrite (bindM_run _ _ _ _ _ (getChain_run _ _ _ Hc)).
  rewrite validatorInfoSnapshot_eq. cbn [fst]. unfold percentageActs.
  destruct (valInfo cc) as [vi |]; [| by exists c].
  destruct (PercentageAlerts (Alerts cc)); cbn [negb orb andb]; [| by exists c].
  destruct (vi_Window vi =? 0); cbn [negb orb andb]; [by exists c |].
  destruct (percentageToggles cc vi); [| by exists c].
  pose proof (put_alert_emits now (cc_name cc) (percentageMessage cc vi)
    (if percentageAlarm cc then "info" else PercentagePriority (Alerts cc)) (percentageAlarm cc)
    (Some (vi_Valcons vi +:+ "percent")) (cc <| percentageAlarm := negb (percentageAlarm cc) |>) c
    Hok eq_refl) as (c1 & E & He).
  destruct (refresh_emits _ _ _ (em_ok _ _ _ _ _ He) (em_chain _ _ _ _ _ He)) as (c2 & n & E2 & He2).
  exists c2. rewrite (bindM_assoc_run _ _ _ _ _ _ E). split; [done |]. exists n.
  eapply (eq_ind _ (fun l => emits _ l _ _ _)); [| apply app_nil_r].
  exact (emits_trans _ _ _ _ _ _ _ _ He He2).
Qed.

(** ** Histories of one chain

    What the other goroutines do to a chain between two checks: a block is
    finalised, the validator information is refreshed. *)

Inductive chainEvent :=
  | FinalBlock (t : time)
  | Refresh (next : ValInfo) (retain : bool)
  | CheckStalled (now : time)
  | CheckPercentage (now : time).

Definition onChain (k : string) (f : ChainConfig -> ChainConfig) : M Config unit :=
  cc ← getChain k; putChain k (f cc).

Definition chain_event (k : string) (e : chainEvent) : M Config unit :=
  match e with
  | FinalBlock t => onChain k (fun cc => (recordFinalBlock t cc).2)
  | Refresh next retain => onChain k (publishValidatorInfo next retain)
  | CheckStalled now => checkStalledAlert k now
  | CheckPercentage now => checkPercentageAlert k now
  end.

Lemma onChain_emits k f cc c :
  config_ok c -> Chains c !! k = Some cc -> cc_name (f cc) = cc_name cc ->
  exists c', onChain k f c = Some (tt, c') /\ emits k [] (f cc) c c'.
Proof.
  intros Hok Hc Hf. unfold onChain. rewrite (bindM_run _ _ _ _ _ (getChain_run _ _ _ Hc)).
  eexists. split; [reflexivity |]. apply emits_put; [done |]. rewrite Hf. by apply Hok.
Qed.

(** Which check raised an alert of the chain. *)
Definition is_stalled (cc : ChainConfig) (a : alertMsg) : Prop := message a = stalledMessage cc.

(** One event raises at most one alert, and the alarm flags tell which. *)
Lemma chain_event_emits k e cc c :
  config_ok c -> accepting c = true -> Chains c !! k = Some cc ->
  exists c' cc' l, chain_event k e c = Some (tt, c') /\ emits k l cc' c c' /\
    cc_name cc' = cc_name cc /\ ChainId cc' = ChainId cc /\ Alerts cc' = Alerts cc /\
    match e with
    | CheckStalled _ =>
        percentageAlarm cc' = percentageAlarm cc /\ valInfo cc' = valInfo cc /\
        (l = [] /\ lastBlockAlarm cc' = lastBlockAlarm cc \/
         l = [stalledAlert c cc (lastBlockAlarm cc)] /\ lastBlockAlarm cc' = negb (lastBlockAlarm cc))
    | CheckPercentage _ =>
        lastBlockAlarm cc' = lastBlockAlarm cc /\ valInfo cc' = valInfo cc /\
        (l = [] /\ percentageAlarm cc' = percentageAlarm cc \/
         exists vi, valInfo cc = Some vi /\ l = [percentageAlert c cc vi] /\
           percentageAlarm cc' = negb (percentageAlarm cc))
    | _ => l = [] /\ lastBlockAlarm cc' = lastBlockAlarm cc /\ percentageAlarm cc' = percentageAlarm cc
    end.
Proof.
  intros Hok Hacc Hc. destruct e as [t | next retain | now | now]; cbn [chain_event].
  - destruct (onChain_emits k (fun cc => (recordFinalBlock t cc).2) cc c) as (c' & E & He); [done.. | |].
    { unfold recordFinalBlock. simpl. by destruct (lastBlockAlarm cc). }
    do 3 eexists. split_and!; [exact E | exact He | ..];
      unfold recordFinalBlock; simpl; by destruct (lastBlockAlarm cc).
  - destruct (onChain_emits k (publishValidatorInfo next retain) cc c) as (c' & E & He); [done.. | |].
    { by destruct retain. }
    do 3 eexists. split_and!; [exact E | exact He | ..]; by destruct retain.
  - destruct (checkStalledAlert_emits k now cc c Hok Hc) as (c' & E & He). rewrite Hacc in He.
    destruct (stalledTriggers now cc) eqn:Et.
    + unfold stalledTriggers in Et. breflect.
      do 3 eexists. split_and!; [exact E | exact He | done..|]. right.
      assert (lastBlockAlarm cc = false) as Hf by done. simpl. by rewrite Hf.
    + destruct (stalledResolves cc) eqn:Er.
      * unfold stalledResolves in Er. breflect.
        do 3 eexists. split_and!; [exact E | exact He | done..|]. right.
        assert (lastBlockAlarm cc = true) as Hf by done. simpl. by rewrite Hf.
      * subst c'. do 3 eexists. split_and!; [exact E | by apply emits_refl | done..|]. by left.
  - destruct (checkPercentageAlert_emits k now cc c Hok Hc) as (c' & E & He). rewrite Hacc in He.
    destruct (valInfo cc) as [vi |] eqn:Hvi; [destruct (percentageActs cc vi) |].
    + destruct He as [n He]. do 3 eexists. split_and!; [exact E | exact He | done..|]. right.
      by exists vi.
    + subst c'. do 3 eexists. split_and!; [exact E | by apply emits_refl | done..|]. by left.
    + subst c'. do 3 eexists. split_and!; [exact E | by apply emits_refl | done..|]. by left.
Qed.

(** The alerts queued between two states of the configuration. *)
Definition new_alerts (c c' : Config) : list alertMsg := drop (length (alertChan c)) (alertChan c').

(** Running a history, with each alert tagged by the event that raised it. *)
Fixpoint raised (k : string) (evs : list chainEvent) (c : Config)
  : option (list (chainEvent * alertMsg) * Config) :=
  match evs with
  | [] => Some ([], c)
  | e :: evs' =>
      '(_, c1) ← chain_event k e c;
      '(l, c2) ← raised k evs' c1;
      Some ((pair e <$> new_alerts c c1) ++ l, c2)
  end.

Definition by_stalled (p : chainEvent * alertMsg) : bool :=
  match p.1 with CheckStalled _ => true | _ => false end.

Definition by_percentage (p : chainEvent * alertMsg) : bool :=
  match p.1 with CheckPercentage _ => true | _ => false end.

Definition flags_of (f : chainEvent * alertMsg -> bool) (l : list (chainEvent * alertMsg)) : list bool :=
  (fun p => resolved p.2) <$> filter (fun p => f p = true) l.

Lemma new_alerts_emits k l cc c c' : emits k l cc c c' -> new_alerts c c' = l.
Proof. intros [H _ _ _ _]. unfold new_alerts. by rewrite H, drop_app_length. Qed.

Lemma emits_accepting k l cc c c' : emits k l cc c c' -> accepting c' = accepting c.
Proof. intros [_ _ _ _ H]. by rewrite <- H. Qed.

Lemma raised_alternates k evs : forall cc c,
  config_ok c -> accepting c = true -> Chains c !! k = Some cc ->
  exists l c', raised k evs c = Some (l, c') /\ alertChan c' = alertChan c ++ l.*2 /\ config_ok c' /\
    alternating (lastBlockAlarm cc) (flags_of by_stalled l) /\
    alternating (percentageAlarm cc) (flags_of by_percentage l) /\
    Forall (fun p => chain p.2 = k /\ (by_stalled p || by_percentage p) = true /\
                     (by_stalled p = true -> message p.2 = stalledMessage cc)) l.
Proof.
  induction evs as [| e evs IH]; intros cc c Hok Hacc Hc; cbn [raised].
  { exists [], c. split_and!; try done. by rewrite app_nil_r. }
  destruct (chain_event_emits k e cc c Hok Hacc Hc)
    as (c1 & cc1 & l1 & -> & He & Hn & Hid & Hal & Hcase).
  destruct (IH cc1 c1) as (l & c2 & E2 & Hch & Hok2 & Ha & Hp & Hf).
  { apply He. } { by rewrite (emits_accepting _ _ _ _ _ He). } { apply He. }
  simpl. rewrite E2. simpl. rewrite (new_alerts_emits _ _ _ _ _ He).
  assert (stalledMessage cc1 = stalledMessage cc) as Hm.
  { unfold stalledMessage. by rewrite Hid, Hal. }
  assert (cc_name cc = k) as Hk by by apply Hok.
  rewrite Hm in Hf.
  eexists _, c2. split; [reflexivity |]. split.
  { rewrite Hch, (em_chan _ _ _ _ _ He), <- app_assoc, fmap_app, <- list_fmap_compose.
    f_equal. f_equal. by rewrite list_fmap_id. }
  split; [done |].
  destruct e as [t | next retain | now | now];
    [destruct Hcase as (-> & Hl & Hpc); simpl; by rewrite <- Hl, <- Hpc
    | destruct Hcase as (-> & Hl & Hpc); simpl; by rewrite <- Hl, <- Hpc | ..].
  - destruct Hcase as (Hpc & _ & [[-> Hl] | [-> Hl]]); simpl; rewrite <- Hpc.
    + by rewrite <- Hl.
    + rewrite Hl in Ha. unfold flags_of in *. simpl. split_and!; [done | done | done |].
      constructor; [| done]. simpl. by rewrite Hk.
  - destruct Hcase as (Hl & _ & [[-> Hpc] | (vi & Hvi & -> & Hpc)]); simpl; rewrite <- Hl.
    + by rewrite <- Hpc.
    + rewrite Hpc in Hp. unfold flags_of in *. simpl. split_and!; [done | done | done |].
      constructor; [| done]. simpl. by rewrite Hk.
Qed.

(** ** Properties *)

(** C22: functional, two-level enablement.  With ingress open, [Config.alert]
    for a registered chain queues exactly one message, never panics, and
    records (or clears) the message on the dashboard; the message is addressed
    to a destination exactly when it is enabled both globally and for the
    chain, and carries the chain's credentials and the given identity. Once
    ingress is stopped it changes nothing at all. *)
Theorem alert_two_level_gate (now : time) (k msg sev : string) (res : bool) (id : option string)
    (cc : ChainConfig) (c : Config) :
  config_ok c -> Chains c !! k = Some cc ->
  exists c', alert now k msg sev res id c = Some (tt, c') /\
    (accepting c = false -> c' = c) /\
    (accepting c = true ->
       exists a, alertChan c' = alertChan c ++ [a] /\ ingressWG c' = ingressWG c /\
         dashboard (alarms c') k =
           (if res then delete msg (dashboard (alarms c) k) else <[msg := now]> (dashboard (alarms c) k)) /\
         message a = msg /\ resolved a = res /\ severity a = sev /\ chain a = k /\
         uniqueId a = default (ValAddress cc) id /\
         (enabled pd a = true <-> PD_Enabled (Pagerduty c) = true /\
            PD_Enabled (AC_Pagerduty (Alerts cc)) = true /\ PD_ApiKey (AC_Pagerduty (Alerts cc)) <> exampleKey) /\
         (enabled di a = true <-> DC_Enabled (Discord c) = true /\ DC_Enabled (AC_Discord (Alerts cc)) = true) /\
         (enabled tg a = true <-> TC_Enabled (Telegram c) = true /\ TC_Enabled (AC_Telegram (Alerts cc)) = true) /\
         (enabled slk a = true <-> SC_Enabled (Slack c) = true /\ SC_Enabled (AC_Slack (Alerts cc)) = true)).
Proof.
  intros [Hok Hn] Hc. unfold alert, beginAlertIngress.
  destruct (accepting c) eqn:Hacc; simpl; [| by exists c].
  rewrite Hc. simpl.
  destruct (record_dashboard now k msg res (alarms c) Hok) as (al & -> & Hal & Hd & _). simpl.
  eexists. split; [reflexivity |]. split; [done |]. intros _.
  eexists. split; [reflexivity |]. simpl. split_and!; try done; try lia;
    rewrite ?andb_true_iff, ?negb_true_iff, ?String.eqb_neq; tauto.
Qed.

(** C7: safety over histories.  Interleave block finalisations, validator
    refreshes and the two checks of a chain in any order: nothing panics, every
    alert is raised by a check and names the chain, and the alerts of each
    check alternate trigger, resolution, trigger, ... starting from the alarm's
    current state.  All stalled alerts of the chain carry one and the same
    message, so a resolution always matches its trigger. *)
Theorem chain_alerts_alternate (k : string) (evs : list chainEvent) (cc : ChainConfig) (c : Config) :
  config_ok c -> accepting c = true -> Chains c !! k = Some cc ->
  exists l c', raised k evs c = Some (l, c') /\ alertChan c' = alertChan c ++ l.*2 /\
    alternating (lastBlockAlarm cc) (flags_of by_stalled l) /\
    alternating (percentageAlarm cc) (flags_of by_percentage l) /\
    Forall (fun p => chain p.2 = k /\ (by_stalled p || by_percentage p) = true /\
                     (by_stalled p = true -> message p.2 = stalledMessage cc)) l.
Proof.
  intros Hok Hacc Hc. destruct (raised_alternates k evs cc c Hok Hacc Hc) as (l & c' & H).
  exists l, c'. naive_solver.
Qed.

(** The largest stall threshold whose conversion to a [Duration] is exact. *)
Definition maxStalledMinutes : Z := 153722867.

Lemma stalledSince_exact now cc :
  0 <= Stalled (Alerts cc) <= maxStalledMinutes ->
  stalledSince now cc = now - Stalled (Alerts cc) * Minute.
Proof.
  unfold maxStalledMinutes, stalledSince, Add. intros H.
  assert (Minute = 60000000000) as HM by reflexivity.
  rewrite (wrap64_small (- _)) by (unfold in_int64; lia).
  rewrite wrap64_small by (unfold in_int64; rewrite HM; lia). lia.
Qed.

(** Functional and bounds.  For stall thresholds up to [maxStalledMinutes]
    (292 years), [checkStalledAlert] raises its trigger exactly when the check
    is enabled, the alarm is not set, a block has been seen and more than the
    configured minutes have passed since; it raises its resolution exactly when
    the alarm is set and a block was finalised since; otherwise the
    configuration is left as it was. *)
Theorem stalled_check_exact (k : string) (now : time) (cc : ChainConfig) (c : Config) :
  config_ok c -> Chains c !! k = Some cc -> accepting c = true ->
  0 <= Stalled (Alerts cc) <= maxStalledMinutes ->
  exists c', checkStalledAlert k now c = Some (tt, c') /\
    (new_alerts c c' = [stalledAlert c cc false] <->
       StalledAlerts (Alerts cc) = true /\ lastBlockAlarm cc = false /\ lastBlockTime cc <> 0 /\
       now - lastBlockTime cc > Stalled (Alerts cc) * Minute) /\
    (new_alerts c c' = [stalledAlert c cc true] <->
       StalledAlerts (Alerts cc) = true /\ lastBlockAlarm cc = true /\
       stalledResolutionPending cc = true) /\
    (new_alerts c c' = [] -> c' = c).
Proof.
  intros Hok Hc Hacc Hr. destruct (checkStalledAlert_emits k now cc c Hok Hc) as (c' & E & He).
  rewrite Hacc in He. exists c'. split; [done |].
  assert (stalledTriggers now cc = true <->
    StalledAlerts (Alerts cc) = true /\ lastBlockAlarm cc = false /\ lastBlockTime cc <> 0 /\
    now - lastBlockTime cc > Stalled (Alerts cc) * Minute) as Ht.
  { unfold stalledTriggers, IsZero, Before. rewrite stalledSince_exact by done.
    rewrite !andb_true_iff, !negb_true_iff, Z.eqb_neq, Z.ltb_lt. intuition lia. }
  assert (stalledResolves cc = true <->
    StalledAlerts (Alerts cc) = true /\ lastBlockAlarm cc = true /\ stalledResolutionPending cc = true)
    as Hs.
  { unfold stalledResolves. rewrite !andb_true_iff. tauto. }
  assert (forall r, [stalledAlert c cc r] = [stalledAlert c cc (negb r)] -> False) as Hne.
  { intros r H. apply (f_equal (fmap resolved)) in H. by destruct r. }
  destruct (stalledTriggers now cc); [| destruct (stalledResolves cc)].
  - rewrite (new_alerts_emits _ _ _ _ _ He). destruct Ht as [Ht _]. specialize (Ht eq_refl).
    split_and!; [tauto | | done].
    split; [by intros H%(Hne false) |]. intros (_ & H & _). destruct Ht as (_ & Ht & _). congruence.
  - rewrite (new_alerts_emits _ _ _ _ _ He). destruct Hs as [Hs _]. specialize (Hs eq_refl).
    split_and!; [| tauto | done].
    split; [by intros H%(Hne true) |]. intros (_ & H & _). destruct Hs as (_ & Hs & _). congruence.
  - subst c'. unfold new_alerts. rewrite drop_all. split_and!; [| | done].
    + split; [done |]. by intros H%Ht.
    + split; [done |]. by intros H%Hs.
Qed.

(** Liveness.  While the stalled alarm is set, checks before a new block
    raise nothing; the first check after a block is finalised raises exactly
    one resolution and clears the alarm, and a further check raises nothing
    until the chain stalls again. *)
Theorem stalled_resolves_once (k : string) (t now now' : time) (cc : ChainConfig) (c : Config) :
  config_ok c -> Chains c !! k = Some cc -> accepting c = true ->
  StalledAlerts (Alerts cc) = true -> lastBlockAlarm cc = true -> stalledResolutionPending cc = false ->
  stalledSince now' cc <= t ->
  exists c' cc', raised k [CheckStalled now; FinalBlock t; CheckStalled now; CheckStalled now'] c =
      Some ([(CheckStalled now, stalledAlert c cc true)], c') /\
    Chains c' !! k = Some cc' /\ lastBlockAlarm cc' = false /\ lastBlockTime cc' = t.
Proof.
  intros Hok Hc Hacc Hen Hal Hpend Hnow. cbn [raised chain_event].
  destruct (checkStalledAlert_emits k now cc c Hok Hc) as (c1 & -> & He1).
  unfold stalledTriggers, stalledResolves in He1. rewrite Hen, Hal, Hpend in He1. simpl in He1. subst c1.
  cbn [mbind option_bind]. pose proof (onChain_emits k (fun cc => (recordFinalBlock t cc).2) cc c Hok Hc) as H2.
  destruct H2 as (c2 & -> & He2). { unfold recordFinalBlock. simpl. by rewrite Hal. }
  cbn [mbind option_bind]. set (cc2 := (recordFinalBlock t cc).2) in *.
  assert (cc2 = cc <| lastBlockTime := t |> <| stalledResolutionPending := true |>) as Ecc2.
  { subst cc2. unfold recordFinalBlock. simpl. by rewrite Hal. }
  destruct (checkStalledAlert_emits k now cc2 c2 (em_ok _ _ _ _ _ He2) (em_chain _ _ _ _ _ He2))
    as (c3 & -> & He3).
  rewrite (emits_accepting _ _ _ _ _ He2), Hacc in He3.
  unfold stalledTriggers, stalledResolves in He3. rewrite Ecc2 in He3. simpl in He3.
  rewrite Hen, Hal in He3. simpl in He3.
  pose proof (em_ok _ _ _ _ _ He3) as Hok3. pose proof (em_chain _ _ _ _ _ He3) as Hc3.
  cbn [mbind option_bind]. destruct (checkStalledAlert_emits k now' _ c3 Hok3 Hc3) as (c4 & -> & He4).
  unfold stalledTriggers, stalledResolves in He4. simpl in He4. rewrite Hen in He4. simpl in He4.
  unfold Before, stalledSince in *. simpl in He4. rewrite (proj2 (Z.ltb_ge _ _) Hnow), andb_false_r in He4.
  subst c4. simpl. rewrite (new_alerts_emits _ _ _ _ _ He2), (new_alerts_emits _ _ _ _ _ He3).
  unfold new_alerts. rewrite !drop_all. simpl.
  eexists c3, _. split; [| split; [exact Hc3 | done]].
  f_equal. f_equal. f_equal. f_equal. unfold stalledAlert. simpl.
  by rewrite (buildAlert_settings c c2) by apply He2.
Qed.

(** The mention lists of a chain never reach a destination.  Replacing the
    Telegram, Discord and Slack mentions of a chain changes no request for any
    destination: the built bodies do not use the Telegram and Discord mentions,
    and the Slack mentions are not copied into the alert. *)
Theorem mentions_never_delivered (c : Config) (cc : ChainConfig) (k msg sev : string) (res : bool)
    (id : option string) (tms dms sms : list string) (d : notifyDest) :
  let al := Alerts cc in
  let al' := al <| AC_Telegram := AC_Telegram al <| TC_Mentions := tms |> |>
                <| AC_Discord := AC_Discord al <| DC_Mentions := dms |> |>
                <| AC_Slack := AC_Slack al <| SC_Mentions := sms |> |> in
  request_for d (buildAlert c (cc <| Alerts := al' |>) k msg sev res id) =
  request_for d (buildAlert c cc k msg sev res id).
Proof. by destruct d. Qed.

(** ** Witnesses *)

Lemma sampleConfig_ok : config_ok sampleConfig.
Proof.
  split; [by eexists |]. intros k cc H. simpl in H. apply lookup_singleton_Some in H as [<- <-]. done.
Qed.

Lemma alert_two_level_gate_witness :
  config_ok sampleConfig /\
  exists c', alert unix_epoch "Osmosis" "m" "critical" false None sampleConfig = Some (tt, c') /\
    length (alertChan c') = 1%nat.
Proof.
  split; [apply sampleConfig_ok |].
  destruct (alert_two_level_gate unix_epoch "Osmosis" "m" "critical" false None sampleChain sampleConfig
              sampleConfig_ok eq_refl) as (c' & E & _ & H).
  exists c'. split; [exact E |]. destruct (H eq_refl) as (a & Ha & _). by rewrite Ha.
Defined.

Lemma chain_alerts_alternate_witness :
  let later := unix_epoch + Hour in
  let evs := [CheckStalled later; CheckPercentage later; CheckStalled later; FinalBlock later;
              CheckStalled later; Refresh (sampleValInfo <| vi_Missed := 9 |>) true;
              CheckPercentage later] in
  exists l c', raised "Osmosis" evs sampleConfig = Some (l, c') /\
    flags_of by_stalled l = [false; true] /\ flags_of by_percentage l = [false; true] /\
    alternating false (flags_of by_stalled l).
Proof.
  intros later evs.
  destruct (chain_alerts_alternate "Osmosis" evs sampleChain sampleConfig sampleConfig_ok eq_refl eq_refl)
    as (l & c' & E & _ & Ha & _).
  exists l, c'. split; [exact E |].
  assert ((flags_of by_stalled l, flags_of by_percentage l) = ([false; true], [false; true])) as H.
  { transitivity (from_option (fun p => (flags_of by_stalled p.1, flags_of by_percentage p.1)) ([], [])
                    (raised "Osmosis" evs sampleConfig)); [by rewrite E | by vm_compute]. }
  injection H as H1 H2. split_and!; [exact H1 | exact H2 | exact Ha].
Defined.

Lemma stalled_check_exact_witness :
  0 <= Stalled (Alerts sampleChain) <= maxStalledMinutes /\
  exists c', checkStalledAlert "Osmosis" (unix_epoch + Hour) sampleConfig = Some (tt, c') /\
    new_alerts sampleConfig c' = [stalledAlert sampleConfig sampleChain false].
Proof.
  assert (0 <= Stalled (Alerts sampleChain) <= maxStalledMinutes) as H by by vm_compute.
  split; [exact H |].
  destruct (stalled_check_exact "Osmosis" (unix_epoch + Hour) sampleChain sampleConfig sampleConfig_ok
              eq_refl eq_refl H) as (c' & E & Ht & _).
  exists c'. split; [exact E |]. apply Ht. split_and!; [done | done | by vm_compute | by vm_compute].
Defined.

Lemma stalled_resolves_once_witness :
  let cc := sampleChain <| lastBlockAlarm := true |> in
  let c := sampleConfig <| Chains := {[ "Osmosis" := cc ]} |> in
  exists c', raised "Osmosis" [CheckStalled (unix_epoch + Hour); FinalBlock (unix_epoch + Hour);
                     CheckStalled (unix_epoch + Hour); CheckStalled (unix_epoch + Hour)] c =
    Some ([(CheckStalled (unix_epoch + Hour), stalledAlert c cc true)], c').
Proof.
  intros cc c.
  assert (config_ok c) as Hok.
  { split; [by eexists |]. intros k cc' H. simpl in H. apply lookup_singleton_Some in H as [<- <-]. done. }
  destruct (stalled_resolves_once "Osmosis" (unix_epoch + Hour) (unix_epoch + Hour) (unix_epoch + Hour)
              cc c Hok eq_refl eq_refl eq_refl eq_refl eq_refl ltac:(by vm_compute)) as (c' & cc' & E & _).
  exists c'. exact E.
Defined.
