(* ===== verification/Watch.v ===== *)
(** * The watch loop (alert.go, [ChainConfig.watch])

    The local variables of the goroutine, one definition per check in its body,
    and the body itself ([watch_step]).  The loop's waiting is between steps: a
    step starts when the two-second wait has elapsed, and what other goroutines
    did to the configuration meanwhile is in the state it starts from.  The
    clock is read once per step. *)

From S2P Require Import Prelude Types AlarmCache Delivery Samples RuntimeState Alerting.

Local Open Scope Z_scope.

(** ** The loop's variables *)

Record watchVars := MkWatchVars {
  missedAlarm : bool;
  noNodesAlarm : bool;
  inactive : string;
  nodeAlarms : gmap string bool;
  noNodesSec : Z;
}.

#[export] Instance eta_watchVars : Eta watchVars := {| eta_of r :=
  MkWatchVars (missedAlarm r) (noNodesAlarm r) (inactive r) (nodeAlarms r) (noNodesSec r) |}.

Definition initWatch : watchVars := MkWatchVars false false "jailed" ∅ 0.

(** ** Waiting for a moniker *)

Definition noServersMessage (cc : ChainConfig) : string :=
  "no RPC endpoints are working for " +:+ ChainId cc.

Definition connected (vi : option ValInfo) : bool :=
  match vi with None => false | Some v => negb (String.eqb (vi_Moniker v) "not connected") end.

(** One round of the first loop: [vi] is the snapshot taken before the
    one-second wait, the rest is read after it. [true] leaves the loop. *)
Definition watch_connect (k : string) (now : time) (vi : option ValInfo) (w : watchVars)
  : M Config (bool * watchVars) :=
  if connected vi then mret (true, w <| noNodesSec := 0 |>)
  else
    cc ← getChain k;
    c ← getS;
    if AlertIfNoServers (Alerts cc) && negb (noNodesAlarm w) && noNodesState cc &&
       (wrap64 (60 * NodeDownMin c) <=? noNodesSec w)
    then
      _ ← alert now (cc_name cc) (noServersMessage cc) "critical" false
            (Some (from_option vi_Valcons "" vi));
      mret (false, w <| noNodesAlarm := true |> <| noNodesSec := noNodesSec w + 1 |>)
    else mret (false, w <| noNodesSec := noNodesSec w + 1 |>).

(** ** The checks of one round *)

Definition checkNoServers (k : string) (now : time) (vi : ValInfo) (w : watchVars) : M Config watchVars :=
  cc ← getChain k;
  c ← getS;
  if AlertIfNoServers (Alerts cc) && negb (noNodesAlarm w) && noNodesState cc then
    let sec := noNodesSec w + 2 in
    if sec <=? wrap64 (30 * NodeDownMin c) then
      mret (w <| noNodesSec := sec |> <| noNodesAlarm := false |>)
    else
      _ ← alert now (cc_name cc) (noServersMessage cc) "critical" false (Some (vi_Valcons vi));
      mret (w <| noNodesSec := 0 |> <| noNodesAlarm := true |>)
  else if AlertIfNoServers (Alerts cc) && noNodesAlarm w && negb (noNodesState cc) then
    _ ← alert now (cc_name cc) (noServersMessage cc) "critical" true (Some (vi_Valcons vi));
    mret (w <| noNodesAlarm := false |>)
  else mret (w <| noNodesSec := 0 |>).

Definition inactiveMessage (vi : ValInfo) (why : string) : string :=
  vi_Moniker vi +:+ " is no longer active: validator is " +:+ why.

Definition checkInactive (k : string) (now : time) (vi : ValInfo) (last : option ValInfo) (w : watchVars)
  : M Config watchVars :=
  cc ← getChain k;
  match last with
  | None => mret w
  | Some lvi =>
      if AlertIfInactive (Alerts cc) && negb (eqb (vi_Bonded lvi) (vi_Bonded vi)) &&
         String.eqb (vi_Moniker lvi) (vi_Moniker vi)
      then
        let id := vi_Valcons vi +:+ "jailed" in
        if negb (vi_Bonded vi) && vi_Bonded lvi then
          let w := if vi_Tombstoned vi then w <| inactive := "☠️ tombstoned 🪦" |> else w in
          _ ← alert now (cc_name cc) (inactiveMessage vi (inactive w)) "critical" false (Some id);
          mret w
        else if vi_Bonded vi && negb (vi_Bonded lvi) then
          _ ← alert now (cc_name cc) (inactiveMessage vi (inactive w)) "info" true (Some id);
          mret w
        else mret w
      else mret w
  end.

Definition consecutiveMessage (cc : ChainConfig) (vi : ValInfo) : string :=
  vi_Moniker vi +:+ " has missed " +:+ pretty (ConsecutiveMissed (Alerts cc)) +:+ " blocks on " +:+
  ChainId cc.

Definition checkConsecutive (k : string) (now : time) (vi : ValInfo) (w : watchVars) : M Config watchVars :=
  cc ← getChain k;
  let id := vi_Valcons vi +:+ "consecutive" in
  if negb (missedAlarm w) && ConsecutiveAlerts (Alerts cc) &&
     (ConsecutiveMissed (Alerts cc) <=? statConsecutiveMiss cc)
  then
    _ ← alert now (cc_name cc) (consecutiveMessage cc vi) (ConsecutivePriority (Alerts cc)) false (Some id);
    _ ← refreshActiveAlerts k;
    mret (w <| missedAlarm := true |>)
  else if missedAlarm w && (statConsecutiveMiss cc <? ConsecutiveMissed (Alerts cc)) then
    _ ← alert now (cc_name cc) (consecutiveMessage cc vi) "info" true (Some id);
    _ ← refreshActiveAlerts k;
    mret (w <| missedAlarm := false |>)
  else mret w.

Definition nodeMessage (c : Config) (cc : ChainConfig) (n : NodeConfig) : string :=
  "Severity: " +:+ NodeDownSeverity c +:+ nl +:+ "RPC node " +:+ Url n +:+ " has been down for > " +:+
  pretty (NodeDownMin c) +:+ " minutes on " +:+ ChainId cc.

(** Down for longer than the configured minutes, and not reported before. *)
Definition nodeTriggers (now : time) (c : Config) (n : NodeConfig) : bool :=
  let st := nodeState n in
  AlertIfDown n && down st && negb (wasDown st) && negb (IsZero (downSince st)) &&
  (wrap64 (NodeDownMin c * Minute) <? Since now (downSince st)).

Definition nodeResolves (n : NodeConfig) : bool :=
  let st := nodeState n in AlertIfDown n && negb (down st) && wasDown st.

(** [cc.updateNodeState(node, f)] for the node at index [i]. *)
Definition updateNode (i : nat) (f : nodeRuntimeState -> nodeRuntimeState) (cc : ChainConfig) : ChainConfig :=
  cc <| Nodes := alter (fun n => (updateNodeState f n).2) i (Nodes cc) |>.

Definition checkNode (k : string) (now : time) (i : nat) (al : gmap string bool)
  : M Config (gmap string bool) :=
  cc ← getChain k;
  c ← getS;
  match Nodes cc !! i with
  | None => mret al
  | Some n =>
      if nodeTriggers now c n then
        if default false (al !! Url n) then mret al
        else
          _ ← refreshActiveAlerts k;
          _ ← alert now (cc_name cc) (nodeMessage c cc n) (NodeDownSeverity c) false (Some (Url n));
          mret (<[Url n := true]> al)
      else if nodeResolves n then
        _ ← onChain k (updateNode i (fun st => st <| wasDown := false |>));
        _ ← alert now (cc_name cc) (nodeMessage c cc n) "info" true (Some (Url n));
        _ ← refreshActiveAlerts k;
        mret (<[Url n := false]> al)
      else mret al
  end.

Fixpoint checkNodes (k : string) (now : time) (idx : list nat) (al : gmap string bool)
  : M Config (gmap string bool) :=
  match idx with
  | [] => mret al
  | i :: idx' => al' ← checkNode k now i al; checkNodes k now idx' al'
  end.

(** [emitStat] inside a loop that returns when the context is done. *)
Definition emit (k : string) (t : metricType) (v : SpecFloat.spec_float) (node : string) : M Config bool :=
  cc ← getChain k;
  c ← getS;
  stateM (emitStat (cancelled c) (mkUpdate t v node cc)).

(** The seconds each down node has been down. *)
Fixpoint emitNodeDown (k : string) (now : time) (ns : list NodeConfig) : M Config bool :=
  match ns with
  | [] => mret true
  | n :: ns' =>
      let st := nodeState n in
      if down st && negb (IsZero (downSince st)) then
        ok ← emit k metricNodeDownSeconds (Seconds (Since now (downSince st))) (Url n);
        if (ok : bool) then emitNodeDown k now ns' else mret false
      else emitNodeDown k now ns'
  end.

(** Before the second loop: every node starts at zero seconds down. *)
Fixpoint emitInitial (k : string) (ns : list NodeConfig) : M Config bool :=
  match ns with
  | [] => mret true
  | n :: ns' =>
      ok ← emit k metricNodeDownSeconds (f64_of_Z 0) (Url n);
      if (ok : bool) then emitInitial k ns' else mret false
  end.

(** One round of the second loop; [None] is a return (the context is done). *)
Definition watch_step (k : string) (now : time) (w : watchVars) : M Config (option watchVars) :=
  cc ← getChain k;
  let '(vi, last) := validatorInfoSnapshot cc in
  match vi with
  | None => mret (Some w)
  | Some vi =>
      w ← checkNoServers k now vi w;
      _ ← checkStalledAlert k now;
      w ← checkInactive k now vi last w;
      w ← checkConsecutive k now vi w;
      _ ← checkPercentageAlert k now;
      al ← checkNodes k now (seq 0 (length (Nodes cc))) (nodeAlarms w);
      let w := w <| nodeAlarms := al |> in
      c ← getS;
      if Prom c then
        cc ← getChain k;
        ok ← emit k metricLastBlockSecondsNotFinal (Seconds (Since now (lastFinalBlockTime cc))) "";
        if (ok : bool) then
          ok ← emitNodeDown k now (Nodes cc);
          mret (if (ok : bool) then Some w else None)
        else mret None
      else mret (Some w)
  end.

(** ** Well-behaved computations

    A computation on chain [k] is well behaved if, from any configuration in
    order, it returns (it does not panic), touches only chain [k], the alert
    queue, the alarms and the metrics, queues only alerts about [k], and leaves
    the chain's settings alone. *)

Definition same_settings (cc cc' : ChainConfig) : Prop :=
  cc_name cc' = cc_name cc /\ ChainId cc' = ChainId cc /\ Alerts cc' = Alerts cc /\
  ValAddress cc' = ValAddress cc /\
  (fun n => (Url n, AlertIfDown n)) <$> Nodes cc' = (fun n => (Url n, AlertIfDown n)) <$> Nodes cc.

#[export] Instance same_settings_preorder : PreOrder same_settings.
Proof.
  split; [by intros cc |]. intros a b d (?&?&?&?&?) (?&?&?&?&?). unfold same_settings. split_and!; congruence.
Qed.

Definition well_behaved {A} (k : string) (m : M Config A) : Prop :=
  forall c cc, config_ok c -> Chains c !! k = Some cc ->
  exists a c' cc' l, m c = Some (a, c') /\ emits k l cc' c c' /\
    Forall (fun x => chain x = k) l /\ same_settings cc cc'.

Lemma wb_ret {A} k (a : A) : well_behaved k (mret a).
Proof.
  intros c cc Hok Hc. exists a, c, cc, []. split_and!; try done. by apply emits_refl.
Qed.

Lemma wb_bind {A B} k (m : M Config A) (f : A -> M Config B) :
  well_behaved k m -> (forall a, well_behaved k (f a)) -> well_behaved k (m ≫= f).
Proof.
  intros Hm Hf c cc Hok Hc.
  destruct (Hm c cc Hok Hc) as (a & c1 & cc1 & l1 & E1 & He1 & Hl1 & Hs1).
  destruct (Hf a c1 cc1 (em_ok _ _ _ _ _ He1) (em_chain _ _ _ _ _ He1))
    as (b & c2 & cc2 & l2 & E2 & He2 & Hl2 & Hs2).
  exists b, c2, cc2, (l1 ++ l2). rewrite (bindM_run _ _ _ _ _ E1). split_and!.
  - done.
  - exact (emits_trans _ _ _ _ _ _ _ _ He1 He2).
  - by apply Forall_app.
  - by transitivity cc1.
Qed.

Lemma wb_getS {A} k (f : Config -> M Config A) :
  (forall c, well_behaved k (f c)) -> well_behaved k (getS ≫= f).
Proof. intros Hf c cc Hok Hc. by apply (Hf c c cc). Qed.

Lemma wb_getChain {A} k (f : ChainConfig -> M Config A) :
  (forall cc, cc_name cc = k -> well_behaved k (f cc)) -> well_behaved k (getChain k ≫= f).
Proof.
  intros Hf c cc Hok Hc. rewrite (bindM_run _ _ _ _ _ (getChain_run _ _ _ Hc)).
  apply (Hf cc); [by apply Hok | done | done].
Qed.

Lemma wb_alert k now name msg sev res id : name = k -> well_behaved k (alert now name msg sev res id).
Proof.
  intros -> c cc Hok Hc. destruct (alert_emits now k msg sev res id cc c Hok Hc) as (c' & E & He).
  do 4 eexists. split_and!; [exact E | exact He | | done]. destruct (accepting c); by repeat constructor.
Qed.

Lemma wb_onChain k f : (forall cc, same_settings cc (f cc)) -> well_behaved k (onChain k f).
Proof.
  intros Hf c cc Hok Hc. destruct (onChain_emits k f cc c Hok Hc) as (c' & E & He); [apply Hf |].
  do 4 eexists. split_and!; [exact E | exact He | constructor | apply Hf].
Qed.

Lemma wb_refresh k : well_behaved k (refreshActiveAlerts k).
Proof.
  intros c cc Hok Hc. destruct (refresh_emits k cc c Hok Hc) as (c' & n & E & He).
  do 4 eexists. split_and!; [exact E | exact He | constructor | done].
Qed.

Lemma wb_stalled k now : well_behaved k (checkStalledAlert k now).
Proof.
  intros c cc Hok Hc. destruct (checkStalledAlert_emits k now cc c Hok Hc) as (c' & E & He).
  assert (cc_name cc = k) by by apply Hok.
  destruct (stalledTriggers now cc); [| destruct (stalledResolves cc)].
  - do 4 eexists. split_and!; [exact E | exact He | destruct (accepting c); by repeat constructor | done].
  - do 4 eexists. split_and!; [exact E | exact He | destruct (accepting c); by repeat constructor | done].
  - subst c'. do 4 eexists. split_and!; [exact E | by apply emits_refl | constructor | done].
Qed.

Lemma wb_percentage k now : well_behaved k (checkPercentageAlert k now).
Proof.
  intros c cc Hok Hc. destruct (checkPercentageAlert_emits k now cc c Hok Hc) as (c' & E & He).
  assert (cc_name cc = k) by by apply Hok.
  destruct (valInfo cc) as [vi |]; [destruct (percentageActs cc vi); [destruct He as [n He] |] |].
  - do 4 eexists. split_and!; [exact E | exact He | destruct (accepting c); by repeat constructor | done].
  - subst c'. do 4 eexists. split_and!; [exact E | by apply emits_refl | constructor | done].
  - subst c'. do 4 eexists. split_and!; [exact E | by apply emits_refl | constructor | done].
Qed.

Lemma wb_emitStat k b u : well_behaved k (stateM (emitStat b u)).
Proof.
  intros c cc Hok Hc. unfold stateM, emitStat. destruct b.
  - exists false, c, cc, []. split_and!; try done. by apply emits_refl.
  - do 4 eexists. split_and!; [reflexivity | by apply emits_stats | constructor | done].
Qed.

Lemma updateNode_settings i f cc : same_settings cc (updateNode i f cc).
Proof.
  unfold updateNode. split_and!; try done. simpl.
  apply list_eq. intros j. rewrite !list_lookup_fmap, list_lookup_alter.
  case_decide; [subst j | done]. by destruct (Nodes cc !! i).
Qed.

#[export] Hint Resolve wb_ret wb_bind wb_getS wb_getChain wb_alert wb_onChain wb_refresh wb_stalled
  wb_percentage wb_emitStat updateNode_settings : seer.

(** Splits a well-behaved computation along its structure. *)
Ltac wb :=
  repeat match goal with
  | |- well_behaved _ (if ?b then _ else _) => destruct b
  | |- well_behaved _ (match ?o with Some _ => _ | None => _ end) => destruct o
  | |- well_behaved _ (getChain _ ≫= _) => apply wb_getChain; intros
  | |- well_behaved _ (getS ≫= _) => apply wb_getS; intros
  | |- well_behaved _ (_ ≫= _) => apply wb_bind; [| intros]
  | |- well_behaved _ _ => solve [eauto with seer]
  end.

Lemma wb_noServers k now vi w : well_behaved k (checkNoServers k now vi w).
Proof. unfold checkNoServers. wb. Qed.

Lemma wb_inactive k now vi last w : well_behaved k (checkInactive k now vi last w).
Proof. unfold checkInactive. wb. Qed.

Lemma wb_consecutive k now vi w : well_behaved k (checkConsecutive k now vi w).
Proof. unfold checkConsecutive. wb. Qed.

Lemma wb_nodes k now idx al : well_behaved k (checkNodes k now idx al).
Proof. revert al. induction idx; intros al; simpl; unfold checkNode; wb; done. Qed.

Lemma wb_emit k t v node : well_behaved k (emit k t v node).
Proof. unfold emit. wb. Qed.

#[export] Hint Resolve wb_noServers wb_inactive wb_consecutive wb_nodes wb_emit : seer.

Lemma wb_emitNodeDown k now ns : well_behaved k (emitNodeDown k now ns).
Proof. induction ns; simpl; wb; done. Qed.

Lemma wb_emitInitial k ns : well_behaved k (emitInitial k ns).
Proof. induction ns; simpl; wb; done. Qed.

#[export] Hint Resolve wb_emitNodeDown wb_emitInitial : seer.

Lemma wb_watch_connect k now vi w : well_behaved k (watch_connect k now vi w).
Proof. unfold watch_connect. wb. Qed.

Lemma wb_watch_step k now w : well_behaved k (watch_step k now w).
Proof.
  unfold watch_step. apply wb_getChain. intros cc _. destruct (validatorInfoSnapshot cc) as [vi last]. wb.
Qed.

(** ** Rounds

    The loop runs a check once per round; before each round the other
    goroutines may change the chain's state in any way that leaves its settings
    alone. *)

Definition env_change : Type := ChainConfig -> ChainConfig.

Fixpoint run_rounds (k : string) (check : time -> watchVars -> M Config watchVars)
    (rounds : list (env_change * time)) (w : watchVars) (c : Config)
  : option (list alertMsg * watchVars * Config) :=
  match rounds with
  | [] => Some ([], w, c)
  | (f, now) :: rounds' =>
      '(_, c0) ← onChain k f c;
      '(w1, c1) ← check now w c0;
      '(l, w2, c2) ← run_rounds k check rounds' w1 c1;
      Some (new_alerts c0 c1 ++ l, w2, c2)
  end.

(** A check run with the validator information of the moment, if there is any. *)
Definition withInfo (k : string) (check : ValInfo -> M Config watchVars) (w : watchVars)
  : M Config watchVars :=
  cc ← getChain k;
  match (validatorInfoSnapshot cc).1 with None => mret w | Some vi => check vi end.

Definition consecutiveCheck (k : string) (now : time) (w : watchVars) : M Config watchVars :=
  withInfo k (fun vi => checkConsecutive k now vi w) w.

Definition noServersCheck (k : string) (now : time) (w : watchVars) : M Config watchVars :=
  withInfo k (fun vi => checkNoServers k now vi w) w.

Definition nodesCheck (k : string) (now : time) (w : watchVars) : M Config watchVars :=
  cc ← getChain k;
  al ← checkNodes k now (seq 0 (length (Nodes cc))) (nodeAlarms w);
  mret (w <| nodeAlarms := al |>).

Lemma withInfo_run k check w c cc vi :
  Chains c !! k = Some cc -> valInfo cc = Some vi -> withInfo k check w c = check vi c.
Proof.
  intros Hc Hvi. unfold withInfo. rewrite (bindM_run _ _ _ _ _ (getChain_run _ _ _ Hc)).
  by rewrite validatorInfoSnapshot_eq, Hvi.
Qed.

(** A check with an on/off alarm [fl]: it either does nothing to the alarm and
    raises nothing, or flips it and raises the one alert that says so. *)
Definition toggle (k : string) (fl : watchVars -> bool) (check : time -> watchVars -> M Config watchVars)
  : Prop :=
  forall now w c cc, config_ok c -> accepting c = true -> Chains c !! k = Some cc ->
  exists w' c' cc' l, check now w c = Some (w', c') /\ emits k l cc' c c' /\
    (l = [] /\ fl w' = fl w \/ exists a, l = [a] /\ resolved a = fl w /\ fl w' = negb (fl w)).

Lemma toggle_alternates k fl check rounds : toggle k fl check ->
  Forall (fun r => forall cc, same_settings cc (r.1 cc)) rounds ->
  forall w c cc, config_ok c -> accepting c = true -> Chains c !! k = Some cc ->
  exists l w' c', run_rounds k check rounds w c = Some (l, w', c') /\
    alternating (fl w) (resolved <$> l) /\ config_ok c'.
Proof.
  intros Ht. induction 1 as [| [f now] rounds Hf Hrs IH]; intros w c cc Hok Hacc Hc; cbn [run_rounds].
  { by exists [], w, c. }
  destruct (onChain_emits k f cc c Hok Hc) as (c0 & -> & He0); [apply (Hf cc) |].
  cbn [mbind option_bind].
  assert (accepting c0 = true) as Hacc0 by by rewrite (emits_accepting _ _ _ _ _ He0).
  destruct (Ht now w c0 (f cc) (em_ok _ _ _ _ _ He0) Hacc0 (em_chain _ _ _ _ _ He0))
    as (w1 & c1 & cc1 & l & -> & He1 & Hl).
  cbn [mbind option_bind].
  destruct (IH w1 c1 cc1) as (l2 & w2 & c2 & -> & Ha & Hok2).
  { apply He1. } { by rewrite (emits_accepting _ _ _ _ _ He1). } { apply He1. }
  cbn [mbind option_bind]. do 3 eexists. split; [reflexivity |]. split; [| done].
  rewrite (new_alerts_emits _ _ _ _ _ He1).
  destruct Hl as [[-> Hfl] | (a & -> & Hr & Hfl)]; simpl.
  - by rewrite <- Hfl.
  - rewrite <- Hfl. done.
Qed.

(** Alert, then refresh the chain's alarm count, then return [w']. *)
Lemma alert_refresh_run {A} now k msg sev res id cc c (w' : A) :
  config_ok c -> accepting c = true -> Chains c !! k = Some cc ->
  exists c' n, (alert now k msg sev res id ≫= fun _ => refreshActiveAlerts k ≫= fun _ => mret w') c
      = Some (w', c') /\
    emits k [buildAlert c cc k msg sev res id] (cc <| activeAlerts := n |>) c c'.
Proof.
  intros Hok Hacc Hc. destruct (alert_emits now k msg sev res id cc c Hok Hc) as (c1 & E1 & He1).
  rewrite Hacc in He1.
  destruct (refresh_emits k cc c1 (em_ok _ _ _ _ _ He1) (em_chain _ _ _ _ _ He1)) as (c2 & n & E2 & He2).
  exists c2, n. rewrite (bindM_run _ _ _ _ _ E1), (bindM_run _ _ _ _ _ E2). split; [done |].
  exact (emits_trans _ _ _ _ _ _ _ _ He1 He2).
Qed.

Lemma toggle_consecutive k : toggle k missedAlarm (consecutiveCheck k).
Proof.
  intros now w c cc Hok Hacc Hc. assert (cc_name cc = k) as Hk by by apply Hok.
  unfold consecutiveCheck, withInfo. rewrite (bindM_run _ _ _ _ _ (getChain_run _ _ _ Hc)).
  destruct (validatorInfoSnapshot cc).1 as [vi |].
  2: { exists w, c, cc, []. split_and!; [done | by apply emits_refl | by left]. }
  unfold checkConsecutive. rewrite (bindM_run _ _ _ _ _ (getChain_run _ _ _ Hc)). rewrite Hk.
  destruct (missedAlarm w) eqn:Hm; simpl.
  - destruct (_ <? _).
    + destruct (alert_refresh_run now k (consecutiveMessage cc vi) "info" true
                  (Some (vi_Valcons vi +:+ "consecutive")) cc c (w <| missedAlarm := false |>) Hok Hacc Hc)
        as (c' & n & E & He).
      do 4 eexists. split_and!; [exact E | exact He |]. right. by eexists.
    + exists w, c, cc, []. split_and!; [done | by apply emits_refl | by left].
  - destruct (_ && _)%bool.
    + destruct (alert_refresh_run now k (consecutiveMessage cc vi) (ConsecutivePriority (Alerts cc)) false
                  (Some (vi_Valcons vi +:+ "consecutive")) cc c (w <| missedAlarm := true |>) Hok Hacc Hc)
        as (c' & n & E & He).
      do 4 eexists. split_and!; [exact E | exact He |]. right. by eexists.
    + exists w, c, cc, []. split_and!; [done | by apply emits_refl | by left].
Qed.

Lemma toggle_noServers k : toggle k noNodesAlarm (noServersCheck k).
Proof.
  intros now w c cc Hok Hacc Hc. assert (cc_name cc = k) as Hk by by apply Hok.
  unfold noServersCheck, withInfo. rewrite (bindM_run _ _ _ _ _ (getChain_run _ _ _ Hc)).
  destruct (validatorInfoSnapshot cc).1 as [vi |].
  2: { exists w, c, cc, []. split_and!; [done | by apply emits_refl | by left]. }
  unfold checkNoServers. rewrite (bindM_run _ _ _ _ _ (getChain_run _ _ _ Hc)).
  unfold mbind at 1, M_bind at 1, getS. rewrite Hk.
  assert (forall msg sev res id, exists c', alert now k msg sev res id c = Some (tt, c') /\
            emits k [buildAlert c cc k msg sev res id] cc c c') as Hal.
  { intros. destruct (alert_emits now k msg sev res id cc c Hok Hc) as (c' & E & He).
    rewrite Hacc in He. by exists c'. }
  destruct (noNodesAlarm w) eqn:Hm; rewrite ?andb_false_r, ?andb_true_r; simpl.
  - destruct (AlertIfNoServers (Alerts cc) && negb (noNodesState cc))%bool.
    + edestruct (Hal (noServersMessage cc) "critical" true) as (c' & E & He).
      do 4 eexists. split_and!; [exact (bindM_run _ _ _ _ _ E) | exact He |]. right. by eexists.
    + do 4 eexists. split_and!; [reflexivity | by apply emits_refl | by left].
  - destruct (AlertIfNoServers (Alerts cc) && noNodesState cc)%bool.
    + destruct (_ <=? _).
      * do 4 eexists. split_and!; [reflexivity | by apply emits_refl | by left].
      * edestruct (Hal (noServersMessage cc) "critical" false) as (c' & E & He).
        do 4 eexists. split_and!; [exact (bindM_run _ _ _ _ _ E) | exact He |]. right. by eexists.
    + do 4 eexists. split_and!; [reflexivity | by apply emits_refl | left].
      split; [done |]. done.
Qed.

(** *** Continuous outage of every endpoint *)

(** The environment leaves the chain without a usable endpoint and with
    validator information. *)
Definition outage_change (f : env_change) : Prop :=
  forall cc, same_settings cc (f cc) /\ noNodes (f cc) = true /\ is_Some (valInfo (f cc)).

Lemma noServers_outage_rounds k rounds : Forall (fun r => outage_change r.1) rounds ->
  forall w c cc, config_ok c -> accepting c = true -> Chains c !! k = Some cc ->
  AlertIfNoServers (Alerts cc) = true -> in_int64 (30 * NodeDownMin c) ->
  exists l w' c', run_rounds k (noServersCheck k) rounds w c = Some (l, w', c') /\
    length l = if noNodesAlarm w then 0%nat
               else if noNodesSec w + 2 * Z.of_nat (length rounds) <=? 30 * NodeDownMin c then 0%nat
               else if bool_decide (rounds = []) then 0%nat else 1%nat.
Proof.
  induction 1 as [| [f now] rounds Hf _ IH]; intros w c cc Hok Hacc Hc Hen Hb; cbn [run_rounds].
  { exists [], w, c. split; [done |]. by repeat case_match. }
  change (outage_change f) in Hf. destruct (Hf cc) as (Hset & Hno & [vi Hvi]). destruct Hset as (Hname & _ & Hal & _).
  destruct (onChain_emits k f cc c Hok Hc Hname) as (c0 & -> & He0). cbn [mbind option_bind].
  pose proof (em_chain _ _ _ _ _ He0) as Hc0. pose proof (em_ok _ _ _ _ _ He0) as Hok0.
  assert (accepting c0 = true) as Hacc0 by by rewrite (emits_accepting _ _ _ _ _ He0).
  assert (NodeDownMin c0 = NodeDownMin c) as Hmin by by rewrite <- (em_rest _ _ _ _ _ He0).
  rewrite (withInfo_run _ _ _ _ _ _ Hc0 Hvi : noServersCheck k now w c0 = _).
  rewrite (bindM_run _ _ _ _ _ (getChain_run _ _ _ Hc0) : checkNoServers k now vi w c0 = _).
  rewrite (bindM_run _ _ _ _ _ (eq_refl : getS c0 = _)).
  unfold noNodesState. rewrite Hal, Hen, Hno, Hmin, wrap64_small by done.
  assert (cc_name (f cc) = k) as Hk by by apply Hok0. rewrite Hk.
  destruct (noNodesAlarm w) eqn:Hw; cbn [negb andb].
  { destruct (IH (w <| noNodesSec := 0 |>) c0 (f cc)) as (l & w' & c' & E & Hl);
      [done | done | done | by rewrite Hal | by rewrite Hmin |].
    cbn [mbind option_bind mret M_ret]. rewrite E. cbn [mbind option_bind]. do 3 eexists. split; [done |].
    unfold new_alerts. rewrite drop_all. simpl. rewrite Hl. simpl. by rewrite Hw. }
  destruct (noNodesSec w + 2 <=? 30 * NodeDownMin c) eqn:Hsec.
  - destruct (IH (w <| noNodesSec := noNodesSec w + 2 |> <| noNodesAlarm := false |>) c0 (f cc))
      as (l & w' & c' & E & Hl);
      [done | done | done | by rewrite Hal | by rewrite Hmin |].
    cbn [mbind option_bind mret M_ret]. rewrite E. cbn [mbind option_bind]. do 3 eexists. split; [done |].
    unfold new_alerts. rewrite drop_all. cbn [app]. rewrite Hl, Hmin. simpl.
    case_bool_decide; [subst; simpl in *; breflect |];
      repeat case_match; breflect; first [done | lia].
  - destruct (alert_emits now k (noServersMessage (f cc)) "critical" false (Some (vi_Valcons vi)) (f cc) c0
                Hok0 Hc0) as (c1 & E1 & He1). rewrite Hacc0 in He1.
    rewrite (bindM_run _ _ _ _ _ E1). cbn [mbind option_bind mret M_ret].
    destruct (IH (w <| noNodesSec := 0 |> <| noNodesAlarm := true |>) c1 (f cc)) as (l & w' & c' & E & Hl).
    { apply He1. } { by rewrite (emits_accepting _ _ _ _ _ He1). } { apply He1. } { by rewrite Hal. }
    { rewrite <- (em_rest _ _ _ _ _ He1). simpl. by rewrite Hmin. }
    rewrite E. cbn [mbind option_bind]. do 3 eexists. split; [done |].
    rewrite (new_alerts_emits _ _ _ _ _ He1). simpl. simpl in Hl. rewrite Hl.
    breflect. rewrite (proj2 (Z.leb_gt _ _)) by lia. done.
Qed.

(** *** Node alarms *)

(** A sequence of node alerts (true: resolved) in which no alarm is raised
    while it is open. *)
Fixpoint no_retrigger (op : bool) (l : list bool) : Prop :=
  match l with [] => True | r :: l' => (r = false -> op = false) /\ no_retrigger (negb r) l' end.

Definition open_after (op : bool) (l : list bool) : bool := foldl (fun _ r => negb r) op l.

Lemma no_retrigger_app op l1 l2 :
  no_retrigger op l1 -> no_retrigger (open_after op l1) l2 -> no_retrigger op (l1 ++ l2).
Proof. revert op. induction l1 as [| r l1 IH]; simpl; [done |]. intros op [H1 H2] H3. split; [done |]. by apply IH. Qed.

Definition node_flags (u : string) (l : list alertMsg) : list bool :=
  resolved <$> filter (fun a => uniqueId a = u) l.

Lemma node_flags_app u l1 l2 : node_flags u (l1 ++ l2) = node_flags u l1 ++ node_flags u l2.
Proof. unfold node_flags. by rewrite filter_app, fmap_app. Qed.

(** The alarm map [al] agrees with the alerts: from [al], alerts [l] open no
    open alarm and lead to [al']. *)
Definition tracks (al : gmap string bool) (l : list alertMsg) (al' : gmap string bool) : Prop :=
  forall u, no_retrigger (default false (al !! u)) (node_flags u l) /\
    default false (al' !! u) = open_after (default false (al !! u)) (node_flags u l).

Lemma tracks_nil al : tracks al [] al.
Proof. by intros u. Qed.

Lemma tracks_app al1 al2 al3 l1 l2 : tracks al1 l1 al2 -> tracks al2 l2 al3 -> tracks al1 (l1 ++ l2) al3.
Proof.
  intros H1 H2 u. destruct (H1 u) as [A1 A2], (H2 u) as [B1 B2]. rewrite A2 in B1, B2.
  rewrite node_flags_app. split; [by apply no_retrigger_app |].
  unfold open_after in *. by rewrite foldl_app.
Qed.

Lemma tracks_one al a u : uniqueId a = u -> (resolved a = false -> default false (al !! u) = false) ->
  tracks al [a] (<[u := negb (resolved a)]> al).
Proof.
  intros <- H v. unfold node_flags. rewrite filter_cons. destruct (decide (uniqueId a = v)) as [<- | Hne].
  - simpl. by rewrite lookup_insert_eq.
  - simpl. by rewrite lookup_insert_ne.
Qed.

Lemma checkNode_tracks k now i al c cc : config_ok c -> accepting c = true -> Chains c !! k = Some cc ->
  exists al' c' cc' l, checkNode k now i al c = Some (al', c') /\ emits k l cc' c c' /\ tracks al l al'.
Proof.
  intros Hok Hacc Hc. assert (cc_name cc = k) as Hk by by apply Hok.
  unfold checkNode. rewrite (bindM_run _ _ _ _ _ (getChain_run _ _ _ Hc)).
  rewrite (bindM_run _ _ _ _ _ (eq_refl : getS c = _)). rewrite Hk.
  assert (exists al' c' cc' l, Some (al, c) = Some (al', c') /\ emits k l cc' c c' /\ tracks al l al') as Hnone.
  { exists al, c, cc, []. split_and!; [done | by apply emits_refl | apply tracks_nil]. }
  destruct (Nodes cc !! i) as [n |]; [| exact Hnone].
  destruct (nodeTriggers now c n); [destruct (default false (al !! Url n)) eqn:Hal; [exact Hnone |] |
    destruct (nodeResolves n); [| exact Hnone]].
  - destruct (refresh_emits k cc c Hok Hc) as (c1 & m & E1 & He1).
    rewrite (bindM_run _ _ _ _ _ E1).
    destruct (alert_emits now k (nodeMessage c cc n) (NodeDownSeverity c) false (Some (Url n)) _ c1
                (em_ok _ _ _ _ _ He1) (em_chain _ _ _ _ _ He1)) as (c2 & E2 & He2).
    rewrite (bindM_run _ _ _ _ _ E2). rewrite (emits_accepting _ _ _ _ _ He1), Hacc in He2.
    do 4 eexists. split_and!; [reflexivity | exact (emits_trans _ _ _ _ _ _ _ _ He1 He2) |].
    cbn [app]. by apply tracks_one.
  - destruct (onChain_emits k (updateNode i (fun st => st <| wasDown := false |>)) cc c Hok Hc eq_refl)
      as (c1 & E1 & He1).
    rewrite (bindM_run _ _ _ _ _ E1).
    destruct (alert_refresh_run now k (nodeMessage c cc n) "info" true (Some (Url n))
      (updateNode i (fun st => st <| wasDown := false |>) cc) c1 (<[Url n := false]> al)
      (em_ok _ _ _ _ _ He1)) as (c2 & m & E2 & He2);
      [by rewrite (emits_accepting _ _ _ _ _ He1) | apply He1 |].
    do 4 eexists. split_and!; [exact E2 | exact (emits_trans _ _ _ _ _ _ _ _ He1 He2) |].
    cbn [app]. by apply (tracks_one _ (buildAlert c1 _ k _ _ true (Some (Url n)))).
Qed.

Lemma checkNodes_tracks k now idx : forall al c cc,
  config_ok c -> accepting c = true -> Chains c !! k = Some cc ->
  exists al' c' cc' l, checkNodes k now idx al c = Some (al', c') /\ emits k l cc' c c' /\ tracks al l al'.
Proof.
  induction idx as [| i idx IH]; intros al c cc Hok Hacc Hc; cbn [checkNodes].
  { exists al, c, cc, []. split_and!; [done | by apply emits_refl | apply tracks_nil]. }
  destruct (checkNode_tracks k now i al c cc Hok Hacc Hc) as (al1 & c1 & cc1 & l1 & E1 & He1 & Ht1).
  rewrite (bindM_run _ _ _ _ _ E1).
  destruct (IH al1 c1 cc1) as (al2 & c2 & cc2 & l2 & E2 & He2 & Ht2);
    [apply He1 | by rewrite (emits_accepting _ _ _ _ _ He1) | apply He1 |].
  do 4 eexists. split_and!; [exact E2 | exact (emits_trans _ _ _ _ _ _ _ _ He1 He2) |].
  exact (tracks_app _ _ _ _ _ Ht1 Ht2).
Qed.

Lemma nodesCheck_rounds k rounds :
  Forall (fun r => forall cc, same_settings cc (r.1 cc)) rounds ->
  forall w c cc, config_ok c -> accepting c = true -> Chains c !! k = Some cc ->
  exists l w' c', run_rounds k (nodesCheck k) rounds w c = Some (l, w', c') /\
    tracks (nodeAlarms w) l (nodeAlarms w').
Proof.
  induction 1 as [| [f now] rounds Hf _ IH]; intros w c cc Hok Hacc Hc; cbn [run_rounds].
  { exists [], w, c. split; [done | apply tracks_nil]. }
  destruct (onChain_emits k f cc c Hok Hc) as (c0 & -> & He0); [apply (Hf cc) |].
  cbn [mbind option_bind]. pose proof (em_chain _ _ _ _ _ He0) as Hc0.
  assert (accepting c0 = true) as Hacc0 by by rewrite (emits_accepting _ _ _ _ _ He0).
  rewrite (bindM_run _ _ _ _ _ (getChain_run _ _ _ Hc0) : nodesCheck k now w c0 = _).
  destruct (checkNodes_tracks k now (seq 0 (length (Nodes (f cc)))) (nodeAlarms w) c0 (f cc)
    (em_ok _ _ _ _ _ He0) Hacc0 Hc0) as (al1 & c1 & cc1 & l1 & E1 & He1 & Ht1).
  rewrite (bindM_run _ _ _ _ _ E1). cbn [mbind option_bind mret M_ret].
  destruct (IH (w <| nodeAlarms := al1 |>) c1 cc1) as (l2 & w2 & c2 & E2 & Ht2);
    [apply He1 | by rewrite (emits_accepting _ _ _ _ _ He1) | apply He1 |].
  rewrite E2. cbn [mbind option_bind]. do 3 eexists. split; [done |].
  rewrite (new_alerts_emits _ _ _ _ _ He1). exact (tracks_app _ _ _ _ _ Ht1 Ht2).
Qed.

(** ** Properties *)

(** C23: a round of the watch loop never panics.  From a configuration in order
    it returns, keeps the configuration in order, leaves every other chain and
    this chain's settings as they were, and queues alerts about this chain
    only. *)
Theorem watch_round_total (k : string) (now : time) (w : watchVars) (c : Config) (cc : ChainConfig) :
  config_ok c -> Chains c !! k = Some cc ->
  exists r c' cc', watch_step k now w c = Some (r, c') /\ config_ok c' /\
    Chains c' !! k = Some cc' /\ same_settings cc cc' /\
    (forall k', k' <> k -> Chains c' !! k' = Chains c !! k') /\
    Forall (fun a => chain a = k) (new_alerts c c').
Proof.
  intros Hok Hc. destruct (wb_watch_step k now w c cc Hok Hc) as (r & c' & cc' & l & E & He & Hl & Hs).
  exists r, c', cc'. split_and!; [done | apply He | apply He | done | apply He |].
  by rewrite (new_alerts_emits _ _ _ _ _ He).
Qed.

(** C24: over any number of rounds, whatever happens to the chain in between,
    the consecutive-miss alerts alternate between raised and resolved, starting
    with the one the loop's variable calls for; and so do the alerts that no
    endpoint of the chain works. *)
Theorem watch_alarms_alternate (k : string) (rounds : list (env_change * time)) (w : watchVars)
    (c : Config) (cc : ChainConfig) :
  Forall (fun r => forall cc, same_settings cc (r.1 cc)) rounds ->
  config_ok c -> accepting c = true -> Chains c !! k = Some cc ->
  (exists l w' c', run_rounds k (consecutiveCheck k) rounds w c = Some (l, w', c') /\
    alternating (missedAlarm w) (resolved <$> l)) /\
  (exists l w' c', run_rounds k (noServersCheck k) rounds w c = Some (l, w', c') /\
    alternating (noNodesAlarm w) (resolved <$> l)).
Proof.
  intros Hr Hok Hacc Hc. split.
  - destruct (toggle_alternates k _ _ rounds (toggle_consecutive k) Hr w c cc Hok Hacc Hc)
      as (l & w' & c' & E & Ha & _). by exists l, w', c'.
  - destruct (toggle_alternates k _ _ rounds (toggle_noServers k) Hr w c cc Hok Hacc Hc)
      as (l & w' & c' & E & Ha & _). by exists l, w', c'.
Qed.

(** When the alert fires.  Starting from a fresh loop, an outage of all
    endpoints that lasts [n] rounds of two seconds raises nothing as long as
    [2 * n <= 30 * NodeDownMin] and exactly one alert after that: the delay is
    half a minute per configured minute, where the loop that waits for the
    first connection uses sixty seconds per minute. *)
Theorem noServers_delay (k : string) (rounds : list (env_change * time)) (w : watchVars) (c : Config)
    (cc : ChainConfig) :
  Forall (fun r => outage_change r.1) rounds ->
  config_ok c -> accepting c = true -> Chains c !! k = Some cc ->
  AlertIfNoServers (Alerts cc) = true -> 0 <= NodeDownMin c < 2 ^ 58 ->
  noNodesAlarm w = false -> noNodesSec w = 0 ->
  exists l w' c', run_rounds k (noServersCheck k) rounds w c = Some (l, w', c') /\
    length l = if 2 * Z.of_nat (length rounds) <=? 30 * NodeDownMin c then 0%nat else 1%nat.
Proof.
  intros Hr Hok Hacc Hc Hen Hb Hw Hs.
  destruct (noServers_outage_rounds k rounds Hr w c cc Hok Hacc Hc Hen) as (l & w' & c' & E & Hl).
  { unfold in_int64. lia. }
  exists l, w', c'. split; [done |]. rewrite Hl, Hw, Hs, Z.add_0_l.
  case_bool_decide; [subst; simpl |]; repeat case_match; breflect; first [done | lia].
Qed.

(** C25: node alarms are not repeated.  Over any number of rounds, whatever
    happens to the nodes in between, after an alert that a node is down the
    next alert about that node's URL says that it recovered; the loop's map of
    alarms is open exactly for the URLs whose last alert was a down alert. *)
Theorem node_alerts_not_repeated (k url : string) (rounds : list (env_change * time)) (w : watchVars)
    (c : Config) (cc : ChainConfig) :
  Forall (fun r => forall cc, same_settings cc (r.1 cc)) rounds ->
  config_ok c -> accepting c = true -> Chains c !! k = Some cc ->
  exists l w' c', run_rounds k (nodesCheck k) rounds w c = Some (l, w', c') /\
    no_retrigger (default false (nodeAlarms w !! url)) (node_flags url l) /\
    default false (nodeAlarms w' !! url) =
      open_after (default false (nodeAlarms w !! url)) (node_flags url l).
Proof.
  intros Hr Hok Hacc Hc. destruct (nodesCheck_rounds k rounds Hr w c cc Hok Hacc Hc) as (l & w' & c' & E & Ht).
  exists l, w', c'. split; [done | apply (Ht url)].
Qed.

(** ** Witnesses *)

Lemma watch_round_total_witness :
  config_ok sampleConfig /\
  exists r c', watch_step "Osmosis" (unix_epoch + Hour) initWatch sampleConfig = Some (r, c') /\
    length (new_alerts sampleConfig c') = 2%nat /\ config_ok c'.
Proof.
  split; [apply sampleConfig_ok |].
  destruct (watch_round_total "Osmosis" (unix_epoch + Hour) initWatch sampleConfig sampleChain
              sampleConfig_ok eq_refl) as (r & c' & cc' & E & Hok & _).
  exists r, c'. split; [exact E |]. split; [| exact Hok].
  transitivity (from_option (fun p => length (new_alerts sampleConfig p.2)) 0%nat
    (watch_step "Osmosis" (unix_epoch + Hour) initWatch sampleConfig)); [by rewrite E | by vm_compute].
Defined.

(** Five misses, then none, then seven; and an outage of a hundred seconds. *)
Lemma watch_alarms_alternate_witness :
  let set n b := (fun cc : ChainConfig => setNoNodes b (cc <| statConsecutiveMiss := n |>)) in
  let rounds := repeat (set 5 true, unix_epoch) 50 ++
                [(set 0 true, unix_epoch); (set 0 false, unix_epoch); (set 7 false, unix_epoch)] in
  (exists l w' c', run_rounds "Osmosis" (consecutiveCheck "Osmosis") rounds initWatch sampleConfig =
      Some (l, w', c') /\ resolved <$> l = [false; true; false] /\ alternating false (resolved <$> l)) /\
  (exists l w' c', run_rounds "Osmosis" (noServersCheck "Osmosis") rounds initWatch sampleConfig =
      Some (l, w', c') /\ resolved <$> l = [false; true] /\ alternating false (resolved <$> l)).
Proof.
  intros set rounds.
  destruct (watch_alarms_alternate "Osmosis" rounds initWatch sampleConfig sampleChain)
    as [(l & w' & c' & E & Ha) (l2 & w2 & c2 & E2 & Ha2)];
    [repeat constructor | apply sampleConfig_ok | done | done |].
  split.
  - exists l, w', c'. split; [exact E |]. split; [| exact Ha].
    transitivity (from_option (fun p => resolved <$> p.1.1) []
      (run_rounds "Osmosis" (consecutiveCheck "Osmosis") rounds initWatch sampleConfig));
      [by rewrite E | by vm_compute].
  - exists l2, w2, c2. split; [exact E2 |]. split; [| exact Ha2].
    transitivity (from_option (fun p => resolved <$> p.1.1) []
      (run_rounds "Osmosis" (noServersCheck "Osmosis") rounds initWatch sampleConfig));
      [by rewrite E2 | by vm_compute].
Defined.

(** Three minutes configured: the alert comes after 92 seconds. *)
Lemma noServers_delay_witness :
  let down := (fun cc : ChainConfig => setNoNodes true (cc <| valInfo := Some sampleValInfo |>)) in
  exists l w' c' l2 w2 c2,
    run_rounds "Osmosis" (noServersCheck "Osmosis") (repeat (down, unix_epoch) 45) initWatch sampleConfig =
      Some (l, w', c') /\ length l = 0%nat /\
    run_rounds "Osmosis" (noServersCheck "Osmosis") (repeat (down, unix_epoch) 46) initWatch sampleConfig =
      Some (l2, w2, c2) /\ length l2 = 1%nat.
Proof.
  intros down.
  assert (forall n, Forall (fun r => outage_change r.1) (repeat (down, unix_epoch) n)) as Hd.
  { intros n. apply Forall_forall. intros r Hr%list_elem_of_In%repeat_spec. subst r.
    intros cc. split_and!; [done | done | by eexists]. }
  assert (0 <= NodeDownMin sampleConfig < 2 ^ 58) as Hm by (change (0 <= 3 < 2 ^ 58); lia).
  destruct (noServers_delay "Osmosis" (repeat (down, unix_epoch) 45) initWatch sampleConfig sampleChain
    (Hd 45%nat) sampleConfig_ok eq_refl eq_refl eq_refl Hm eq_refl eq_refl)
    as (l & w' & c' & E & Hl).
  destruct (noServers_delay "Osmosis" (repeat (down, unix_epoch) 46) initWatch sampleConfig sampleChain
    (Hd 46%nat) sampleConfig_ok eq_refl eq_refl eq_refl Hm eq_refl eq_refl)
    as (l2 & w2 & c2 & E2 & Hl2).
  exists l, w', c', l2, w2, c2. split_and!; [exact E | exact Hl | exact E2 | exact Hl2].
Defined.

(** A node is down for four minutes, stays down, recovers and goes down again. *)
Lemma node_alerts_not_repeated_witness :
  let url := "tcp://a:26657" in
  let goDown := (fun cc : ChainConfig => updateNode 0 (fun st =>
                st <| down := true |> <| downSince := unix_epoch |>) cc) in
  let comeUp := (fun cc : ChainConfig => updateNode 0 (fun st => st <| down := false |> <| wasDown := true |>) cc) in
  let now := unix_epoch + 4 * Minute in
  let rounds := [(goDown, now); (goDown, now); (comeUp, now); (goDown, now)] in
  exists l w' c', run_rounds "Osmosis" (nodesCheck "Osmosis") rounds initWatch sampleConfig =
      Some (l, w', c') /\ node_flags url l = [false; true; false] /\ no_retrigger false (node_flags url l).
Proof.
  intros url goDown comeUp now rounds.
  destruct (node_alerts_not_repeated "Osmosis" url rounds initWatch sampleConfig sampleChain)
    as (l & w' & c' & E & Ha & _).
  { repeat (apply Forall_cons; split; [intros cc; apply updateNode_settings |]). constructor. }
  { apply sampleConfig_ok. } { done. } { done. }
  exists l, w', c'. split; [exact E |]. split; [| exact Ha].
  transitivity (from_option (fun p => node_flags url p.1.1) []
    (run_rounds "Osmosis" (nodesCheck "Osmosis") rounds initWatch sampleConfig));
    [rewrite E; reflexivity | vm_compute; reflexivity].
Defined.
