(* ===== verification/State.v ===== *)
(** * Durable state (state.go, and [clearStale] of types.go)

    Decoding a state document, choosing between the state file and its backup,
    restoring a document into the running configuration and taking a snapshot
    of it.  JSON is an interface, [JsonCodec]: what the code relies on is the
    law that a document that was written is read back.  Log lines of the
    restore are values, so that what is reported can be stated. *)

From Stdlib Require Import Ascii.
From S2P Require Import Prelude Types AlarmCache Samples RuntimeState.
Import AlarmSpec.

Local Open Scope Z_scope.

Definition currentStateVersion : Z := 1.
Definition stateBackupSuffix : string := ".bak".
Definition staleHours : Z := 24.

Record stateLoadInfo := MkStateLoadInfo {
  Source : string;
  li_Version : Z;
  Legacy : bool;
  RecoveredFromBackup : bool;
}.

#[export] Instance eta_stateLoadInfo : Eta stateLoadInfo := {| eta_of r :=
  MkStateLoadInfo (Source r) (li_Version r) (Legacy r) (RecoveredFromBackup r) |}.

Definition noLoadInfo : stateLoadInfo := MkStateLoadInfo "" 0 false false.

(** What survives serialisation: only the five exported maps of the cache. *)
Definition durableCache (a : alarmCache) : alarmCache :=
  a <| flappingAlarms := None |> <| inFlight := None |>.

Definition durableDocument (d : stateDocument) : stateDocument :=
  MkStateDocument (Version d) (durableCache <$> sd_Alarms d) (sd_Blocks d) (sd_NodesDown d).

(** ** The JSON interface *)

(** The second [Decode]: the end of the input, another value, or an error. *)
Inductive trailing := TrailEOF | TrailValue | TrailError (e : string).

(** [decodeDocument] is the first [Decode] into a document pointer ([None] for
    a JSON null) with the unread input; [blank] is an input of white space.
    The strings of a document are text: chain names, URLs and messages come
    from YAML and from decoded replies, which are valid UTF-8 ([encoding/json]
    would replace other bytes). *)
Class JsonCodec := {
  blank : string -> bool;
  decodeDocument : string -> string + option stateDocument * string;
  decodeTrailing : string -> trailing;
  encodeDocument : stateDocument -> string;
  encode_not_blank d : blank (encodeDocument d) = false;
  decode_written d : exists rest, decodeDocument (encodeDocument d) = inr (Some (durableDocument d), rest) /\
    decodeTrailing rest = TrailEOF;
}.

(** ** Errors *)

Inductive stateError :=
  | EmptyFile
  | DecodeJSON (e : string)
  | NullDocument
  | MultipleValues
  | DecodeTrailing (e : string)
  | UnsupportedVersion (v : Z)
  | NoDurableFields
  | ErrNotExist
  | ReadError (e : string)
  | ReadState (path : string) (e : stateError)
  | ReadBackup (path : string) (e : stateError)
  | JoinErrors (e1 e2 : stateError).

(** [errors.Is(err, os.ErrNotExist)] *)
Fixpoint isNotExist (e : stateError) : bool :=
  match e with
  | ErrNotExist => true
  | ReadState _ e | ReadBackup _ e => isNotExist e
  | JoinErrors e1 e2 => isNotExist e1 || isNotExist e2
  | _ => false
  end.

(** ** Decoding and loading *)

Section load.
Context `{JsonCodec}.

Definition decodeState (data : string) : stateError + savedState * stateLoadInfo :=
  if blank data then inl EmptyFile
  else match decodeDocument data with
       | inl e => inl (DecodeJSON e)
       | inr (None, _) => inl NullDocument
       | inr (Some document, rest) =>
           match decodeTrailing rest with
           | TrailValue => inl MultipleValues
           | TrailError e => inl (DecodeTrailing e)
           | TrailEOF =>
               if (Version document <? 0) || (currentStateVersion <? Version document)
               then inl (UnsupportedVersion (Version document))
               else match sd_Alarms document, sd_Blocks document, sd_NodesDown document with
                    | None, None, None => inl NoDurableFields
                    | al, bl, nd =>
                        inr (MkSavedState al bl nd,
                             MkStateLoadInfo "" (Version document) (Version document =? 0) false)
                    end
           end
       end.

Definition readStateCandidate (readFile : string -> stateError + string) (statePath : string)
  : stateError + savedState * stateLoadInfo :=
  match readFile statePath with inl e => inl e | inr data => decodeState data end.

Definition loadStateWithReader (statePath : string) (readFile : string -> stateError + string)
  : stateError + savedState * stateLoadInfo :=
  match readStateCandidate readFile statePath with
  | inr (state, info) => inr (state, info <| Source := statePath |>)
  | inl primaryErr =>
      let backupPath := statePath +:+ stateBackupSuffix in
      match readStateCandidate readFile backupPath with
      | inr (backup, info) =>
          inr (backup, info <| Source := backupPath |> <| RecoveredFromBackup := true |>)
      | inl backupErr =>
          if isNotExist primaryErr && isNotExist backupErr
          then inr (MkSavedState None None None, noLoadInfo)
          else if isNotExist primaryErr then inl (ReadBackup backupPath backupErr)
          else if isNotExist backupErr then inl (ReadState statePath primaryErr)
          else inl (JoinErrors (ReadState statePath primaryErr) (ReadBackup backupPath backupErr))
      end
  end.

End load.

(** ** Restoring *)

Inductive restoreLog :=
  | NotRestoring (alarm : string) (since : time)
  | ClearPagerDutyManually
  | Restored (what alarm : string).

Definition isStale (now t : time) : bool := hours_ge (Since now t) staleHours.

(** Entries are deleted from the map while it is ranged over, which Go allows. *)
Definition clearStale (now : time) (alarms : gmap string time) (what : string) (hasPagerduty : bool)
  : gmap string time * list restoreLog :=
  foldl (fun '(m, log) '(k, t) =>
    if isStale now t then
      (delete k m,
       log ++ [NotRestoring k t] ++
       (if hasPagerduty && String.eqb what "pagerduty" then [ClearPagerDutyManually] else []))
    else (m, log ++ [Restored what k]))
    (alarms, []) (map_to_list alarms).

(** One destination's map: kept as it is in the cache unless it was saved. *)
Definition restoreSent (now : time) (saved current : gomap time) (what : string) (hasPagerduty : bool)
  : gomap time * list restoreLog :=
  match saved with
  | None => (current, [])
  | Some m => let '(m', log) := clearStale now m what hasPagerduty in (Some m', log)
  end.

(** The dashboard's alarms, chain by chain; ranging over a nil inner map does nothing. *)
Definition clearInner (now : time) (hasPagerduty : bool) (inner : gomap time) : gomap time * list restoreLog :=
  match inner with
  | None => (None, [])
  | Some m => let '(m', log) := clearStale now m "dashboard" hasPagerduty in (Some m', log)
  end.

Definition restoreAll (now : time) (saved current : gomap (gomap time)) (hasPagerduty : bool)
  : gomap (gomap time) * list restoreLog :=
  match saved with
  | None => (current, [])
  | Some all =>
      (Some ((fun inner => (clearInner now hasPagerduty inner).1) <$> all),
       concat ((fun kv => (clearInner now hasPagerduty kv.2).2) <$> map_to_list all))
  end.

Definition restoreAlarms (now : time) (saved : option alarmCache) (hasPagerduty : bool) (cache : alarmCache)
  : alarmCache * list restoreLog :=
  match saved with
  | None => (cache, [])
  | Some s =>
      let '(tgm, log1) := restoreSent now (SentTgAlarms s) (SentTgAlarms cache) "telegram" hasPagerduty in
      let '(pdm, log2) := restoreSent now (SentPdAlarms s) (SentPdAlarms cache) "PagerDuty" hasPagerduty in
      let '(dim, log3) := restoreSent now (SentDiAlarms s) (SentDiAlarms cache) "Discord" hasPagerduty in
      let '(slm, log4) := restoreSent now (SentSlkAlarms s) (SentSlkAlarms cache) "Slack" hasPagerduty in
      let '(all, log5) := restoreAll now (AllAlarms s) (AllAlarms cache) hasPagerduty in
      (cache <| SentTgAlarms := tgm |> <| SentPdAlarms := pdm |> <| SentDiAlarms := dim |>
             <| SentSlkAlarms := slm |> <| AllAlarms := all |>,
       log1 ++ log2 ++ log3 ++ log4 ++ log5)
  end.

Definition restoreBlocks (blocks : gmap string (list Z)) (chains : gmap string ChainConfig)
  : gmap string ChainConfig :=
  foldl (fun chains '(chainName, bs) =>
    match chains !! chainName with
    | Some cc => <[chainName := cc <| blocksResults := [] ++ bs |>]> chains
    | None => chains
    end) chains (map_to_list blocks).

Definition markDown (downSince : time) (n : NodeConfig) : NodeConfig :=
  n <| nc_down := true |> <| nc_wasDown := true |> <| nc_downSince := downSince |>.

Definition restoreNodes (nodes : gomap time) (ns : list NodeConfig) : list NodeConfig :=
  foldl (fun ns '(nodeURL, since) =>
    if IsZero since then ns
    else (fun n => if String.eqb (Url n) nodeURL then markDown since n else n) <$> ns)
    ns (map_to_list (default ∅ nodes)).

Definition restoreNodesDown (nodesDown : gmap string (gomap time)) (chains : gmap string ChainConfig)
  : gmap string ChainConfig :=
  foldl (fun chains '(chainName, nodes) =>
    match chains !! chainName with
    | Some cc => <[chainName := cc <| Nodes := restoreNodes nodes (Nodes cc) |>]> chains
    | None => chains
    end) chains (map_to_list nodesDown).

Definition countNoNodes (cc : ChainConfig) : ChainConfig :=
  if Nat.eqb (length (filter (fun n => nc_down n = true) (Nodes cc))) (length (Nodes cc))
  then cc <| noNodes := true |> else cc.

Definition restoreSavedState (now : time) (saved : option savedState) (c : Config)
  : Config * list restoreLog :=
  match saved with
  | None => (c, [])
  | Some s =>
      let c := c <| Chains := restoreBlocks (default ∅ (ss_Blocks s)) (Chains c) |> in
      let '(cache, log) := restoreAlarms now (ss_Alarms s) (PD_Enabled (Pagerduty c)) (alarms c) in
      let c := c <| alarms := cache |> in
      match ss_NodesDown s with
      | None => (c, log)
      | Some nd => (c <| Chains := countNoNodes <$> restoreNodesDown nd (Chains c) |>, log)
      end
  end.

(** ** Taking a snapshot *)

Definition cloneAlarmTimes (source : gomap time) : gomap time := Some (default ∅ source).

Definition cloneAlarmState (source : option alarmCache) : alarmCache :=
  match source with
  | None => newAlarmCache
  | Some a =>
      newAlarmCache <| SentPdAlarms := cloneAlarmTimes (SentPdAlarms a) |>
        <| SentTgAlarms := cloneAlarmTimes (SentTgAlarms a) |>
        <| SentDiAlarms := cloneAlarmTimes (SentDiAlarms a) |>
        <| SentSlkAlarms := cloneAlarmTimes (SentSlkAlarms a) |>
        <| AllAlarms := Some (cloneAlarmTimes <$> default ∅ (AllAlarms a)) |>
  end.

(** The chain's entry of [nodes_down], made when its first down node is met. *)
Definition nodesDownOf (ns : list NodeConfig) : gomap time :=
  foldl (fun m n => if nc_down n then Some (<[Url n := nc_downSince n]> (default ∅ m)) else m) None ns.

Definition snapshotSavedState (c : Config) : savedState :=
  MkSavedState (Some (cloneAlarmState (Some (alarms c))))
    (Some ((fun cc => [] ++ blocksResults cc) <$> Chains c))
    (Some (omap (fun cc => Some <$> nodesDownOf (Nodes cc)) (Chains c))).

(** The document [writeStateAtomic] writes for a state. *)
Definition documentOf (s : savedState) : stateDocument :=
  MkStateDocument currentStateVersion (ss_Alarms s) (ss_Blocks s) (ss_NodesDown s).

(** What the next start reads back of it. *)
Definition durableState (s : savedState) : savedState :=
  MkSavedState (durableCache <$> ss_Alarms s) (ss_Blocks s) (ss_NodesDown s).

(** ** Lemmas *)

(** Ranging over a map and changing the entry of each of its keys, whatever the
    order, changes each entry once. *)
Lemma foldl_alter_lookup {V W} (f : V -> W -> W) (l : list (string * V)) (chains : gmap string W) (k : string) :
  NoDup l.*1 ->
  foldl (fun chains '(name, v) =>
    match chains !! name with Some cc => <[name := f v cc]> chains | None => chains end) chains l !! k =
  (fun cc => from_option (fun v => f v cc) cc ((list_to_map l : gmap string V) !! k)) <$> chains !! k.
Proof.
  revert chains. induction l as [| [name v] l IH]; intros chains Hnd; simpl.
  - rewrite lookup_empty. simpl. by destruct (chains !! k).
  - apply NoDup_cons in Hnd as [Hni Hnd]. rewrite (IH _ Hnd).
    destruct (decide (name = k)) as [-> | Hne].
    + rewrite (not_elem_of_list_to_map_1 (M := gmap string)) by done. rewrite lookup_insert_eq.
      destruct (chains !! k) eqn:E; simpl; [by rewrite lookup_insert_eq | by rewrite E].
    + rewrite lookup_insert_ne by done.
      destruct (chains !! name); [by rewrite lookup_insert_ne | done].
Qed.

Lemma restoreBlocks_lookup blocks chains k :
  restoreBlocks blocks chains !! k =
  (fun cc => from_option (fun bs => cc <| blocksResults := bs |>) cc (blocks !! k)) <$> chains !! k.
Proof.
  unfold restoreBlocks. rewrite (foldl_alter_lookup (fun bs cc => cc <| blocksResults := [] ++ bs |>)).
  - by rewrite list_to_map_to_list.
  - apply NoDup_fst_map_to_list.
Qed.

Lemma restoreNodesDown_lookup nd chains k :
  restoreNodesDown nd chains !! k =
  (fun cc => from_option (fun nodes => cc <| Nodes := restoreNodes nodes (Nodes cc) |>) cc (nd !! k))
    <$> chains !! k.
Proof.
  unfold restoreNodesDown.
  rewrite (foldl_alter_lookup (fun nodes cc => cc <| Nodes := restoreNodes nodes (Nodes cc) |>)).
  - by rewrite list_to_map_to_list.
  - apply NoDup_fst_map_to_list.
Qed.

(** What restoring does to one node. *)
Definition restoredNode (nodes : gomap time) (n : NodeConfig) : NodeConfig :=
  match mget nodes (Url n) with
  | Some t => if IsZero t then n else markDown t n
  | None => n
  end.

Lemma restoreNodes_list (l : list (string * time)) (ns : list NodeConfig) :
  NoDup l.*1 ->
  foldl (fun ns '(nodeURL, since) =>
    if IsZero since then ns
    else (fun n => if String.eqb (Url n) nodeURL then markDown since n else n) <$> ns) ns l =
  restoredNode (Some (list_to_map l)) <$> ns.
Proof.
  revert ns. induction l as [| [u t] l IH]; intros ns Hnd; simpl.
  - rewrite <- list_fmap_id at 1. apply list_fmap_ext. intros _ n _. unfold restoredNode, mget. simpl.
    by rewrite lookup_empty.
  - apply NoDup_cons in Hnd as [Hni Hnd]. rewrite (IH _ Hnd).
    assert (forall n : NodeConfig, Url n = u ->
      restoredNode (Some (list_to_map l)) n = n) as Hout.
    { intros n Hu. unfold restoredNode, mget. simpl.
      by rewrite (not_elem_of_list_to_map_1 (M := gmap string)) by (by rewrite Hu). }
    destruct (IsZero t) eqn:Ht.
    + apply list_fmap_ext. intros _ n _. destruct (decide (Url n = u)) as [Hu | Hne].
      * rewrite (Hout _ Hu). unfold restoredNode, mget. simpl. by rewrite Hu, lookup_insert_eq, Ht.
      * unfold restoredNode, mget. simpl. by rewrite lookup_insert_ne.
    + rewrite <- list_fmap_compose. apply list_fmap_ext. intros _ n _. simpl.
      destruct (String.eqb_spec (Url n) u) as [Hu | Hne].
      * rewrite Hout by done. unfold restoredNode, mget. simpl. by rewrite Hu, lookup_insert_eq, Ht.
      * unfold restoredNode, mget. simpl. by rewrite lookup_insert_ne.
Qed.

Lemma restoreNodes_eq nodes ns : restoreNodes nodes ns = restoredNode nodes <$> ns.
Proof.
  unfold restoreNodes. rewrite restoreNodes_list by apply NoDup_fst_map_to_list.
  rewrite list_to_map_to_list. apply list_fmap_ext. intros _ n _. by destruct nodes.
Qed.

Lemma clearStale_list now what hp (l : list (string * time)) (m : gmap string time) (log : list restoreLog) k :
  (foldl (fun '(m, log) '(k, t) =>
    if isStale now t then
      (delete k m,
       log ++ [NotRestoring k t] ++
       (if hp && String.eqb what "pagerduty" then [ClearPagerDutyManually] else []))
    else (m, log ++ [Restored what k])) (m, log) l).1 !! k =
  if existsb (fun kv => String.eqb kv.1 k && isStale now kv.2) l then None else m !! k.
Proof.
  revert m log. induction l as [| [k' t] l IH]; intros m log; simpl; [done |].
  destruct (isStale now t); rewrite IH; destruct (String.eqb_spec k' k) as [-> | Hne]; simpl;
    destruct (existsb _ l); rewrite ?lookup_delete_eq, ?lookup_delete_ne by done; done.
Qed.

(** The alarms of a map that are not stale. *)
Definition keepFresh (now : time) (m : gmap string time) : gmap string time :=
  filter (fun kv => isStale now kv.2 = false) m.

Lemma clearStale_eq now m what hp : (clearStale now m what hp).1 = keepFresh now m.
Proof.
  apply map_eq. intros k. unfold clearStale, keepFresh. rewrite clearStale_list.
  destruct (existsb _ _) eqn:E.
  - symmetry. apply existsb_exists in E as ([k' t] & Hin & [Hk Ht]%andb_true_iff). simpl in *.
    apply String.eqb_eq in Hk as ->. apply list_elem_of_In, elem_of_map_to_list in Hin.
    apply map_lookup_filter_None. right. intros t' Ht'. simplify_eq. simpl. by rewrite Ht.
  - destruct (m !! k) as [t |] eqn:Hm.
    + symmetry. apply map_lookup_filter_Some. split; [done |]. simpl.
      destruct (isStale now t) eqn:Hs; [| done]. exfalso.
      rewrite <- not_true_iff_false in E. apply E, existsb_exists. exists (k, t). split.
      * by apply list_elem_of_In, elem_of_map_to_list.
      * simpl. by rewrite String.eqb_refl.
    + symmetry. apply map_lookup_filter_None. by left.
Qed.

Lemma clearStale_no_note now m what hp : what <> "pagerduty" ->
  ClearPagerDutyManually ∉ (clearStale now m what hp).2.
Proof.
  intros Hw. unfold clearStale. rewrite (proj2 (String.eqb_neq _ _) Hw), andb_false_r.
  assert (forall l (acc : gmap string time * list restoreLog), ClearPagerDutyManually ∉ acc.2 ->
    ClearPagerDutyManually ∉ (foldl (fun '(m, log) '(k, t) =>
      if isStale now t then (delete k m, log ++ [NotRestoring k t] ++ [])
      else (m, log ++ [Restored what k])) acc l).2) as H; [| apply H; simpl; apply not_elem_of_nil].
  induction l as [| [k t] l IH]; intros [m' log] Hacc; cbn [foldl]; [done |]. apply IH.
  destruct (isStale now t); simpl; apply not_elem_of_app; (split; [done |]);
    by intros [? | ?%elem_of_nil]%elem_of_cons.
Qed.

Lemma restoreSent_eq now saved current what hp :
  (restoreSent now saved current what hp).1 =
  match saved with Some m => Some (keepFresh now m) | None => current end.
Proof.
  destruct saved as [m |]; [| done]. simpl. destruct (clearStale _ _ _ _) as [m' log] eqn:E. simpl.
  by rewrite <- (clearStale_eq now m what hp), E.
Qed.

Lemma clearInner_eq now hp inner : (clearInner now hp inner).1 = keepFresh now <$> inner.
Proof.
  destruct inner as [m |]; [| done]. simpl. destruct (clearStale _ _ _ _) as [m' log] eqn:E. simpl.
  by rewrite <- (clearStale_eq now m "dashboard" hp), E.
Qed.

Lemma restoreAlarms_sent now s hp cache d :
  sentField d (restoreAlarms now (Some s) hp cache).1 =
  match sentField d s with Some m => Some (keepFresh now m) | None => sentField d cache end.
Proof.
  unfold restoreAlarms.
  destruct (restoreSent now (SentTgAlarms s) _ _ _) as [m1 l1] eqn:E1,
    (restoreSent now (SentPdAlarms s) _ _ _) as [m2 l2] eqn:E2,
    (restoreSent now (SentDiAlarms s) _ _ _) as [m3 l3] eqn:E3,
    (restoreSent now (SentSlkAlarms s) _ _ _) as [m4 l4] eqn:E4, (restoreAll _ _ _ _) as [m5 l5].
  apply (f_equal fst) in E1, E2, E3, E4. rewrite restoreSent_eq in E1, E2, E3, E4. simpl in *. subst.
  by destruct d.
Qed.

Lemma restoreAlarms_all now s hp cache :
  AllAlarms (restoreAlarms now (Some s) hp cache).1 =
  match AllAlarms s with Some all => Some ((fun inner : gomap time => keepFresh now <$> inner) <$> all)
                       | None => AllAlarms cache end.
Proof.
  unfold restoreAlarms. repeat (destruct (restoreSent _ _ _ _ _) as [? ?]).
  unfold restoreAll. destruct (AllAlarms s) as [all |]; simpl; [| done].
  f_equal. apply map_fmap_ext. intros k inner _. apply clearInner_eq.
Qed.

Lemma restoreAlarms_rest now s hp cache :
  flappingAlarms (restoreAlarms now s hp cache).1 = flappingAlarms cache /\
  inFlight (restoreAlarms now s hp cache).1 = inFlight cache.
Proof.
  destruct s as [s |]; [| done]. unfold restoreAlarms.
  repeat (destruct (restoreSent _ _ _ _ _) as [? ?]). by destruct (restoreAll _ _ _ _) as [? ?].
Qed.

(** A chain after a restore. *)
Definition restoredChain (s : savedState) (k : string) (cc : ChainConfig) : ChainConfig :=
  let cc := from_option (fun bs => cc <| blocksResults := bs |>) cc (mget (ss_Blocks s) k) in
  match ss_NodesDown s with
  | None => cc
  | Some nd => countNoNodes (from_option (fun nodes => cc <| Nodes := restoredNode nodes <$> Nodes cc |>) cc (nd !! k))
  end.

Lemma restoreSavedState_chain now s c k :
  Chains (restoreSavedState now (Some s) c).1 !! k = restoredChain s k <$> Chains c !! k.
Proof.
  unfold restoreSavedState, restoredChain.
  destruct (restoreAlarms _ _ _ _) as [cache log]. destruct (ss_NodesDown s) as [nd |]; simpl.
  - rewrite lookup_fmap, restoreNodesDown_lookup, restoreBlocks_lookup, <- !option_fmap_compose.
    destruct (Chains c !! k) as [cc |]; [| done]. simpl. do 2 f_equal.
    destruct (nd !! k) as [nodes |]; simpl; [rewrite restoreNodes_eq |]; by destruct (ss_Blocks s).
  - rewrite restoreBlocks_lookup. destruct (Chains c !! k) as [cc |]; [| done]. simpl.
    by destruct (ss_Blocks s).
Qed.

Lemma restoreSavedState_alarms now s c :
  alarms (restoreSavedState now (Some s) c).1 =
  (restoreAlarms now (ss_Alarms s) (PD_Enabled (Pagerduty c)) (alarms c)).1.
Proof.
  unfold restoreSavedState. simpl. destruct (restoreAlarms _ _ _ _) as [cache log].
  by destruct (ss_NodesDown s).
Qed.

Lemma restoreSavedState_log now s c :
  (restoreSavedState now (Some s) c).2 =
  (restoreAlarms now (ss_Alarms s) (PD_Enabled (Pagerduty c)) (alarms c)).2.
Proof.
  unfold restoreSavedState. simpl. destruct (restoreAlarms _ _ _ _) as [cache log].
  by destruct (ss_NodesDown s).
Qed.

(** *** The snapshot *)

Lemma nodesDownOf_fold (ns : list NodeConfig) (m0 : gomap time) n :
  n ∈ ns -> NoDup (Url <$> ns) ->
  mget (foldl (fun m n => if nc_down n then Some (<[Url n := nc_downSince n]> (default ∅ m)) else m) m0 ns)
    (Url n) = if nc_down n then Some (nc_downSince n) else mget m0 (Url n).
Proof.
  revert m0. induction ns as [| n' ns IH]; intros m0; [by intros ?%elem_of_nil |].
  rewrite fmap_cons, NoDup_cons. intros Hin [Hni Hnd]. cbn [foldl].
  set (g := fun (m : gomap time) (n : NodeConfig) => _).
  assert (forall ns m, Url n' ∉ Url <$> ns -> mget (foldl g m ns) (Url n') = mget m (Url n')) as Hskip.
  { clear. induction ns as [| a ns IH]; intros m; [done |]. rewrite fmap_cons, not_elem_of_cons.
    intros [Hne Hni]. cbn [foldl]. rewrite IH by done. unfold g. destruct (nc_down a); [| done].
    unfold mget. simpl. rewrite lookup_insert_ne by done. by destruct m. }
  apply elem_of_cons in Hin as [-> | Hin].
  - rewrite Hskip by done. unfold g. destruct (nc_down n'); [| done]. unfold mget. simpl.
    by rewrite lookup_insert_eq.
  - rewrite (IH _ Hin Hnd). destruct (nc_down n); [done |]. unfold g. destruct (nc_down n'); [| done].
    unfold mget. simpl. rewrite lookup_insert_ne; [by destruct m0 |].
    intros Hu. apply Hni. rewrite Hu. by apply list_elem_of_fmap_2.
Qed.

Lemma nodesDownOf_lookup ns n : n ∈ ns -> NoDup (Url <$> ns) ->
  mget (nodesDownOf ns) (Url n) = if nc_down n then Some (nc_downSince n) else None.
Proof. intros. unfold nodesDownOf. by rewrite nodesDownOf_fold. Qed.

Lemma clone_sent d a : sentField d (cloneAlarmState (Some a)) = Some (default ∅ (sentField d a)).
Proof. by destruct d. Qed.

Lemma keepFresh_mtime now m k :
  mtime (Some (keepFresh now m)) k = let t := mtime (Some m) k in
    if isStale now t && bool_decide (is_Some (m !! k)) then 0 else t.
Proof.
  unfold mtime, mget, keepFresh. simpl. destruct (m !! k) as [t |] eqn:E.
  - destruct (isStale now t) eqn:Hs; simpl.
    + rewrite (proj2 (map_lookup_filter_None _ _ _)); [by rewrite Hs |].
      right. intros t' Ht'. simplify_eq. simpl. by rewrite Hs.
    + rewrite (proj2 (map_lookup_filter_Some _ _ _ t)); [by rewrite Hs |]. done.
  - rewrite (proj2 (map_lookup_filter_None _ _ _)); [| by left].
    rewrite (bool_decide_false (is_Some None)) by (by intros [? ?]). by rewrite andb_false_r.
Qed.

(** What a restart does to a chain. *)
Lemma restart_chain (now : time) (k : string) (c c0 : Config) (cc cc0 : ChainConfig) :
  Chains c !! k = Some cc -> Chains c0 !! k = Some cc0 ->
  Url <$> Nodes cc0 = Url <$> Nodes cc -> NoDup (Url <$> Nodes cc) ->
  let c' := (restoreSavedState now (Some (durableState (snapshotSavedState c))) c0).1 in
  exists cc', Chains c' !! k = Some cc' /\
    blocksResults cc' = blocksResults cc /\
    Nodes cc' = zip_with (fun n n0 =>
      if nc_down n && negb (IsZero (nc_downSince n)) then markDown (nc_downSince n) n0 else n0)
      (Nodes cc) (Nodes cc0) /\
    noNodes cc' = (noNodes cc0 || forallb nc_down (Nodes cc'))%bool.
Proof.
  intros Hc Hc0 Hurl Hnd c'. subst c'. rewrite restoreSavedState_chain, Hc0. eexists. split; [reflexivity |].
  unfold restoredChain, durableState, snapshotSavedState. simpl.
  rewrite lookup_fmap, lookup_omap, Hc. simpl.
  set (cc1 := from_option _ _ _).
  assert (Nodes cc1 = restoredNode (nodesDownOf (Nodes cc)) <$> Nodes cc0) as Hn.
  { subst cc1. destruct (nodesDownOf (Nodes cc)) eqn:E; simpl; [done |].
    rewrite <- list_fmap_id at 1. by apply list_fmap_ext. }
  assert (blocksResults cc1 = blocksResults cc) as Hb by (subst cc1; by destruct (nodesDownOf _)).
  assert (noNodes cc1 = noNodes cc0) as Hno by (subst cc1; by destruct (nodesDownOf _)).
  assert (Nodes (countNoNodes cc1) = Nodes cc1) as Hcn by (unfold countNoNodes; by destruct (_ =? _)%nat).
  split_and!.
  - rewrite <- Hb. unfold countNoNodes. by destruct (_ =? _)%nat.
  - rewrite Hcn, Hn. clear -Hurl Hnd.
    apply list_eq. intros i. rewrite list_lookup_fmap, lookup_zip_with.
    pose proof (f_equal (fun l => l !! i) Hurl) as Hi. simpl in Hi. rewrite !list_lookup_fmap in Hi.
    destruct (Nodes cc0 !! i) as [n0 |], (Nodes cc !! i) as [n |] eqn:E; simplify_eq/=; [| done].
    f_equal. unfold restoredNode. rewrite Hi, nodesDownOf_lookup by (try done; by eapply list_elem_of_lookup_2).
    destruct (nc_down n); simpl; [| done]. by destruct (IsZero _).
  - rewrite Hcn. unfold countNoNodes. rewrite <- Hno. clear.
    assert (forall ns, (length (filter (fun n => nc_down n = true) ns) =? length ns)%nat = forallb nc_down ns) as H.
    { induction ns as [| n ns IH]; [done |]. rewrite filter_cons. simpl.
      destruct (nc_down n) eqn:E; simpl; [by rewrite IH |].
      pose proof (length_filter (fun n => nc_down n = true) ns). apply Nat.eqb_neq. simpl. lia. }
    rewrite H. destruct (forallb _ _); simpl; by rewrite ?orb_true_r, ?orb_false_r.
Qed.

(** A document that was written decodes to the durable part of its state. *)
Lemma decodeState_documentOf `{JsonCodec} (s : savedState) :
  is_Some (ss_Alarms s) ->
  decodeState (encodeDocument (documentOf s)) =
    inr (durableState s, MkStateLoadInfo "" currentStateVersion false false).
Proof.
  intros [al Hal]. unfold decodeState. rewrite encode_not_blank.
  destruct (decode_written (documentOf s)) as (rest & -> & ->). simpl. rewrite Hal. simpl.
  unfold durableState. by rewrite Hal.
Qed.

(** ** Properties *)

(** Decoding is exact.  A state document is accepted if and only if the
    file is not blank, holds exactly one JSON value that is a document, its
    version is 0 or 1 and at least one durable field is present; what is
    returned are the document's fields, and version 0 is reported as legacy. *)
Theorem decodeState_accepts `{JsonCodec} (data : string) (s : savedState) (info : stateLoadInfo) :
  decodeState data = inr (s, info) <->
  blank data = false /\
  exists doc rest, decodeDocument data = inr (Some doc, rest) /\ decodeTrailing rest = TrailEOF /\
    (Version doc = 0 \/ Version doc = 1) /\
    (is_Some (sd_Alarms doc) \/ is_Some (sd_Blocks doc) \/ is_Some (sd_NodesDown doc)) /\
    s = MkSavedState (sd_Alarms doc) (sd_Blocks doc) (sd_NodesDown doc) /\
    info = MkStateLoadInfo "" (Version doc) (Version doc =? 0) false.
Proof.
  unfold decodeState, currentStateVersion. split.
  - intros Hd. destruct (blank data); [done |]. split; [done |].
    destruct (decodeDocument data) as [? | [[doc |] rest]]; [done | | done].
    destruct (decodeTrailing rest) eqn:Hr; [| done | done].
    destruct (_ || _)%bool eqn:Hv; [done |]. breflect. exists doc, rest.
    assert (Version doc = 0 \/ Version doc = 1) by lia.
    destruct doc as [v [a |] [b |] [n |]]; simpl in *; simplify_eq; split_and!; eauto.
  - intros (-> & doc & rest & -> & -> & Hv & Hf & -> & ->).
    replace ((Version doc <? 0) || (1 <? Version doc))%bool with false by (destruct Hv as [-> | ->]; done).
    destruct doc as [v [a |] [b |] [n |]]; simpl in *; try done.
    by destruct Hf as [[? ?] | [[? ?] | [? ?]]].
Qed.

(** C26: which file is used.  A readable primary wins; otherwise a readable
    backup is used and reported; if both files are missing the state is empty;
    in every other case loading fails with an error that does not look like a
    missing file, so durable state is never silently discarded. *)
Theorem loadState_policy `{JsonCodec} (path : string) (readFile : string -> stateError + string) :
  let backup := path +:+ stateBackupSuffix in
  match readStateCandidate readFile path, readStateCandidate readFile backup with
  | inr (s, info), _ => loadStateWithReader path readFile = inr (s, info <| Source := path |>)
  | inl _, inr (s, info) =>
      loadStateWithReader path readFile =
        inr (s, info <| Source := backup |> <| RecoveredFromBackup := true |>)
  | inl e1, inl e2 =>
      if isNotExist e1 && isNotExist e2
      then loadStateWithReader path readFile = inr (MkSavedState None None None, noLoadInfo)
      else exists e, loadStateWithReader path readFile = inl e /\ isNotExist e = false
  end.
Proof.
  simpl. unfold loadStateWithReader.
  destruct (readStateCandidate readFile path) as [e1 | [s info]]; [| done].
  destruct (readStateCandidate readFile (path +:+ stateBackupSuffix)) as [e2 | [s info]]; [| done].
  destruct (isNotExist e1) eqn:H1, (isNotExist e2) eqn:H2; simpl; [done | | |];
    eexists; (split; [reflexivity |]); simpl; by rewrite ?H1, ?H2.
Qed.

(** C27: a restart keeps a chain.  Taking a snapshot, writing and reading it back
    and restoring it into a freshly loaded chain with the same nodes gives the
    chain its block history back.  Exactly the nodes that were down with a known
    time are marked down, with that time; a node that was down without one (a
    node without alerts that was never healthy) comes back as it was loaded.
    The chain has no nodes left if all of them are down. *)
Theorem restart_keeps_chain (now : time) (k : string) (c c0 : Config) (cc cc0 : ChainConfig) :
  Chains c !! k = Some cc -> Chains c0 !! k = Some cc0 ->
  Url <$> Nodes cc0 = Url <$> Nodes cc -> NoDup (Url <$> Nodes cc) ->
  let c' := (restoreSavedState now (Some (durableState (snapshotSavedState c))) c0).1 in
  exists cc', Chains c' !! k = Some cc' /\
    blocksResults cc' = blocksResults cc /\
    Nodes cc' = zip_with (fun n n0 =>
      if nc_down n && negb (IsZero (nc_downSince n)) then markDown (nc_downSince n) n0 else n0)
      (Nodes cc) (Nodes cc0) /\
    noNodes cc' = (noNodes cc0 || forallb nc_down (Nodes cc'))%bool.
Proof. apply restart_chain. Qed.

(** C9: a restart keeps delivered alarms.  After writing, reading and restoring
    a snapshot, an alarm is open at a destination exactly if it was open there
    before and was accepted less than 24 hours ago, with the same time: a
    trigger that was delivered is not delivered again, its resolution is, and
    nothing is left in flight. *)
Theorem restart_keeps_delivered (now : time) (c c0 : Config) (d : notifyDest) (msg : alertMsg) :
  alarms c0 = newAlarmCache -> 0 <= now - flappingWindow ->
  let t := mtime (sentField d (alarms c)) (message msg) in
  let c' := (restoreSavedState now (Some (durableState (snapshotSavedState c))) c0).1 in
  is_open (view_of (alarms c')) d (message msg) =
    (is_open (view_of (alarms c)) d (message msg) && negb (isStale now t))%bool /\
  (is_open (view_of (alarms c')) d (message msg) = true -> mtime (sentField d (alarms c')) (message msg) = t) /\
  (reserveDelivery now msg d (alarms c')).1 =
    eqb (resolved msg) (negb (IsZero t) && negb (isStale now t)).
Proof.
  intros Hnew Hnow t c'.
  assert (alarms c' = (restoreAlarms now (Some (durableCache (cloneAlarmState (Some (alarms c)))))
    (PD_Enabled (Pagerduty c0)) newAlarmCache).1) as Hal.
  { subst c'. rewrite restoreSavedState_alarms, Hnew. done. }
  assert (sentField d (alarms c') = Some (keepFresh now (default ∅ (sentField d (alarms c))))) as Hs.
  { rewrite Hal, restoreAlarms_sent.
    assert (sentField d (durableCache (cloneAlarmState (Some (alarms c)))) =
      Some (default ∅ (sentField d (alarms c)))) as -> by by destruct d. done. }
  assert (mtime (sentField d (alarms c')) (message msg) = if isStale now t then 0 else t) as Ht.
  { rewrite Hs, keepFresh_mtime. fold t. rewrite mtime_default. fold t. simpl.
    destruct (isStale now t) eqn:E; simpl; [| done]. case_bool_decide as Hsome; [done |].
    subst t. destruct (sentField d (alarms c)) as [m |]; simpl in *; [| done].
    unfold mtime, mget. simpl. destruct (m !! message msg) eqn:Em; [| done].
    exfalso. apply Hsome. by eexists. }
  assert (is_open (view_of (alarms c')) d (message msg) = (negb (IsZero t) && negb (isStale now t))%bool) as Ho.
  { unfold is_open. simpl. rewrite Ht. destruct (isStale now t); simpl; by rewrite ?andb_true_r, ?andb_false_r. }
  split_and!.
  - rewrite Ho. unfold is_open. simpl. fold t. done.
  - rewrite Ho, Ht. intros [_ Hst%negb_true_iff]%andb_true_iff. by rewrite Hst.
  - pose proof (reserve_view now msg d (alarms c') Hnow) as Hr.
    destruct (reserveDelivery now msg d (alarms c')) as [ok a']. destruct Hr as [-> _].
    unfold may_start. rewrite Ho. simpl.
    assert (flightOf (alarms c') d = ∅) as -> by by (unfold flightOf; rewrite Hal; rewrite (proj2 (restoreAlarms_rest _ _ _ _))).
    rewrite bool_decide_false by set_solver. simpl.
    assert (flapping now (view_of (alarms c')) msg = false) as ->.
    { unfold flapping. simpl. unfold flapOf. rewrite Hal, (proj1 (restoreAlarms_rest _ _ _ _)). simpl.
      unfold mtime, mget, After, Add. simpl. rewrite lookup_empty. simpl. rewrite lookup_empty. simpl.
      apply Z.ltb_ge. lia. }
    rewrite andb_false_r, andb_true_r. by destruct (resolved msg), (_ && _)%bool.
Qed.

(** The note that stale PagerDuty alarms may need to be cleared by hand is
    never logged by a restore: it is tied to a name no caller passes. *)
Theorem stale_note_never_logged (now : time) (saved : option savedState) (c : Config) :
  ClearPagerDutyManually ∉ (restoreSavedState now saved c).2.
Proof.
  destruct saved as [s |]; [| apply not_elem_of_nil]. rewrite restoreSavedState_log.
  destruct (ss_Alarms s) as [a |]; [| apply not_elem_of_nil].
  assert (forall m cur what hp, what <> "pagerduty" ->
    ClearPagerDutyManually ∉ (restoreSent now m cur what hp).2) as Hsent.
  { intros [m |] cur what hp Hw; simpl; [| apply not_elem_of_nil].
    pose proof (clearStale_no_note now m what hp Hw). by destruct (clearStale _ _ _ _). }
  unfold restoreAlarms.
  pose proof (Hsent (SentTgAlarms a) (SentTgAlarms (alarms c)) "telegram" (PD_Enabled (Pagerduty c)) ltac:(done)) as H1.
  pose proof (Hsent (SentPdAlarms a) (SentPdAlarms (alarms c)) "PagerDuty" (PD_Enabled (Pagerduty c)) ltac:(done)) as H2.
  pose proof (Hsent (SentDiAlarms a) (SentDiAlarms (alarms c)) "Discord" (PD_Enabled (Pagerduty c)) ltac:(done)) as H3.
  pose proof (Hsent (SentSlkAlarms a) (SentSlkAlarms (alarms c)) "Slack" (PD_Enabled (Pagerduty c)) ltac:(done)) as H4.
  repeat (destruct (restoreSent _ _ _ _ _) as [? ?]). unfold restoreAll.
  destruct (AllAlarms a) as [all |]; simpl in *; rewrite !not_elem_of_app; split_and!; try done;
    [| apply not_elem_of_nil].
  intros (lg & Hin & Hl%list_elem_of_In)%list_elem_of_In%in_concat.
  apply list_elem_of_In, list_elem_of_fmap in Hin as ([k inner] & -> & _). simpl in Hl.
  destruct inner as [m |]; simpl in Hl; [| by apply elem_of_nil in Hl].
  pose proof (clearStale_no_note now m "dashboard" (PD_Enabled (Pagerduty c)) ltac:(done)) as Hn.
  by destruct (clearStale _ _ _ _).
Qed.

(** ** Witnesses *)

(** A concrete codec: the durable fields of a document as a binary numeral. *)
Definition docTuple : Type :=
  Z * option (gomap Z * gomap Z * gomap Z * gomap Z * gomap (gomap Z)) * gomap (list Z) * gomap (gomap Z).

Definition toTuple (d : stateDocument) : docTuple :=
  (Version d,
   (fun a => (SentPdAlarms a, SentTgAlarms a, SentDiAlarms a, SentSlkAlarms a, AllAlarms a)) <$> sd_Alarms d,
   sd_Blocks d, sd_NodesDown d).

Definition ofTuple (t : docTuple) : stateDocument :=
  let '(v, al, bl, nd) := t in
  MkStateDocument v ((fun '(p, g, i, s, a) => MkAlarmCache p g i s a None None) <$> al) bl nd.

Fixpoint posString (p : positive) : string :=
  match p with xH => "" | xO p => String "0"%char (posString p) | xI p => String "1"%char (posString p) end.

Fixpoint stringPos (s : string) : option positive :=
  match s with
  | EmptyString => Some xH
  | String "0"%char s => xO <$> stringPos s
  | String "1"%char s => xI <$> stringPos s
  | _ => None
  end.

Lemma stringPos_posString p : stringPos (posString p) = Some p.
Proof. induction p as [p IH | p IH |]; simpl; by rewrite ?IH. Qed.

Definition sampleDecode (s : string) : string + option stateDocument * string :=
  match s with
  | String "D"%char r => match stringPos r ≫= decode with
                    | Some t => inr (Some (ofTuple t), "")
                    | None => inl "invalid document"
                    end
  | "null" => inr (None, "")
  | _ => inl "invalid character"
  end.

#[refine] Definition sampleCodec : JsonCodec := {|
  blank s := String.eqb s "";
  decodeDocument := sampleDecode;
  decodeTrailing s := if String.eqb s "" then TrailEOF else TrailValue;
  encodeDocument d := String "D"%char (posString (encode (toTuple d)));
|}.
Proof.
  - done.
  - intros d. exists "". split; [| done]. simpl. rewrite stringPos_posString. simpl. rewrite decode_encode.
    by destruct d as [v [[] |] b n].
Defined.

Definition stateNow : time := unix_epoch + Hour.

(** The sample configuration after some running: one node down, one alarm
    accepted by Telegram an hour ago and one two days ago. *)
Definition runningChain : ChainConfig :=
  sampleChain <| blocksResults := [3; 0; 3; 3] |>
    <| Nodes := [markDown unix_epoch (sampleNode "tcp://a:26657"); sampleNode "tcp://b:26657"] |>.

Definition runningConfig : Config :=
  sampleConfig <| Chains := {[ "Osmosis" := runningChain ]} |>
    <| alarms := newAlarmCache <| SentTgAlarms := Some {[ "recent" := unix_epoch; "old" := unix_epoch - 48 * Hour ]} |> |>.

Lemma decodeState_accepts_witness :
  exists s info, @decodeState sampleCodec (@encodeDocument sampleCodec (documentOf (snapshotSavedState runningConfig)))
    = inr (s, info) /\ Legacy info = false.
Proof.
  exists (durableState (snapshotSavedState runningConfig)), (MkStateLoadInfo "" 1 false false).
  split; [| done]. apply (@decodeState_accepts sampleCodec). split; [done |].
  exists (durableDocument (documentOf (snapshotSavedState runningConfig))), "".
  split_and!; [by vm_compute | done | by right | left; by eexists | done | done].
Defined.

Lemma loadState_policy_witness :
  let data := @encodeDocument sampleCodec (MkStateDocument 0 None (Some ∅) None) in
  @loadStateWithReader sampleCodec "s.json"
    (fun p => if String.eqb p "s.json" then inr "" else if String.eqb p "s.json.bak" then inr data else inl ErrNotExist)
  = inr (MkSavedState None (Some ∅) None, MkStateLoadInfo "s.json.bak" 0 true true).
Proof.
  intros data.
  exact (@loadState_policy sampleCodec "s.json"
    (fun p => if String.eqb p "s.json" then inr "" else if String.eqb p "s.json.bak" then inr data else inl ErrNotExist)).
Defined.

Lemma restart_keeps_chain_witness :
  let c' := (restoreSavedState stateNow (Some (durableState (snapshotSavedState runningConfig))) sampleConfig).1 in
  exists cc', Chains c' !! "Osmosis" = Some cc' /\ blocksResults cc' = [3; 0; 3; 3] /\
    nc_down <$> Nodes cc' = [true; false] /\ noNodes cc' = false.
Proof.
  intros c'.
  destruct (restart_keeps_chain stateNow "Osmosis" runningConfig sampleConfig runningChain sampleChain
    eq_refl eq_refl eq_refl ltac:(by apply (bool_decide_unpack _); vm_compute)) as (cc' & E & Hb & Hn & Hno).
  exists cc'. split; [exact E |]. split; [exact Hb |]. rewrite Hno, Hn. by split.
Defined.

Lemma restart_keeps_delivered_witness :
  let c' := (restoreSavedState stateNow (Some (durableState (snapshotSavedState runningConfig))) sampleConfig).1 in
  (reserveDelivery stateNow (sampleMsg <| message := "recent" |>) tg (alarms c')).1 = false /\
  (reserveDelivery stateNow (sampleMsg <| message := "old" |>) tg (alarms c')).1 = true.
Proof.
  intros c'. assert (0 <= stateNow - flappingWindow) as Hnow by by vm_compute.
  split.
  - rewrite (proj2 (proj2 (restart_keeps_delivered stateNow runningConfig sampleConfig tg
      (sampleMsg <| message := "recent" |>) eq_refl Hnow))). by vm_compute.
  - rewrite (proj2 (proj2 (restart_keeps_delivered stateNow runningConfig sampleConfig tg
      (sampleMsg <| message := "old" |>) eq_refl Hnow))). by vm_compute.
Defined.
