(* ===== verification/StateFile.v ===== *)
(** * Writing the state file (state.go)

    [writeStateAtomic] over a model of a directory in which every system call
    may fail and the machine may stop between any two of them.

    A file is an inode: its bytes, its mode, and whether its bytes have reached
    the disk.  The directory maps names to inodes; [dirs] lists, newest first,
    every state the directory had since it was last synced.  After a crash each
    name is as in any one of those states, and a file that was not synced holds
    some prefix of its bytes.  Names are the last components of paths: the state
    file, its backup and their temporary files are in the same directory. *)

From S2P Require Import Prelude Types AlarmCache Samples RuntimeState State.

Local Open Scope Z_scope.

(** ** The directory *)

Record file := MkFile { f_data : string; f_synced : bool; f_mode : Z }.

#[export] Instance eta_file : Eta file := {| eta_of r := MkFile (f_data r) (f_synced r) (f_mode r) |}.

Record disk := MkDisk { inodes : gmap nat file; dirs : list (gmap string nat) }.

#[export] Instance eta_disk : Eta disk := {| eta_of r := MkDisk (inodes r) (dirs r) |}.

Definition cur (d : disk) : gmap string nat := default ∅ (head (dirs d)).

(** What a read of a name returns now. *)
Definition content (d : disk) (p : string) : option string := i ← cur d !! p; f_data <$> inodes d !! i.

(** The running program sees the disk; [w_ops] numbers its system calls and
    [w_trace] has the disk after each of them. *)
Record world := MkWorld { w_disk : disk; w_ops : nat; w_trace : list disk }.

Inductive opErr :=
  | ECreate | EChmod | EWrite | EFlush | ESync | EClose | ERename | ERemove
  | EOpenDir | ESyncDir | ECloseDir.

Inductive writeError :=
  | NilState
  | ReplaceBackup (errs : list opErr)
  | ReadCurrent
  | ReplaceState (errs : list opErr).

Definition tempPrefix (target : string) : string := "." +:+ target +:+ ".tmp-".

(** ** The environment

    Which system calls fail, how much of a write reaches the file before the
    flush, and which suffix [os.CreateTemp] tries: one that makes the name new. *)
Class FileEnv := {
  fault : nat -> bool;
  reach : nat -> nat;
  tempSuffix : gmap string nat -> string -> string;
  tempSuffix_fresh dir p : dir !! (p +:+ tempSuffix dir p) = None;
}.

Section ops.
Context `{FileEnv}.

(** One system call: it has one effect when it succeeds and one when it fails. *)
Definition sysop (good bad : disk -> disk) (w : world) : bool * world :=
  let failed := fault (w_ops w) in
  let d := if failed then bad (w_disk w) else good (w_disk w) in
  (negb failed, MkWorld d (S (w_ops w)) (w_trace w ++ [d])).

Definition createTemp (target : string) (w : world) : option (string * nat) * world :=
  let d := w_disk w in
  let tmp := tempPrefix target +:+ tempSuffix (cur d) (tempPrefix target) in
  let i := fresh (dom (inodes d)) in
  let '(ok, w) := sysop (fun d => MkDisk (<[i := MkFile "" false 384]> (inodes d))
                                    (<[tmp := i]> (cur d) :: dirs d)) id w in
  (if ok then Some (tmp, i) else None, w).

Definition onFile (i : nat) (f : file -> file) (d : disk) : disk := d <| inodes := alter f i (inodes d) |>.

Definition chmod (i : nat) : world -> bool * world :=
  sysop (onFile i (fun f => f <| f_mode := 384 |>)) id.

(** Writing through the buffer: some of the data may already be in the file. *)
Definition writeBuffered (i : nat) (data : string) (w : world) : bool * world :=
  let part := String.substring 0 (reach (w_ops w)) data in
  let eff := onFile i (fun f => f <| f_data := part |> <| f_synced := false |>) in
  sysop eff eff w.

Definition flush (i : nat) (data : string) (w : world) : bool * world :=
  let part := String.substring 0 (reach (w_ops w)) data in
  sysop (onFile i (fun f => f <| f_data := data |> <| f_synced := false |>))
        (onFile i (fun f => f <| f_data := part |> <| f_synced := false |>)) w.

Definition fsync (i : nat) : world -> bool * world := sysop (onFile i (fun f => f <| f_synced := true |>)) id.

Definition closeFile : world -> bool * world := sysop id id.

Definition rename (tmp target : string) : world -> bool * world :=
  sysop (fun d => match cur d !! tmp with
                  | Some i => d <| dirs := <[target := i]> (delete tmp (cur d)) :: dirs d |>
                  | None => d
                  end) id.

(** [false] is an error other than a missing file; it is possible also if the
    file is missing. *)
Definition remove (tmp : string) : world -> bool * world :=
  sysop (fun d => match cur d !! tmp with
                  | Some _ => d <| dirs := delete tmp (cur d) :: dirs d |>
                  | None => d
                  end) id.

Definition syncStateDirectory (w : world) : list opErr * world :=
  let '(ok, w) := sysop id id w in
  if negb ok then ([EOpenDir], w)
  else
    let '(synced, w) := sysop (fun d => d <| dirs := [cur d] |>) id w in
    let '(closed, w) := sysop id id w in
    ((if synced then [] else [ESyncDir]) ++ (if closed then [] else [ECloseDir]), w).

(** ** The writer *)

(** The body of [atomicReplace] after the temporary file exists: the error so
    far and whether the file has been closed. *)
Definition replaceBody (tmp : string) (i : nat) (target data : string) (w : world)
  : list opErr * bool * world :=
  let '(ok, w) := chmod i w in
  if negb ok then ([EChmod], false, w)
  else
    let '(ok, w) := writeBuffered i data w in
    if negb ok then ([EWrite], false, w)
    else
      let '(ok, w) := flush i data w in
      if negb ok then ([EFlush], false, w)
      else
        let '(ok, w) := fsync i w in
        if negb ok then ([ESync], false, w)
        else
          let '(ok, w) := closeFile w in
          if negb ok then ([EClose], true, w)
          else
            let '(ok, w) := rename tmp target w in
            if negb ok then ([ERename], true, w)
            else let '(errs, w) := syncStateDirectory w in (errs, true, w).

Definition atomicReplace (target data : string) (w : world) : list opErr * world :=
  match createTemp target w with
  | (None, w) => ([ECreate], w)
  | (Some (tmp, i), w) =>
      let '(errs, closed, w) := replaceBody tmp i target data w in
      let '(errs, w) :=
        if closed then (errs, w)
        else let '(ok, w) := closeFile w in (errs ++ (if ok then [] else [EClose]), w) in
      let '(ok, w) := remove tmp w in
      (errs ++ (if ok then [] else [ERemove]), w)
  end.

Definition atomicReplaceBytes (target data : string) : world -> list opErr * world :=
  atomicReplace target data.

Definition atomicReplaceJSON `{JsonCodec} (target : string) (document : stateDocument)
  : world -> list opErr * world :=
  atomicReplace target (encodeDocument document).

Definition readFile (p : string) (w : world) : (stateError + string) * world :=
  let '(ok, w) := sysop id id w in
  (if ok then match content (w_disk w) p with Some s => inr s | None => inl ErrNotExist end
   else inl (ReadError p), w).

Definition writeStateAtomic `{JsonCodec} (statePath : string) (state : option savedState) (w : world)
  : option writeError * world :=
  match state with
  | None => (Some NilState, w)
  | Some s =>
      let '(current, w) := readFile statePath w in
      let '(early, w) :=
        match current with
        | inr data =>
            match decodeState data with
            | inr _ =>
                match atomicReplaceBytes (statePath +:+ stateBackupSuffix) data w with
                | ([], w) => (None, w)
                | (errs, w) => (Some (ReplaceBackup errs), w)
                end
            | inl _ => (None, w)
            end
        | inl e => (if negb (isNotExist e) then Some ReadCurrent else None, w)
        end in
      match early with
      | Some e => (Some e, w)
      | None =>
          match atomicReplaceJSON statePath (documentOf s) w with
          | ([], w) => (None, w)
          | (errs, w) => (Some (ReplaceState errs), w)
          end
      end
  end.

End ops.

#[global] Arguments sysop : simpl never.

(** ** Crashes *)

(** What is left of a file: its bytes if they were synced, else a prefix. *)
Definition survives (f : file) (s : string) : Prop :=
  if f_synced f then s = f_data f else exists n, s = String.substring 0 n (f_data f).

(** [v] is a possible content of the directory after a crash at [d]. *)
Definition crash_view (d : disk) (v : string -> option string) : Prop :=
  forall p, exists dir, dir ∈ dirs d /\
    match dir !! p with
    | None => v p = None
    | Some i => exists f s, inodes d !! i = Some f /\ survives f s /\ v p = Some s
    end.

(** Reading from such a directory. *)
Definition reader (v : string -> option string) (p : string) : stateError + string :=
  match v p with Some s => inr s | None => inl ErrNotExist end.

(** Every entry of every pending directory is a file. *)
Definition wf_disk (d : disk) : Prop :=
  dirs d <> [] /\ forall dir p i, dir ∈ dirs d -> dir !! p = Some i -> is_Some (inodes d !! i).

(** The errors that can follow a visible replacement. *)
Definition dirErr (e : opErr) : bool :=
  match e with EOpenDir | ESyncDir | ECloseDir | ERemove => true | _ => false end.

(** A directory entry that is absent, or a complete and synced file, with a
    content in [S]. *)
Definition entry_ok (m : gmap nat file) (S : option string -> Prop) (e : option nat) : Prop :=
  match e with
  | None => S None
  | Some i => exists f, m !! i = Some f /\ f_synced f = true /\ S (Some (f_data f))
  end.

(** Whatever happens, name [p] will hold a complete content in [S]. *)
Definition holds (d : disk) (p : string) (S : option string -> Prop) : Prop :=
  forall dir, dir ∈ dirs d -> entry_ok (inodes d) S (dir !! p).

(** ** Lemmas *)

(** Every system call between [w] and [w'] left a disk in [R]. *)
Definition steps (R : disk -> Prop) (w w' : world) : Prop :=
  exists l, w_trace w' = w_trace w ++ l /\ Forall R l.

#[export] Instance steps_preorder R : PreOrder (steps R).
Proof.
  split.
  - intros w. exists []. by rewrite app_nil_r.
  - intros a b c (l1 & E1 & H1) (l2 & E2 & H2). exists (l1 ++ l2).
    rewrite E2, E1, app_assoc. split; [done | by apply Forall_app].
Qed.

Lemma steps_mono (R R' : disk -> Prop) w w' : (forall d, R d -> R' d) -> steps R w w' -> steps R' w w'.
Proof. intros HR (l & E & Hl). exists l. split; [done |]. by eapply Forall_impl. Qed.

Lemma onFile_stage (i : nat) (g : file -> file) (f : file) (m : gmap nat file) ds :
  onFile i g (MkDisk (<[i := f]> m) ds) = MkDisk (<[i := g f]> m) ds.
Proof. unfold onFile. simpl. f_equal. by rewrite alter_insert_eq. Qed.

Section replace.
Context `{FileEnv} (d0 : disk) (tmp target data : string) (i : nat).

(** The disks a replacement goes through: the temporary file exists; it is
    gone again; it has the target's name; and the directory is synced. *)
Definition stage (f : file) : disk := MkDisk (<[i := f]> (inodes d0)) (<[tmp := i]> (cur d0) :: dirs d0).
Definition unstaged (f : file) : disk :=
  MkDisk (<[i := f]> (inodes d0)) (cur d0 :: <[tmp := i]> (cur d0) :: dirs d0).
Definition goodFile : file := MkFile data true 384.
Definition renamed : disk :=
  MkDisk (<[i := goodFile]> (inodes d0)) (<[target := i]> (cur d0) :: <[tmp := i]> (cur d0) :: dirs d0).
Definition installed : disk := MkDisk (<[i := goodFile]> (inodes d0)) [<[target := i]> (cur d0)].

Inductive reached : disk -> Prop :=
  | R_start : reached d0
  | R_stage f : reached (stage f)
  | R_unstaged f : reached (unstaged f)
  | R_renamed : reached renamed
  | R_installed : reached installed.

#[local] Hint Constructors reached : core.

Lemma sysop_steps (good bad : disk -> disk) (w : world) :
  reached (good (w_disk w)) -> reached (bad (w_disk w)) ->
  let '(ok, w') := sysop good bad w in
  steps reached w w' /\ w_disk w' = if ok then good (w_disk w) else bad (w_disk w).
Proof.
  intros Hg Hb. unfold sysop. destruct (fault (w_ops w)); simpl; (split; [| done]);
    eexists; (split; [reflexivity |]); by constructor.
Qed.

Hypothesis tmp_fresh : cur d0 !! tmp = None.

Lemma syncStateDirectory_steps (w : world) : w_disk w = renamed ->
  let '(errs, w') := syncStateDirectory w in
  steps reached w w' /\ forallb dirErr errs = true /\
  (w_disk w' = installed \/ w_disk w' = renamed /\ errs <> []).
Proof.
  intros Hd. unfold syncStateDirectory.
  pose proof (sysop_steps id id w) as H1. rewrite Hd in H1. specialize (H1 R_renamed R_renamed).
  destruct (sysop id id w) as [ok1 w1]. destruct H1 as [S1 D1].
  assert (w_disk w1 = renamed) as Hd1 by by destruct ok1. destruct ok1; cbn [negb]; [| by eauto].
  pose proof (sysop_steps (fun d => d <| dirs := [cur d] |>) id w1) as H2. rewrite Hd1 in H2.
  specialize (H2 R_installed R_renamed). destruct (sysop (fun d => d <| dirs := [cur d] |>) id w1) as [ok2 w2].
  destruct H2 as [S2 D2].
  pose proof (sysop_steps id id w2) as H3. destruct (sysop id id w2) as [ok3 w3].
  destruct ok2; simpl in D2; rewrite D2 in H3.
  - destruct (H3 R_installed R_installed) as [S3 D3]. split; [transitivity w1; [done | by transitivity w2] |].
    split; [by destruct ok3 |]. left. by destruct ok3.
  - destruct (H3 R_renamed R_renamed) as [S3 D3]. split; [transitivity w1; [done | by transitivity w2] |].
    split; [by destruct ok3 |]. right. split; [by destruct ok3 |]. by destruct ok3.
Qed.

Lemma rename_steps (w : world) : w_disk w = stage goodFile ->
  let '(ok, w') := rename tmp target w in
  steps reached w w' /\ w_disk w' = if ok then renamed else stage goodFile.
Proof.
  intros Hw. unfold rename. set (good := fun d : disk => _).
  assert (good (stage goodFile) = renamed) as Hg.
  { subst good. unfold stage, cur. simpl. rewrite lookup_insert_eq. simpl. fold (cur d0).
    by rewrite delete_insert_id. }
  pose proof (sysop_steps good id w) as Hs. rewrite Hw, Hg in Hs. exact (Hs R_renamed (R_stage _)).
Qed.

(** How the body can end. *)
Definition body_post (r : list opErr * bool * world) : Prop :=
  let '(errs, closed, w') := r in
  (forallb dirErr errs = false /\ exists f, w_disk w' = stage f) \/
  (closed = true /\ forallb dirErr errs = true /\
    (w_disk w' = installed \/ w_disk w' = renamed /\ errs <> [])).

(** A system call on the staged file, and the code after it. *)
Lemma stage_op (good bad : disk -> disk) (f : file) (gd bd : file) (w : world)
    (e : opErr) (cl : bool) (k : world -> list opErr * bool * world) :
  w_disk w = stage f -> good (stage f) = stage gd -> bad (stage f) = stage bd ->
  dirErr e = false -> (forall w', w_disk w' = stage gd -> steps reached w' (k w').2 /\ body_post (k w')) ->
  let r := let '(ok, w') := sysop good bad w in if negb ok then ([e], cl, w') else k w' in
  steps reached w r.2 /\ body_post r.
Proof.
  intros Hw Hg Hb He Hk. pose proof (sysop_steps good bad w) as Hs. rewrite Hw, Hg, Hb in Hs.
  destruct (sysop good bad w) as [ok w1]. destruct Hs as [S1 D1]; [done.. |].
  destruct ok; cbn [negb].
  - destruct (Hk w1 D1) as [S2 P2]. split; [by transitivity w1 | done].
  - split; [done |]. left. simpl. rewrite He. split; [done |]. by exists bd.
Qed.

Lemma replaceBody_steps (f : file) (w : world) : w_disk w = stage f ->
  steps reached w (replaceBody tmp i target data w).2 /\ body_post (replaceBody tmp i target data w).
Proof.
  intros Hw. unfold replaceBody.
  eapply (stage_op _ _ f); [done | apply onFile_stage | reflexivity | done |]. intros w1 H1.
  eapply (stage_op _ _ _ _ _ w1 EWrite false); [exact H1 | apply onFile_stage | apply onFile_stage | done |]. intros w2 H2.
  eapply (stage_op _ _ _ _ _ w2 EFlush false); [exact H2 | apply onFile_stage | apply onFile_stage | done |]. intros w3 H3.
  eapply (stage_op _ _ _ _ _ w3 ESync false); [exact H3 | apply onFile_stage | reflexivity | done |]. intros w4 H4.
  eapply (stage_op _ _ _ _ _ w4 EClose true); [exact H4 | reflexivity | reflexivity | done |].
  intros w5 H5. pose proof (rename_steps w5 H5) as H6. destruct (rename tmp target w5) as [ok w6].
  destruct H6 as [S6 D6]. destruct ok; cbn [negb].
  - pose proof (syncStateDirectory_steps w6 D6) as H7. destruct (syncStateDirectory w6) as [errs w7].
    destruct H7 as (S7 & He & D7). split; [by transitivity w6 |]. by right.
  - split; [done |]. left. split; [done |]. by eexists.
Qed.

End replace.

(** How a replacement can end, from disk [d0]. *)
Inductive replace_post (d0 : disk) (tmp target data : string) (i : nat) (errs : list opErr) (d : disk) : Prop :=
  | P_installed : errs = [] -> d = installed d0 target data i -> replace_post d0 tmp target data i errs d
  | P_unsynced : errs <> [] -> forallb dirErr errs = true ->
      (d = installed d0 target data i \/ d = renamed d0 tmp target data i) ->
      replace_post d0 tmp target data i errs d
  | P_untouched : forallb dirErr errs = false -> (d = d0 \/ exists f, d = unstaged d0 tmp i f) ->
      replace_post d0 tmp target data i errs d
  | P_leftover f : forallb dirErr errs = false -> ERemove ∈ errs -> d = stage d0 tmp i f ->
      replace_post d0 tmp target data i errs d.

Section atomic.
Context `{FileEnv}.

(** Removing the temporary file: gone already, or gone now, or an error. *)
Lemma remove_staged d0 tmp target data i f w :
  cur d0 !! tmp = None -> w_disk w = stage d0 tmp i f ->
  let '(ok, w') := remove tmp w in
  steps (reached d0 tmp target data i) w w' /\
  w_disk w' = if ok then unstaged d0 tmp i f else stage d0 tmp i f.
Proof.
  intros Hf Hw. unfold remove. set (good := fun d : disk => _).
  assert (good (stage d0 tmp i f) = unstaged d0 tmp i f) as Hg.
  { subst good. unfold stage, unstaged, cur. simpl. rewrite lookup_insert_eq. fold (cur d0). by rewrite delete_insert_id. }
  pose proof (sysop_steps d0 tmp target data i good id w) as Hs. rewrite Hw, Hg in Hs.
  exact (Hs (R_unstaged _ _ _ _ _ _) (R_stage _ _ _ _ _ _)).
Qed.

Lemma remove_absent d0 tmp target data i w :
  cur (w_disk w) !! tmp = None -> reached d0 tmp target data i (w_disk w) ->
  let '(_, w') := remove tmp w in steps (reached d0 tmp target data i) w w' /\ w_disk w' = w_disk w.
Proof.
  intros Hc Hr. unfold remove. set (good := fun d : disk => _).
  assert (good (w_disk w) = w_disk w) as Hg by (subst good; simpl; by rewrite Hc).
  pose proof (sysop_steps d0 tmp target data i good id w) as Hs. rewrite Hg in Hs. specialize (Hs Hr Hr).
  destruct (sysop good id w) as [[] w']; exact Hs.
Qed.

Lemma forallb_app_false {A} (p : A -> bool) l1 l2 : forallb p l1 = false -> forallb p (l1 ++ l2) = false.
Proof. intros E. by rewrite forallb_app, E. Qed.

Lemma atomicReplace_steps target data w :
  exists tmp i, cur (w_disk w) !! tmp = None /\ (inodes (w_disk w) !! i = None) /\
    (exists s, tmp = tempPrefix target +:+ s) /\
    let '(errs, w') := atomicReplace target data w in
    steps (reached (w_disk w) tmp target data i) w w' /\
    replace_post (w_disk w) tmp target data i errs (w_disk w').
Proof.
  set (d0 := w_disk w). set (s := tempSuffix (cur d0) (tempPrefix target)).
  set (tmp := tempPrefix target +:+ s). set (i := fresh (dom (inodes d0))).
  assert (cur d0 !! tmp = None) as Hf by apply tempSuffix_fresh.
  assert (tmp <> target) as Hne.
  { intros E. apply (f_equal String.length) in E. unfold tmp, tempPrefix in E.
    rewrite !string_length_app in E. simpl in E. lia. }
  exists tmp, i. split; [done |]. split; [by apply not_elem_of_dom, is_fresh |]. split; [by exists s |].
  unfold atomicReplace, createTemp. fold d0. fold s. fold tmp. fold i.
  set (good := fun d : disk => MkDisk _ _).
  pose proof (sysop_steps d0 tmp target data i good id w (R_stage _ _ _ _ _ _) (R_start _ _ _ _ _)) as H1.
  destruct (sysop good id w) as [ok w1]. destruct H1 as [S1 D1]. destruct ok.
  2: { split; [done |]. apply P_untouched; [done |]. by left. }
  pose proof (replaceBody_steps d0 tmp target data i Hf _ w1 D1) as H2.
  destruct (replaceBody tmp i target data w1) as [[errs closed] w2]. destruct H2 as [S2 P2].
  simpl in S2. destruct P2 as [(He & f & Hd2) | (-> & He & Hd2)].
  - set (c := if closed then (errs, w2) else _).
    assert (steps (reached d0 tmp target data i) w2 c.2 /\ w_disk c.2 = stage d0 tmp i f /\
            forallb dirErr c.1 = false) as (S3 & D3 & E3).
    { subst c. destruct closed; [done |]. unfold closeFile.
      pose proof (sysop_steps d0 tmp target data i id id w2) as H3. rewrite Hd2 in H3.
      specialize (H3 (R_stage _ _ _ _ _ _) (R_stage _ _ _ _ _ _)). destruct (sysop id id w2) as [ok w3].
      destruct H3 as [S3 D3]. split; [done |]. split; [by destruct ok | by apply forallb_app_false]. }
    destruct c as [errs3 w3]. simpl in S3, D3, E3.
    pose proof (remove_staged d0 tmp target data i f w3 Hf D3) as H4. destruct (remove tmp w3) as [ok w4].
    destruct H4 as [S4 D4]. split; [transitivity w1; [done | transitivity w2; [done | by transitivity w3]] |].
    destruct ok.
    + apply P_untouched; [by apply forallb_app_false |]. right. by exists f.
    + eapply P_leftover; [by apply forallb_app_false | | exact D4]. apply elem_of_app. right. by left.
  - assert (cur (w_disk w2) !! tmp = None) as Hc.
    { destruct Hd2 as [-> | [-> _]]; unfold installed, renamed, cur; simpl; fold (cur d0);
        by rewrite lookup_insert_ne. }
    assert (reached d0 tmp target data i (w_disk w2)) as Hr2 by (destruct Hd2 as [-> | [-> _]]; constructor).
    pose proof (remove_absent d0 tmp target data i w2 Hc Hr2) as H3. destruct (remove tmp w2) as [ok w3].
    destruct H3 as [S3 D3]. rewrite D3. split; [transitivity w1; [done | by transitivity w2] |].
    destruct ok; [rewrite app_nil_r; destruct errs as [| e errs] |].
    + destruct Hd2 as [-> | [_ []]]; [by apply P_installed | done].
    + apply P_unsynced; [done | done |]. destruct Hd2 as [-> | [-> _]]; [by left | by right].
    + apply P_unsynced; [by destruct errs | by rewrite forallb_app, He |].
      destruct Hd2 as [-> | [-> _]]; [by left | by right].
Qed.

End atomic.

Lemma holds_view d p S v : holds d p S -> crash_view d v -> S (v p).
Proof.
  intros Hh Hv. destruct (Hv p) as (dir & Hin & Hp). specialize (Hh dir Hin). unfold entry_ok in Hh.
  destruct (dir !! p) as [j |]; [| by rewrite Hp].
  destruct Hp as (f & s & Hf & Hs & ->), Hh as (f' & Hf' & Hsync & HS). simplify_eq.
  unfold survives in Hs. rewrite Hsync in Hs. by rewrite Hs.
Qed.

Lemma holds_mono d p (S S' : option string -> Prop) : (forall c, S c -> S' c) -> holds d p S -> holds d p S'.
Proof.
  intros HS Hh dir Hin. specialize (Hh dir Hin). unfold entry_ok in *.
  destruct (dir !! p); [destruct Hh as (f & ? & ? & ?) |]; eauto.
Qed.

Lemma entry_ok_insert m S e i f : m !! i = None -> entry_ok m S e -> entry_ok (<[i := f]> m) S e.
Proof.
  intros Hi He. destruct e as [j |]; [| done]. destruct He as (f' & Hj & ?). exists f'.
  rewrite lookup_insert_ne; [done | congruence].
Qed.

Lemma cur_in d : dirs d <> [] -> cur d ∈ dirs d.
Proof. unfold cur. destruct (dirs d) as [| dir ds]; [done |]. intros _. by left. Qed.

Lemma content_holds d p S : wf_disk d -> holds d p S -> S (content d p).
Proof.
  intros [Hne _] Hh. specialize (Hh _ (cur_in d Hne)). unfold content. unfold entry_ok in Hh.
  destruct (cur d !! p) as [j |]; [| done]. simpl. by destruct Hh as (f & -> & _ & ?).
Qed.

Section reached.
Context (d0 : disk) (tmp target data : string) (i : nat).
Hypothesis Hwf : wf_disk d0.
Hypothesis Hino : inodes d0 !! i = None.

(** Every directory of a disk on the way is an old one, or the current one with
    the temporary file, or with the new target. *)
Lemma reached_dirs d : reached d0 tmp target data i d ->
  (inodes d = inodes d0 \/ exists f, inodes d = <[i := f]> (inodes d0)) /\
  forall dir, dir ∈ dirs d -> dir ∈ dirs d0 \/ dir = <[tmp := i]> (cur d0) \/
    (dir = <[target := i]> (cur d0) /\ inodes d = <[i := goodFile data]> (inodes d0)).
Proof.
  pose proof (cur_in d0 (proj1 Hwf)) as Hcur.
  destruct 1 as [| f | f | |]; simpl; (split; [eauto |]); intros dir; rewrite ?elem_of_cons; intros Hd;
    repeat destruct Hd as [-> | Hd]; auto; by apply elem_of_nil in Hd.
Qed.

Lemma reached_wf d : reached d0 tmp target data i d -> wf_disk d.
Proof.
  intros Hr. destruct (reached_dirs d Hr) as [Hi Hd]. split; [by destruct Hr; [apply Hwf | ..] |].
  intros dir p j Hdir Hp.
  assert (is_Some (inodes d0 !! j) -> is_Some (inodes d !! j)) as Hmono.
  { intros [f Hj]. destruct Hi as [-> | [f' ->]]; [by eexists |]. rewrite lookup_insert_ne; [by eexists | congruence]. }
  destruct (Hd dir Hdir) as [Hold | [-> | [-> E]]].
  - by eapply Hmono, Hwf.
  - rewrite lookup_insert in Hp. case_decide; simplify_eq.
    + destruct Hr; simpl; try (rewrite lookup_insert_eq; by eexists).
      exfalso. destruct (proj2 Hwf _ p j Hdir) as [? ?]; [apply lookup_insert_eq | congruence].
    + eapply Hmono, Hwf; [apply cur_in, Hwf | done].
  - rewrite lookup_insert in Hp. case_decide; simplify_eq.
    + rewrite E, lookup_insert_eq. by eexists.
    + eapply Hmono, Hwf; [apply cur_in, Hwf | done].
Qed.

Lemma reached_entry d S e : reached d0 tmp target data i d -> entry_ok (inodes d0) S e -> entry_ok (inodes d) S e.
Proof.
  intros Hr. destruct (reached_dirs d Hr) as [[-> | [f ->]] _]; [done |]. by apply entry_ok_insert.
Qed.

Lemma reached_other d p S : reached d0 tmp target data i d -> p <> tmp -> p <> target ->
  holds d0 p S -> holds d p S.
Proof.
  intros Hr Hp Ht Hh dir Hdir. pose proof (cur_in d0 (proj1 Hwf)) as Hcur.
  apply reached_entry; [done |].
  destruct (proj2 (reached_dirs d Hr) dir Hdir) as [Hold | [-> | [-> _]]]; [by apply Hh | |];
    rewrite lookup_insert_ne by done; by apply Hh.
Qed.

Lemma reached_target d S : reached d0 tmp target data i d -> target <> tmp ->
  holds d0 target S -> holds d target (fun c => S c \/ c = Some data).
Proof.
  intros Hr Ht Hh dir Hdir. pose proof (cur_in d0 (proj1 Hwf)) as Hcur.
  apply (holds_mono d0 target S (fun c => S c \/ c = Some data)) in Hh; [| auto].
  destruct (proj2 (reached_dirs d Hr) dir Hdir) as [Hold | [-> | [-> E]]].
  - apply reached_entry; [done |]. by apply Hh.
  - apply reached_entry; [done |]. rewrite lookup_insert_ne by done. by apply Hh.
  - rewrite lookup_insert_eq, E. exists (goodFile data). rewrite lookup_insert_eq. auto.
Qed.

Lemma installed_target : holds (installed d0 target data i) target (eq (Some data)).
Proof.
  intros dir [-> | Hd%elem_of_nil]%elem_of_cons; [| done]. simpl. rewrite lookup_insert_eq.
  exists (goodFile data). by rewrite lookup_insert_eq.
Qed.

Lemma installed_other p S : p <> target -> holds d0 p S -> holds (installed d0 target data i) p S.
Proof.
  intros Hp Hh dir [-> | Hd%elem_of_nil]%elem_of_cons; [| done].
  rewrite lookup_insert_ne by done. apply entry_ok_insert; [done |]. by apply Hh, cur_in, Hwf.
Qed.

End reached.

Lemma subseteq_chain (X Y Z : gset string) a b : X ⊆ {[a]} ∪ Y -> Y ⊆ {[b]} ∪ Z -> X ⊆ {[a; b]} ∪ Z.
Proof. set_solver. Qed.

(** ** The whole write *)

(** Nothing is pending for a name: after a crash it has the content it has now. *)
Definition settled (d : disk) (p : string) : Prop := holds d p (eq (content d p)).

Section write.
Context `{FileEnv, JsonCodec} (base : string).

Abbreviation bak := (base +:+ stateBackupSuffix) (only parsing).

Definition decodes (c : option string) : bool :=
  match c with Some data => match decodeState data with inr _ => true | inl _ => false end | None => false end.

(** What the backup holds once the primary may be replaced. *)
Definition backupAfter (d : disk) : option string :=
  if decodes (content d base) then content d base else content d bak.

(** The promise at every moment of a write: the primary is the old one or the
    new one; the backup is the old one or the old primary; and unless the
    primary is certain to be the old one, the backup is in its final state. *)
Record safe (d0 : disk) (new : string) (d : disk) : Prop := {
  safe_base : holds d base (fun c => c = content d0 base \/ c = Some new);
  safe_bak : holds d bak (fun c => c = content d0 bak \/ c = backupAfter d0);
  safe_order : holds d base (eq (content d0 base)) \/ holds d bak (eq (backupAfter d0));
}.

Lemma base_ne_bak : base <> bak.
Proof.
  intros E. apply (f_equal String.length) in E. rewrite string_length_app in E. simpl in E. lia.
Qed.

Lemma temp_ne target s : target = base \/ target = bak ->
  base <> tempPrefix target +:+ s /\ bak <> tempPrefix target +:+ s.
Proof.
  intros Ht. unfold tempPrefix, stateBackupSuffix in *.
  split; intros E; apply (f_equal String.length) in E; destruct Ht as [-> | ->];
    rewrite !string_length_app in E; simpl in E; rewrite ?string_length_app in E; simpl in E; lia.
Qed.

Lemma settled_content d d' p : wf_disk d' -> holds d' p (eq (content d p)) -> content d' p = content d p.
Proof. intros Hwf Hh. symmetry. exact (content_holds _ _ _ Hwf Hh). Qed.

(** Replacing the backup keeps the promise, and ends with the backup final or
    with an error and the primary as it was. *)
Lemma replace_backup_safe new data w :
  wf_disk (w_disk w) -> settled (w_disk w) base -> settled (w_disk w) bak ->
  content (w_disk w) base = Some data -> decodes (Some data) = true ->
  let '(errs, w') := atomicReplaceBytes bak data w in
  steps (safe (w_disk w) new) w w' /\ wf_disk (w_disk w') /\
  holds (w_disk w') base (eq (content (w_disk w) base)) /\
  (errs = [] -> holds (w_disk w') bak (eq (Some data)) /\
     dom (cur (w_disk w')) ⊆ {[bak]} ∪ dom (cur (w_disk w))).
Proof.
  intros Hwf Hb Hk Hc Hv. unfold atomicReplaceBytes.
  destruct (atomicReplace_steps bak data w) as (tmp & i & Hf & Hi & [s Hs] & Hrun).
  destruct (temp_ne bak s) as [Hne1 Hne2]; [by right |]. rewrite <- Hs in Hne1, Hne2.
  destruct (atomicReplace bak data w) as [errs w']. destruct Hrun as [Hst Hpost].
  assert (forall d, reached (w_disk w) tmp bak data i d -> holds d base (eq (content (w_disk w) base))) as Hbase.
  { intros d Hr. by apply (reached_other _ _ _ _ _ Hwf Hi _ _ _ Hr Hne1 base_ne_bak). }
  assert (reached (w_disk w) tmp bak data i (w_disk w')) as Hr'.
  { destruct Hpost as [_ -> | _ _ [-> | ->] | _ [-> | [f ->]] | f _ _ ->]; constructor. }
  split_and!.
  - eapply steps_mono; [| exact Hst]. intros d Hr. split.
    + eapply holds_mono; [| by apply Hbase]. auto.
    + eapply holds_mono; [| exact (reached_target _ _ _ _ _ Hwf Hi _ _ Hr Hne2 Hk)].
      intros c [<- | ->]; [by left | right]. unfold backupAfter. rewrite Hc. by rewrite Hv.
    + left. by apply Hbase.
  - by eapply reached_wf.
  - by apply Hbase.
  - intros ->. destruct Hpost as [_ -> | [] _ _ | E _ | f E _ _]; try done.
    split; [apply installed_target |]. unfold installed, cur at 1. simpl. by rewrite dom_insert_L.
Qed.

(** Replacing the primary, once the backup is final. *)
Lemma replace_primary_safe d0 new w :
  wf_disk (w_disk w) -> holds (w_disk w) base (eq (content d0 base)) ->
  holds (w_disk w) bak (eq (backupAfter d0)) ->
  let '(errs, w') := atomicReplace base new w in
  steps (safe d0 new) w w' /\ wf_disk (w_disk w') /\
  holds (w_disk w') bak (eq (backupAfter d0)) /\
  holds (w_disk w') base (fun c => c = content d0 base \/ c = Some new) /\
  (errs = [] -> holds (w_disk w') base (eq (Some new)) /\
     dom (cur (w_disk w')) ⊆ {[base]} ∪ dom (cur (w_disk w))) /\
  (forallb dirErr errs = false -> content (w_disk w') base = content d0 base).
Proof.
  intros Hwf Hb Hk.
  destruct (atomicReplace_steps base new w) as (tmp & i & Hf & Hi & [s Hs] & Hrun).
  destruct (temp_ne base s) as [Hne1 Hne2]; [by left |]. rewrite <- Hs in Hne1, Hne2.
  destruct (atomicReplace base new w) as [errs w']. destruct Hrun as [Hst Hpost].
  assert (forall d, reached (w_disk w) tmp base new i d -> holds d bak (eq (backupAfter d0))) as Hbak.
  { intros d Hr. apply (reached_other _ _ _ _ _ Hwf Hi _ _ _ Hr Hne2); [| done]. apply not_eq_sym, base_ne_bak. }
  assert (forall d, reached (w_disk w) tmp base new i d ->
    holds d base (fun c => c = content d0 base \/ c = Some new)) as Hbase.
  { intros d Hr. eapply holds_mono; [| exact (reached_target _ _ _ _ _ Hwf Hi _ _ Hr Hne1 Hb)].
    intros c [<- | ->]; auto. }
  assert (reached (w_disk w) tmp base new i (w_disk w')) as Hr'.
  { destruct Hpost as [_ -> | _ _ [-> | ->] | _ [-> | [f ->]] | f _ _ ->]; constructor. }
  split_and!; [| by eapply reached_wf | by apply Hbak | by apply Hbase | |].
  - eapply steps_mono; [| exact Hst]. intros d Hr. split; [by apply Hbase | | right; by apply Hbak].
    eapply holds_mono; [| by apply Hbak]. auto.
  - intros ->. destruct Hpost as [_ -> | [] _ _ | E _ | f E _ _]; try done.
    split; [apply installed_target |]. unfold installed, cur at 1. simpl. by rewrite dom_insert_L.
  - intros He. assert (content (w_disk w) base = content d0 base) as <- by by apply settled_content.
    assert (cur (w_disk w') !! base = cur (w_disk w) !! base /\
      forall j, cur (w_disk w) !! base = Some j -> inodes (w_disk w') !! j = inodes (w_disk w) !! j) as [Hcur Hj].
    { assert (forall j, cur (w_disk w) !! base = Some j -> j <> i) as Hji.
      { intros j Hj ->. destruct (proj2 Hwf _ _ _ (cur_in _ (proj1 Hwf)) Hj). congruence. }
      destruct Hpost as [-> | _ ? _ | _ [-> | [f ->]] | f _ _ ->]; [done | congruence | done | |];
        (split; [unfold unstaged, stage, cur; simpl; rewrite ?lookup_insert_ne by done; done |]);
        intros j Hj; simpl; rewrite lookup_insert_ne; [done | by intros ->; apply (Hji _ Hj) | done |
          by intros ->; apply (Hji _ Hj)]. }
    unfold content. rewrite Hcur. destruct (cur (w_disk w) !! base) as [j |]; [| done]. simpl.
    by rewrite (Hj j eq_refl).
Qed.

(** What a write does, whatever fails. *)
Definition write_outcome (w : world) (new : string) (r : option writeError) (w' : world) : Prop :=
  let d := w_disk w' in
  match r with
  | None => holds d base (eq (Some new)) /\ holds d bak (eq (backupAfter (w_disk w))) /\
      dom (cur d) ⊆ {[base; bak]} ∪ dom (cur (w_disk w))
  | Some (ReplaceState errs) =>
      content d bak = backupAfter (w_disk w) /\
      (content d base = content (w_disk w) base \/ content d base = Some new) /\
      (forallb dirErr errs = false -> content d base = content (w_disk w) base)
  | Some _ => content d base = content (w_disk w) base
  end.

Lemma writeStateAtomic_outcome (s : savedState) (w : world) :
  wf_disk (w_disk w) -> settled (w_disk w) base -> settled (w_disk w) bak ->
  let new := encodeDocument (documentOf s) in
  let '(r, w') := writeStateAtomic base (Some s) w in
  steps (safe (w_disk w) new) w w' /\ wf_disk (w_disk w') /\ write_outcome w new r w'.
Proof.
  intros Hwf Hb Hk new. unfold writeStateAtomic, readFile.
  assert (forall o b, safe (w_disk w) new (w_disk (MkWorld (w_disk w) o b))) as Hsafe0.
  { intros o b. simpl. split; [| | by left]; (eapply holds_mono; [| eassumption]); auto. }
  assert (steps (safe (w_disk w) new) w (sysop id id w).2 /\ w_disk (sysop id id w).2 = w_disk w) as [S1 D1].
  { unfold sysop. destruct (fault (w_ops w)); simpl; (split; [| done]); eexists;
      (split; [reflexivity |]); constructor; try constructor; apply (Hsafe0 0%nat []). }
  destruct (sysop id id w) as [ok w1]. simpl in S1, D1.
  (* the primary is written from a disk on which the backup is final *)
  assert (forall w2, steps (safe (w_disk w) new) w w2 -> wf_disk (w_disk w2) ->
    holds (w_disk w2) base (eq (content (w_disk w) base)) ->
    holds (w_disk w2) bak (eq (backupAfter (w_disk w))) ->
    dom (cur (w_disk w2)) ⊆ {[bak]} ∪ dom (cur (w_disk w)) ->
    let '(r, w') := match atomicReplaceJSON base (documentOf s) w2 with
                    | ([], w) => (None, w) | (errs, w) => (Some (ReplaceState errs), w) end in
    steps (safe (w_disk w) new) w w' /\ wf_disk (w_disk w') /\ write_outcome w new r w') as Hprim.
  { intros w2 S2 Hwf2 Hb2 Hk2 Hdom. pose proof (replace_primary_safe (w_disk w) new w2 Hwf2 Hb2 Hk2) as Hp.
    unfold atomicReplaceJSON. fold new. destruct (atomicReplace base new w2) as [errs w3].
    destruct Hp as (S3 & Hwf3 & Hk3 & Hb3 & Hok & Hbad).
    destruct errs as [| e errs]; (split; [by transitivity w2 |]); (split; [done |]); simpl.
    - destruct (Hok eq_refl) as [Hnew Hd3]. split_and!; [done | done | by eapply subseteq_chain].
    - split_and!; [symmetry; exact (content_holds _ _ _ Hwf3 Hk3) | exact (content_holds _ _ _ Hwf3 Hb3) | done]. }
  assert (dom (cur (w_disk w)) ⊆ {[bak]} ∪ dom (cur (w_disk w))) as Hdom by apply union_subseteq_r.
  destruct ok; cbn [negb isNotExist]; [| split_and!; [done | by rewrite D1 | simpl; by rewrite D1]].
  rewrite D1. destruct (content (w_disk w) base) as [data |] eqn:Hc; cbn [negb isNotExist].
  2: { apply Hprim; rewrite ?D1; [done | done | rewrite <- Hc; exact Hb | | done]. unfold backupAfter. rewrite Hc. exact Hk. }
  destruct (decodeState data) as [e | dec] eqn:Hdec.
  { apply Hprim; rewrite ?D1; [done | done | rewrite <- Hc; exact Hb | | done]. unfold backupAfter.
    rewrite Hc. unfold decodes. rewrite Hdec. exact Hk. }
  assert (decodes (Some data) = true) as Hv by (unfold decodes; by rewrite Hdec).
  rewrite <- D1 in Hwf, Hb, Hk, Hc.
  pose proof (replace_backup_safe new data w1 Hwf Hb Hk Hc Hv) as Hr.
  destruct (atomicReplaceBytes bak data w1) as [errs w2]. rewrite D1 in Hr, Hc, Hwf.
  destruct Hr as (S2 & Hwf2 & Hb2 & Hok). destruct errs as [| e errs].
  - destruct (Hok eq_refl) as [Hk2 Hd2]. apply Hprim; [by transitivity w1 | done | by rewrite <- Hc | | done].
    unfold backupAfter. by rewrite Hc, Hv.
  - split; [by transitivity w1 |]. split; [done |]. simpl. by apply settled_content.
Qed.

End write.

(** *** Loading after a crash *)

Lemma load_ext `{JsonCodec} (p : string) (v v' : string -> option string) :
  v p = v' p -> v (p +:+ stateBackupSuffix) = v' (p +:+ stateBackupSuffix) ->
  loadStateWithReader p (reader v) = loadStateWithReader p (reader v').
Proof. intros H1 H2. unfold loadStateWithReader, readStateCandidate, reader. by rewrite H1, H2. Qed.

Lemma load_primary `{JsonCodec} (p : string) (v v' : string -> option string) :
  v p = v' p -> decodes (v p) = true ->
  loadStateWithReader p (reader v) = loadStateWithReader p (reader v').
Proof.
  intros H1 Hv. unfold loadStateWithReader, readStateCandidate, reader. rewrite <- H1.
  unfold decodes in Hv. destruct (v p) as [data |]; [| done]. by destruct (decodeState data) as [| []].
Qed.

Lemma load_written `{JsonCodec} (p : string) (s : savedState) (v : string -> option string) :
  is_Some (ss_Alarms s) -> v p = Some (encodeDocument (documentOf s)) ->
  loadStateWithReader p (reader v) =
    inr (durableState s, MkStateLoadInfo p currentStateVersion false false).
Proof.
  intros Hs Hv. unfold loadStateWithReader, readStateCandidate, reader. by rewrite Hv, decodeState_documentOf.
Qed.

(** ** Properties *)

(** C2: crash safety.  Whichever system calls of a write fail, and whenever
    during it the machine stops, the next start loads either exactly what it
    would have loaded before the write or the complete new state; it never
    finds less.  (Start: a directory with nothing pending for the two files.) *)
Theorem state_write_crash_safe `{FileEnv, JsonCodec} (base : string) (s : savedState) (w : world) :
  wf_disk (w_disk w) -> settled (w_disk w) base -> settled (w_disk w) (base +:+ stateBackupSuffix) ->
  is_Some (ss_Alarms s) ->
  let '(_, w') := writeStateAtomic base (Some s) w in
  steps (fun d => forall v, crash_view d v ->
    loadStateWithReader base (reader v) = loadStateWithReader base (reader (content (w_disk w))) \/
    loadStateWithReader base (reader v) =
      inr (durableState s, MkStateLoadInfo base currentStateVersion false false)) w w'.
Proof.
  intros Hwf Hb Hk Hs. pose proof (writeStateAtomic_outcome base s w Hwf Hb Hk) as Ho. cbv zeta in Ho.
  destruct (writeStateAtomic base (Some s) w) as [r w']. destruct Ho as [Hst _].
  eapply steps_mono; [| exact Hst]. intros d [Sb Sk So] v Hv.
  pose proof (holds_view _ _ _ _ Sb Hv) as [Eb | Eb]; [left | right; by apply load_written].
  destruct (decodes (content (w_disk w) base)) eqn:Hdec.
  - apply load_primary; [done | by rewrite Eb].
  - apply load_ext; [done |]. pose proof (holds_view _ _ _ _ Sk Hv) as Ek.
    unfold backupAfter in Ek. rewrite Hdec in Ek. by destruct Ek.
Qed.

(** C21: a successful write.  When no error is returned, the state is durable:
    it is what the next start loads, also after a crash; the previous primary
    is the backup if it was valid, otherwise the old backup is untouched; and
    no temporary file is left behind. *)
Theorem state_write_success `{FileEnv, JsonCodec} (base : string) (s : savedState) (w w' : world) :
  wf_disk (w_disk w) -> settled (w_disk w) base -> settled (w_disk w) (base +:+ stateBackupSuffix) ->
  is_Some (ss_Alarms s) -> writeStateAtomic base (Some s) w = (None, w') ->
  (forall v, crash_view (w_disk w') v ->
    loadStateWithReader base (reader v) =
      inr (durableState s, MkStateLoadInfo base currentStateVersion false false) /\
    v (base +:+ stateBackupSuffix) =
      if decodes (content (w_disk w) base) then content (w_disk w) base
      else content (w_disk w) (base +:+ stateBackupSuffix)) /\
  loadStateWithReader base (reader (content (w_disk w'))) =
    inr (durableState s, MkStateLoadInfo base currentStateVersion false false) /\
  dom (cur (w_disk w')) ⊆ {[base; base +:+ stateBackupSuffix]} ∪ dom (cur (w_disk w)).
Proof.
  intros Hwf Hb Hk Hs E. pose proof (writeStateAtomic_outcome base s w Hwf Hb Hk) as Ho. cbv zeta in Ho.
  rewrite E in Ho. destruct Ho as (_ & Hwf' & Hn & Hbk & Hd). split_and!; [| | done].
  - intros v Hv. split; [| symmetry; exact (holds_view _ _ _ _ Hbk Hv)].
    apply load_written; [done |]. symmetry. exact (holds_view _ _ _ _ Hn Hv).
  - apply load_written; [done |]. symmetry. exact (content_holds _ _ _ Hwf' Hn).
Qed.

(** A failed write.  If the current state cannot be read or its backup
    cannot be installed the primary is untouched.  If installing the primary
    fails, the backup already is the last valid state, and the primary is the
    old one unless the only failures came after the rename: syncing the
    directory, or removing the temporary file's old name. *)
Theorem state_write_failure `{FileEnv, JsonCodec} (base : string) (s : savedState) (w w' : world)
    (e : writeError) :
  wf_disk (w_disk w) -> settled (w_disk w) base -> settled (w_disk w) (base +:+ stateBackupSuffix) ->
  writeStateAtomic base (Some s) w = (Some e, w') ->
  match e with
  | ReplaceState errs =>
      content (w_disk w') (base +:+ stateBackupSuffix) =
        (if decodes (content (w_disk w) base) then content (w_disk w) base
         else content (w_disk w) (base +:+ stateBackupSuffix)) /\
      (content (w_disk w') base = content (w_disk w) base \/
       content (w_disk w') base = Some (encodeDocument (documentOf s))) /\
      (forallb dirErr errs = false -> content (w_disk w') base = content (w_disk w) base)
  | _ => content (w_disk w') base = content (w_disk w) base
  end.
Proof.
  intros Hwf Hb Hk E. pose proof (writeStateAtomic_outcome base s w Hwf Hb Hk) as Ho. cbv zeta in Ho.
  rewrite E in Ho. destruct Ho as (_ & _ & Ho). by destruct e.
Qed.

(** ** Witnesses *)

Definition totalLength (l : list string) : nat := foldr (fun k n => String.length k + n)%nat 0%nat l.

Fixpoint zeros (n : nat) : string := match n with O => "" | S n => String (Ascii.ascii_of_nat 48) (zeros n) end.

Lemma zeros_length n : String.length (zeros n) = n.
Proof. induction n as [| n IH]; simpl; [done | by rewrite IH]. Qed.

Lemma totalLength_elem k l : k ∈ l -> (String.length k <= totalLength l)%nat.
Proof. induction 1 as [| ? ? ? _ IH]; simpl; unfold totalLength in *; lia. Qed.

(** Calls fail where [f] says so, three bytes reach a file before the flush,
    and the suffix makes the name longer than all others. *)
#[refine] Definition sampleFileEnv (f : nat -> bool) : FileEnv := {|
  fault := f;
  reach _ := 3%nat;
  tempSuffix dir p := zeros (S (totalLength (map_to_list dir).*1));
|}.
Proof.
  intros dir p. destruct (dir !! _) as [i |] eqn:E; [| done]. exfalso.
  apply elem_of_map_to_list, (list_elem_of_fmap_2 fst), totalLength_elem in E. cbn [fst] in E.
  rewrite string_length_app in E. change (String.length p + String.length (zeros (S (totalLength (map_to_list dir).*1)))
    <= totalLength (map_to_list dir).*1)%nat in E. rewrite zeros_length in E. lia.
Defined.

(** A directory with one valid state file. *)
Definition oldData : string := @encodeDocument sampleCodec (documentOf (snapshotSavedState sampleConfig)).

Definition sampleDisk : disk :=
  MkDisk {[ 0%nat := MkFile oldData true 384 ]} [ {[ "state" := 0%nat ]} ].

Definition sampleWorld : world := MkWorld sampleDisk 0 [].

Lemma sampleDisk_ok :
  wf_disk sampleDisk /\ settled sampleDisk "state" /\ settled sampleDisk ("state" +:+ stateBackupSuffix).
Proof.
  split_and!.
  - split; [done |]. intros dir p i [-> | H%elem_of_nil]%elem_of_cons; [| done].
    intros [_ <-]%lookup_singleton_Some. by eexists.
  - intros dir [-> | H%elem_of_nil]%elem_of_cons; [| done]. exists (MkFile oldData true 384). by split_and!.
  - intros dir [-> | H%elem_of_nil]%elem_of_cons; [| done]. by vm_compute.
Qed.

Lemma state_write_crash_safe_witness :
  let '(_, w') := @writeStateAtomic (sampleFileEnv (fun _ => false)) sampleCodec "state"
                    (Some (snapshotSavedState runningConfig)) sampleWorld in
  length (w_trace w') = 23%nat /\
  steps (fun d => forall v, crash_view d v ->
    @loadStateWithReader sampleCodec "state" (reader v) =
      @loadStateWithReader sampleCodec "state" (reader (content sampleDisk)) \/
    @loadStateWithReader sampleCodec "state" (reader v) =
      inr (durableState (snapshotSavedState runningConfig), MkStateLoadInfo "state" 1 false false)) sampleWorld w'.
Proof.
  destruct sampleDisk_ok as (Hwf & Hb & Hk).
  pose proof (@state_write_crash_safe (sampleFileEnv (fun _ => false)) sampleCodec "state"
    (snapshotSavedState runningConfig) sampleWorld Hwf Hb Hk ltac:(by eexists)) as Hc.
  assert (length (w_trace (@writeStateAtomic (sampleFileEnv (fun _ => false)) sampleCodec "state"
    (Some (snapshotSavedState runningConfig)) sampleWorld).2) = 23%nat) as Hl by (vm_compute; reflexivity).
  destruct (writeStateAtomic _ _ _) as [r w']. split; [exact Hl | exact Hc].
Defined.

Lemma state_write_success_witness :
  exists w', @writeStateAtomic (sampleFileEnv (fun _ => false)) sampleCodec "state"
               (Some (snapshotSavedState runningConfig)) sampleWorld = (None, w') /\
    @loadStateWithReader sampleCodec "state" (reader (content (w_disk w'))) =
      inr (durableState (snapshotSavedState runningConfig), MkStateLoadInfo "state" 1 false false).
Proof.
  destruct sampleDisk_ok as (Hwf & Hb & Hk).
  assert ((@writeStateAtomic (sampleFileEnv (fun _ => false)) sampleCodec "state"
    (Some (snapshotSavedState runningConfig)) sampleWorld).1 = None) as Hr by (vm_compute; reflexivity).
  destruct (@writeStateAtomic (sampleFileEnv (fun _ => false)) sampleCodec "state"
    (Some (snapshotSavedState runningConfig)) sampleWorld) as [r w'] eqn:E. cbn [fst] in Hr. subst r.
  exists w'. split; [done |].
  apply (@state_write_success (sampleFileEnv (fun _ => false)) sampleCodec "state"
    (snapshotSavedState runningConfig) sampleWorld w' Hwf Hb Hk ltac:(by eexists) E).
Defined.

(** The rename of the primary fails, and so does removing its temporary file. *)
Lemma state_write_failure_witness :
  let env := sampleFileEnv (fun n => orb (Nat.eqb n 18) (Nat.eqb n 19)) in
  exists w', @writeStateAtomic env sampleCodec "state" (Some (snapshotSavedState runningConfig)) sampleWorld =
      (Some (ReplaceState [ERename; ERemove]), w') /\
    content (w_disk w') "state" = Some oldData /\ content (w_disk w') "state.bak" = Some oldData.
Proof.
  intros env. destruct sampleDisk_ok as (Hwf & Hb & Hk).
  assert ((@writeStateAtomic env sampleCodec "state" (Some (snapshotSavedState runningConfig)) sampleWorld).1 =
    Some (ReplaceState [ERename; ERemove])) as Hr by (vm_compute; reflexivity).
  destruct (@writeStateAtomic env sampleCodec "state" (Some (snapshotSavedState runningConfig)) sampleWorld)
    as [r w'] eqn:E. cbn [fst] in Hr. subst r.
  exists w'. split; [done |].
  destruct (@state_write_failure env sampleCodec "state" (snapshotSavedState runningConfig) sampleWorld w' _
    Hwf Hb Hk E) as (H1 & _ & H3).
  split; [rewrite (H3 eq_refl) | refine (eq_trans H1 _)]; vm_compute; reflexivity.
Defined.
