(* ===== verification/Events.v ===== *)
(** * Consensus events (rpc_contract.go, the event decoding of
      cometbft_adapter.go, and the types of ws.go)

    What a block or vote event says about the validator, consensus addresses
    and the heights that arrive as decimal strings.  Parsing JSON into the wire
    structures is a parameter. *)

From Stdlib Require Import Ascii.
From S2P Require Import Prelude Types.

Local Open Scope Z_scope.

(** ** Status of a block (ws.go) *)

Definition Statusmissed : Z := 0.
Definition StatusPrevote : Z := 1.
Definition StatusPrecommit : Z := 2.
Definition StatusSigned : Z := 3.
Definition StatusProposed : Z := 4.

Record StatusUpdate := MkStatusUpdate { Height : Z; Status : Z; Final : bool }.

#[export] Instance eta_StatusUpdate : Eta StatusUpdate := {| eta_of r :=
  MkStatusUpdate (Height r) (Status r) (Final r) |}.

(** ** Events (rpc_contract.go) *)

Record blockEvent := MkBlockEvent {
  be_Height : Z;
  ProposerAddress : string;
  ValidatorAddresses : list string;
}.

Definition voteTypePrevote : Z := 1.
Definition voteTypePrecommit : Z := 2.
Definition voteTypeProposal : Z := 32.

Record voteEvent := MkVoteEvent { ve_Type : Z; ve_Height : Z; ValidatorAddress : string }.

(** The loop that looks for the signer. *)
Fixpoint signedBy (signers : list string) (validatorAddress : string) : bool :=
  match signers with
  | [] => false
  | signer :: signers' => String.eqb signer validatorAddress || signedBy signers' validatorAddress
  end.

Definition classifyBlockEvent (event : blockEvent) (validatorAddress : string) : StatusUpdate :=
  let update := MkStatusUpdate (be_Height event) Statusmissed true in
  if String.eqb (ProposerAddress event) validatorAddress then update <| Status := StatusProposed |>
  else if signedBy (ValidatorAddresses event) validatorAddress then update <| Status := StatusSigned |>
  else update.

(** A vote of a type the code does not name keeps the zero status. *)
Definition classifyVoteEvent (event : voteEvent) (validatorAddress : string) : option StatusUpdate :=
  if negb (String.eqb (ValidatorAddress event) validatorAddress) then None
  else
    let update := MkStatusUpdate (ve_Height event) Statusmissed false in
    Some (if ve_Type event =? voteTypePrevote then update <| Status := StatusPrevote |>
          else if ve_Type event =? voteTypePrecommit then update <| Status := StatusPrecommit |>
          else if ve_Type event =? voteTypeProposal then update <| Status := StatusProposed |>
          else update).

(** ** Consensus addresses (rpc_contract.go) *)

Definition hexDigit (n : Z) : ascii :=
  ascii_of_nat (Z.to_nat (if n <? 10 then 48 + n else 87 + n)).

(** [hex.EncodeToString] *)
Fixpoint EncodeToString (bytes : list Z) : string :=
  match bytes with
  | [] => ""
  | b :: bytes' => String (hexDigit (Z.shiftr b 4)) (String (hexDigit (Z.land b 15)) (EncodeToString bytes'))
  end.

Definition upperAscii (a : ascii) : ascii :=
  let n := nat_of_ascii a in if (97 <=? n)%nat && (n <=? 122)%nat then ascii_of_nat (n - 32) else a.

Definition lowerAscii (a : ascii) : ascii :=
  let n := nat_of_ascii a in if (65 <=? n)%nat && (n <=? 90)%nat then ascii_of_nat (n + 32) else a.

Fixpoint mapString (f : ascii -> ascii) (s : string) : string :=
  match s with EmptyString => "" | String a s' => String (f a) (mapString f s') end.

(** [strings.ToUpper] and [strings.ToLower] on ASCII. *)
Definition ToUpper : string -> string := mapString upperAscii.
Definition ToLower : string -> string := mapString lowerAscii.

Definition normalizeConsensusAddress (address : list Z) : string := ToUpper (EncodeToString address).

Definition hexValue (a : ascii) : option Z :=
  let n := Z.of_nat (nat_of_ascii a) in
  if (48 <=? n) && (n <=? 57) then Some (n - 48)
  else if (97 <=? n) && (n <=? 102) then Some (n - 87)
  else if (65 <=? n) && (n <=? 70) then Some (n - 55)
  else None.

(** [hex.DecodeString]: the bytes before the first error, and whether there
    was one. *)
Fixpoint DecodeString (s : string) : list Z * bool :=
  match s with
  | EmptyString => ([], true)
  | String a EmptyString => ([], false)
  | String a (String b s') =>
      match hexValue a, hexValue b with
      | Some x, Some y => let '(l, ok) := DecodeString s' in (Z.lor (Z.shiftl x 4) y :: l, ok)
      | _, _ => ([], false)
      end
  end.

Definition ToBytes (address : string) : list Z := (DecodeString (ToLower address)).1.

(** ** Heights (cometbft_adapter.go) *)

Inductive parsed := PSyntax | PRange | PUint (n : Z).

Definition digitOf (a : ascii) : option Z :=
  let n := Z.of_nat (nat_of_ascii a) in if (48 <=? n) && (n <=? 57) then Some (n - 48) else None.

(** The loop of [strconv.ParseUint] in base 10: it stops at the first digit that
    leaves the range of [uint64], before looking at what follows. *)
Fixpoint scanUint (n : Z) (s : string) : parsed :=
  match s with
  | EmptyString => PUint n
  | String a s' =>
      match digitOf a with
      | None => PSyntax
      | Some d =>
          if 2 ^ 64 <=? n * 10 then PRange
          else if 2 ^ 64 <=? n * 10 + d then PRange
          else scanUint (n * 10 + d) s'
      end
  end.

Definition parseUint (s : string) : parsed := match s with EmptyString => PSyntax | _ => scanUint 0 s end.

(** [strconv.ParseInt(s, 10, 64)] with the error dropped: zero for bad syntax,
    the nearest [int64] when out of range. *)
Definition val (s : string) : Z :=
  let '(neg, digits) :=
    match s with
    | String a s' =>
        if Ascii.eqb a (ascii_of_nat 43) then (false, s')
        else if Ascii.eqb a (ascii_of_nat 45) then (true, s') else (false, s)
    | EmptyString => (false, s)
    end in
  match parseUint digits with
  | PSyntax => 0
  | PRange => if neg then - 2 ^ 63 else 2 ^ 63 - 1
  | PUint n =>
      if negb neg && (2 ^ 63 <=? n) then 2 ^ 63 - 1
      else if neg && (2 ^ 63 <? n) then - 2 ^ 63
      else if neg then - n else n
  end.

(** ** Decoding (cometbft_adapter.go) *)

Record cometBFTBlockWire := MkBlockWire {
  bw_Height : string;
  bw_ProposerAddress : string;
  bw_Signatures : list string;
}.

Record cometBFTVoteWire := MkVoteWire { vw_Type : Z; vw_Height : string; vw_ValidatorAddress : string }.

Section decode.
Context (unmarshalBlock : string -> string + cometBFTBlockWire)
        (unmarshalVote : string -> string + cometBFTVoteWire).

Definition decodeBlockEvent (payload : string) : string + blockEvent :=
  match unmarshalBlock payload with
  | inl e => inl e
  | inr wire => inr (MkBlockEvent (val (bw_Height wire)) (bw_ProposerAddress wire)
                       (foldl (fun l sig => l ++ [sig]) [] (bw_Signatures wire)))
  end.

Definition decodeVoteEvent (payload : string) : string + voteEvent :=
  match unmarshalVote payload with
  | inl e => inl e
  | inr wire => inr (MkVoteEvent (vw_Type wire) (val (vw_Height wire)) (vw_ValidatorAddress wire))
  end.

End decode.

(** ** Lemmas *)

Lemma signedBy_elem l a : signedBy l a = true <-> a ∈ l.
Proof.
  induction l as [| x l IH]; simpl.
  - split; [done | by intros ?%elem_of_nil].
  - rewrite orb_true_iff, IH, elem_of_cons, String.eqb_eq. naive_solver.
Qed.

Lemma foldl_snoc {A} (l acc : list A) : foldl (fun l x => l ++ [x]) acc l = acc ++ l.
Proof. revert acc. induction l as [| x l IH]; intros acc; simpl; [by rewrite app_nil_r |]. by rewrite IH, <- app_assoc. Qed.

(** A statement about all numbers below a bound is decided by running it. *)
Lemma below_cases (P : Z -> bool) (m n : Z) : forallb P (seqZ 0 m) = true -> 0 <= n < m -> P n = true.
Proof.
  intros HP Hn. rewrite forallb_forall in HP. apply HP, list_elem_of_In, elem_of_seqZ. lia.
Qed.

Lemma hexDigit_value n : 0 <= n < 16 -> hexValue (lowerAscii (upperAscii (hexDigit n))) = Some n.
Proof.
  intros Hn. pose proof (below_cases (fun n =>
    bool_decide (hexValue (lowerAscii (upperAscii (hexDigit n))) = Some n)) 16 n eq_refl Hn) as H.
  by apply bool_decide_eq_true in H.
Qed.

Lemma byte_split b : 0 <= b < 256 ->
  0 <= Z.shiftr b 4 < 16 /\ 0 <= Z.land b 15 < 16 /\ Z.lor (Z.shiftl (Z.shiftr b 4) 4) (Z.land b 15) = b.
Proof.
  intros Hb. pose proof (below_cases (fun b => (0 <=? Z.shiftr b 4) && (Z.shiftr b 4 <? 16) &&
    (0 <=? Z.land b 15) && (Z.land b 15 <? 16) && (Z.lor (Z.shiftl (Z.shiftr b 4) 4) (Z.land b 15) =? b))%bool
    256 b eq_refl Hb) as H. simpl in H. breflect. done.
Qed.

Definition is_byte (b : Z) : Prop := 0 <= b < 256.

Lemma ToBytes_normalize bs : Forall is_byte bs -> ToBytes (normalizeConsensusAddress bs) = bs.
Proof.
  unfold ToBytes, normalizeConsensusAddress, ToLower, ToUpper.
  assert (Forall is_byte bs -> DecodeString (mapString lowerAscii (mapString upperAscii (EncodeToString bs))) = (bs, true)) as H.
  { induction 1 as [| b bs Hb _ IH]; [done |]. destruct (byte_split b Hb) as (H1 & H2 & H3).
    cbn [EncodeToString mapString DecodeString]. rewrite (hexDigit_value _ H1), (hexDigit_value _ H2), IH, H3. done. }
  intros Hbs. by rewrite (H Hbs).
Qed.

(** *** Decimal numbers *)

Lemma digitOf_char d : 0 <= d < 10 -> digitOf (pretty_N_char (Z.to_N d)) = Some d.
Proof.
  intros Hd. pose proof (below_cases (fun d =>
    bool_decide (digitOf (pretty_N_char (Z.to_N d)) = Some d)) 10 d eq_refl Hd) as H.
  by apply bool_decide_eq_true in H.
Qed.

Lemma scan_digit n d s : 0 <= n -> 0 <= d < 10 -> n * 10 + d < 2 ^ 64 ->
  scanUint n (String (pretty_N_char (Z.to_N d)) s) = scanUint (n * 10 + d) s.
Proof.
  intros Hn Hd Hb. cbn [scanUint]. rewrite digitOf_char by done.
  rewrite !(proj2 (Z.leb_gt _ _)) by lia. done.
Qed.

Lemma scan_pretty (x : N) s : (x < 2 ^ 64)%N -> scanUint 0 (pretty_N_go x s) = scanUint (Z.of_N x) s.
Proof.
  revert s. induction (N.lt_wf_0 x) as [x _ IH]; intros s Hx. destruct (decide (x = 0)%N) as [-> | Hne].
  { by rewrite pretty_N_go_0. }
  rewrite pretty_N_go_step by lia. pose proof (IH (x `div` 10)%N) as IHq. clear IH.
  assert (x = 10 * (x `div` 10) + x `mod` 10)%N as Hdm by (apply N.div_mod; lia).
  assert (x `mod` 10 < 10)%N by (apply N.mod_lt; lia).
  generalize dependent (x `mod` 10)%N. generalize dependent (x `div` 10)%N. intros q IHq r Hx' Hr.
  rewrite IHq by lia. rewrite <- (N2Z.id r) at 1. rewrite scan_digit by lia.
  f_equal. lia.
Qed.

Lemma scan_range n s : 0 <= n < 2 ^ 64 -> match scanUint n s with PUint m => 0 <= m < 2 ^ 64 | _ => True end.
Proof.
  revert n. induction s as [| a s IH]; intros n Hn; cbn [scanUint]; [done |].
  destruct (digitOf a) as [d |] eqn:Hd; [| done]. unfold digitOf in Hd.
  destruct (_ && _)%bool eqn:Hb; [| done]. breflect. simplify_eq.
  destruct (2 ^ 64 <=? n * 10); [done |]. destruct (2 ^ 64 <=? _) eqn:Hr; [done |]. breflect. apply IH. lia.
Qed.

Lemma val_range s : in_int64 (val s).
Proof.
  unfold val, in_int64. destruct (match s with EmptyString => _ | String a s' => _ end) as [neg digits].
  assert (match parseUint digits with PUint m => 0 <= m < 2 ^ 64 | _ => True end) as H.
  { unfold parseUint. destruct digits; [done |]. by apply scan_range. }
  destruct (parseUint digits) as [| | n]; [lia | destruct neg; lia |].
  destruct neg; simpl; destruct (_ <=? _) eqn:E1 || destruct (_ <? _) eqn:E1; breflect; lia.
Qed.

Lemma pretty_first (x : N) s : (0 < x)%N ->
  exists d t, 0 <= d < 10 /\ pretty_N_go x s = String (pretty_N_char (Z.to_N d)) t.
Proof.
  revert s. induction (N.lt_wf_0 x) as [x _ IH]; intros s Hx. rewrite pretty_N_go_step by lia.
  assert (x = 10 * (x `div` 10) + x `mod` 10)%N as Hdm by (apply N.div_mod; lia).
  assert (x `mod` 10 < 10)%N as Hr by (apply N.mod_lt; lia). pose proof (IH (x `div` 10)%N) as IHq. clear IH.
  generalize dependent (x `mod` 10)%N. generalize dependent (x `div` 10)%N. intros q IHq r Hxq Hr.
  destruct (decide (q = 0)%N) as [-> | Hq].
  - rewrite pretty_N_go_0. exists (Z.of_N r), s. split; [lia |]. by rewrite N2Z.id.
  - apply IHq; lia.
Qed.

Lemma digit_not_sign d a : 0 <= d < 10 -> (a = 43 \/ a = 45)%nat ->
  Ascii.eqb (pretty_N_char (Z.to_N d)) (ascii_of_nat a) = false.
Proof.
  intros Hd Ha. pose proof (below_cases (fun d =>
    negb (Ascii.eqb (pretty_N_char (Z.to_N d)) (ascii_of_nat 43)) &&
    negb (Ascii.eqb (pretty_N_char (Z.to_N d)) (ascii_of_nat 45)))%bool 10 d eq_refl Hd) as H.
  simpl in H. apply andb_true_iff in H as [H1%negb_true_iff H2%negb_true_iff]. by destruct Ha as [-> | ->].
Qed.

Lemma parse_pretty (p : positive) : (N.pos p < 2 ^ 64)%N -> parseUint (pretty p) = PUint (Z.pos p).
Proof.
  intros Hp. unfold pretty, pretty_positive, pretty, pretty_N. case_decide; [done |].
  unfold parseUint. destruct (pretty_first (N.pos p) "") as (d & t & Hd & E); [lia |].
  rewrite E. rewrite <- E. by rewrite scan_pretty.
Qed.

Lemma val_pretty z : in_int64 z -> val (pretty z) = z.
Proof.
  intros Hz. unfold in_int64 in Hz. destruct z as [| p | p]; [done | |].
  - assert (N.pos p < 2 ^ 64)%N as Hp by lia. pose proof (parse_pretty p Hp) as E.
    change (pretty (Z.pos p)) with (pretty p).
    destruct (pretty_first (N.pos p) "") as (d & t & Hd & Et); [lia |].
    assert (pretty p = String (pretty_N_char (Z.to_N d)) t) as Ep by exact Et.
    unfold val. rewrite Ep, !digit_not_sign by auto. rewrite <- Ep. cbv beta iota. rewrite E. simpl.
    rewrite (proj2 (Z.leb_gt _ _)) by lia. done.
  - assert (N.pos p < 2 ^ 64)%N as Hp by lia. pose proof (parse_pretty p Hp) as E.
    change (pretty (Z.neg p)) with (String (ascii_of_nat 45) (pretty p)). unfold val.
    change (Ascii.eqb (ascii_of_nat 45) (ascii_of_nat 43)) with false.
    change (Ascii.eqb (ascii_of_nat 45) (ascii_of_nat 45)) with true. cbv beta iota. rewrite E. simpl.
    rewrite (proj2 (Z.ltb_ge _ _)) by lia. done.
Qed.

(** ** Properties *)

(** A consensus address survives its textual form: decoding the upper-case
    hexadecimal string gives the bytes back, so two addresses are told apart
    by comparing strings. *)
Theorem consensus_address_roundtrip (bs bs' : list Z) :
  Forall is_byte bs -> Forall is_byte bs' ->
  ToBytes (normalizeConsensusAddress bs) = bs /\
  (normalizeConsensusAddress bs = normalizeConsensusAddress bs' -> bs = bs').
Proof.
  intros H H'. split; [by apply ToBytes_normalize |]. intros E.
  by rewrite <- (ToBytes_normalize bs H), E, ToBytes_normalize.
Qed.

(** Heights.  Every [int64] written in decimal is read back, and whatever
    string arrives, the height read is an [int64]. *)
Theorem height_roundtrip (z : Z) (s : string) :
  in_int64 (val s) /\ (in_int64 z -> val (pretty z) = z).
Proof. split; [apply val_range | apply val_pretty]. Qed.

(** What a block event means.  A decoded block gives exactly one final
    update with the block's height: proposed if the validator proposed it,
    else signed if the validator is among the signers, else missed; a vote
    gives an update only if it is the validator's own, and never a final one. *)
Theorem event_classification (unmarshalBlock : string -> string + cometBFTBlockWire)
    (unmarshalVote : string -> string + cometBFTVoteWire) (payload address : string) (w : cometBFTBlockWire)
    (v : cometBFTVoteWire) :
  unmarshalBlock payload = inr w -> unmarshalVote payload = inr v ->
  (exists ev, decodeBlockEvent unmarshalBlock payload = inr ev /\
    let u := classifyBlockEvent ev address in
    Final u = true /\ Height u = val (bw_Height w) /\
    (Status u = StatusProposed <-> bw_ProposerAddress w = address) /\
    (Status u = StatusSigned <-> bw_ProposerAddress w <> address /\ address ∈ bw_Signatures w) /\
    (Status u = Statusmissed <-> bw_ProposerAddress w <> address /\ address ∉ bw_Signatures w)) /\
  (exists ev, decodeVoteEvent unmarshalVote payload = inr ev /\
    (is_Some (classifyVoteEvent ev address) <-> vw_ValidatorAddress v = address) /\
    forall u, classifyVoteEvent ev address = Some u -> Final u = false /\ Height u = val (vw_Height v)).
Proof.
  intros Hb Hv. unfold decodeBlockEvent, decodeVoteEvent. rewrite Hb, Hv, foldl_snoc. split.
  - eexists. split; [reflexivity |]. unfold classifyBlockEvent. simpl.
    destruct (String.eqb_spec (bw_ProposerAddress w) address) as [-> | Hne]; simpl.
    + split_and!; try done; split; naive_solver.
    + destruct (signedBy (bw_Signatures w) address) eqn:Hs; simpl.
      * apply signedBy_elem in Hs. split_and!; try done; split; naive_solver.
      * assert (address ∉ bw_Signatures w) by (rewrite <- signedBy_elem; congruence).
        split_and!; try done; split; naive_solver.
  - eexists. split; [reflexivity |]. unfold classifyVoteEvent. simpl.
    destruct (String.eqb_spec (vw_ValidatorAddress v) address) as [-> | Hne]; simpl.
    + split; [split; [done | by eexists] |]. intros u Hu. simplify_eq. by repeat case_match.
    + split; [split; [by intros [? ?] | done] |]. done.
Qed.

(** ** Witnesses *)

Lemma consensus_address_roundtrip_witness :
  normalizeConsensusAddress [171; 5; 255] = "AB05FF" /\ ToBytes "AB05FF" = [171; 5; 255].
Proof.
  split; [by vm_compute |].
  assert (Forall is_byte [171; 5; 255]) as H by (repeat constructor; unfold is_byte; lia).
  exact (proj1 (consensus_address_roundtrip [171; 5; 255] [] H (Forall_nil_2 _))).
Defined.

Lemma height_roundtrip_witness : val (pretty (- 2 ^ 63)) = - 2 ^ 63 /\ val "99999999999999999999x" = 2 ^ 63 - 1.
Proof.
  split; [| by vm_compute]. apply (height_roundtrip (- 2 ^ 63) ""). unfold in_int64. lia.
Defined.

Lemma event_classification_witness :
  let ub := (fun _ : string => inr (MkBlockWire "42" "AA" ["BB"; "CC"]) : string + cometBFTBlockWire) in
  let uv := (fun _ : string => inr (MkVoteWire 2 "42" "CC") : string + cometBFTVoteWire) in
  exists ev, decodeBlockEvent ub "" = inr ev /\ Status (classifyBlockEvent ev "CC") = StatusSigned.
Proof.
  intros ub uv.
  destruct (event_classification ub uv "" "CC" _ _ eq_refl eq_refl) as [(ev & E & _ & _ & _ & Hs & _) _].
  exists ev. split; [exact E |]. apply Hs. split; [done |]. right. by left.
Defined.
