(* ===== verification/Ws.v ===== *)
(** * The websocket listener (ws.go)

    The goroutine that turns status updates into block results, statistics,
    dashboard and metric messages; the two goroutines that turn events into
    updates; routing of messages; connection set-up.  Handling one update is
    one step on the shared configuration: the goroutine is the only writer of
    the statistics, the block history and the last error, and it reads the
    clock once per update.  Log lines are not modelled. *)

From Stdlib Require Import Ascii.
From S2P Require Import Prelude Types AlarmCache Delivery Samples RuntimeState Alerting Watch Events.

Local Open Scope Z_scope.

(** ** Results *)

(** [td.emitStat] for each of a list of metrics, until the context is done. *)
Fixpoint emitAll (ctxDone : bool) (us : list promUpdate) : M Config bool :=
  match us with
  | [] => mret true
  | u :: us' =>
      ok ← stateM (emitStat ctxDone u);
      if (ok : bool) then emitAll ctxDone us' else mret false
  end.

(** The statistics after a block with result [sign]; other values change
    nothing. *)
Definition applyStats (sign : Z) (cc : ChainConfig) : ChainConfig :=
  if sign =? Statusmissed then
    cc <| statTotalMiss := f64_incr (statTotalMiss cc) |>
       <| statConsecutiveMiss := f64_incr (statConsecutiveMiss cc) |>
  else if sign =? StatusPrecommit then
    cc <| statPrecommitMiss := f64_incr (statPrecommitMiss cc) |>
       <| statTotalMiss := f64_incr (statTotalMiss cc) |>
       <| statConsecutiveMiss := f64_incr (statConsecutiveMiss cc) |>
  else if sign =? StatusPrevote then
    cc <| statPrevoteMiss := f64_incr (statPrevoteMiss cc) |>
       <| statTotalMiss := f64_incr (statTotalMiss cc) |>
       <| statConsecutiveMiss := f64_incr (statConsecutiveMiss cc) |>
  else if sign =? StatusSigned then
    cc <| statTotalSigns := f64_incr (statTotalSigns cc) |> <| statConsecutiveMiss := 0 |>
  else if sign =? StatusProposed then
    cc <| statTotalProps := f64_incr (statTotalProps cc) |>
       <| statTotalSigns := f64_incr (statTotalSigns cc) |> <| statConsecutiveMiss := 0 |>
  else cc.

(** Healthy nodes are counted; the last message of the others is added to the
    information shown, unless logs are hidden. *)
Fixpoint nodeInfo (hideLogs : bool) (ns : list NodeConfig) (healthy : Z) (info : string) : Z * string :=
  match ns with
  | [] => (healthy, info)
  | n :: ns' =>
      let st := nodeState n in
      if negb (down st) then nodeInfo hideLogs ns' (healthy + 1) info
      else nodeInfo hideLogs ns' healthy
             (if negb hideLogs then info +:+ nl +:+ " - " +:+ lastMsg st else info)
  end.

Definition missedWarning (vi : ValInfo) (height : Z) (cc : ChainConfig) : string :=
  "❌ warning      " +:+ vi_Moniker vi +:+ " missed block " +:+ pretty height +:+ " on " +:+ ChainId cc.

Definition standingInfo (vi : ValInfo) : string :=
  if vi_Tombstoned vi then "- validator is tombstoned" +:+ nl
  else if vi_Jailed vi then "- validator is jailed" +:+ nl else "".

(** The sign state after an update: the highest status seen while bonded. *)
Definition raiseSign (sign status : Z) (bonded : bool) : Z :=
  if (sign <? status) && bonded then status else sign.

Section results.
(** [time.Time.String] and the order in which Go ranges over a map. *)
Context (timeString : time -> string) (order : gmap string time -> list string).

(** The part of a final update after its first metric: record the result, count,
    report.  Returns the chain and the dashboard message. *)
Definition finishBlock (now : time) (u : StatusUpdate) (vi : ValInfo) (sign : Z) (c : Config) (cc : ChainConfig)
  : ChainConfig * ChainStatus * Z :=
  let info := getAlarms order (cc_name cc) (HideLogs c) (alarms c) in
  let '(blocks, cc) := recordBlockResult sign cc in
  let '(info, cc) :=
    if (sign <? StatusSigned) && vi_Bonded vi then
      let info := info +:+ missedWarning vi (Height u) cc +:+ nl in
      (info, cc <| lastError := timeString now +:+ " " +:+ info |>)
    else (info, cc) in
  let cc := applyStats sign cc in
  let '(healthy, info) := nodeInfo (HideLogs c) (Nodes cc) 0 info in
  let info := info +:+ standingInfo vi in
  let cc := cc <| activeAlerts := getCount (cc_name cc) (alarms c) |> in
  (cc,
   MkChainStatus "status" (cc_name cc) (ChainId cc) (vi_Moniker vi) (vi_Bonded vi) (vi_Jailed vi)
     (vi_Tombstoned vi) (vi_Missed vi) (vi_Window vi) (Z.of_nat (length (Nodes cc))) healthy
     (activeAlerts cc) (Height u) info blocks,
   healthy).

Definition blockMetrics (cc : ChainConfig) (healthy : Z) : list promUpdate :=
  [ mkUpdate metricSigned (f64_of_Z (statTotalSigns cc)) "" cc;
    mkUpdate metricProposed (f64_of_Z (statTotalProps cc)) "" cc;
    mkUpdate metricMissed (f64_of_Z (statTotalMiss cc)) "" cc;
    mkUpdate metricPrevote (f64_of_Z (statPrevoteMiss cc)) "" cc;
    mkUpdate metricPrecommit (f64_of_Z (statPrecommitMiss cc)) "" cc;
    mkUpdate metricConsecutive (f64_of_Z (statConsecutiveMiss cc)) "" cc;
    mkUpdate metricUnealthyNodes (f64_of_Z (Z.of_nat (length (Nodes cc)) - healthy)) "" cc ].

(** One update from the result channel; [None] is a return of the goroutine. *)
Definition handleUpdate (k : string) (now : time) (ctxDone : bool) (u : StatusUpdate) (sign : Z)
  : M Config (option Z) :=
  cc ← getChain k;
  match (validatorInfoSnapshot cc).1 with
  | None => mret (Some sign)
  | Some vi =>
      let sign := raiseSign sign (Status u) (vi_Bonded vi) in
      if negb (Final u) then mret (Some sign)
      else
        let cc := cc <| lastBlockNum := Height u |> in
        let '(previousBlockTime, cc) := recordFinalBlock now cc in
        _ ← putChain k cc;
        c ← getS;
        ok ← (if Prom c then
                stateM (emitStat ctxDone
                  (mkUpdate metricLastBlockSeconds (Seconds (Sub now previousBlockTime)) "" cc))
              else mret true);
        if negb ok then mret None
        else
          c ← getS;
          let '(cc, status, healthy) := finishBlock now u vi sign c cc in
          _ ← putChain k cc;
          _ ← (if EnableDash c then modifyS (fun c => c <| updateChan := updateChan c ++ [status] |>)
               else mret tt);
          ok ← (if Prom c then emitAll ctxDone (blockMetrics cc healthy) else mret true);
          mret (if (ok : bool) then Some (-1) else None)
  end.

End results.

(** ** Events to updates *)

Record WsReply := MkWsReply { wr_Type : string; wr_Value : option string }.

Definition Value (r : WsReply) : string := default "" (wr_Value r).

Inductive destination := toBlocks | toVotes.

(** Where the reader sends a message. *)
Definition route (r : WsReply) : option destination :=
  if String.eqb (wr_Type r) "tendermint/event/NewBlock" then Some toBlocks
  else if String.eqb (wr_Type r) "tendermint/event/Vote" then Some toVotes
  else None.

(** What [handleBlocks] waits for: a tick, a block (with [sendDone] if the
    context is done before its update can be sent), or the end of the context. *)
Inductive blockInput :=
  | Tick (now : time)
  | Block (now : time) (r : WsReply) (sendDone : bool)
  | BlockDone.

Inductive loopResult := Continue (lastBlock : time) | Stop (idle : bool).

Section handlers.
Context (unmarshalBlock : string -> string + cometBFTBlockWire)
        (unmarshalVote : string -> string + cometBFTVoteWire).

(** One turn of the loop of [handleBlocks]. [Stop true] is the idle error. *)
Definition handleBlocks_step (address : string) (lastBlock : time) (i : blockInput)
  : loopResult * option StatusUpdate :=
  match i with
  | Tick now =>
      if Before lastBlock (Add now (- Minute)) then (Stop true, None) else (Continue lastBlock, None)
  | Block now r sendDone =>
      match decodeBlockEvent unmarshalBlock (Value r) with
      | inl _ => (Continue now, None)
      | inr event =>
          if sendDone then (Stop false, None)
          else (Continue now, Some (classifyBlockEvent event address))
      end
  | BlockDone => (Stop false, None)
  end.

(** The loop on a sequence of inputs: the updates sent, and how it ended. *)
Fixpoint handleBlocks (address : string) (lastBlock : time) (ins : list blockInput)
  : list StatusUpdate * loopResult :=
  match ins with
  | [] => ([], Continue lastBlock)
  | i :: ins' =>
      match handleBlocks_step address lastBlock i with
      | (Continue t, u) => let '(us, r) := handleBlocks address t ins' in (option_list u ++ us, r)
      | (Stop b, u) => (option_list u, Stop b)
      end
  end.

Fixpoint handleVotes (address : string) (replies : list WsReply) : list StatusUpdate :=
  match replies with
  | [] => []
  | r :: replies' =>
      match decodeVoteEvent unmarshalVote (Value r) with
      | inl _ => handleVotes address replies'
      | inr event => option_list (classifyVoteEvent event address) ++ handleVotes address replies'
      end
  end.

End handlers.

(** ** Connecting *)

(** [WsRun] waits for a client and the validator's key. *)
Inductive waitResult := Ready (remote : string) (vi : ValInfo) | TimedOut | KeepWaiting.

Definition wsWait (now started : time) (cc : ChainConfig) : waitResult :=
  let '(cl, vi, _) := monitoringSnapshot cc in
  match cl, vi with
  | Some remote, Some vi =>
      if negb (bool_decide (vi_Conspub vi = [])) then Ready remote vi
      else if Before started (Add now (- (2 * Minute))) then TimedOut else KeepWaiting
  | _, _ => if Before started (Add now (- (2 * Minute))) then TimedOut else KeepWaiting
  end.

Definition QueryNewBlock : string := "tm.event='NewBlock'".
Definition QueryVote : string := "tm.event='Vote'".

Definition setWebSocket (remote : string) (cc : ChainConfig) : ChainConfig := cc <| wsclient := Some remote |>.

(** The number of connections closed, and the chain. *)
Definition closeWebSocket (cc : ChainConfig) : nat * ChainConfig :=
  match wsclient cc with Some _ => (1%nat, cc <| wsclient := None |>) | None => (0%nat, cc) end.

Definition closeWebSockets (c : Config) : Config :=
  c <| Chains := (fun cc => (closeWebSocket cc).2) <$> Chains c |>.

(** [strings.TrimRight(s, slash)] *)
Fixpoint trimSlash (s : string) : string :=
  match s with
  | EmptyString => ""
  | String a s' =>
      match trimSlash s' with
      | EmptyString => if Ascii.eqb a (ascii_of_nat 47) then "" else String a ""
      | t => String a t
      end
  end.

Definition HasSuffix (s suffix : string) : bool :=
  (String.length suffix <=? String.length s)%nat &&
  String.eqb (String.substring (String.length s - String.length suffix) (String.length suffix) s) suffix.

Definition websocketPath (u : string) : string :=
  let u := trimSlash u in
  if negb (HasSuffix u "/websocket") then u +:+ "/websocket" else u.

(** The scheme to dial, and whether it is a unix socket. *)
Definition websocketScheme (scheme : string) : option (string * bool) :=
  if String.eqb scheme "http" || String.eqb scheme "tcp" || String.eqb scheme "ws" then Some ("ws", false)
  else if String.eqb scheme "unix" then Some ("ws", true)
  else if String.eqb scheme "https" || String.eqb scheme "wss" then Some ("wss", false)
  else None.

Inductive wsError := ParseError | UnknownProtocol (scheme : string) | NeedsInsecure | DialError (url : string).

(** [Unopened] is the zero connection a unix socket gets: its dialer is still
    to be written. *)
Inductive wsConn := Dialed (url : string) | Unopened.

(** [parse] is [url.Parse] as scheme and rest, [dial] the websocket dialer. *)
Definition NewClientContext (parse : string -> option (string * string)) (dial : string -> bool)
    (u : string) (allowInsecure : bool) : wsError + wsConn :=
  match parse (websocketPath u) with
  | None => inl ParseError
  | Some (scheme, rest) =>
      match websocketScheme scheme with
      | None => inl (UnknownProtocol scheme)
      | Some (scheme, dialUnix) =>
          if String.eqb scheme "ws" && negb allowInsecure then inl NeedsInsecure
          else if dialUnix then inr Unopened
          else let url := scheme +:+ "://" +:+ rest in
               if dial url then inr (Dialed url) else inl (DialError url)
      end
  end.

(** ** The specification of the statistics *)

(** What the statistics count, as plain numbers. *)
Record tally := MkTally {
  t_signs : Z; t_props : Z; t_miss : Z; t_prevote : Z; t_precommit : Z; t_consecutive : Z;
}.

Definition tally_of (cc : ChainConfig) : tally :=
  MkTally (statTotalSigns cc) (statTotalProps cc) (statTotalMiss cc) (statPrevoteMiss cc)
    (statPrecommitMiss cc) (statConsecutiveMiss cc).

Definition b2z (b : bool) : Z := if b then 1 else 0.

Definition is_miss (r : Z) : bool := (0 <=? r) && (r <? StatusSigned).
Definition is_sign (r : Z) : bool := (r =? StatusSigned) || (r =? StatusProposed).

Definition tally_step (t : tally) (r : Z) : tally :=
  MkTally (t_signs t + b2z (is_sign r)) (t_props t + b2z (r =? StatusProposed)) (t_miss t + b2z (is_miss r))
    (t_prevote t + b2z (r =? StatusPrevote)) (t_precommit t + b2z (r =? StatusPrecommit))
    (if is_sign r then 0 else t_consecutive t + b2z (is_miss r)).

(** The results of a sequence of updates, with what was known about the
    validator at each ([None]: nothing yet; else whether it was bonded), and
    the sign state at the end. *)
Fixpoint outcomes (sign : Z) (us : list (option bool * StatusUpdate)) : list Z * Z :=
  match us with
  | [] => ([], sign)
  | (None, _) :: us' => outcomes sign us'
  | (Some bonded, u) :: us' =>
      let sign := raiseSign sign (Status u) bonded in
      if Final u then let '(rs, s) := outcomes (-1) us' in (sign :: rs, s) else outcomes sign us'
  end.

(** A run of the goroutine: before each update the other goroutines may change
    the chain.  Returns what was observed, the sign state and the configuration. *)
Fixpoint run_updates (timeString : time -> string) (order : gmap string time -> list string) (k : string)
    (l : list (env_change * time * StatusUpdate)) (sign : Z) (c : Config)
  : option (list (option bool * StatusUpdate) * Z * Config) :=
  match l with
  | [] => Some ([], sign, c)
  | (f, now, u) :: l' =>
      '(_, c0) ← onChain k f c;
      '(cc0, _) ← getChain k c0;
      '(r, c1) ← handleUpdate timeString order k now false u sign c0;
      sign1 ← r;
      '(obs, sign2, c2) ← run_updates timeString order k l' sign1 c1;
      Some ((vi_Bonded <$> valInfo cc0, u) :: obs, sign2, c2)
  end.

(** What the other goroutines leave alone. *)
Definition keeps_stats (f : env_change) : Prop :=
  forall cc, tally_of (f cc) = tally_of cc /\ blocksResults (f cc) = blocksResults cc /\ cc_name (f cc) = cc_name cc.

(** ** Lemmas *)

Lemma emitAll_run us c : emitAll false us c = Some (true, c <| statsChan := statsChan c ++ us |>).
Proof.
  revert c. induction us as [| u us IH]; intros c; cbn [emitAll].
  - unfold mret, M_ret. rewrite app_nil_r. by destruct c.
  - unfold mbind, M_bind, stateM, emitStat. rewrite IH. simpl. by rewrite <- app_assoc.
Qed.

Lemma applyStats_frame s cc : let cc' := applyStats s cc in
  blocksResults cc' = blocksResults cc /\ cc_name cc' = cc_name cc /\ Nodes cc' = Nodes cc /\
  lastBlockNum cc' = lastBlockNum cc /\ lastBlockTime cc' = lastBlockTime cc /\ valInfo cc' = valInfo cc /\
  lastBlockAlarm cc' = lastBlockAlarm cc.
Proof. unfold applyStats. by repeat case_match. Qed.

Lemma f64_incr_small z : 0 <= z < 2 ^ 53 -> f64_incr z = z + 1.
Proof. intros H. unfold f64_incr. by rewrite (proj2 (Z.ltb_lt _ _)) by lia. Qed.

(** Counters below the bound at which a [float64] stops counting. *)
Definition tally_lt (n : Z) (t : tally) : Prop :=
  0 <= t_signs t < n /\ 0 <= t_props t < n /\ 0 <= t_miss t < n /\ 0 <= t_prevote t < n /\
  0 <= t_precommit t < n /\ 0 <= t_consecutive t < n.

Lemma applyStats_tally s cc : tally_lt (2 ^ 53) (tally_of cc) ->
  tally_of (applyStats s cc) = tally_step (tally_of cc) s.
Proof.
  intros (H1 & H2 & H3 & H4 & H5 & H6). unfold tally_of in *. simpl in *.
  unfold applyStats, tally_step, is_sign, is_miss, Statusmissed, StatusPrevote, StatusPrecommit, StatusSigned,
    StatusProposed.
  destruct (s =? 0) eqn:E0; [| destruct (s =? 2) eqn:E2; [| destruct (s =? 1) eqn:E1;
    [| destruct (s =? 3) eqn:E3; [| destruct (s =? 4) eqn:E4]]]]; breflect; subst; simpl;
    rewrite ?f64_incr_small by done; rewrite ?Z.add_0_r; try done.
  assert (((0 <=? s) && (s <? 3)) = false)%bool as ->.
  { apply andb_false_iff. destruct (Z.leb_spec 0 s); [right; apply Z.ltb_ge; lia | by left]. }
  simpl. by rewrite !Z.add_0_r.
Qed.

Lemma nodeInfo_healthy hide ns h info :
  (nodeInfo hide ns h info).1 = h + Z.of_nat (length (filter (fun n => nc_down n = false) ns)).
Proof.
  revert h info. induction ns as [| n ns IH]; intros h info; cbn [nodeInfo]; [simpl; lia |].
  rewrite filter_cons. unfold nodeState. simpl. destruct (nc_down n); simpl; rewrite IH; [done |]. lia.
Qed.

Section run.
Context (timeString : time -> string) (order : gmap string time -> list string).

(** What recording a final block does to the chain, and what is reported. *)
Lemma finishBlock_spec now u vi s c cc :
  let '(cc', st, h) := finishBlock timeString order now u vi s c cc in
  tally_of cc' = tally_of (applyStats s cc) /\
  blocksResults cc' = blocksResults (recordBlockResult s cc).2 /\
  cc_name cc' = cc_name cc /\ lastBlockNum cc' = lastBlockNum cc /\ lastBlockTime cc' = lastBlockTime cc /\
  Nodes cc' = Nodes cc /\
  cs_Blocks st = blocksResults cc' /\ cs_Height st = Height u /\ cs_Name st = cc_name cc /\
  cs_Nodes st = Z.of_nat (length (Nodes cc)) /\
  cs_HealthyNodes st = Z.of_nat (length (filter (fun n => nc_down n = false) (Nodes cc))) /\
  cs_ActiveAlerts st = getCount (cc_name cc) (alarms c).
Proof.
  unfold finishBlock. destruct (recordBlockResult s cc) as [blocks cc1] eqn:Er.
  assert (cc1 = cc <| blocksResults := blocks |>) as Hcc1.
  { unfold recordBlockResult in Er. injection Er as <- <-. done. }
  destruct ((s <? StatusSigned) && vi_Bonded vi)%bool.
  all: match goal with |- context [nodeInfo ?h ?ns 0 ?i] => pose proof (nodeInfo_healthy h ns 0 i) as Hh;
         destruct (nodeInfo h ns 0 i) as [healthy info'] end.
  all: subst cc1; simpl in Hh |- *; subst healthy.
  all: unfold applyStats; repeat case_match; done.
Qed.

(** The update's effect on the chain. *)
Definition after_update (now : time) (u : StatusUpdate) (sign sign' : Z) (cc cc' : ChainConfig) : Prop :=
  match valInfo cc with
  | None => sign' = sign /\ cc' = cc
  | Some vi =>
      let s := raiseSign sign (Status u) (vi_Bonded vi) in
      if Final u then
        sign' = -1 /\ tally_of cc' = tally_of (applyStats s cc) /\
        blocksResults cc' = blocksResults (recordBlockResult s cc).2 /\ cc_name cc' = cc_name cc /\
        lastBlockNum cc' = Height u /\ lastBlockTime cc' = now
      else sign' = s /\ cc' = cc
  end.

(** What the dashboard is told about it. *)
Definition reported (u : StatusUpdate) (cc cc' : ChainConfig) (c : Config) (st : ChainStatus) : Prop :=
  cs_Blocks st = blocksResults cc' /\ cs_Height st = Height u /\ cs_Name st = cc_name cc /\
  cs_Nodes st = Z.of_nat (length (Nodes cc)) /\
  cs_HealthyNodes st = Z.of_nat (length (filter (fun n => nc_down n = false) (Nodes cc))) /\
  cs_ActiveAlerts st = getCount (cc_name cc) (alarms c).

Lemma handleUpdate_run k now u sign c cc : Chains c !! k = Some cc ->
  exists sign' c' cc' msgs, handleUpdate timeString order k now false u sign c = Some (Some sign', c') /\
    Chains c' !! k = Some cc' /\ after_update now u sign sign' cc cc' /\
    updateChan c' = updateChan c ++ msgs /\
    (if EnableDash c && Final u && bool_decide (is_Some (valInfo cc)) then
       exists st, msgs = [st] /\ reported u cc cc' c st
     else msgs = []) /\
    alertChan c' = alertChan c.
Proof.
  intros Hc. unfold handleUpdate, after_update. rewrite (bindM_run _ _ _ _ _ (getChain_run _ _ _ Hc)).
  rewrite validatorInfoSnapshot_eq. cbn [fst]. destruct (valInfo cc) as [vi |] eqn:Hvi.
  2: { rewrite andb_false_r. exists sign, c, cc, []. by rewrite app_nil_r. }
  rewrite bool_decide_true, andb_true_r by by eexists.
  set (s := raiseSign sign (Status u) (vi_Bonded vi)). destruct (Final u) eqn:Hf; cbn [negb].
  2: { rewrite andb_false_r. exists s, c, cc, []. by rewrite app_nil_r. }
  rewrite andb_true_r.
  destruct (recordFinalBlock now (cc <| lastBlockNum := Height u |>)) as [prev cc1] eqn:Erf.
  assert (tally_of cc1 = tally_of cc /\ blocksResults cc1 = blocksResults cc /\ cc_name cc1 = cc_name cc /\
    lastBlockNum cc1 = Height u /\ lastBlockTime cc1 = now /\ Nodes cc1 = Nodes cc) as (A1 & A2 & A3 & A4 & A5 & A6).
  { unfold recordFinalBlock in Erf. injection Erf as _ <-. simpl. by destruct (lastBlockAlarm cc). }
  set (c1 := c <| Chains := <[k := cc1]> (Chains c) |>).
  assert (putChain k cc1 c = Some (tt, c1)) as E1 by done. rewrite (bindM_run _ _ _ _ _ E1).
  rewrite (bindM_run _ _ _ _ _ (eq_refl : getS c1 = _)).
  set (m1 := if Prom c1 then _ else _).
  assert (exists st, m1 c1 = Some (true, c1 <| statsChan := st |>)) as [st1 E2].
  { subst m1. destruct (Prom c1); [by eexists |]. exists (statsChan c1). by destruct c1. }
  rewrite (bindM_run _ _ _ _ _ E2). cbn [negb]. rewrite (bindM_run _ _ _ _ _ (eq_refl : getS (c1 <| statsChan := st1 |>) = _)).
  pose proof (finishBlock_spec now u vi s (c1 <| statsChan := st1 |>) cc1) as Hfb.
  destruct (finishBlock timeString order now u vi s (c1 <| statsChan := st1 |>) cc1) as [[cc2 st] h].
  destruct Hfb as (B1 & B2 & B3 & B4 & B5 & B6 & B7 & B8 & B9 & B10 & B11 & B12).
  assert (exists c3 st3 msgs, (putChain k cc2 ≫= fun _ => (if EnableDash (c1 <| statsChan := st1 |>) then
      modifyS (fun c => c <| updateChan := updateChan c ++ [st] |>) else mret tt) ≫= fun _ =>
      (if Prom (c1 <| statsChan := st1 |>) then emitAll false (blockMetrics cc2 h) else mret true) ≫= fun ok : bool =>
      mret (if ok then Some (-1) else None)) (c1 <| statsChan := st1 |>) = Some (Some (-1), c3) /\
    c3 = c1 <| Chains := <[k := cc2]> (Chains c1) |> <| updateChan := updateChan c ++ msgs |> <| statsChan := st3 |> /\
    msgs = (if EnableDash c then [st] else [])) as (c3 & st3 & msgs & E3 & -> & ->).
  { unfold putChain, modifyS, mbind, M_bind. simpl.
    destruct (EnableDash c), (Prom c); simpl; rewrite ?emitAll_run; do 3 eexists;
      (split; [reflexivity |]); (split; [| reflexivity]); simpl; rewrite ?app_nil_r; reflexivity. }
  rewrite E3. eexists _, _, cc2, _. split; [reflexivity |]. split; [apply lookup_insert_eq |].
  split; [| split; [reflexivity | split; [| reflexivity]]].
  - split; [done |]. split.
    { rewrite B1. unfold tally_of in A1. injection A1 as ? ? ? ? ? ?.
      unfold tally_of, applyStats. repeat case_match; simpl; congruence. }
    split_and!; [rewrite B2; unfold recordBlockResult; simpl; by rewrite A2 | congruence | congruence | congruence].
  - destruct (EnableDash c); [| done]. exists st. split; [done |].
    unfold reported. simpl in B12. rewrite <- A3, <- A6. by split_and!.
Qed.

(** A run of the goroutine agrees with the specification. *)
Lemma run_updates_spec k l : Forall (fun x => keeps_stats x.1.1) l ->
  forall sign c cc, Chains c !! k = Some cc -> tally_lt (2 ^ 53 - Z.of_nat (length l)) (tally_of cc) ->
  exists obs sign' c' cc' rs, run_updates timeString order k l sign c = Some (obs, sign', c') /\
    Chains c' !! k = Some cc' /\ obs.*2 = l.*2 /\ outcomes sign obs = (rs, sign') /\
    tally_of cc' = foldl tally_step (tally_of cc) rs /\
    blocksResults cc' = blocksResults (recordBlockResults rs cc).
Proof.
  induction 1 as [| [[f now] u] l Hf _ IH]; intros sign c cc Hc Hlt; cbn [run_updates].
  { by exists [], sign, c, cc, []. }
  change (keeps_stats f) in Hf. destruct (Hf cc) as (F1 & F2 & F3).
  assert (onChain k f c = Some (tt, c <| Chains := <[k := f cc]> (Chains c) |>)) as ->.
  { unfold onChain. by rewrite (bindM_run _ _ _ _ _ (getChain_run _ _ _ Hc)). }
  set (c0 := c <| Chains := _ |>). cbn [mbind option_bind].
  assert (Chains c0 !! k = Some (f cc)) as Hc0 by apply lookup_insert_eq.
  rewrite (getChain_run _ _ _ Hc0). cbn [mbind option_bind].
  destruct (handleUpdate_run k now u sign c0 (f cc) Hc0) as (sign1 & c1 & cc1 & msgs & -> & Hc1 & Haft & _).
  cbn [mbind option_bind]. unfold after_update in Haft.
  assert (tally_lt (2 ^ 53) (tally_of (f cc))) as Hlt53.
  { rewrite F1. unfold tally_lt in *. lia. }
  assert (exists rs1, tally_of cc1 = foldl tally_step (tally_of cc) rs1 /\
    (forall r rest s, outcomes sign1 rest = (r, s) ->
      outcomes sign ((vi_Bonded <$> valInfo (f cc), u) :: rest) = (rs1 ++ r, s)) /\
    blocksResults cc1 = blocksResults (recordBlockResults rs1 cc) /\ (length rs1 <= 1)%nat) as (rs1 & R1 & R2 & R3 & R4).
  { destruct (valInfo (f cc)) as [vi |]; simpl.
    - destruct (Final u).
      + destruct Haft as (-> & H1 & H2 & _). exists [raiseSign sign (Status u) (vi_Bonded vi)].
        split_and!; [| | | done].
        * rewrite H1, applyStats_tally by done. by rewrite F1.
        * intros r rest s E. by rewrite E.
        * rewrite H2. unfold recordBlockResults, recordBlockResult. simpl. by rewrite F2.
      + destruct Haft as [-> ->]. exists []. split_and!; [by rewrite F1 | done | by rewrite F2 | simpl; lia].
    - destruct Haft as [-> ->]. exists []. split_and!; [by rewrite F1 | done | by rewrite F2 | simpl; lia]. }
  destruct (IH sign1 c1 cc1 Hc1) as (obs & sign2 & c2 & cc2 & rs & -> & Hc2 & O1 & O2 & O3 & O4).
  { rewrite R1. destruct rs1 as [| r [|]]; simpl in R4; [| | lia]; simpl; unfold tally_lt in *; simpl in *; [lia |].
    unfold b2z. repeat case_match; lia. }
  cbn [mbind option_bind]. do 3 eexists. exists cc2, (rs1 ++ rs). split_and!; [reflexivity | done | | | | ].
  - by rewrite !fmap_cons, O1.
  - by apply R2.
  - by rewrite foldl_app, <- R1.
  - rewrite O4. unfold recordBlockResults. rewrite foldl_app.
    assert (forall rs a b, blocksResults a = blocksResults b ->
      blocksResults (foldl (fun cc r => (recordBlockResult r cc).2) a rs) =
      blocksResults (foldl (fun cc r => (recordBlockResult r cc).2) b rs)) as Hcong.
    { clear. induction rs as [| r rs IH]; intros a b E; simpl; [done |]. apply IH. simpl. by rewrite E. }
    by apply Hcong.
Qed.

End run.

(** *** What the tally says about the results *)

Definition count (p : Z -> bool) (rs : list Z) : Z := Z.of_nat (length (filter (fun r => p r = true) rs)).

Lemma count_app p l1 l2 : count p (l1 ++ l2) = count p l1 + count p l2.
Proof. unfold count. rewrite filter_app, length_app. lia. Qed.

Lemma count_one p r : count p [r] = b2z (p r).
Proof. unfold count. rewrite filter_cons. by destruct (p r). Qed.

Lemma tally_counts t rs : let t' := foldl tally_step t rs in
  t_signs t' = t_signs t + count is_sign rs /\ t_miss t' = t_miss t + count is_miss rs /\
  t_props t' = t_props t + count (Z.eqb StatusProposed) rs /\
  t_prevote t' = t_prevote t + count (Z.eqb StatusPrevote) rs /\
  t_precommit t' = t_precommit t + count (Z.eqb StatusPrecommit) rs.
Proof.
  induction rs as [| r rs IH] using rev_ind; [unfold count; simpl; lia |].
  rewrite foldl_app. simpl in *. rewrite !count_app, !count_one.
  rewrite !(Z.eqb_sym _ r). lia.
Qed.

(** Consecutive misses: those after the last signed block. *)
Lemma tally_consecutive t rs : let t' := foldl tally_step t rs in
  (count is_sign rs = 0 /\ t_consecutive t' = t_consecutive t + count is_miss rs) \/
  exists pre r post, rs = pre ++ r :: post /\ is_sign r = true /\ count is_sign post = 0 /\
    t_consecutive t' = count is_miss post.
Proof.
  induction rs as [| r rs IH] using rev_ind; [left; unfold count; simpl; lia |].
  rewrite foldl_app. simpl in *. destruct (is_sign r) eqn:Hr.
  - right. exists rs, r, []. by split_and!.
  - destruct IH as [[H1 H2] | (pre & r' & post & -> & H1 & H2 & H3)].
    + left. rewrite !count_app, !count_one, Hr. simpl. lia.
    + right. exists pre, r', (post ++ [r]). rewrite !count_app, !count_one, Hr. simpl.
      split_and!; [by rewrite <- app_assoc | done | lia | lia].
Qed.

(** While bonded, a block's result is the highest status of its updates. *)
Lemma outcomes_votes (s : Z) (us : list StatusUpdate) (u : StatusUpdate) :
  Forall (fun u => Final u = false) us -> Final u = true ->
  outcomes s ((fun u => (Some true, u)) <$> us ++ [u]) =
    ([foldl (fun m u => Z.max m (Status u)) s (us ++ [u])], -1).
Proof.
  intros Hus Hu. revert s. induction Hus as [| v us Hv _ IH]; intros s; simpl.
  - rewrite Hu. unfold raiseSign. rewrite andb_true_r. do 2 f_equal.
    destruct (Z.ltb_spec s (Status u)); lia.
  - rewrite Hv, IH. do 2 f_equal. unfold raiseSign. rewrite andb_true_r. f_equal.
    destruct (Z.ltb_spec s (Status v)); lia.
Qed.

Lemma max_permutation (us vs : list StatusUpdate) : us ≡ₚ vs ->
  forall s, foldl (fun m u => Z.max m (Status u)) s us = foldl (fun m u => Z.max m (Status u)) s vs.
Proof.
  induction 1 as [| u us vs _ IH | u v us | us vs ws _ IH1 _ IH2]; intros s; simpl; [done | apply IH | |].
  - f_equal. lia.
  - by rewrite IH1.
Qed.

(** A validator that is kept bonded is observed bonded. *)
Lemma run_updates_obs timeString order k now vi : vi_Bonded vi = true ->
  forall vs sign c obs s c', run_updates timeString order k
    ((fun x => (fun cc : ChainConfig => cc <| valInfo := Some vi |>, now, x)) <$> vs) sign c = Some (obs, s, c') ->
  obs = (fun u => (Some true, u)) <$> vs.
Proof.
  intros Hb. induction vs as [| v vs IH]; intros sign c obs s c' E; simpl in E; [by simplify_eq |].
  destruct (onChain k _ c) as [[[] c0] |] eqn:E0; [| done]. simpl in E.
  unfold onChain in E0. apply bindM_Some in E0 as (cc0 & c0' & H1 & H2).
  unfold getChain in H1. destruct (Chains c !! k) as [cc1 |] eqn:Hc; [| done]. simplify_eq/=.
  unfold putChain, modifyS in H2. simplify_eq/=.
  rewrite (getChain_run _ (cc0 <| valInfo := Some vi |>)) in E by apply lookup_insert_eq. simpl in E.
  destruct (handleUpdate _ _ _ _ _ _ _ _) as [[r c1] |]; [| done]. simpl in E.
  destruct r as [sign1 |]; [| done]. simpl in E.
  destruct (run_updates _ _ _ _ _ c1) as [[[obs' s'] c2] |] eqn:E2; [| done]. simplify_eq/=.
  rewrite Hb. f_equal. exact (IH _ _ _ _ _ E2).
Qed.

(** *** The idle timeout *)

Section idle.
Context (unmarshalBlock : string -> string + cometBFTBlockWire) (address : string).

(** The update for a block message that can be decoded. *)
Definition updateFor (i : blockInput) : option StatusUpdate :=
  match i with
  | Block _ r _ => match decodeBlockEvent unmarshalBlock (Value r) with
                   | inl _ => None
                   | inr ev => Some (classifyBlockEvent ev address)
                   end
  | _ => None
  end.

(** The context is done, at once or when the update is to be sent. *)
Definition ends (i : blockInput) : bool :=
  match i with
  | Tick _ => false
  | Block _ _ sendDone => sendDone && bool_decide (is_Some (updateFor i))
  | BlockDone => true
  end.

(** When the last block message came, decodable or not. *)
Definition lastSeen (start : time) (ins : list blockInput) : time :=
  foldl (fun t i => match i with Block now _ _ => now | _ => t end) start ins.

Lemma handleBlocks_facts (ins : list blockInput) (start : time) :
  let '(us, r) := handleBlocks unmarshalBlock address start ins in
  (r = Stop true <-> exists pre now post, ins = pre ++ Tick now :: post /\
     Forall (fun i => ends i = false) pre /\ Minute < now - lastSeen start pre) /\
  (forall t, r = Continue t -> us = omap updateFor ins /\ t = lastSeen start ins) /\
  us `prefix_of` omap updateFor ins.
Proof.
  revert start. induction ins as [| i ins IH]; intros start.
  { cbn. split_and!; [| by intros t [= ->] | done]. split; [done |].
    intros (pre & now & post & E & _). by destruct pre. }
  assert (forall us r, handleBlocks unmarshalBlock address (lastSeen start [i]) ins = (us, r) -> ends i = false ->
    (forall now, i = Tick now -> ~ Minute < now - start) ->
    (r = Stop true <-> exists pre now post, i :: ins = pre ++ Tick now :: post /\
      Forall (fun i => ends i = false) pre /\ Minute < now - lastSeen start pre)) as Hgo.
  { intros us r Er He Ht. specialize (IH (lastSeen start [i])). rewrite Er in IH. destruct IH as (-> & _).
    split.
    - intros (pre & now & post & -> & Hp & Hm). exists (i :: pre), now, post. split_and!; [done | by constructor | done].
    - intros ([| i' pre] & now & post & E & Hp & Hm); simplify_eq/=; [by destruct (Ht now) |].
      apply Forall_cons in Hp as [_ Hp]. by exists pre, now, post. }
  assert (forall us r, handleBlocks unmarshalBlock address (lastSeen start [i]) ins = (us, r) ->
    (forall t, r = Continue t -> us = omap updateFor ins /\ t = lastSeen start (i :: ins)) /\
    us `prefix_of` omap updateFor ins) as Hus.
  { intros us r Er. specialize (IH (lastSeen start [i])). rewrite Er in IH. by destruct IH as (_ & ? & ?). }
  destruct i as [now | now r sendDone |]; cbn [handleBlocks handleBlocks_step].
  - unfold Before, Add. destruct (Z.ltb_spec start (now + - Minute)) as [Hlt | Hge].
    + split_and!; [| done | apply prefix_nil]. split; [intros _ | done].
      exists [], now, ins. split_and!; [done | constructor |]. simpl. lia.
    + cbn [lastSeen foldl] in *. destruct (handleBlocks _ _ start ins) as [us r] eqn:Er.
      destruct (Hus _ _ eq_refl). split_and!; [| done | done]. apply (Hgo us r eq_refl); [done |].
      intros now' [= <-]. lia.
  - cbn [omap list_omap updateFor]. destruct (decodeBlockEvent _ _) as [e | ev] eqn:Ed.
    + cbn [lastSeen foldl] in *. destruct (handleBlocks _ _ now ins) as [us r'] eqn:Er.
      destruct (Hus _ _ eq_refl). split_and!; [| done | done]. apply (Hgo us r' eq_refl); [| done].
      simpl. rewrite Ed. by destruct sendDone.
    + assert (ends (Block now r sendDone) = sendDone) as Hend by (simpl; rewrite Ed; by destruct sendDone).
      destruct sendDone.
      * split_and!; [| done | apply prefix_nil]. split; [done |].
        intros ([| i' pre] & now' & post & E & Hp & Hm); [done |]. injection E as <- _.
        apply Forall_cons in Hp as [Hp _]. congruence.
      * cbn [lastSeen foldl] in *. destruct (handleBlocks _ _ now ins) as [us r'] eqn:Er.
        destruct (Hus _ _ eq_refl) as [Hu1 Hu2]. cbn [option_list app]. split_and!.
        -- by apply (Hgo us r' eq_refl).
        -- intros t Ht. by destruct (Hu1 t Ht) as [-> ->].
        -- by apply prefix_cons.
  - split_and!; [| done | apply prefix_nil]. split; [done |].
    intros ([| i' pre] & now' & post & E & Hp & Hm); [done |]. injection E as <- _.
    apply Forall_cons in Hp as [Hp _]. done.
Qed.

End idle.

(** ** Properties *)

(** C4: the statistics.  Whatever updates arrive and whatever the other
    goroutines do in between (they leave the statistics alone), the goroutine
    records exactly one result per final update seen with validator
    information; the counters count them: signed and proposed blocks, all
    misses, prevote and precommit misses; results of an unbonded validator
    count as neither; and the consecutive misses are those after the last
    signed block. *)
Theorem block_statistics_exact (timeString : time -> string) (order : gmap string time -> list string)
    (k : string) (l : list (env_change * time * StatusUpdate)) (sign : Z) (c : Config) (cc : ChainConfig) :
  Forall (fun x => keeps_stats x.1.1) l -> Chains c !! k = Some cc ->
  tally_lt (2 ^ 53 - Z.of_nat (length l)) (tally_of cc) ->
  exists obs sign' c' cc' rs, run_updates timeString order k l sign c = Some (obs, sign', c') /\
    Chains c' !! k = Some cc' /\ obs.*2 = l.*2 /\ outcomes sign obs = (rs, sign') /\
    statTotalSigns cc' = statTotalSigns cc + count is_sign rs /\
    statTotalMiss cc' = statTotalMiss cc + count is_miss rs /\
    statTotalProps cc' = statTotalProps cc + count (Z.eqb StatusProposed) rs /\
    statPrevoteMiss cc' = statPrevoteMiss cc + count (Z.eqb StatusPrevote) rs /\
    statPrecommitMiss cc' = statPrecommitMiss cc + count (Z.eqb StatusPrecommit) rs /\
    ((count is_sign rs = 0 /\ statConsecutiveMiss cc' = statConsecutiveMiss cc + count is_miss rs) \/
     exists pre r post, rs = pre ++ r :: post /\ is_sign r = true /\ count is_sign post = 0 /\
       statConsecutiveMiss cc' = count is_miss post).
Proof.
  intros Hl Hc Hlt.
  destruct (run_updates_spec timeString order k l Hl sign c cc Hc Hlt)
    as (obs & sign' & c' & cc' & rs & E & Hc' & Ho & Hr & Ht & _).
  exists obs, sign', c', cc', rs.
  pose proof (tally_counts (tally_of cc) rs) as (T1 & T2 & T3 & T4 & T5).
  pose proof (tally_consecutive (tally_of cc) rs) as T6. rewrite <- Ht in T1, T2, T3, T4, T5, T6.
  by split_and!.
Qed.

(** C28: one block.  For a bonded validator, the votes seen before a block and
    the block itself give one result, the highest status among them, in
    whatever order the votes arrived; it becomes the newest entry of the
    history. *)
Theorem block_result_highest (timeString : time -> string) (order : gmap string time -> list string)
    (k : string) (now : time) (votes votes' : list StatusUpdate) (u : StatusUpdate) (c : Config)
    (cc : ChainConfig) (vi : ValInfo) :
  Chains c !! k = Some cc -> valInfo cc = Some vi -> vi_Bonded vi = true -> blocksResults cc <> [] ->
  tally_lt (2 ^ 53 - Z.of_nat (S (length votes))) (tally_of cc) ->
  Forall (fun v => Final v = false) votes -> Final u = true -> votes' ≡ₚ votes ->
  let run vs := run_updates timeString order k
                  ((fun x => (fun cc => cc <| valInfo := Some vi |>, now, x)) <$> vs ++ [u]) (-1) c in
  let result := foldl (fun m v => Z.max m (Status v)) (-1) (votes' ++ [u]) in
  exists obs c' cc', run votes = Some (obs, -1, c') /\ Chains c' !! k = Some cc' /\
    blocksResults cc' = take (length (blocksResults cc)) (result :: blocksResults cc).
Proof.
  intros Hc Hvi Hb Hne Hlt Hvs Hu Hperm run result.
  set (l := (fun x => (fun cc : ChainConfig => cc <| valInfo := Some vi |>, now, x)) <$> votes ++ [u]).
  assert (Forall (fun x => keeps_stats x.1.1) l) as Hl.
  { apply Forall_forall. intros x Hx. apply list_elem_of_fmap in Hx as (v & -> & _). intros cc0. done. }
  destruct (run_updates_spec timeString order k l Hl (-1) c cc Hc) as (obs & sign' & c' & cc' & rs & E & Hc' & Ho & Hr & _ & Hblk).
  { unfold l. rewrite length_fmap, length_app. simpl. by rewrite Nat.add_1_r. }
  assert (obs = (fun u => (Some true, u)) <$> votes ++ [u]) as -> by exact (run_updates_obs _ _ _ _ _ Hb _ _ _ _ _ _ E).
  rewrite (outcomes_votes (-1) votes u Hvs Hu) in Hr. simplify_eq.
  exists ((fun u => (Some true, u)) <$> votes ++ [u]), c', cc'. split_and!; [exact E | done |].
  rewrite Hblk. unfold recordBlockResults. cbn [foldl].
  rewrite (recordBlockResult_blocks _ _ Hne). do 2 f_equal. subst result. symmetry.
  rewrite !foldl_app. simpl. f_equal.
  by apply max_permutation.
Qed.

(** The idle timeout.  The block listener gives up with the idle error
    exactly when, before its context is done, a tick comes more than a minute
    after the last block message (or the start), whether or not the messages
    could be decoded.  While it keeps running it has sent exactly one update per
    decodable block, in order, and never more than that. *)
Theorem idle_exit_exact (unmarshalBlock : string -> string + cometBFTBlockWire) (address : string)
    (start : time) (ins : list blockInput) :
  let '(us, r) := handleBlocks unmarshalBlock address start ins in
  (r = Stop true <-> exists pre now post, ins = pre ++ Tick now :: post /\
     Forall (fun i => ends unmarshalBlock address i = false) pre /\ Minute < now - lastSeen start pre) /\
  (forall t, r = Continue t -> us = omap (updateFor unmarshalBlock address) ins /\ t = lastSeen start ins) /\
  us `prefix_of` omap (updateFor unmarshalBlock address) ins.
Proof. apply handleBlocks_facts. Qed.

(** ** Witnesses *)

Definition plainTime (t : time) : string := pretty t.
Definition mapOrder (m : gmap string time) : list string := (map_to_list m).*1.

Lemma sample_tally_lt n : 0 < n -> tally_lt n (tally_of sampleChain).
Proof. intros Hn. unfold tally_lt. simpl. lia. Qed.

(** A missed block, a block missed after a prevote, a signed and a proposed one,
    two more misses. *)
Lemma block_statistics_exact_witness :
  let up s f := (id : env_change, unix_epoch, MkStatusUpdate 7 s f) in
  let l := [up 0 true; up 1 false; up 0 true; up 3 true; up 4 true; up 0 true; up 2 false; up 0 true] in
  exists obs sign' c' cc', run_updates plainTime mapOrder "Osmosis" l (-1) sampleConfig = Some (obs, sign', c') /\
    Chains c' !! "Osmosis" = Some cc' /\ statConsecutiveMiss cc' = 2 /\ statTotalMiss cc' = 4 /\
    statTotalSigns cc' = 2 /\ statTotalProps cc' = 1 /\ statPrevoteMiss cc' = 1 /\ statPrecommitMiss cc' = 1.
Proof.
  intros up l.
  destruct (block_statistics_exact plainTime mapOrder "Osmosis" l (-1) sampleConfig sampleChain)
    as (obs & sign' & c' & cc' & rs & E & Hc' & _ & Hr & H1 & H2 & H3 & H4 & H5 & H6).
  { repeat (apply Forall_cons; split; [done |]). constructor. } { done. } { apply sample_tally_lt. simpl. lia. }
  assert (obs = (fun x => (Some true, x.2)) <$> l) as ->.
  { transitivity (from_option (fun p => p.1.1) [] (run_updates plainTime mapOrder "Osmosis" l (-1) sampleConfig));
      [rewrite E; reflexivity | vm_compute; reflexivity]. }
  assert (rs = [0; 1; 3; 4; 0; 2]) as ->.
  { transitivity (outcomes (-1) ((fun x => (Some true, x.2)) <$> l)).1; [by rewrite Hr | vm_compute; reflexivity]. }
  exists ((fun x => (Some true, x.2)) <$> l), sign', c', cc'. split_and!; [exact E | exact Hc' | | | | | |].
  - transitivity (from_option (fun p => from_option statConsecutiveMiss 0 (Chains p.2 !! "Osmosis")) 0
      (run_updates plainTime mapOrder "Osmosis" l (-1) sampleConfig)); [rewrite E; cbn [from_option snd]; rewrite Hc'; reflexivity | vm_compute; reflexivity].
  - rewrite H2. vm_compute; reflexivity.
  - rewrite H1. vm_compute; reflexivity.
  - rewrite H3. vm_compute; reflexivity.
  - rewrite H4. vm_compute; reflexivity.
  - rewrite H5. vm_compute; reflexivity.
Defined.

Lemma block_result_highest_witness :
  let v1 := MkStatusUpdate 7 StatusPrevote false in
  let v2 := MkStatusUpdate 7 StatusPrecommit false in
  let u := MkStatusUpdate 7 Statusmissed true in
  exists obs c' cc', run_updates plainTime mapOrder "Osmosis"
      ((fun x => (fun cc => cc <| valInfo := Some sampleValInfo |>, unix_epoch, x)) <$> [v1; v2] ++ [u]) (-1) sampleConfig
      = Some (obs, -1, c') /\
    Chains c' !! "Osmosis" = Some cc' /\ blocksResults cc' = [2; -1; -1; -1].
Proof.
  intros v1 v2 u.
  destruct (block_result_highest plainTime mapOrder "Osmosis" unix_epoch [v1; v2] [v2; v1] u sampleConfig sampleChain
    sampleValInfo) as (obs & c' & cc' & E & Hc' & Hb).
  { done. } { done. } { done. } { done. } { apply sample_tally_lt. simpl. lia. } { by repeat constructor. } { done. }
  { apply perm_swap. }
  exists obs, c', cc'. split_and!; [exact E | exact Hc' | exact Hb].
Defined.
