(* ===== verification/ChainDetails.v ===== *)
(** * Chain details (chain-details.go)

    Prefix overrides for operator addresses and the registry of public
    endpoints.  Fetching the registry is a parameter. *)

From Stdlib Require Import Ascii.
From S2P Require Import Prelude Types.

Local Open Scope Z_scope.

(** ** Splitting strings *)

(** [strings.Contains] *)
Definition Contains (s sub : string) : bool :=
  match String.index 0 sub s with Some _ => true | None => false end.

(** [strings.Split] for a separator that is not empty; each piece uses up some
    of the string, so its length is enough fuel. *)
Fixpoint splitFuel (fuel : nat) (s sep : string) : list string :=
  match fuel with
  | O => [s]
  | S fuel' =>
      match String.index 0 sep s with
      | None => [s]
      | Some n =>
          String.substring 0 n s ::
          splitFuel fuel' (String.substring (n + String.length sep) (String.length s) s) sep
      end
  end.

Definition Split (s sep : string) : list string := splitFuel (S (String.length s)) s sep.

(** ** Operator address prefixes *)

Definition altPrefixes : gmap string string := {[ "ival" := "ica" ]}.

(** The prefix is usable if it is not empty, as for an absent key. *)
Definition getAltPrefix (oper : string) : string * bool :=
  match Split oper "1" with
  | [] => ("", false)
  | first :: _ =>
      let p := default "" (altPrefixes !! first) in (p, negb (String.eqb p ""))
  end.

(** ** The registry *)

Definition cosmosPaths : gmap string string := list_to_map [
    ("Antora", "idep"); ("Oraichain", "oraichain"); ("agoric-3", "agoric"); ("akashnet-2", "akash");
    ("arkh", "arkh"); ("axelar-dojo-1", "axelar"); ("bitcanna-1", "bitcanna"); ("bitsong-2b", "bitsong");
    ("bostrom", "bostrom"); ("carbon-1", "carbon"); ("cerberus-chain-1", "cerberus");
    ("cheqd-mainnet-1", "cheqd"); ("chihuahua-1", "chihuahua"); ("colosseum-1", "firmachain");
    ("columbus-5", "terra"); ("comdex-1", "comdex"); ("core-1", "persistence");
    ("cosmoshub-4", "cosmoshub"); ("crescent-1", "crescent"); ("cronosmainnet_25-1", "cronos");
    ("crypto-org-chain-mainnet-1", "cryptoorgchain"); ("cudos-1", "cudos"); ("darchub", "konstellation");
    ("desmos-mainnet", "desmos"); ("dig-1", "dig"); ("echelon_3000-3", "echelon"); ("emoney-3", "emoney");
    ("evmos_9001-2", "evmos"); ("fetchhub-4", "fetchhub"); ("galaxy-1", "galaxy");
    ("genesis_29-2", "genesisl1"); ("gravity-bridge-3", "gravitybridge"); ("impacthub-3", "impacthub");
    ("injective-1", "injective"); ("iov-mainnet-ibc", "starname"); ("irishub-1", "irisnet");
    ("juno-1", "juno"); ("kava_2222-10", "kava"); ("kichain-2", "kichain"); ("laozi-mainnet", "bandchain");
    ("likecoin-mainnet-2", "likecoin"); ("logos_7002-1", "logos"); ("lum-network-1", "lumnetwork");
    ("mainnet-3", "decentr"); ("mantle-1", "assetmantle"); ("meme-1", "meme");
    ("microtick-1", "microtick"); ("morocco-1", "chronicnetwork"); ("mythos_7001-1", "mythos");
    ("nomic-stakenet-2", "nomic"); ("octa", "octa"); ("odin-mainnet-freya", "odin");
    ("osmosis-1", "osmosis"); ("panacea-3", "panacea"); ("phoenix-1", "terra2");
    ("pio-mainnet-1", "provenance"); ("regen-1", "regen"); ("secret-4", "secretnetwork");
    ("sentinelhub-2", "sentinel"); ("shentu-2.2", "shentu"); ("sifchain-1", "sifchain");
    ("sommelier-3", "sommelier"); ("stargaze-1", "stargaze"); ("thorchain-mainnet-v1", "thorchain");
    ("titan-1", "rizon"); ("umee-1", "umee"); ("vidulum-1", "vidulum")
  ].

Definition publicRpcUrl : string := "https://rpc.cosmos.directory:443/".

Inductive registryError := FetchError (e : string) | NoChains.

(** [fetched]: the decoded reply, a list of chain id and path, or an error of
    the request, the read or the decoding. *)
Definition refreshRegistry (fetched : string + list (string * string)) (paths : gmap string string)
  : option registryError * gmap string string :=
  match fetched with
  | inl e => (Some (FetchError e), paths)
  | inr [] => (Some NoChains, paths)
  | inr chains => (None, foldl (fun m '(chainId, path) => <[chainId := path]> m) paths chains)
  end.

Definition getRegistryUrl (paths : gmap string string) (chainid : string) : string * bool :=
  let p := default "" (paths !! chainid) in (publicRpcUrl +:+ p, negb (String.eqb p "")).

(** ** Lemmas *)

(** After a refresh the last entry for a chain wins and the others stay. *)
Lemma refreshRegistry_lookup chains paths k :
  chains <> [] ->
  (refreshRegistry (inr chains) paths).2 !! k =
    match (list_to_map (reverse chains) : gmap string string) !! k with Some p => Some p | None => paths !! k end.
Proof.
  intros Hne. destruct chains as [| ch chains]; [done |]. clear Hne. cbn [refreshRegistry snd].
  generalize (ch :: chains). clear. intros l. revert paths.
  induction l as [| [k' p] l IH] using rev_ind; intros paths; simpl.
  - by rewrite lookup_empty.
  - rewrite foldl_app, reverse_snoc. simpl. rewrite !lookup_insert. case_decide; [done |]. apply IH.
Qed.
