(* ===== verification/Rpc.v ===== *)
(** * Endpoints and validator information (rpc.go, validator.go, the queries of
      cometbft_adapter.go)

    Choosing an endpoint, probing nodes, and refreshing what is known about the
    validator.  The network is an interface, [RpcEnv]: what a connection, a
    status request or a query to an endpoint answers.  A client is named by the
    endpoint it was opened to. *)

From Stdlib Require Import Ascii.
From S2P Require Import Prelude Types AlarmCache Delivery Samples RuntimeState Alerting Watch Events State ChainDetails.

Local Open Scope Z_scope.

(** ** The client interface (rpc_contract.go) *)

Record rpcStatus := MkRpcStatus { Network : string; CatchingUp : bool }.

Record validatorRecord := MkValidatorRecord {
  ConsensusAddress : list Z;
  vr_Moniker : string;
  vr_Jailed : bool;
  vr_Bonded : bool;
}.

Record signingInfo := MkSigningInfo { si_Tombstoned : bool; MissedBlocks : Z }.

Record slashingParams := MkSlashingParams { SignedBlocksWindow : Z }.

Class RpcEnv := {
  parseURL : string -> option string;                     (* the error, if any *)
  openRPCClient : string -> option string;
  Status : string -> string + rpcStatus;
  Validator : string -> string -> string + validatorRecord;
  SigningInfo : string -> string -> string + signingInfo;
  SlashingParams : string -> string + slashingParams;
  encodeConsensusAddress : string -> list Z -> string + string;
  registryPaths : gmap string string;
  publicBody : string -> option string;                   (* the page at a URL, if it can be read *)
}.

(** ** The adapter's queries (cometbft_adapter.go)

    [abciQuery] is the request with its reply ([None] for an empty one); the
    protocol buffers are decoded by the other parameters. *)

Inductive consensusKey := Ed25519 (value : string) | Secp256k1 (value : string) | OtherKey (typeUrl : string).

Record stakingValidator := MkStakingValidator {
  sv_key : option consensusKey;
  sv_Moniker : string;
  sv_Jailed : bool;
  sv_Bonded : bool;
}.

Section adapter.
Context (abciQuery : string -> string -> string + option string)
        (bech32Decode : string -> string + list Z)
        (unmarshalValidator : string -> string + stakingValidator)
        (unmarshalSigningInfo : string -> string + signingInfo)
        (unmarshalParams : string -> string + slashingParams)
        (ed25519Address secp256k1Address : string -> string + list Z)
        (marshalAddress : string -> string + string).

Definition stakingValidatorQuery : string := "/cosmos.staking.v1beta1.Query/Validator".
Definition signingInfoQuery : string := "/cosmos.slashing.v1beta1.Query/SigningInfo".
Definition slashingParamsQuery : string := "/cosmos.slashing.v1beta1.Query/Params".

Definition adapterStatus (reply : string + option rpcStatus) : string + rpcStatus :=
  match reply with
  | inl e => inl e
  | inr None => inl "got empty status response"
  | inr (Some s) => inr s
  end.

(** The address behind a consensus key; none for a key of another type. *)
Definition keyAddress (k : consensusKey) : string + list Z :=
  match k with
  | Ed25519 v => ed25519Address v
  | Secp256k1 v => secp256k1Address v
  | OtherKey _ => inr []
  end.

Definition adapterValidator (address : string) : string + validatorRecord :=
  if Contains address "valcons" then
    match bech32Decode address with
    | inl _ => inl ("could not decode and convert your address" +:+ address)
    | inr decoded => inr (MkValidatorRecord decoded address false true)
    end
  else
    match marshalAddress address with
    | inl e => inl e
    | inr payload =>
        match abciQuery stakingValidatorQuery payload with
        | inl e => inl e
        | inr None => inl ("could not find validator " +:+ address)
        | inr (Some value) =>
            match unmarshalValidator value with
            | inl e => inl e
            | inr v =>
                match sv_key v with
                | None => inl ("got invalid consensus pubkey for " +:+ address)
                | Some k =>
                    match keyAddress k with
                    | inl e => inl e
                    | inr [] => inl ("could not get pubkey for" +:+ address)
                    | inr a => inr (MkValidatorRecord a (sv_Moniker v) (sv_Jailed v) (sv_Bonded v))
                    end
                end
            end
        end
    end.

Definition adapterSigningInfo (address : string) : string + signingInfo :=
  match marshalAddress address with
  | inl e => inl e
  | inr payload =>
      match abciQuery signingInfoQuery payload with
      | inl e => inl e
      | inr None => inl "could not query validator slashing status, got empty response"
      | inr (Some value) => unmarshalSigningInfo value
      end
  end.

Definition adapterSlashingParams : string + slashingParams :=
  match abciQuery slashingParamsQuery "" with
  | inl e => inl e
  | inr None => inl "🛑 could not query slashing params, got empty response"
  | inr (Some value) => unmarshalParams value
  end.

End adapter.

(** ** The public endpoint (rpc.go) *)

Definition isSlash (a : ascii) : bool := Ascii.eqb a (ascii_of_nat 47).
Definition isColon (a : ascii) : bool := Ascii.eqb a (ascii_of_nat 58).
Definition isDigit (a : ascii) : bool := match digitOf a with Some _ => true | None => false end.

(** The longest prefix of characters that satisfy [p], and the rest. *)
Fixpoint spanString (p : ascii -> bool) (s : string) : string * string :=
  match s with
  | EmptyString => ("", "")
  | String a s' => if p a then let '(x, y) := spanString p s' in (String a x, y) else ("", s)
  end.

(** [endpointRex] matched at the start of a string that follows two slashes: the
    host, and the port with its colon (empty if there is none). *)
Definition matchHost (s : string) : option (string * string) :=
  let '(host, rest) := spanString (fun a => negb (isSlash a) && negb (isColon a)) s in
  if String.eqb host "" then None
  else
    Some (host,
      match rest with
      | String c rest' =>
          if isColon c then
            let '(digits, _) := spanString isDigit rest' in
            if String.eqb digits "" then "" else String c digits
          else ""
      | EmptyString => ""
      end).

(** The leftmost match. *)
Fixpoint FindStringSubmatch (s : string) : option (string * string) :=
  match s with
  | EmptyString => None
  | String a s' =>
      match s' with
      | String b s'' =>
          if isSlash a && isSlash b then
            match matchHost s'' with Some m => Some m | None => FindStringSubmatch s' end
          else FindStringSubmatch s'
      | EmptyString => None
      end
  end.

Definition guessPublicEndpointContext `{RpcEnv} (u : string) : string :=
  match publicBody (u +:+ "/") with
  | None => u
  | Some body =>
      match FindStringSubmatch body with
      | None => u
      | Some (host, port) =>
          if negb (String.eqb port "") && negb (String.eqb port ":443")
          then "http://" +:+ host +:+ port
          else "https://" +:+ host +:+ ":443"
      end
  end.

(** ** Choosing an endpoint (rpc.go) *)

Record tried := MkTried { t_ok : bool; t_msg : string; t_syncing : bool }.

Definition tryURL `{RpcEnv} (cc : ChainConfig) (endpointURL : string) : tried :=
  let fail what e := MkTried false
    ("❌ could not " +:+ what +:+ " " +:+ cc_name cc +:+ ": (" +:+ endpointURL +:+ ") " +:+ e) false in
  match parseURL endpointURL with
  | Some e => fail "parse url" e
  | None =>
      match openRPCClient endpointURL with
      | Some e => fail "connect client for" e
      | None =>
          match Status endpointURL with
          | inl e => fail "get status for" e
          | inr status =>
              if negb (String.eqb (Network status) (ChainId cc)) then
                MkTried false ("chain id " +:+ Network status +:+ " on " +:+ endpointURL +:+
                  " does not match, expected " +:+ ChainId cc +:+ ", skipping") false
              else if CatchingUp status then
                MkTried false ("🐢 node is not synced, skipping " +:+ endpointURL) true
              else MkTried true "" false
          end
      end
  end.

(** [markDown] of [newRpc] *)
Definition markNodeDown (now : time) (message : string) (syncing : bool) (st : nodeRuntimeState)
  : nodeRuntimeState :=
  let st := if negb (down st) then st <| down := true |> <| downSince := now |> else st in
  st <| Types.syncing := syncing |> <| lastMsg := message |>.

Section choose.
Context `{RpcEnv}.

(** The loop over the nodes: the endpoint chosen, if any. *)
Fixpoint tryNodes (k : string) (now : time) (anyWorking : bool) (idx : list nat) : M Config (option string) :=
  match idx with
  | [] => mret None
  | i :: idx' =>
      cc ← getChain k;
      match Nodes cc !! i with
      | None => mret None
      | Some n =>
          if anyWorking && down (nodeState n) then tryNodes k now anyWorking idx'
          else
            let r := tryURL cc (Url n) in
            if negb (t_ok r) then
              _ ← onChain k (updateNode i (markNodeDown now (t_msg r) (t_syncing r)));
              tryNodes k now anyWorking idx'
            else mret (Some (Url n))
      end
  end.

(** The client in use and whether there is one. *)
Definition useEndpoint (k url : string) : M Config unit :=
  onChain k (fun cc => setNoNodes false (setRPCClient (Some url) cc)).

Definition publicFallback (cc : ChainConfig) : option string :=
  if PublicFallback cc then
    let '(registryURL, ok) := getRegistryUrl registryPaths (ChainId cc) in
    if ok then
      let node := guessPublicEndpointContext registryURL in
      if t_ok (tryURL cc node) then Some node else None
    else None
  else None.

Definition noEndpointStatus (cc : ChainConfig) : ChainStatus :=
  let vi := default zeroValInfo (validatorInfoSnapshot cc).1 in
  MkChainStatus "status" (cc_name cc) (ChainId cc) (vi_Moniker vi) (vi_Bonded vi) (vi_Jailed vi)
    (vi_Tombstoned vi) (vi_Missed vi) (vi_Window vi) (Z.of_nat (length (Nodes cc))) 0 (activeAlerts cc) 0
    (lastError cc) (blockResultsSnapshot cc).

(** [Some] is the error. *)
Definition newRpc (k : string) (now : time) : M Config (option string) :=
  cc ← getChain k;
  let anyWorking := existsb (fun n => negb (down (nodeState n))) (Nodes cc) in
  chosen ← tryNodes k now anyWorking (seq 0 (length (Nodes cc)));
  match chosen with
  | Some url => _ ← useEndpoint k url; mret None
  | None =>
      cc ← getChain k;
      match publicFallback cc with
      | Some url => _ ← useEndpoint k url; mret None
      | None =>
          c ← getS;
          let cc := setNoNodes true cc <| activeAlerts := getCount (cc_name cc) (alarms c) |>
                      <| lastError := "no usable RPC endpoints available for " +:+ ChainId cc |> in
          _ ← putChain k cc;
          _ ← (if EnableDash c then
                 modifyS (fun c => c <| updateChan := updateChan c ++ [noEndpointStatus cc] |>)
               else mret tt);
          mret (Some ("no usable endpoints available for " +:+ ChainId cc))
      end
  end.

(** ** Probing nodes (rpc.go, [monitorHealth]) *)

(** [%-12s] pads with spaces to twelve characters; the bytes that continue a
    character do not count. *)
Fixpoint runeCount (s : string) : nat :=
  match s with
  | EmptyString => 0
  | String a s' =>
      let n := nat_of_ascii a in
      (if (128 <=? n)%nat && (n <? 192)%nat then 0 else 1) + runeCount s'
  end.

Fixpoint spaces (n : nat) : string := match n with O => "" | S n => " " +:+ spaces n end.

Definition pad12 (s : string) : string := s +:+ spaces (12 - runeCount s).

(** What a probe finds: healthy, or unhealthy with a reason and whether the node
    is syncing. *)
Definition probe (cc : ChainConfig) (url : string) : option (string * bool) :=
  match openRPCClient url with
  | Some e => Some (e, false)
  | None =>
      match Status url with
      | inl _ => Some ("down", false)
      | inr status =>
          if negb (String.eqb (Network status) (ChainId cc)) then Some ("on the wrong network", false)
          else if CatchingUp status then Some ("not synced", true)
          else None
      end
  end.

(** The update of [markUnhealthy]: only nodes with alerts get a time. *)
Definition unhealthyState (now : time) (chainName url : string) (alertIfDown : bool) (message : string)
    (st : nodeRuntimeState) : nodeRuntimeState :=
  let st := st <| lastMsg := pad12 chainName +:+ " node " +:+ url +:+ " is " +:+ message |> in
  if negb (down st) then
    let st := st <| down := true |> in
    if alertIfDown then st <| downSince := now |> else st
  else st.

Definition healthyState (st : nodeRuntimeState) : nodeRuntimeState :=
  let st := if down st then st <| lastMsg := "" |> <| wasDown := true |> else st in
  st <| down := false |> <| syncing := false |> <| downSince := unix_epoch |>.

(** The probe of one node, with its metric; the result of [emitStat] is not
    looked at. *)
Definition probeNode (k chainName : string) (now : time) (i : nat) : M Config unit :=
  cc ← getChain k;
  c ← getS;
  match Nodes cc !! i with
  | None => mret tt
  | Some n =>
      match probe cc (Url n) with
      | Some (message, isSyncing) =>
          let f := unhealthyState now chainName (Url n) (AlertIfDown n) message in
          _ ← onChain k (updateNode i f);
          _ ← (if Prom c && AlertIfDown n then
                 cc ← getChain k;
                 _ ← stateM (emitStat (cancelled c) (mkUpdate metricNodeDownSeconds
                       (Seconds (Since now (downSince (f (nodeState n))))) (Url n) cc));
                 mret tt
               else mret tt);
          if (isSyncing : bool) then onChain k (updateNode i (fun st => st <| syncing := true |>)) else mret tt
      | None =>
          _ ← onChain k (updateNode i healthyState);
          _ ← onChain k (setNoNodes false);
          if Prom c then
            cc ← getChain k;
            _ ← stateM (emitStat (cancelled c) (mkUpdate metricNodeDownSeconds (f64_of_Z 0) (Url n) cc));
            mret tt
          else mret tt
      end
  end.

(** ** Validator information (validator.go) *)

Inductive valError := NilClient | RpcError (e : string) | UnknownPrefix.

(** [next.Conspub[:20]]; a shorter address panics. *)
Definition first20 (bytes : list Z) : option (list Z) :=
  if (length bytes <? 20)%nat then None else Some (take 20 bytes).

(** The consensus address to query with; the outer [None] is a panic. *)
Definition valconsOf (valAddress : string) (conspub : list Z) : option (valError + string) :=
  if Contains valAddress "valcons" then Some (inr valAddress)
  else
    let encode prefix :=
      key ← first20 conspub;
      Some (match encodeConsensusAddress prefix key with inl e => inl (RpcError e) | inr a => inr a end) in
    match Split valAddress "valoper" with
    | [prefix; _] => encode (prefix +:+ "valcons")
    | _ => let '(pre, ok) := getAltPrefix valAddress in
           if ok then encode pre else Some (inl UnknownPrefix)
    end.

(** What the queries to [client] say; nothing of the chain is changed. *)
Definition fetchValInfo (remote : string) (first : bool) (cc : ChainConfig) : option (valError + ValInfo) :=
  let window := from_option vi_Window 0 (valInfo cc) in
  match Validator remote (ValAddress cc) with
  | inl e => Some (inl (RpcError e))
  | inr v =>
      let conspub := [] ++ ConsensusAddress v in
      r ← valconsOf (ValAddress cc) conspub;
      match r with
      | inl e => Some (inl e)
      | inr valcons =>
          if first && negb (Contains (ValAddress cc) "valcons") && (String.length (ValAddress cc) <? 20)%nat
          then None
          else
            match SigningInfo remote valcons with
            | inl e => Some (inl (RpcError e))
            | inr signing =>
                let next := MkValInfo (vr_Moniker v) (vr_Bonded v) (vr_Jailed v) (si_Tombstoned signing)
                              (MissedBlocks signing) window conspub valcons in
                if window =? 0 then
                  match SlashingParams remote with
                  | inl e => Some (inl (RpcError e))
                  | inr params => Some (inr (next <| vi_Window := SignedBlocksWindow params |>))
                  end
                else Some (inr next)
            end
      end
  end.

(** [emitStat] with its result ignored. *)
Definition emitIgnored (u : promUpdate) : M Config unit :=
  c ← getS; _ ← stateM (emitStat (cancelled c) u); mret tt.

(** The metrics of a refresh. *)
Definition refreshMetrics (k : string) (first : bool) (next : ValInfo) : M Config unit :=
  c ← getS;
  if Prom c then
    cc ← getChain k;
    _ ← emitIgnored (mkUpdate metricWindowMissed (f64_of_Z (vi_Missed next)) "" cc);
    if first then
      _ ← emitIgnored (mkUpdate metricWindowSize (f64_of_Z (vi_Window next)) "" cc);
      emitIgnored (mkUpdate metricTotalNodes (f64_of_Z (Z.of_nat (length (Nodes cc)))) "" cc)
    else mret tt
  else mret tt.

Definition GetValInfo (k : string) (first : bool) : M Config (option valError) :=
  cc ← getChain k;
  match rpcClientSnapshot cc with
  | None => mret (Some NilClient)
  | Some remote =>
      r ← liftO (fetchValInfo remote first cc);
      match r with
      | inl e => mret (Some e)
      | inr next =>
          _ ← onChain k (publishValidatorInfo next (negb first));
          _ ← refreshMetrics k first next;
          mret None
      end
  end.

(** One tick of [monitorHealth]: the probes (in some order), then a new client
    if there is none, then the refresh, unless the context is done. *)
Definition monitorHealth_tick (k chainName : string) (now : time) (order : list nat) : M Config unit :=
  _ ← iterM (probeNode k chainName now) order;
  c ← getS;
  if cancelled c then mret tt
  else
    cc ← getChain k;
    _ ← (match rpcClientSnapshot cc with
         | None => _ ← newRpc k now; mret tt
         | Some _ => mret tt
         end);
    _ ← GetValInfo k false;
    mret tt.

End choose.

(** ** Lemmas *)

Section lemmas.
Context `{RpcEnv}.

Lemma tryURL_settings cc cc' url : same_settings cc cc' -> tryURL cc' url = tryURL cc url.
Proof. intros (Hn & Hi & _). unfold tryURL. by rewrite Hn, Hi. Qed.

Lemma publicFallback_settings cc cc' : same_settings cc cc' -> PublicFallback cc' = PublicFallback cc ->
  publicFallback cc' = publicFallback cc.
Proof.
  intros Hs Hp. unfold publicFallback. rewrite Hp, (proj1 (proj2 Hs)).
  destruct (PublicFallback cc); [| done]. destruct (getRegistryUrl _ _) as [u ok]. destruct ok; [| done].
  by rewrite (tryURL_settings cc cc' _ Hs).
Qed.

(** A node that may be tried and answers properly. *)
Definition usable (anyWorking : bool) (cc : ChainConfig) (n : NodeConfig) : bool :=
  negb (anyWorking && nc_down n) && t_ok (tryURL cc (Url n)).

Definition firstUsable (anyWorking : bool) (cc : ChainConfig) (ns : list NodeConfig) : option string :=
  Url <$> head (filter (fun n => usable anyWorking cc n = true) ns).

Lemma firstUsable_cons aw cc n ns :
  firstUsable aw cc (n :: ns) = if usable aw cc n then Some (Url n) else firstUsable aw cc ns.
Proof. unfold firstUsable. rewrite filter_cons. by destruct (usable aw cc n). Qed.

Lemma firstUsable_settings aw cc cc' ns : same_settings cc cc' -> firstUsable aw cc' ns = firstUsable aw cc ns.
Proof.
  intros Hs. induction ns as [| n ns IH]; [done |]. rewrite !firstUsable_cons, IH. unfold usable.
  by rewrite (tryURL_settings _ _ _ Hs).
Qed.

Lemma updateNode_nodes i f cc n : Nodes cc !! i = Some n ->
  Nodes (updateNode i f cc) = take i (Nodes cc) ++ (updateNodeState f n).2 :: drop (S i) (Nodes cc).
Proof.
  intros Hn. unfold updateNode. simpl. rewrite <- (take_drop_middle _ _ _ Hn) at 1.
  apply lookup_lt_Some in Hn as Hl.
  rewrite alter_app_r_alt by (rewrite length_take; lia). rewrite length_take_le by lia.
  by rewrite Nat.sub_diag.
Qed.

Lemma markNodeDown_down now msg sy n : nc_down (updateNodeState (markNodeDown now msg sy) n).2 = true.
Proof. unfold updateNodeState, markNodeDown. simpl. by destruct (nc_down n). Qed.

(** The loop chooses the first usable node, and leaves only down nodes behind. *)
Lemma tryNodes_run k now aw m : forall i c cc,
  config_ok c -> Chains c !! k = Some cc -> length (Nodes cc) = (i + m)%nat ->
  exists c' cc', tryNodes k now aw (seq i m) c = Some (firstUsable aw cc (drop i (Nodes cc)), c') /\
    emits k [] cc' c c' /\ same_settings cc cc' /\ client cc' = client cc /\
    PublicFallback cc' = PublicFallback cc /\ valInfo cc' = valInfo cc /\
    take i (Nodes cc') = take i (Nodes cc) /\
    (firstUsable aw cc (drop i (Nodes cc)) = None -> Forall (fun n => nc_down n = true) (drop i (Nodes cc'))).
Proof.
  induction m as [| m IH]; intros i c cc Hok Hc Hlen; cbn [seq tryNodes].
  { exists c, cc. rewrite drop_ge by lia. split_and!; try done. by apply emits_refl. }
  rewrite (bindM_run _ _ _ _ _ (getChain_run _ _ _ Hc)).
  destruct (lookup_lt_is_Some_2 (Nodes cc) i) as [n Hn]; [lia |]. rewrite Hn.
  rewrite (drop_S _ _ _ Hn), firstUsable_cons. unfold usable. simpl.
  destruct (aw && nc_down n)%bool eqn:Haw; simpl.
  { destruct (IH (S i) c cc Hok Hc) as (c' & cc' & E & He & Hs & Hcl & Hpf & Hvi & Htk & Hdn); [lia |].
    exists c', cc'. split_and!; try done.
    - apply (f_equal (take i)) in Htk. rewrite !take_take, !Nat.min_l in Htk by lia. done.
    - intros Hnone. assert (Nodes cc' !! i = Some n) as Hn'.
      { rewrite <- (lookup_take_lt _ (S i)) by lia. rewrite Htk, lookup_take_lt by lia. done. }
      rewrite (drop_S _ _ _ Hn'). constructor; [| by apply Hdn]. by apply andb_true_iff in Haw as [_ ?]. }
  destruct (t_ok (tryURL cc (Url n))) eqn:Ht; simpl.
  { exists c, cc. split_and!; try done. by apply emits_refl. }
  set (f := markNodeDown now _ _).
  destruct (onChain_emits k (updateNode i f) cc c Hok Hc eq_refl) as (c1 & E1 & He1).
  rewrite (bindM_run _ _ _ _ _ E1). pose proof (updateNode_settings i f cc) as Hs1.
  pose proof (updateNode_nodes i f cc n Hn) as Hns. apply lookup_lt_Some in Hn as Hlt.
  destruct (IH (S i) c1 (updateNode i f cc)) as (c' & cc' & E & He & Hs & Hcl & Hpf & Hvi & Htk & Hdn).
  { apply He1. } { apply He1. }
  { rewrite Hns, length_app, length_take, length_cons, length_drop. lia. }
  assert (drop (S i) (Nodes (updateNode i f cc)) = drop (S i) (Nodes cc)) as Hdrop.
  { rewrite Hns. replace (S i) with (length (take i (Nodes cc)) + 1)%nat at 1 by (rewrite length_take; lia).
    by rewrite drop_app_add. }
  rewrite Hdrop, (firstUsable_settings _ _ _ _ Hs1) in E, Hdn.
  exists c', cc'. rewrite E. split_and!; [done | exact (emits_trans _ _ _ _ _ _ _ _ He1 He) | by etransitivity | done | done | done | |].
  - apply (f_equal (take i)) in Htk. rewrite !take_take, !Nat.min_l in Htk by lia. rewrite Htk, Hns.
    by rewrite take_app_length' by (rewrite length_take; lia).
  - intros Hnone. assert (Nodes cc' !! i = Some (updateNodeState f n).2) as Hn'.
    { rewrite <- (lookup_take_lt _ (S i)) by lia. rewrite Htk, lookup_take_lt, Hns by lia.
      by rewrite list_lookup_middle by (rewrite length_take; lia). }
    rewrite (drop_S _ _ _ Hn'). constructor; [apply markNodeDown_down | by apply Hdn].
Qed.

End lemmas.

Lemma useEndpoint_run k url c cc : config_ok c -> Chains c !! k = Some cc ->
  exists c', useEndpoint k url c = Some (tt, c') /\
    emits k [] (setNoNodes false (setRPCClient (Some url) cc)) c c'.
Proof.
  intros Hok Hc. unfold useEndpoint.
  destruct (onChain_emits k (fun cc => setNoNodes false (setRPCClient (Some url) cc)) cc c Hok Hc eq_refl)
    as (c' & E & He). by exists c'.
Qed.

(** The consensus address of a validator: the configured one, or the first 20
    bytes of the key under the prefix that goes with the operator's address. *)
Definition consensus_address `{RpcEnv} (va : string) (key : list Z) (valcons : string) : Prop :=
  if Contains va "valcons" then valcons = va
  else exists prefix,
    match Split va "valoper" with
    | [p; _] => prefix = p +:+ "valcons"
    | _ => getAltPrefix va = (prefix, true)
    end /\ encodeConsensusAddress prefix (take 20 key) = inr valcons.

(** What a successful refresh publishes, field by field: every query succeeded,
    and the window is the known one or, if none is known, the one asked for. *)
Definition refreshed `{RpcEnv} (remote : string) (cc : ChainConfig) (next : ValInfo) : Prop :=
  let window := from_option vi_Window 0 (valInfo cc) in
  exists v valcons si w,
    Validator remote (ValAddress cc) = inr v /\
    consensus_address (ValAddress cc) (ConsensusAddress v) valcons /\
    SigningInfo remote valcons = inr si /\
    (if window =? 0 then exists p, SlashingParams remote = inr p /\ w = SignedBlocksWindow p else w = window) /\
    next = MkValInfo (vr_Moniker v) (vr_Bonded v) (vr_Jailed v) (si_Tombstoned si) (MissedBlocks si) w
             (ConsensusAddress v) valcons.

Lemma valconsOf_spec `{RpcEnv} va key : (20 <= length key)%nat ->
  exists r, valconsOf va key = Some r /\
    match r with
    | inr valcons => consensus_address va key valcons
    | inl _ => forall valcons, ~ consensus_address va key valcons
    end.
Proof.
  intros Hk. unfold valconsOf, first20, consensus_address. destruct (Contains va "valcons"); [by eexists |].
  rewrite (proj2 (Nat.ltb_ge _ _)) by done.
  assert (forall prefix, exists r, (key ← Some (take 20 key);
      Some (match encodeConsensusAddress prefix key with inl e => inl (RpcError e) | inr a => inr a end)) = Some r /\
    match r with
    | inr valcons => encodeConsensusAddress prefix (take 20 key) = inr valcons
    | inl _ => forall valcons, encodeConsensusAddress prefix (take 20 key) <> inr valcons
    end) as Henc.
  { intros prefix. simpl. destruct (encodeConsensusAddress prefix (take 20 key)); by eexists. }
  destruct (getAltPrefix va) as [pre ok].
  destruct (Split va "valoper") as [| p [| q [| ? ?]]];
    try (destruct ok; [| eexists; split; [reflexivity |]; by intros valcons (prefix & [= ] & _)];
         destruct (Henc pre) as (r & -> & Hr); exists r; split; [done |]; destruct r;
         [intros valcons (prefix & [= ->] & E); by eapply Hr | by exists pre]).
  destruct (Henc (p +:+ "valcons")) as (r & -> & Hr). exists r. split; [done |]. destruct r.
  - intros valcons (prefix & -> & E). by eapply Hr.
  - by eexists.
Qed.

Lemma consensus_address_fun `{RpcEnv} va key x y :
  consensus_address va key x -> consensus_address va key y -> x = y.
Proof.
  unfold consensus_address. destruct (Contains va "valcons"); [congruence |].
  intros (p & Hp & Ep) (q & Hq & Eq). destruct (Split va "valoper") as [| ? [| ? [| ? ?]]]; congruence.
Qed.

(** The queries succeed exactly if there is something to publish. *)
Lemma fetchValInfo_spec `{RpcEnv} remote first cc :
  (20 <= String.length (ValAddress cc))%nat ->
  (forall remote v, Validator remote (ValAddress cc) = inr v -> (20 <= length (ConsensusAddress v))%nat) ->
  exists r, fetchValInfo remote first cc = Some r /\
    match r with inl _ => forall next, ~ refreshed remote cc next | inr next => refreshed remote cc next end.
Proof.
  intros Hva Hlen. unfold fetchValInfo, refreshed.
  destruct (Validator remote (ValAddress cc)) as [e | v] eqn:Hv.
  { eexists. split; [reflexivity |]. by intros next (? & ? & ? & ? & [=] & _). }
  destruct (valconsOf_spec (ValAddress cc) ([] ++ ConsensusAddress v)) as (rv & -> & Hvc); [by eapply Hlen |].
  cbn [mbind option_bind]. destruct rv as [e | valcons].
  { eexists. split; [reflexivity |]. intros next (? & vc & ? & ? & [= <-] & Hc & _). by eapply Hvc. }
  rewrite (proj2 (Nat.ltb_ge (String.length (ValAddress cc)) 20)), andb_false_r by lia.
  destruct (SigningInfo remote valcons) as [e | si] eqn:Hsi.
  { eexists. split; [reflexivity |]. intros next (? & vc & ? & ? & [= <-] & Hc & Hs & _).
    rewrite (consensus_address_fun _ _ _ _ Hc Hvc) in Hs. congruence. }
  destruct (Z.eqb_spec (from_option vi_Window 0 (valInfo cc)) 0) as [Hw | Hw].
  - destruct (SlashingParams remote) as [e | p] eqn:Hp.
    + eexists. split; [reflexivity |]. by intros next (? & ? & ? & ? & _ & _ & _ & (? & [=] & _) & _).
    + eexists. split; [reflexivity |]. exists v, valcons, si, (SignedBlocksWindow p). split_and!; try done. by exists p.
  - eexists. split; [reflexivity |]. by exists v, valcons, si, (from_option vi_Window 0 (valInfo cc)).
Qed.

Definition only_stats (c c' : Config) : Prop :=
  Chains c' = Chains c /\ alarms c' = alarms c /\ cancelled c' = cancelled c.

#[export] Instance only_stats_preorder : PreOrder only_stats.
Proof. split; [done |]. intros c1 c2 c3 (?&?&?) (?&?&?). unfold only_stats. split_and!; congruence. Qed.

Lemma refreshMetrics_run k first next c cc : Chains c !! k = Some cc ->
  exists c', refreshMetrics k first next c = Some (tt, c') /\ only_stats c c'.
Proof.
  intros Hc. unfold refreshMetrics. rewrite (bindM_run _ _ _ _ _ (eq_refl : getS c = _)).
  assert (forall u c, exists c', emitIgnored u c = Some (tt, c') /\ only_stats c c') as Hem.
  { intros u c2. unfold emitIgnored, mbind, M_bind, getS, stateM, emitStat. by destruct (cancelled c2); eexists. }
  destruct (Prom c); [| by eexists]. rewrite (bindM_run _ _ _ _ _ (getChain_run _ _ _ Hc)).
  destruct (Hem (mkUpdate metricWindowMissed (f64_of_Z (vi_Missed next)) "" cc) c) as (c2 & E2 & H2).
  rewrite (bindM_run _ _ _ _ _ E2). destruct first; [| by exists c2].
  destruct (Hem (mkUpdate metricWindowSize (f64_of_Z (vi_Window next)) "" cc) c2) as (c3 & E3 & H3).
  rewrite (bindM_run _ _ _ _ _ E3).
  destruct (Hem (mkUpdate metricTotalNodes (f64_of_Z (Z.of_nat (length (Nodes cc)))) "" cc) c3) as (c4 & E4 & H4).
  exists c4. split; [done |]. by do 2 (etransitivity; [eassumption |]).
Qed.

(** *** The two operations *)

Lemma newRpc_run `{RpcEnv} (k : string) (now : time) (c : Config) (cc : ChainConfig) :
  config_ok c -> Chains c !! k = Some cc ->
  let anyWorking := existsb (fun n => negb (nc_down n)) (Nodes cc) in
  let nodeChoice := Url <$> head (filter (fun n => usable anyWorking cc n = true) (Nodes cc)) in
  exists r c' cc', newRpc k now c = Some (r, c') /\ config_ok c' /\ Chains c' !! k = Some cc' /\
    same_settings cc cc' /\ valInfo cc' = valInfo cc /\ cancelled c' = cancelled c /\ (forall k', k' <> k -> Chains c' !! k' = Chains c !! k') /\
    match nodeChoice, publicFallback cc with
    | Some url, _ | None, Some url => r = None /\ client cc' = Some url /\ noNodes cc' = false
    | None, None => r <> None /\ noNodes cc' = true /\ client cc' = client cc /\
        Forall (fun n => nc_down n = true) (Nodes cc')
    end.
Proof.
  intros Hok Hc anyWorking nodeChoice. unfold newRpc.
  rewrite (bindM_run _ _ _ _ _ (getChain_run _ _ _ Hc)).
  change (existsb _ (Nodes cc)) with anyWorking.
  destruct (tryNodes_run k now anyWorking (length (Nodes cc)) 0 c cc Hok Hc eq_refl)
    as (c1 & cc1 & E1 & He1 & Hs1 & Hcl & Hpf & Hvi & _ & Hdn).
  rewrite drop_0 in E1, Hdn. change (firstUsable anyWorking cc (Nodes cc)) with nodeChoice in E1, Hdn.
  rewrite (bindM_run _ _ _ _ _ E1).
  pose proof (f_equal cancelled (em_rest _ _ _ _ _ He1)) as Hcan. cbn in Hcan.
  assert (forall url, exists c' cc', useEndpoint k url c1 = Some (tt, c') /\ config_ok c' /\
    Chains c' !! k = Some cc' /\ same_settings cc cc' /\ valInfo cc' = valInfo cc /\ cancelled c' = cancelled c /\
    (forall k', k' <> k -> Chains c' !! k' = Chains c !! k') /\ client cc' = Some url /\ noNodes cc' = false) as Huse.
  { intros url. destruct (useEndpoint_run k url c1 cc1 (em_ok _ _ _ _ _ He1) (em_chain _ _ _ _ _ He1)) as (c2 & E2 & He2).
    exists c2, (setNoNodes false (setRPCClient (Some url) cc1)). split_and!; [done | apply He2 | apply He2 | done | done | | | done | done];
    [by rewrite <- (em_rest _ _ _ _ _ He2) |].
    intros k' Hk. by rewrite (em_other _ _ _ _ _ He2), (em_other _ _ _ _ _ He1). }
  destruct nodeChoice as [url |].
  { destruct (Huse url) as (c' & cc' & E & H1 & H2 & H3 & H4 & H5 & H6 & H7 & H8). rewrite (bindM_run _ _ _ _ _ E).
    by exists None, c', cc'. }
  rewrite (bindM_run _ _ _ _ _ (getChain_run _ _ _ (em_chain _ _ _ _ _ He1))).
  rewrite (publicFallback_settings cc cc1 Hs1 Hpf).
  destruct (publicFallback cc) as [url |].
  { destruct (Huse url) as (c' & cc' & E & H1 & H2 & H3 & H4 & H5 & H6 & H7 & H8). rewrite (bindM_run _ _ _ _ _ E).
    by exists None, c', cc'. }
  rewrite (bindM_run _ _ _ _ _ (eq_refl : getS c1 = _)).
  set (cc2 := setNoNodes true cc1 <| activeAlerts := _ |> <| lastError := _ |>).
  pose proof (emits_put k cc2 c1 (em_ok _ _ _ _ _ He1) (proj2 (em_ok _ _ _ _ _ He1) _ _ (em_chain _ _ _ _ _ He1))) as He2.
  rewrite (bindM_run _ _ _ _ _ (eq_refl : putChain k cc2 c1 = Some (tt, _))).
  assert (forall k', k' <> k -> Chains (c1 <| Chains := <[k := cc2]> (Chains c1) |>) !! k' = Chains c !! k') as Hother.
  { intros k' Hk. by rewrite (em_other _ _ _ _ _ He2), (em_other _ _ _ _ _ He1). }
  destruct (EnableDash c1); (eexists _, _, cc2; split; [reflexivity |]);
    (split; [apply He2 |]); (split; [apply He2 |]); (split; [done |]); (split; [done |]); (split; [done |]); (split; [exact Hother |]);
    split_and!; try done; by apply Hdn.
Qed.

Lemma GetValInfo_run `{RpcEnv} (k : string) (first : bool) (c : Config) (cc : ChainConfig) :
  config_ok c -> Chains c !! k = Some cc -> (20 <= String.length (ValAddress cc))%nat ->
  (forall remote v, Validator remote (ValAddress cc) = inr v -> (20 <= length (ConsensusAddress v))%nat) ->
  exists r c', GetValInfo k first c = Some (r, c') /\
    match r with
    | Some _ => c' = c /\ forall remote next, client cc = Some remote -> ~ refreshed remote cc next
    | None => exists next cc' remote, client cc = Some remote /\ refreshed remote cc next /\
        Chains c' !! k = Some cc' /\ config_ok c' /\ cancelled c' = cancelled c /\
        cc' = cc <| valInfo := Some next |> <| lastValInfo := if first then lastValInfo cc else valInfo cc |>
    end.
Proof.
  intros Hok Hc Hva Hlen. unfold GetValInfo. rewrite (bindM_run _ _ _ _ _ (getChain_run _ _ _ Hc)).
  unfold rpcClientSnapshot, monitoringSnapshot. destruct (client cc) as [remote |] eqn:Hcl; [| eexists _, _; split; [reflexivity |]; by split].
  destruct (fetchValInfo_spec remote first cc Hva Hlen) as (r & Hf & Hr).
  assert (liftO (fetchValInfo remote first cc) c = Some (r, c)) as El by (unfold liftO; by rewrite Hf).
  rewrite (bindM_run _ _ _ _ _ El). destruct r as [e | next].
  { eexists _, _. split; [reflexivity |]. split; [done |]. intros ? next [= <-]. apply Hr. }
  destruct (onChain_emits k (publishValidatorInfo next (negb first)) cc c Hok Hc) as (c1 & E1 & He1).
  { unfold publishValidatorInfo. by destruct first. }
  rewrite (bindM_run _ _ _ _ _ E1).
  destruct (refreshMetrics_run k first next c1 _ (em_chain _ _ _ _ _ He1)) as (c' & E2 & Hch & Hal & Hca).
  rewrite (bindM_run _ _ _ _ _ E2). exists None, c'. split; [done |].
  eexists next, _, remote. rewrite Hch. split_and!; [done | done | apply He1 | | |].
  { unfold config_ok. rewrite Hch, Hal. apply He1. }
  { rewrite Hca, <- (em_rest _ _ _ _ _ He1). done. }
  unfold publishValidatorInfo. rewrite !cloneValInfo_id. destruct first; simpl; by destruct cc.
Qed.

(** *** Nodes after a restart *)

(** What can happen to a node that stays down. *)
Inductive downUpdate :=
  | ProbeFailed (now : time) (chainName message : string)
  | EndpointFailed (now : time) (message : string) (isSyncing : bool).

Definition applyDown (n : NodeConfig) (u : downUpdate) : NodeConfig :=
  (updateNodeState match u with
     | ProbeFailed now chainName message => unhealthyState now chainName (Url n) (AlertIfDown n) message
     | EndpointFailed now message isSyncing => markNodeDown now message isSyncing
     end n).2.

Lemma applyDown_keeps n u : nc_down n = true -> nc_wasDown n = true ->
  nc_down (applyDown n u) = true /\ nc_wasDown (applyDown n u) = true /\
  nc_downSince (applyDown n u) = nc_downSince n.
Proof.
  intros Hd Hw. destruct u; unfold applyDown, updateNodeState, unhealthyState, markNodeDown; simpl;
    rewrite Hd; simpl; by split_and!.
Qed.

(** ** Properties *)

(** C8: which endpoint is used.  [newRpc] uses the first node, in the order of
    the configuration, that answers with the chain's id and is in sync, where
    nodes known to be down are tried only if no node is up; failing that, the
    public endpoint if it is allowed and works; failing that it reports an
    error, the chain has no nodes, every node of it is marked down and the
    client is as before.  It never panics. *)
Theorem newRpc_first_usable `{RpcEnv} (k : string) (now : time) (c : Config) (cc : ChainConfig) :
  config_ok c -> Chains c !! k = Some cc ->
  let anyWorking := existsb (fun n => negb (nc_down n)) (Nodes cc) in
  let nodeChoice := Url <$> head (filter (fun n => usable anyWorking cc n = true) (Nodes cc)) in
  exists r c' cc', newRpc k now c = Some (r, c') /\ config_ok c' /\ Chains c' !! k = Some cc' /\
    same_settings cc cc' /\ (forall k', k' <> k -> Chains c' !! k' = Chains c !! k') /\
    match nodeChoice, publicFallback cc with
    | Some url, _ | None, Some url => r = None /\ client cc' = Some url /\ noNodes cc' = false
    | None, None => r <> None /\ noNodes cc' = true /\ client cc' = client cc /\
        Forall (fun n => nc_down n = true) (Nodes cc')
    end.
Proof.
  intros Hok Hc. destruct (newRpc_run k now c cc Hok Hc) as (r & c' & cc' & E & H1 & H2 & H3 & _ & _ & H4).
  by exists r, c', cc'.
Qed.


(** C40: a node that is down when the state is saved never raises its alarm after
    a restart.  After a save, a load and a restore into a freshly loaded chain
    with the same nodes, a node that was down (with a known time) is down since
    then, and as long as it stays down (probes and endpoint selection keep
    failing) the check that raises the alarm is false, at any time and for any
    configured delay: a node that went down shortly before the restart stays
    unreported. *)
Theorem restored_node_alarm_suppressed (now later : time) (k : string) (c c0 c1 : Config) (cc cc0 : ChainConfig)
    (i : nat) (n : NodeConfig) (ups : list downUpdate) :
  Chains c !! k = Some cc -> Chains c0 !! k = Some cc0 ->
  Url <$> Nodes cc0 = Url <$> Nodes cc -> NoDup (Url <$> Nodes cc) ->
  Nodes cc !! i = Some n -> nc_down n = true -> IsZero (nc_downSince n) = false ->
  let c' := (restoreSavedState now (Some (durableState (snapshotSavedState c))) c0).1 in
  exists cc' n', Chains c' !! k = Some cc' /\ Nodes cc' !! i = Some n' /\ Url n' = Url n /\
    nc_down (foldl applyDown n' ups) = true /\ nc_downSince (foldl applyDown n' ups) = nc_downSince n /\
    nodeTriggers later c1 (foldl applyDown n' ups) = false.
Proof.
  intros Hc Hc0 Hurl Hnd Hn Hdown Ht c'.
  destruct (restart_chain now k c c0 cc cc0 Hc Hc0 Hurl Hnd) as (cc' & Hc' & _ & Hns & _).
  pose proof (f_equal (fun l => l !! i) Hurl) as Hi. simpl in Hi. rewrite !list_lookup_fmap, Hn in Hi.
  destruct (Nodes cc0 !! i) as [n0 |] eqn:Hn0; [| done]. injection Hi as Hu.
  exists cc', (markDown (nc_downSince n) n0). split; [done |]. split.
  { rewrite Hns, lookup_zip_with, Hn, Hn0. simpl. by rewrite Hdown, Ht. }
  split; [done |].
  assert (nc_down (markDown (nc_downSince n) n0) = true /\ nc_wasDown (markDown (nc_downSince n) n0) = true /\
    nc_downSince (markDown (nc_downSince n) n0) = nc_downSince n) as (Hd & Hw & Hs) by done.
  revert Hd Hw Hs. generalize (markDown (nc_downSince n) n0). clear.
  induction ups as [| u ups IH]; intros n' Hd Hw Hs; simpl.
  - split_and!; [done | done |]. unfold nodeTriggers, nodeState. simpl. rewrite Hw. simpl. by rewrite !andb_false_r.
  - destruct (applyDown_keeps n' u Hd Hw) as (? & ? & Hs'). apply IH; [done | done | congruence].
Qed.

(** The down time of a node without alerts.  Once such a node has been seen
    healthy, every later outage is reported to the metrics as if it had begun
    at the Unix epoch. *)
Theorem unalerted_node_down_since_epoch (k chainName message : string) (now later : time) (n : NodeConfig)
    (c : Config) (cc : ChainConfig) :
  AlertIfDown n = false -> Chains c !! k = Some cc -> cancelled c = false ->
  let healthy := (updateNodeState healthyState n).2 in
  let failed := (updateNodeState (unhealthyState now chainName (Url n) (AlertIfDown n) message) healthy).2 in
  emitNodeDown k later [failed] c =
    Some (true, c <| statsChan := statsChan c ++
                      [mkUpdate metricNodeDownSeconds (Seconds (Since later unix_epoch)) (Url n) cc] |>).
Proof.
  intros Ha Hc Hcan healthy failed.
  assert (nodeState failed = unhealthyState now chainName (Url n) false message (healthyState (nodeState n))) as Hst.
  { subst failed healthy. rewrite (proj1 (nodeState_update _ _)), (proj1 (nodeState_update _ _)). by rewrite Ha. }
  assert (down (nodeState failed) = true /\ downSince (nodeState failed) = unix_epoch) as [Hd Hs].
  { rewrite Hst. unfold unhealthyState, healthyState. by destruct (down (nodeState n)). }
  assert (Url failed = Url n) as Hu by done.
  cbn [emitNodeDown]. rewrite Hd, Hs, Hu. change (true && negb (IsZero unix_epoch))%bool with true. cbv iota.
  assert (emit k metricNodeDownSeconds (Seconds (Since later unix_epoch)) (Url n) c =
    Some (true, c <| statsChan := statsChan c ++
      [mkUpdate metricNodeDownSeconds (Seconds (Since later unix_epoch)) (Url n) cc] |>)) as E.
  { unfold emit. rewrite (bindM_run _ _ _ _ _ (getChain_run _ _ _ Hc)).
    rewrite (bindM_run _ _ _ _ _ (eq_refl : getS c = _)). unfold stateM, emitStat. by rewrite Hcan. }
  by rewrite (bindM_run _ _ _ _ _ E).
Qed.

(** ** Witnesses *)

(** Two nodes: the first is on another chain, the second answers. *)
#[refine] Definition sampleRpcEnv : RpcEnv := {|
  parseURL _ := None;
  openRPCClient _ := None;
  Status url := if String.eqb url "tcp://a:26657" then inr (MkRpcStatus "other-1" false)
                else inr (MkRpcStatus "osmosis-1" false);
  Validator _ _ := inr (MkValidatorRecord (repeat 7 20) "NosNode" false true);
  SigningInfo _ _ := inr (MkSigningInfo false 3);
  SlashingParams _ := inr (MkSlashingParams 30000);
  encodeConsensusAddress prefix _ := inr (prefix +:+ "1xyz");
  registryPaths := cosmosPaths;
  publicBody _ := None;
|}.
Defined.

Lemma newRpc_first_usable_witness :
  exists c' cc', @newRpc sampleRpcEnv "Osmosis" unix_epoch sampleConfig = Some (None, c') /\
    Chains c' !! "Osmosis" = Some cc' /\ client cc' = Some "tcp://b:26657" /\ noNodes cc' = false.
Proof.
  destruct (@newRpc_first_usable sampleRpcEnv "Osmosis" unix_epoch sampleConfig sampleChain sampleConfig_ok eq_refl)
    as (r & c' & cc' & E & _ & Hc' & _ & _ & H).
  exists c', cc'. vm_compute in H. destruct H as (-> & Hcl & Hno). by split_and!.
Defined.


(** Down for two minutes when the state was saved; a day later still quiet,
    where without the restart it triggers after the configured three minutes. *)
Lemma restored_node_alarm_suppressed_witness :
  let later := unix_epoch + 24 * Hour in
  let n := applyDown (sampleNode "tcp://a:26657") (ProbeFailed unix_epoch "Osmosis" "down") in
  let cc := sampleChain <| Nodes := [n] |> in
  let cc0 := sampleChain <| Nodes := [sampleNode "tcp://a:26657"] |> in
  let c := sampleConfig <| Chains := {[ "Osmosis" := cc ]} |> in
  let c0 := sampleConfig <| Chains := {[ "Osmosis" := cc0 ]} |> in
  (exists cc' n', Chains (restoreSavedState (unix_epoch + 2 * Minute) (Some (durableState (snapshotSavedState c))) c0).1
       !! "Osmosis" = Some cc' /\ Nodes cc' !! 0%nat = Some n' /\
     nodeTriggers later sampleConfig (applyDown n' (ProbeFailed later "Osmosis" "down")) = false) /\
  nodeTriggers later sampleConfig (applyDown n (ProbeFailed later "Osmosis" "down")) = true.
Proof.
  intros later n cc cc0 c c0. split; [| by vm_compute].
  destruct (restored_node_alarm_suppressed (unix_epoch + 2 * Minute) later "Osmosis" c c0 sampleConfig cc cc0 0 n
    [ProbeFailed later "Osmosis" "down"] eq_refl eq_refl eq_refl ltac:(apply NoDup_singleton) eq_refl eq_refl eq_refl)
    as (cc' & n' & H1 & H2 & _ & _ & _ & H3).
  exists cc', n'. by split_and!.
Defined.

Lemma unalerted_node_down_since_epoch_witness :
  let n := MkNodeConfig "tcp://c:26657" false false false false "" 0 in
  let now := unix_epoch + 20000 * 24 * Hour in
  let healthy := (updateNodeState healthyState n).2 in
  let failed := (updateNodeState (unhealthyState now "Osmosis" (Url n) (AlertIfDown n) "down") healthy).2 in
  exists c', emitNodeDown "Osmosis" (now + Second) [failed] sampleConfig = Some (true, c') /\
    pu_counter <$> statsChan c' = [f64_of_Z 1728000001].
Proof.
  intros n now healthy failed.
  eexists. split.
  - exact (unalerted_node_down_since_epoch "Osmosis" "Osmosis" "down" now (now + Second) n sampleConfig sampleChain
      eq_refl eq_refl eq_refl).
  - by vm_compute.
Defined.
