(* ===== verification/Lifecycle.v ===== *)
(** * Start-up and shutdown (run.go, the alert ingress of runtime_state.go)

    The goroutines around the alert queue as a transition system: the monitors,
    the calls of [alert] they are in, the dashboard alarms these record and a
    resolved stall clears, the bounded queue, the notification worker, and the main goroutine through [Run] and [shutdown].  Each step is
    what one goroutine does between two points where others may run.  A send on
    a closed channel and a second close are states of their own, so that their
    absence can be proved. *)

From S2P Require Import Prelude Types AlarmCache Delivery Samples RuntimeState.

Local Open Scope Z_scope.

(** ** The state *)

(** Where the main goroutine is. *)
Inductive mainPC :=
  | Built              (** lifecycle constructed, nothing started *)
  | Started            (** worker started, starting monitors *)
  | Watching           (** all started, waiting for a signal *)
  | IngressStopped     (** in [shutdown], after [stopAlertIngress] *)
  | Cancelled          (** after [cancel] *)
  | SocketsClosed      (** waiting for the monitors *)
  | MonitorsGone       (** waiting for the ingress group *)
  | Quiescent          (** about to close the queue *)
  | Draining           (** queue closed, waiting for the worker *)
  | Drained            (** about to write the checkpoint *)
  | Exited.

Inductive workerState := NotStarted | Idle | Delivering (msg : alertMsg) | WorkerDone.

Inductive shutdownResult := DrainTimeout | SaveFailed | Saved.

(** What monitors do to the dashboard alarms of the cache: [alert] records the
    alarm after the send, and a resolved stall clears the chain's stalled
    alarms. *)
Inductive dashOp := Recorded (now : time) (msg : alertMsg) | Cleared (chainName : string).

Definition applyDash (op : dashOp) (a : alarmCache) : option alarmCache :=
  match op with
  | Recorded now msg => recordDashboardAlarm now (chain msg) (message msg) (resolved msg) a
  | Cleared chainName => Some (clearNoBlocks chainName a)
  end.

(** [began] are the calls of [alert] past the gate, [sent] those that have sent
    their message, [recorded] those that have also recorded it for the
    dashboard; [accepted] is every message sent, in order, [handled] every
    message delivered with the answers its delivery got, and [dash] what was
    done to the dashboard alarms.  [nilMap] is the panic of assigning into a
    missing map of alarms. *)
Record lifecycle := MkLifecycle {
  pc : mainPC;
  lc_accepting : bool;
  monitors : nat;
  began : list alertMsg;
  sent : list alertMsg;
  recorded : list alertMsg;
  queue : list alertMsg;
  closed : bool;
  worker : workerState;
  accepted : list alertMsg;
  handled : list (alertEnv * alertMsg);
  cache : alarmCache;
  saved : option alarmCache;
  outcome : option shutdownResult;
  panicked : bool;
  dash : list dashOp;
  nilMap : bool;
}.

#[export] Instance eta_lifecycle : Eta lifecycle := {| eta_of r :=
  MkLifecycle (pc r) (lc_accepting r) (monitors r) (began r) (sent r) (recorded r) (queue r) (closed r) (worker r)
    (accepted r) (handled r) (cache r) (saved r) (outcome r) (panicked r) (dash r) (nilMap r) |}.

(** [newRuntimeLifecycle]: ingress is open, nothing runs. *)
Definition newRuntimeLifecycle (a : alarmCache) : lifecycle :=
  MkLifecycle Built true 0 [] [] [] [] false NotStarted [] [] a None None false [] false.

Definition capacity : nat := Z.to_nat notificationQueueCapacity.

(** The count of the ingress wait group. *)
Definition ingressCount (s : lifecycle) : nat := (length (began s) + length (sent s) + length (recorded s))%nat.

(** ** Steps of the main goroutine *)

Inductive mainStep : lifecycle -> lifecycle -> Prop :=
  | M_startWorker s : pc s = Built -> mainStep s (s <| pc := Started |> <| worker := Idle |>)
  | M_startMonitor s : pc s = Started -> mainStep s (s <| monitors := S (monitors s) |>)
  | M_watch s : pc s = Started -> mainStep s (s <| pc := Watching |>)
  | M_stopIngress s : pc s = Built \/ pc s = Watching ->
      mainStep s (s <| pc := IngressStopped |> <| lc_accepting := false |>)
  | M_cancel s : pc s = IngressStopped -> mainStep s (s <| pc := Cancelled |>)
  | M_closeSockets s : pc s = Cancelled -> mainStep s (s <| pc := SocketsClosed |>)
  | M_monitorsDone s : pc s = SocketsClosed -> monitors s = 0%nat -> mainStep s (s <| pc := MonitorsGone |>)
  | M_ingressDone s : pc s = MonitorsGone -> ingressCount s = 0%nat -> mainStep s (s <| pc := Quiescent |>)
  | M_close s : pc s = Quiescent ->
      mainStep s (if closed s then s <| panicked := true |> else s <| pc := Draining |> <| closed := true |>)
  | M_drained s : pc s = Draining -> worker s = WorkerDone \/ worker s = NotStarted ->
      mainStep s (s <| pc := Drained |>)
  | M_checkpoint s ok : pc s = Drained ->
      mainStep s (s <| pc := Exited |> <| saved := Some (cache s) |>
                    <| outcome := Some (if (ok : bool) then Saved else SaveFailed) |>).

(** A wait runs into the drain timeout. *)
Inductive timeoutStep : lifecycle -> lifecycle -> Prop :=
  | T_timeout s : pc s = SocketsClosed \/ pc s = MonitorsGone \/ pc s = Draining ->
      timeoutStep s (s <| pc := Exited |> <| outcome := Some DrainTimeout |>).

(** ** Steps of the other goroutines *)

Inductive otherStep : lifecycle -> lifecycle -> Prop :=
  (** a running monitor that is not in a call of [alert] makes one and passes
      the gate; it is in that call until the call is over *)
  | O_begin s msg : lc_accepting s = true -> (ingressCount s < monitors s)%nat ->
      otherStep s (s <| began := msg :: began s |>)
  (** the send goes through when there is room *)
  | O_send s msg l1 l2 : began s = l1 ++ msg :: l2 -> closed s = false -> (length (queue s) < capacity)%nat ->
      otherStep s (s <| began := l1 ++ l2 |> <| sent := msg :: sent s |> <| queue := queue s ++ [msg] |>
                     <| accepted := accepted s ++ [msg] |>)
  | O_sendClosed s msg l1 l2 : began s = l1 ++ msg :: l2 -> closed s = true ->
      otherStep s (s <| panicked := true |>)
  (** the alarm is recorded for the dashboard *)
  | O_record s now msg l1 l2 : sent s = l1 ++ msg :: l2 ->
      let after := applyDash (Recorded now msg) (cache s) in
      otherStep s (s <| sent := l1 ++ l2 |> <| recorded := msg :: recorded s |>
                     <| dash := dash s ++ [Recorded now msg] |> <| cache := default (cache s) after |>
                     <| nilMap := match after with Some _ => nilMap s | None => true end |>)
  | O_finish s msg l1 l2 : recorded s = l1 ++ msg :: l2 -> otherStep s (s <| recorded := l1 ++ l2 |>)
  (** a monitor that is not in a call returns; it may do so at any time *)
  | O_monitorExit s n : monitors s = S n -> (ingressCount s <= n)%nat -> otherStep s (s <| monitors := n |>)
  | O_receive s msg q : worker s = Idle -> queue s = msg :: q ->
      otherStep s (s <| worker := Delivering msg |> <| queue := q |>)
  | O_deliver s env msg : worker s = Delivering msg ->
      otherStep s (s <| worker := Idle |> <| handled := handled s ++ [(env, msg)] |>
                     <| cache := (deliverAlert env msg (cache s)).2 |>)
  | O_workerEnd s : worker s = Idle -> queue s = [] -> closed s = true ->
      otherStep s (s <| worker := WorkerDone |>).

(** A running monitor clears the stalled alarms of a chain. *)
Inductive clearStep : lifecycle -> lifecycle -> Prop :=
  | C_clear s chainName : (ingressCount s < monitors s)%nat ->
      clearStep s (s <| cache := clearNoBlocks chainName (cache s) |> <| dash := dash s ++ [Cleared chainName] |>).

Definition step (s s' : lifecycle) : Prop :=
  mainStep s s' \/ timeoutStep s s' \/ otherStep s s' \/ clearStep s s'.

(** ** Invariants *)

Definition inHand (w : workerState) : list alertMsg := match w with Delivering m => [m] | _ => [] end.

(** What holds at each point of the main goroutine. *)
Definition pc_inv (s : lifecycle) : Prop :=
  match pc s with
  | Built => worker s = NotStarted /\ closed s = false /\ saved s = None /\ outcome s = None
  | Started | Watching => worker s <> NotStarted /\ closed s = false /\ saved s = None /\ outcome s = None
  | IngressStopped | Cancelled | SocketsClosed =>
      lc_accepting s = false /\ closed s = false /\ saved s = None /\ outcome s = None
  | MonitorsGone | Quiescent =>
      lc_accepting s = false /\ closed s = false /\ monitors s = 0%nat /\ saved s = None /\ outcome s = None
  | Draining => closed s = true /\ monitors s = 0%nat /\ saved s = None /\ outcome s = None
  | Drained => closed s = true /\ monitors s = 0%nat /\ (worker s = WorkerDone \/ worker s = NotStarted) /\
      saved s = None /\ outcome s = None
  | Exited => lc_accepting s = false /\
      match outcome s with
      | None => False
      | Some DrainTimeout => saved s = None
      | Some _ => saved s = Some (cache s) /\ closed s = true /\ monitors s = 0%nat /\
          (worker s = WorkerDone \/ worker s = NotStarted)
      end
  end.

(** The dashboard alarms after some operations, a panicking one doing nothing. *)
Definition dashRun (ops : list dashOp) (a : alarmCache) : alarmCache :=
  foldl (fun a op => default a (applyDash op a)) a ops.

(** The alerts that were recorded. *)
Definition recordedAlerts (ops : list dashOp) : list alertMsg :=
  omap (fun op => match op with Recorded _ msg => Some msg | Cleared _ => None end) ops.

(** A cache with the dashboard alarms of another. *)
Definition withAlarms (b a : alarmCache) : alarmCache := a <| AllAlarms := AllAlarms b |>.

Record inv (a0 : alarmCache) (s : lifecycle) : Prop := {
  inv_panic : panicked s = false;
  inv_fifo : accepted s = (handled s).*2 ++ inHand (worker s) ++ queue s;
  inv_room : (length (queue s) <= capacity)%nat;
  inv_cache : cache s = withAlarms (dashRun (dash s) a0) (notificationWorker (handled s) a0);
  inv_closed : closed s = true -> ingressCount s = 0%nat /\ lc_accepting s = false;
  inv_pc : pc_inv s;
  inv_worker : match worker s with
               | NotStarted => monitors s = 0%nat /\ queue s = []
               | WorkerDone => closed s = true /\ queue s = []
               | _ => True
               end;
  inv_calls : (ingressCount s <= monitors s)%nat;
  inv_dash : accepted s ≡ₚ recordedAlerts (dash s) ++ sent s;
  inv_nil : cache_ok a0 -> nilMap s = false /\ cache_ok (dashRun (dash s) a0);
}.

#[local] Arguments deliverAlert : simpl never.
#[local] Arguments withAlarms : simpl never.
#[local] Arguments applyDash : simpl never.

Lemma withAlarms_id (a : alarmCache) : withAlarms a a = a.
Proof. by destruct a. Qed.

(** Operations on the dashboard alarms look at nothing else and change nothing else. *)
Lemma applyDash_frame (op : dashOp) (a b : alarmCache) :
  applyDash op (withAlarms a b) = (fun a' => withAlarms a' b) <$> applyDash op a.
Proof.
  unfold withAlarms, applyDash. destruct op as [now msg | k].
  - unfold recordDashboardAlarm. cbn [AllAlarms field_set].
    destruct (minner (AllAlarms a) (chain msg)); simpl.
    + destruct (AllAlarms a) as [all |]; [| done]. simpl. by destruct (minner (Some all) (chain msg)).
    + destruct (AllAlarms a) as [all |]; [| done]. simpl. by destruct (minner _ _).
  - unfold clearNoBlocks. cbn [AllAlarms field_set]. by destruct (minner (AllAlarms a) k).
Qed.

Lemma dash_step_frame (op : dashOp) (a b : alarmCache) :
  default (withAlarms a b) (applyDash op (withAlarms a b)) = withAlarms (default a (applyDash op a)) b.
Proof. rewrite applyDash_frame. by destruct (applyDash op a). Qed.

Lemma deliver_step_frame env msg a b :
  (deliverAlert env msg (withAlarms a b)).2 = withAlarms a (deliverAlert env msg b).2.
Proof. apply deliverAlert_frame. Qed.

Lemma dashRun_snoc (ops : list dashOp) (op : dashOp) (a : alarmCache) :
  dashRun (ops ++ [op]) a = default (dashRun ops a) (applyDash op (dashRun ops a)).
Proof. unfold dashRun. by rewrite foldl_snoc. Qed.

(** With a map of alarms no operation panics. *)
Lemma applyDash_ok (op : dashOp) (a : alarmCache) : cache_ok a ->
  exists a', applyDash op a = Some a' /\ cache_ok a'.
Proof.
  intros Ha. unfold applyDash. destruct op as [now msg | k].
  - destruct (record_dashboard now (chain msg) (message msg) (resolved msg) a Ha) as (a' & E & Hok & _). by exists a'.
  - eexists. split; [done |]. destruct Ha as [all Hall]. unfold cache_ok, clearNoBlocks.
    destruct (minner _ _); simpl; rewrite Hall; by eexists.
Qed.

Lemma inv_init a : inv a (newRuntimeLifecycle a).
Proof. split; simpl; try done; [lia | by rewrite withAlarms_id]. Qed.

Lemma notificationWorker_all h a : AllAlarms (notificationWorker h a) = AllAlarms a.
Proof. revert a. induction h as [| [e m] h IH]; intros a; [done |]. cbn [notificationWorker]. by rewrite IH, deliverAlert_all. Qed.

Lemma notificationWorker_snoc h env msg a :
  notificationWorker (h ++ [(env, msg)]) a = (deliverAlert env msg (notificationWorker h a)).2.
Proof. revert a. induction h as [| [e m] h IH]; intros a; [done |]. apply IH. Qed.

(** Opens the invariant of a state given by its fields. *)
Ltac open_inv s :=
  let H := fresh in
  intros H; destruct s; destruct H as [I1 I2 I3 I4 I5 I6 I7 I8 I9 I10]; unfold pc_inv, ingressCount in *;
  simpl in *; subst; simpl in *; destruct_and?.

Lemma inv_main a s s' : mainStep s s' -> inv a s -> inv a s'.
Proof.
  intros Hst. destruct Hst as [s Hp | s Hp | s Hp | s Hp | s Hp | s Hp | s Hp Hm | s Hp Hi | s Hp | s Hp Hw | s ok Hp].
  4: destruct Hp as [Hp | Hp].
  all: open_inv s; subst; simpl in *.
  all: split; unfold ingressCount; simpl; try done; try (split_and!; done); try lia.
  - by destruct worker0.
  - destruct worker0; naive_solver.
  - unfold pc_inv. simpl. destruct (I5 eq_refl) as (_ & ->). split; [done |]. by destruct ok.
Qed.

Lemma inv_timeout a s s' : timeoutStep s s' -> inv a s -> inv a s'.
Proof.
  intros Hst. destruct Hst as [s [Hp | [Hp | Hp]]]; open_inv s.
  all: split; unfold ingressCount; simpl; try done; unfold pc_inv; simpl; split_and!; try done.
  by apply I5.
Qed.

(** The invariant of the main goroutine when another one moved. *)
Ltac pc_auto pc0 outcome0 :=
  destruct pc0;
  repeat match goal with
  | H : _ /\ _ |- _ => destruct H
  | H : _ \/ _ |- _ => destruct H
  | H : match outcome0 with Some _ => _ | None => _ end |- _ => destruct outcome0 as [[] |]
  end; simplify_eq/=; rewrite ?length_app in *; simpl in *; try lia; split_and?; auto; try lia; try congruence.

Lemma inv_other a s s' : otherStep s s' -> inv a s -> inv a s'.
Proof.
  intros Hst. destruct Hst as [s msg Hacc Hmon | s msg l1 l2 Hb Hcl Hq | s msg l1 l2 Hb Hcl | s now msg l1 l2 Hs | s msg l1 l2 Hs |
    s n Hm Hn | s msg q Hw Hq | s env msg Hw | s Hw Hq Hcl]; open_inv s; subst; simpl in *.
  all: rewrite ?length_app in *; simpl in *.
  all: split; unfold pc_inv, ingressCount; simpl; rewrite ?length_app; simpl; try done; try lia.
  all: try (by pc_auto pc0 outcome0).
  - by rewrite <- !app_assoc.
  - destruct worker0; destruct_and?; try done. lia.
  - rewrite I9, <- app_assoc. f_equiv. by rewrite Permutation_app_comm.
  - subst after. rewrite dashRun_snoc. apply dash_step_frame.
  - intros Hc. destruct (I5 Hc). lia.
  - rewrite I9. unfold recordedAlerts. rewrite omap_app, <- app_assoc. f_equiv. simpl. symmetry. apply Permutation_middle.
  - intros Ha. destruct (I10 Ha) as [-> Hok]. destruct (applyDash_ok (Recorded now msg) _ Hok) as (a' & E & Hok').
    subst after. rewrite applyDash_frame, dashRun_snoc, E. by split.
  - intros Hc. destruct (I5 Hc). lia.
  - destruct worker0; destruct_and?; try done.
  - by rewrite fmap_app, <- app_assoc.
  - rewrite notificationWorker_snoc. exact (deliver_step_frame env msg _ _).
Qed.

Lemma inv_clear a s s' : clearStep s s' -> inv a s -> inv a s'.
Proof.
  intros Hst. destruct Hst as [s k Hm]; open_inv s; simpl in *.
  all: split; unfold pc_inv, ingressCount; simpl; try done; try lia.
  - rewrite dashRun_snoc. exact (dash_step_frame (Cleared k) _ _).
  - pc_auto pc0 outcome0.
  - unfold recordedAlerts in *. rewrite omap_app. simpl. by rewrite app_nil_r.
  - intros Ha. destruct (I10 Ha) as [-> Hok]. destruct (applyDash_ok (Cleared k) _ Hok) as (a' & E & Hok').
    rewrite dashRun_snoc, E. by split.
Qed.

Lemma inv_reachable a s : rtc step (newRuntimeLifecycle a) s -> inv a s.
Proof.
  intros Hr. apply (rtc_invariant step (inv a)) with (x := newRuntimeLifecycle a); [| done | apply inv_init].
  intros x y [H | [H | [H | H]]]; [by apply inv_main | by apply inv_timeout | by apply inv_other | by apply inv_clear].
Qed.

(** ** Termination of the drain *)

(** A step that is neither a timeout nor a monitor clearing alarms. *)
Definition quietStep (s s' : lifecycle) : Prop := mainStep s s' \/ otherStep s s'.

(** Shutdown has begun. *)
Definition stopping (s : lifecycle) : Prop :=
  match pc s with Built | Started | Watching => False | _ => True end.

Definition pcRank (p : mainPC) : nat :=
  match p with
  | IngressStopped => 8 | Cancelled => 7 | SocketsClosed => 6 | MonitorsGone => 5 | Quiescent => 4
  | Draining => 3 | Drained => 2 | Exited => 0 | _ => 9
  end.

Definition workerRank (w : workerState) : nat :=
  match w with Delivering _ => 2 | Idle => 1 | _ => 0 end.

(** What is left to do. *)
Definition remaining (s : lifecycle) : nat :=
  (pcRank (pc s) + monitors s + 5 * length (began s) + 2 * length (sent s) + length (recorded s) + 2 * length (queue s) +
   workerRank (worker s))%nat.

Lemma stopping_gate a s : inv a s -> stopping s -> lc_accepting s = false.
Proof.
  intros [_ _ _ _ I5 I6 _ _ _ _] Hs. unfold pc_inv, stopping in *. destruct (pc s); try done; destruct_and?; try done.
  - by apply I5.
  - by apply I5.
Qed.

Lemma quiet_decreases a s s' : inv a s -> stopping s -> quietStep s s' ->
  stopping s' /\ (remaining s' < remaining s)%nat.
Proof.
  intros Hinv Hs Hst. pose proof (stopping_gate a s Hinv Hs) as Hg. unfold stopping, remaining in *.
  destruct Hst as [Hst | Hst].
  - destruct Hst as [s Hp | s Hp | s Hp | s [Hp | Hp] | s Hp | s Hp | s Hp Hm | s Hp Hi | s Hp | s Hp Hw | s ok Hp];
      try (by rewrite Hp in Hs); try (simpl; rewrite Hp; simpl; split; [done | lia]).
    pose proof (inv_pc _ _ Hinv) as Hpc. unfold pc_inv in Hpc. rewrite Hp in Hpc.
    destruct Hpc as (_ & -> & _). simpl. rewrite Hp. simpl. split; [done | lia].
  - destruct Hst as [s msg Hacc Hmon | s msg l1 l2 Hb Hcl Hq | s msg l1 l2 Hb Hcl | s now msg l1 l2 Hss | s msg l1 l2 Hss |
      s n Hm Hn | s msg q Hw Hq | s env msg Hw | s Hw Hq Hcl]; simpl; (split; [done |]).
    + congruence.
    + rewrite Hb, !length_app. simpl. lia.
    + destruct (inv_closed _ _ Hinv Hcl) as (Hn & _). unfold ingressCount in Hn. rewrite Hb, length_app in Hn. simpl in Hn. lia.
    + rewrite Hss, !length_app. simpl. lia.
    + rewrite Hss, !length_app. simpl. lia.
    + lia.
    + rewrite Hw, Hq. simpl. lia.
    + rewrite Hw. simpl. lia.
    + rewrite Hw, Hq. simpl. lia.
Qed.

(** The worker can always move while there is something for it to do. *)
Lemma worker_progress a s : inv a s -> worker s <> NotStarted -> worker s <> WorkerDone ->
  queue s <> [] \/ closed s = true -> exists s', otherStep s s'.
Proof.
  intros Hinv Hn Hd Hwork. destruct (worker s) as [| | msg |] eqn:Hw; try done.
  - destruct (queue s) as [| msg q] eqn:Hq.
    + destruct Hwork as [? | Hc]; [done |]. eexists. by apply O_workerEnd.
    + eexists. by eapply O_receive.
  - eexists. by apply (O_deliver _ sampleEnv).
Qed.

(** A call of [alert] that is under way can go on, or the worker can. *)
Lemma ingress_progress a s : inv a s -> ingressCount s <> 0%nat -> exists s', otherStep s s'.
Proof.
  intros Hinv Hne. pose proof Hinv as [_ _ I3 _ I5 _ I7 I8 _ _]. unfold ingressCount in *.
  destruct (recorded s) as [| m l] eqn:Hrec; [| eexists; by eapply (O_finish _ m [] l)].
  destruct (sent s) as [| m l] eqn:Hsent; [| eexists; by eapply (O_record _ 0 m [] l)].
  destruct (began s) as [| m l] eqn:Hb; [simpl in Hne; lia |].
  assert (closed s = false) as Hcl.
  { destruct (closed s); [| done]. destruct (I5 eq_refl). simpl in *. lia. }
  destruct (decide (length (queue s) < capacity)%nat) as [Hq | Hq]; [eexists; by eapply (O_send _ m [] l) |].
  assert (queue s <> []) as Hqne by (intros E; rewrite E in Hq; change capacity with 64%nat in Hq; simpl in Hq; lia).
  apply (worker_progress a s Hinv); [| | by left]; intros E; rewrite E in I7; naive_solver.
Qed.

Lemma quiet_progress a s : inv a s -> stopping s -> pc s <> Exited -> exists s', quietStep s s'.
Proof.
  intros Hinv Hs Hne. pose proof Hinv as [_ _ I3 _ I5 I6 I7 I8 _ _]. unfold stopping, pc_inv in *.
  assert (ingressCount s <> 0%nat -> exists s', quietStep s s') as Hcalls.
  { intros H. destruct (ingress_progress a s Hinv H) as [s' Hs']. exists s'. by right. }
  destruct (pc s) eqn:Hp; try done; destruct_and?.
  - eexists. left. by apply M_cancel.
  - eexists. left. by apply M_closeSockets.
  - destruct (decide (ingressCount s = 0%nat)) as [Hi | Hi]; [| by auto].
    destruct (monitors s) as [| n] eqn:Hm; [eexists; left; by apply M_monitorsDone |].
    eexists. right. eapply O_monitorExit; [done | lia].
  - destruct (decide (ingressCount s = 0%nat)) as [Hi | Hi]; [| by auto].
    eexists. left. by apply M_ingressDone.
  - eexists. left. by apply M_close.
  - destruct (worker s) as [| | m |] eqn:Hw.
    + eexists. left. apply M_drained; [done | by right].
    + destruct (worker_progress a s Hinv) as [s' Hs']; [by rewrite Hw.. | by right | by exists s'; right].
    + destruct (worker_progress a s Hinv) as [s' Hs']; [by rewrite Hw.. | by right | by exists s'; right].
    + eexists. left. apply M_drained; [done | by left].
  - eexists. left. by apply (M_checkpoint _ true).
Qed.

Lemma quiet_inv a s s' : quietStep s s' -> inv a s -> inv a s'.
Proof. intros [H | H]; [by apply inv_main | by apply inv_other]. Qed.

Lemma quiet_outcome s s' : quietStep s s' -> outcome s = None ->
  outcome s' = None \/ pc s' = Exited /\ exists sv, saved s' = Some sv.
Proof.
  intros [Hst | Hst] Ho; destruct Hst; simpl; auto.
  - destruct (closed s); auto.
  - right. split; [done | by eexists].
Qed.

(** ** Properties *)

(** C18: the queue.  In every reachable state no goroutine has sent on the closed
    queue and it has not been closed twice; it holds at most 64 alerts; and
    alerts are handled one at a time in the order they were accepted: those
    handled, then the one in hand, then those waiting. *)
Theorem queue_safe_and_fifo (a : alarmCache) (s : lifecycle) :
  rtc step (newRuntimeLifecycle a) s ->
  panicked s = false /\ (length (queue s) <= 64)%nat /\
  accepted s = (handled s).*2 ++ inHand (worker s) ++ queue s.
Proof.
  intros Hr. destruct (inv_reachable a s Hr) as [I1 I2 I3 _ _ _ _ _ _ _]. by split_and!.
Qed.

(** C5: the checkpoint.  State is saved only after every accepted alert was
    handled, when no alert can arrive any more.  What is saved is, outside the
    dashboard alarms, the cache after the deliveries of all accepted alerts, in
    order; its dashboard alarms are those after everything the monitors recorded
    and cleared, in order, with every accepted alert recorded exactly once; and
    no map was missing if the cache was in order at the start.  When a wait
    times out nothing is saved. *)
Theorem checkpoint_after_drain (a : alarmCache) (s : lifecycle) :
  rtc step (newRuntimeLifecycle a) s ->
  (forall saved_cache, saved s = Some saved_cache ->
     accepted s = (handled s).*2 /\ began s = [] /\ sent s = [] /\ recorded s = [] /\ queue s = [] /\
     lc_accepting s = false /\ monitors s = 0%nat /\
     saved_cache <| AllAlarms := AllAlarms a |> = notificationWorker (handled s) a /\
     AllAlarms saved_cache = AllAlarms (dashRun (dash s) a) /\ accepted s ≡ₚ recordedAlerts (dash s)) /\
  (outcome s = Some DrainTimeout -> saved s = None) /\ (cache_ok a -> nilMap s = false).
Proof.
  intros Hr. destruct (inv_reachable a s Hr) as [I1 I2 I3 I4 I5 I6 I7 I8 I9 I10].
  unfold pc_inv in I6. split_and!.
  - intros a' Hsv.
    assert (closed s = true /\ monitors s = 0%nat /\ (worker s = WorkerDone \/ worker s = NotStarted) /\ saved s = Some (cache s))
      as (Hc & Hm & Hw & Hs).
    { destruct (pc s); destruct_and?; try congruence. destruct (outcome s) as [[] |]; try done; [congruence | |]; naive_solver. }
    destruct (I5 Hc) as (Hi & Hg). unfold ingressCount in Hi.
    assert (began s = [] /\ sent s = [] /\ recorded s = []) as (Hb & Hse & Hre).
    { destruct (began s), (sent s), (recorded s); simpl in Hi; try lia. done. }
    assert (queue s = []) as Hq by (destruct Hw as [Hw | Hw]; rewrite Hw in I7; naive_solver).
    rewrite Hq in I2. assert (inHand (worker s) = []) as Hh by (destruct Hw as [-> | ->]; done).
    rewrite Hh, !app_nil_r in I2. rewrite Hse, app_nil_r in I9. rewrite Hsv in Hs. injection Hs as ->.
    split_and!; try done; rewrite I4; [| done].
    rewrite <- (notificationWorker_all (handled s) a). by destruct (notificationWorker (handled s) a).
  - intros Ho. rewrite Ho in I6. destruct (pc s); destruct_and?; congruence.
  - intros Ha. by apply I10.
Qed.

(** C17: the drain ends.  Once shutdown has begun, every step other than a
    timeout or the clearing of dashboard alarms brings it closer to its end, so at most [remaining] of them can
    happen; and as long as it has not ended some such step is possible: the
    goroutines cannot block each other.  So, if no wait times out, shutdown
    comes to its checkpoint.  A monitor that clears stalled alarms from the
    dashboard before it returns leaves the distance to the end as it is. *)
Theorem shutdown_drains (a : alarmCache) (s : lifecycle) :
  rtc step (newRuntimeLifecycle a) s -> stopping s ->
  (forall n s', nsteps quietStep n s s' -> (n <= remaining s)%nat) /\
  (forall s', rtc quietStep s s' -> pc s' <> Exited -> exists s'', quietStep s' s'') /\
  (outcome s = None -> exists s' sv, rtc quietStep s s' /\ pc s' = Exited /\ saved s' = Some sv) /\
  (forall s', clearStep s s' -> stopping s' /\ remaining s' = remaining s).
Proof.
  intros Hr Hs. pose proof (inv_reachable a s Hr) as Hinv.
  assert (forall s', rtc quietStep s s' -> inv a s' /\ stopping s') as Hq.
  { intros s' Hrt. clear Hr. induction Hrt as [s | s s1 s2 Hst _ IH]; [done |].
    apply IH; [by eapply quiet_decreases | by eapply quiet_inv]. }
  split_and!.
  - intros n s' Hn. clear Hr Hq. induction Hn as [s | n s s1 s2 Hst Hn IH]; [lia |].
    destruct (quiet_decreases a s s1 Hinv Hs Hst) as [Hs1 Hlt].
    specialize (IH Hs1 (quiet_inv a s s1 Hst Hinv)). lia.
  - intros s' Hrt Hne. destruct (Hq s' Hrt). by eapply quiet_progress.
  - clear Hr Hq. remember (remaining s) as n eqn:Hn. revert s Hs Hinv Hn.
    induction (lt_wf n) as [n _ IH]; intros s Hs Hinv -> Ho.
    destruct (quiet_progress a s Hinv Hs) as [s1 Hst].
    { intros Hp. pose proof (inv_pc _ _ Hinv) as Hpc. unfold pc_inv in Hpc. rewrite Hp, Ho in Hpc. by destruct Hpc. }
    destruct (quiet_decreases a s s1 Hinv Hs Hst) as [Hs1 Hlt].
    destruct (quiet_outcome s s1 Hst Ho) as [Ho1 | (Hp1 & sv & Hsv)].
    + destruct (IH _ Hlt s1 Hs1 (quiet_inv a s s1 Hst Hinv) eq_refl Ho1) as (s' & sv & Hrt & Hp & Hsv).
      exists s', sv. split; [by eapply rtc_l | done].
    + exists s1, sv. split; [by apply rtc_once | done].
  - intros s' Hcs. by destruct Hcs.
Qed.

(** ** Witnesses *)

(** A run: one alert is accepted while the program watches, then it is shut down. *)
Definition watching : lifecycle :=
  (newRuntimeLifecycle newAlarmCache) <| pc := Watching |> <| worker := Idle |> <| monitors := 1%nat |>.

Lemma watching_reachable : rtc step (newRuntimeLifecycle newAlarmCache) watching.
Proof.
  eapply rtc_l; [left; by apply M_startWorker |]. eapply rtc_l; [left; by apply M_startMonitor |].
  eapply rtc_l; [left; by apply M_watch |]. apply rtc_refl.
Qed.

Definition stoppingState : lifecycle :=
  watching <| began := [sampleMsg] |> <| pc := IngressStopped |> <| lc_accepting := false |>.

Lemma stoppingState_reachable : rtc step (newRuntimeLifecycle newAlarmCache) stoppingState.
Proof.
  etransitivity; [apply watching_reachable |].
  eapply rtc_l; [right; right; left; apply (O_begin _ sampleMsg); [done | unfold ingressCount; simpl; lia] |].
  eapply rtc_l; [left; apply M_stopIngress; by right |]. apply rtc_refl.
Qed.

(** The same run to its end. *)
Definition recordedCache : alarmCache :=
  default newAlarmCache (applyDash (Recorded unix_epoch sampleMsg) newAlarmCache).

Definition savedRun : lifecycle :=
  MkLifecycle Exited false 0 [] [] [] [] true WorkerDone [sampleMsg] [(sampleEnv, sampleMsg)]
    (deliverAlert sampleEnv sampleMsg recordedCache).2 (Some (deliverAlert sampleEnv sampleMsg recordedCache).2)
    (Some Saved) false [Recorded unix_epoch sampleMsg] false.

Lemma savedRun_reachable : rtc step (newRuntimeLifecycle newAlarmCache) savedRun.
Proof.
  etransitivity; [apply stoppingState_reachable |].
  eapply rtc_l; [right; right; left; apply (O_send _ sampleMsg [] []); simpl; [done | done | change capacity with 64%nat; lia] |].
  eapply rtc_l; [right; right; left; by apply (O_record _ unix_epoch sampleMsg [] []) |].
  eapply rtc_l; [right; right; left; by apply (O_finish _ sampleMsg [] []) |].
  eapply rtc_l; [right; right; left; apply (O_monitorExit _ 0); [done | unfold ingressCount; simpl; lia] |].
  eapply rtc_l; [right; right; left; by apply (O_receive _ sampleMsg []) |].
  eapply rtc_l; [right; right; left; by apply (O_deliver _ sampleEnv sampleMsg) |].
  eapply rtc_l; [left; by apply M_cancel |]. eapply rtc_l; [left; by apply M_closeSockets |].
  eapply rtc_l; [left; by apply M_monitorsDone |]. eapply rtc_l; [left; by apply M_ingressDone |].
  eapply rtc_l; [left; by apply M_close |]. cbv beta iota.
  eapply rtc_l; [right; right; left; by apply O_workerEnd |].
  eapply rtc_l; [left; apply M_drained; [done | by left] |].
  eapply rtc_l; [left; by apply (M_checkpoint _ true) |]. apply rtc_refl.
Qed.

Lemma queue_safe_and_fifo_witness : panicked savedRun = false /\ accepted savedRun = [sampleMsg].
Proof.
  destruct (queue_safe_and_fifo newAlarmCache savedRun savedRun_reachable) as (H & _ & Ha).
  split; [exact H | exact Ha].
Defined.

Lemma checkpoint_after_drain_witness :
  exists sc, saved savedRun = Some sc /\ AllAlarms sc = AllAlarms recordedCache /\
    sc <| AllAlarms := AllAlarms newAlarmCache |> = notificationWorker [(sampleEnv, sampleMsg)] newAlarmCache /\
    queue savedRun = [].
Proof.
  destruct (checkpoint_after_drain newAlarmCache savedRun savedRun_reachable) as [H _].
  eexists. split; [reflexivity |]. destruct (H _ eq_refl) as (_ & _ & _ & _ & Hq & _ & _ & E & D & _).
  split; [exact D |]. split; [exact E | exact Hq].
Defined.

Lemma shutdown_drains_witness :
  remaining stoppingState = 15%nat /\ exists s' sv, rtc quietStep stoppingState s' /\ pc s' = Exited /\ saved s' = Some sv.
Proof.
  split; [reflexivity |].
  destruct (shutdown_drains newAlarmCache stoppingState stoppingState_reachable I) as (_ & _ & H & _).
  exact (H eq_refl).
Defined.
