(* ===== verification/Encryption.v ===== *)
(** * Encrypted configurations (encryption.go)

    [encrypt] and [decrypt] over bytes in [0, 255].  Base64, PKCS-style padding
    and the chaining mode are computed; the password rules, the key derivation,
    the block cipher and the MAC are parameters of the interface [Crypto], with
    the sizes and the inverse law the code relies on.  Random bytes are
    arguments. *)

From S2P Require Import Prelude Types Events.

Local Open Scope Z_scope.

Definition idKeySize : nat := 32.
Definition ivSize : nat := 16.
Definition macSize : nat := 32.
Definition BlockSize : nat := 16.

Abbreviation bytes := (list Z) (only parsing).

Class Crypto := {
  passwordError : string -> option string;
  IDKey : string -> bytes -> bytes;                      (* Argon2id with the code's parameters *)
  encBlock : bytes -> bytes -> bytes;                    (* AES-256 on one block *)
  decBlock : bytes -> bytes -> bytes;
  HMAC : bytes -> bytes -> bytes;                        (* HMAC-SHA-256 *)
  encBlock_len k b : length b = BlockSize -> length (encBlock k b) = BlockSize;
  encBlock_byte k b : Forall is_byte (encBlock k b);
  decBlock_len k b : length b = BlockSize -> length (decBlock k b) = BlockSize;
  dec_enc k b : length b = BlockSize -> Forall is_byte b -> decBlock k (encBlock k b) = b;
  HMAC_len k m : length (HMAC k m) = macSize;
  HMAC_byte k m : Forall is_byte (HMAC k m);
}.

Inductive encError :=
  | InvalidConfig | BadPassword (e : string) | BadSalt | ZeroKey | NothingEncrypted
  | BadBase64 | BadLength | AuthFailed | EmptyPlaintext | BadPadding.

(** ** Base64 (the standard alphabet, padded) *)

Definition b64Digit (n : Z) : Z :=
  if n <? 26 then 65 + n else if n <? 52 then 71 + n else if n <? 62 then n - 4 else if n =? 62 then 43 else 47.

Definition b64Value (c : Z) : option Z :=
  if (65 <=? c) && (c <=? 90) then Some (c - 65)
  else if (97 <=? c) && (c <=? 122) then Some (c - 71)
  else if (48 <=? c) && (c <=? 57) then Some (c + 4)
  else if c =? 43 then Some 62 else if c =? 47 then Some 63 else None.

Definition pad : Z := 61.

Fixpoint b64Encode (bs : bytes) : bytes :=
  match bs with
  | [] => []
  | [a] => [b64Digit (a / 4); b64Digit (a mod 4 * 16); pad; pad]
  | [a; b] => [b64Digit (a / 4); b64Digit (a mod 4 * 16 + b / 16); b64Digit (b mod 16 * 4); pad]
  | a :: b :: c :: bs' =>
      [b64Digit (a / 4); b64Digit (a mod 4 * 16 + b / 16); b64Digit (b mod 16 * 4 + c / 64); b64Digit (c mod 64)]
      ++ b64Encode bs'
  end.

(** Four characters at a time; padding only in the last four. Bits beyond the
    last byte are not checked. *)
Fixpoint b64Quads (cs : bytes) : option bytes :=
  match cs with
  | [] => Some []
  | c1 :: c2 :: c3 :: c4 :: cs' =>
      match b64Value c1, b64Value c2 with
      | Some x1, Some x2 =>
          match b64Value c3, b64Value c4 with
          | Some x3, Some x4 =>
              (fun rest => [x1 * 4 + x2 / 16; x2 mod 16 * 16 + x3 / 4; x3 mod 4 * 64 + x4] ++ rest) <$> b64Quads cs'
          | Some x3, None =>
              if (c4 =? pad) && bool_decide (cs' = []) then Some [x1 * 4 + x2 / 16; x2 mod 16 * 16 + x3 / 4] else None
          | None, None =>
              if (c3 =? pad) && (c4 =? pad) && bool_decide (cs' = []) then Some [x1 * 4 + x2 / 16] else None
          | None, Some _ => None
          end
      | _, _ => None
      end
  | _ => None
  end.

(** Line breaks are skipped wherever they are. *)
Definition b64Decode (cs : bytes) : option bytes := b64Quads (filter (fun c => c <> 10 /\ c <> 13) cs).

(** ** Cipher block chaining *)

Definition xorBlock (a b : bytes) : bytes := zip_with Z.lxor a b.

Section cbc.
Context `{Crypto}.

(** [CryptBlocks] on a list of whole blocks. *)
Fixpoint cbcEncrypt (n : nat) (key iv data : bytes) : bytes :=
  match n with
  | O => []
  | S n' =>
      let c := encBlock key (xorBlock (take BlockSize data) iv) in
      c ++ cbcEncrypt n' key c (drop BlockSize data)
  end.

Fixpoint cbcDecrypt (n : nat) (key iv data : bytes) : bytes :=
  match n with
  | O => []
  | S n' =>
      let c := take BlockSize data in
      xorBlock (decBlock key c) iv ++ cbcDecrypt n' key c (drop BlockSize data)
  end.

Definition blocksOf (data : bytes) : nat := (length data / BlockSize)%nat.

(** ** Keys *)

Definition zeros (n : nat) : bytes := repeat 0 n.

(** [fresh]: the salt drawn when none is known. *)
Definition getKey (pass : string) (knownSalt : option bytes) (fresh : bytes)
  : encError + bytes * bytes * bytes :=
  match passwordError pass with
  | Some e => inl (BadPassword e)
  | None =>
      let derive salt :=
        let keys := IDKey pass salt in
        if negb (Nat.eqb (length keys) (idKeySize * 2)) || bool_decide (keys = zeros (idKeySize * 2)) then inl ZeroKey
        else inr (take idKeySize keys, drop idKeySize keys, salt) in
      match knownSalt with
      | None => derive fresh
      | Some salt =>
          if negb (Nat.eqb (length salt) idKeySize) || bool_decide (salt = zeros idKeySize) then inl BadSalt
          else derive salt
      end
  end.

(** ** Encrypting and decrypting *)

Definition padded (plainText : bytes) : bytes :=
  let padLen := (BlockSize - length plainText mod BlockSize)%nat in
  plainText ++ repeat (Z.of_nat padLen) padLen.

Definition encrypt (salt iv plainText : bytes) (password : string) : encError + bytes :=
  if Nat.eqb (length plainText) 0 then inl InvalidConfig
  else match getKey password None salt with
       | inl e => inl e
       | inr (key, macKey, salt) =>
           let data := padded plainText in
           let cipherText := cbcEncrypt (blocksOf data) key iv data in
           if Nat.eqb (length cipherText) 0 then inl NothingEncrypted
           else
             let buf := salt ++ iv ++ cipherText in
             inr (b64Encode (buf ++ HMAC macKey buf))
       end.

Definition unpad (plainText : bytes) : encError + bytes :=
  match last plainText with
  | None => inl EmptyPlaintext
  | Some l =>
      let padLen := Z.to_nat l in
      if (l <? 1) || (Z.of_nat BlockSize <? l) || (length plainText <? padLen)%nat then inl BadPadding
      else if negb (bool_decide (drop (length plainText - padLen) plainText = repeat l padLen)) then inl BadPadding
      else inr (take (length plainText - padLen) plainText)
  end.

Definition decrypt (encodedFile : bytes) (password : string) : encError + bytes :=
  match b64Decode encodedFile with
  | None => inl BadBase64
  | Some cipherText =>
      let size := length cipherText in
      let minimumSize := (idKeySize + ivSize + BlockSize + macSize)%nat in
      if (size <? minimumSize)%nat ||
         negb (Nat.eqb ((size - idKeySize - ivSize - macSize) mod BlockSize) 0)
      then inl BadLength
      else match getKey password (Some (take idKeySize cipherText)) [] with
           | inl e => inl e
           | inr (key, macKey, _) =>
               let authText := take (size - macSize) cipherText in
               if negb (bool_decide (drop (size - macSize) cipherText = HMAC macKey authText)) then inl AuthFailed
               else
                 let iv := take ivSize (drop idKeySize cipherText) in
                 let data := drop (ivSize + idKeySize) authText in
                 unpad (cbcDecrypt (blocksOf data) key iv data)
           end
  end.

(** The direction decides which file is read and which is written.  [read] is
    [None] for an input that cannot be opened or read; [write] says how opening
    and writing the output ends.  The result is the error, if any, and the
    output file as it is left: opening it truncates it, so a write that fails
    leaves what had been written. *)
Inductive writeOutcome := CannotOpen | WriteStopped (n : nat) | Written.

Inductive configError := ReadFailed | CryptFailed (e : encError) | OpenFailed | WriteFailed.

Definition EncryptedConfig (salt iv : bytes) (read : string -> option bytes) (write : string -> writeOutcome)
    (plaintext ciphertext pass : string) (decrypting : bool) : option configError * option (string * bytes) :=
  let '(infile, outfile) := if decrypting then (ciphertext, plaintext) else (plaintext, ciphertext) in
  match read infile with
  | None => (Some ReadFailed, None)
  | Some inConfig =>
      match (if decrypting then decrypt inConfig pass else encrypt salt iv inConfig pass) with
      | inl e => (Some (CryptFailed e), None)
      | inr outConfig =>
          match write outfile with
          | CannotOpen => (Some OpenFailed, None)
          | WriteStopped n => (Some WriteFailed, Some (outfile, take n outConfig))
          | Written => (None, Some (outfile, outConfig))
          end
      end
  end.

End cbc.

(** ** Lemmas *)

Lemma b64_digit_value n : 0 <= n < 64 -> b64Value (b64Digit n) = Some n /\ b64Digit n <> 10 /\ b64Digit n <> 13.
Proof.
  intros Hn. pose proof (below_cases (fun n => bool_decide (b64Value (b64Digit n) = Some n /\ b64Digit n <> 10 /\
    b64Digit n <> 13)) 64 n eq_refl Hn) as H. by apply bool_decide_eq_true in H.
Qed.

Ltac div_lia := Z.to_euclidean_division_equations; lia.

(** Induction three bytes at a time. *)
Lemma triples_ind (P : bytes -> Prop) :
  P [] -> (forall a, P [a]) -> (forall a b, P [a; b]) -> (forall a b c l, P l -> P (a :: b :: c :: l)) ->
  forall l, P l.
Proof.
  intros H0 H1 H2 H3. fix IH 1. intros [| a [| b [| c l]]]; [exact H0 | apply H1 | apply H2 | apply H3, IH].
Qed.

Definition noBreak (c : Z) : Prop := c <> 10 /\ c <> 13.

Lemma b64Digit_noBreak n : 0 <= n < 64 -> noBreak (b64Digit n).
Proof. intros Hn. by apply b64_digit_value. Qed.

Lemma b64Encode_noBreak bs : Forall is_byte bs -> Forall noBreak (b64Encode bs).
Proof.
  induction bs as [| a | a b | a b c bs IH] using triples_ind; intros Hb;
    rewrite ?Forall_cons in Hb; unfold is_byte in Hb; destruct_and?; simpl;
    repeat (apply Forall_cons; split; [first [apply b64Digit_noBreak; div_lia | done] |]); auto.
Qed.

Lemma b64Quads_encode bs : Forall is_byte bs -> b64Quads (b64Encode bs) = Some bs.
Proof.
  induction bs as [| a | a b | a b c bs IH] using triples_ind; intros Hb;
    rewrite ?Forall_cons in Hb; unfold is_byte in Hb; destruct_and?; [done | | |].
  - cbn [b64Encode b64Quads]. rewrite (proj1 (b64_digit_value (a / 4) ltac:(div_lia))),
      (proj1 (b64_digit_value (a mod 4 * 16) ltac:(div_lia))).
    simpl. do 2 f_equal. div_lia.
  - cbn [b64Encode b64Quads]. rewrite (proj1 (b64_digit_value (a / 4) ltac:(div_lia))),
      (proj1 (b64_digit_value (a mod 4 * 16 + b / 16) ltac:(div_lia))),
      (proj1 (b64_digit_value (b mod 16 * 4) ltac:(div_lia))).
    simpl. f_equal. f_equal; [| f_equal]; div_lia.
  - cbn [b64Encode b64Quads app]. rewrite (proj1 (b64_digit_value (a / 4) ltac:(div_lia))),
      (proj1 (b64_digit_value (a mod 4 * 16 + b / 16) ltac:(div_lia))),
      (proj1 (b64_digit_value (b mod 16 * 4 + c / 64) ltac:(div_lia))),
      (proj1 (b64_digit_value (c mod 64) ltac:(div_lia))), IH by done.
    simpl. f_equal. f_equal; [| f_equal; [| f_equal]]; div_lia.
Qed.

Lemma b64_roundtrip bs : Forall is_byte bs -> b64Decode (b64Encode bs) = Some bs.
Proof.
  intros Hb. unfold b64Decode. pose proof (b64Encode_noBreak bs Hb) as Hn.
  assert (filter (fun c => c <> 10 /\ c <> 13) (b64Encode bs) = b64Encode bs) as ->; [| by apply b64Quads_encode].
  generalize dependent (b64Encode bs). intros cs Hcs. induction Hcs as [| c cs Hc _ IH]; [done |].
  rewrite filter_cons, decide_True by done. by rewrite IH.
Qed.

(** *** Chaining *)

Lemma xorBlock_length a b : length a = length b -> length (xorBlock a b) = length a.
Proof. intros Hl. unfold xorBlock. rewrite length_zip_with. lia. Qed.

Lemma xorBlock_involutive a b : length a = length b -> xorBlock (xorBlock a b) b = a.
Proof.
  revert b. induction a as [| x a IH]; intros [| y b] Hl; try done. simpl in *. f_equal; [| apply IH; lia].
  by rewrite Z.lxor_assoc, Z.lxor_nilpotent, Z.lxor_0_r.
Qed.

Lemma lxor_byte x y : is_byte x -> is_byte y -> is_byte (Z.lxor x y).
Proof.
  unfold is_byte. intros Hx Hy. split.
  - apply Z.lxor_nonneg. lia.
  - destruct (decide (Z.lxor x y = 0)) as [-> | Hne]; [lia |].
    apply Z.log2_lt_pow2 with (b := 8); [pose proof (Z.lxor_nonneg x y); lia |].
    pose proof (Z.log2_lxor x y ltac:(lia) ltac:(lia)).
    assert (Z.log2 x < 8) by (destruct (decide (x = 0)) as [-> |]; [done | apply Z.log2_lt_pow2; lia]).
    assert (Z.log2 y < 8) by (destruct (decide (y = 0)) as [-> |]; [done | apply Z.log2_lt_pow2; lia]). lia.
Qed.

Lemma xorBlock_byte a b : Forall is_byte a -> Forall is_byte b -> Forall is_byte (xorBlock a b).
Proof.
  intros Ha. revert b. induction Ha as [| x a Hx _ IH]; intros b Hb; [done |].
  destruct Hb as [| y b Hy Hb]; [done |]. constructor; [by apply lxor_byte | by apply IH].
Qed.

Section roundtrip.
Context `{Crypto}.

Lemma cbcEncrypt_length n key iv data : length iv = BlockSize -> length data = (n * BlockSize)%nat ->
  length (cbcEncrypt n key iv data) = (n * BlockSize)%nat.
Proof.
  revert iv data. induction n as [| n IH]; intros iv data Hiv Hd; [done |]. cbn [cbcEncrypt].
  assert (length (encBlock key (xorBlock (take BlockSize data) iv)) = BlockSize) as Hc.
  { apply encBlock_len. rewrite xorBlock_length; rewrite length_take; unfold BlockSize in *; lia. }
  rewrite length_app, Hc, IH; [unfold BlockSize; lia | done |]. rewrite length_drop. unfold BlockSize in *. lia.
Qed.

Lemma cbcEncrypt_byte n key iv data : Forall is_byte (cbcEncrypt n key iv data).
Proof.
  revert iv data. induction n as [| n IH]; intros iv data; [constructor |]. cbn [cbcEncrypt].
  apply Forall_app. split; [apply encBlock_byte | apply IH].
Qed.

Lemma cbc_roundtrip n key iv data :
  length iv = BlockSize -> Forall is_byte iv -> length data = (n * BlockSize)%nat -> Forall is_byte data ->
  cbcDecrypt n key iv (cbcEncrypt n key iv data) = data.
Proof.
  revert iv data. induction n as [| n IH]; intros iv data Hiv Hbi Hd Hbd; [by destruct data |].
  cbn [cbcEncrypt cbcDecrypt]. set (c := encBlock key _).
  assert (length (take BlockSize data) = BlockSize) as Ht by (rewrite length_take; unfold BlockSize in *; lia).
  assert (length c = BlockSize) as Hc by (apply encBlock_len; rewrite xorBlock_length; lia).
  rewrite take_app_length' by done. rewrite drop_app_length' by done. rewrite IH.
  - unfold c. rewrite dec_enc, xorBlock_involutive.
    + apply take_drop.
    + lia.
    + rewrite xorBlock_length; lia.
    + apply xorBlock_byte; [by apply Forall_take | done].
  - done.
  - apply encBlock_byte.
  - rewrite length_drop. unfold BlockSize in *. lia.
  - by apply Forall_drop.
Qed.

End roundtrip.

(** *** Padding *)

Definition padLength (p : bytes) : nat := (BlockSize - length p mod BlockSize)%nat.

Lemma padLength_range (p : bytes) : (1 <= padLength p <= BlockSize)%nat.
Proof.
  unfold padLength, BlockSize. pose proof (Nat.mod_upper_bound (length p) 16 ltac:(lia)). lia.
Qed.

Lemma padded_blocks (p : bytes) : length (padded p) = (blocksOf (padded p) * BlockSize)%nat /\ (0 < blocksOf (padded p))%nat.
Proof.
  unfold blocksOf, padded. fold (padLength p). rewrite length_app, repeat_length.
  pose proof (padLength_range p) as Hr. pose proof (Nat.div_mod_eq (length p) BlockSize) as Hd.
  pose proof (Nat.mod_upper_bound (length p) BlockSize ltac:(unfold BlockSize; lia)) as Hm.
  assert (length p + padLength p = (S (length p / BlockSize)) * BlockSize)%nat as ->.
  { unfold padLength in *. lia. }
  rewrite Nat.div_mul by (unfold BlockSize; lia). lia.
Qed.

Lemma padded_byte p : Forall is_byte p -> Forall is_byte (padded p).
Proof.
  intros Hp. apply Forall_app. split; [done |]. apply Forall_forall. intros x Hx%list_elem_of_In%repeat_spec.
  subst x. fold (padLength p). pose proof (padLength_range p). unfold is_byte, BlockSize in *. lia.
Qed.

Lemma last_repeat (p : bytes) (x : Z) (n : nat) : (0 < n)%nat -> last (p ++ repeat x n) = Some x.
Proof.
  intros Hn. destruct n as [| n]; [lia |]. change (repeat x (S n)) with (x :: repeat x n).
  by rewrite repeat_cons, app_assoc, last_snoc.
Qed.

Lemma unpad_padded p : unpad (padded p) = inr p.
Proof.
  pose proof (padLength_range p) as Hr. unfold unpad, padded. fold (padLength p).
  set (n := padLength p) in *. set (l := Z.of_nat n).
  assert (last (p ++ repeat l n) = Some l) as ->.
  { apply last_repeat. lia. }
  replace (Z.to_nat l) with n by lia. rewrite length_app, repeat_length.
  rewrite (proj2 (Z.ltb_ge l 1)), (proj2 (Z.ltb_ge _ l)), (proj2 (Nat.ltb_ge _ _)) by lia. cbn [orb].
  replace (length p + n - n)%nat with (length p) by lia.
  rewrite drop_app_length, take_app_length. by rewrite bool_decide_true.
Qed.

(** What is accepted as padded is the padding of the result. *)
Lemma unpad_inv (n : nat) (d p : bytes) : length d = (n * BlockSize)%nat -> unpad d = inr p -> padded p = d.
Proof.
  intros Hd Hu. unfold unpad in Hu. destruct (last d) as [l |]; [| done].
  destruct ((l <? 1) || (Z.of_nat BlockSize <? l) || (length d <? Z.to_nat l)%nat)%bool eqn:Hc; [done |].
  apply orb_false_iff in Hc as [[H1 H2]%orb_false_iff H3]. breflect. apply Nat.ltb_ge in H3.
  case_bool_decide as Hrep; [| done]. simpl in Hu. injection Hu as <-.
  assert (length (take (length d - Z.to_nat l) d) = length d - Z.to_nat l)%nat as Hlen by (rewrite length_take; lia).
  unfold padded. rewrite Hlen.
  assert (BlockSize - (length d - Z.to_nat l) mod BlockSize = Z.to_nat l)%nat as ->.
  { rewrite Hd. unfold BlockSize in *.
    destruct n as [| n]; [simpl in *; lia |].
    replace (S n * 16 - Z.to_nat l)%nat with (16 - Z.to_nat l + n * 16)%nat by lia.
    rewrite Nat.Div0.mod_add. destruct (decide (Z.to_nat l = 16%nat)) as [-> |]; [reflexivity |].
    rewrite Nat.mod_small by lia. lia. }
  replace (Z.of_nat (Z.to_nat l)) with l by lia. rewrite <- Hrep. apply take_drop.
Qed.

Lemma getKey_known `{Crypto} pass salt r : length salt = idKeySize -> salt <> zeros idKeySize ->
  getKey pass None salt = inr r -> getKey pass (Some salt) [] = inr r.
Proof.
  intros Hl Hz. unfold getKey. destruct (passwordError pass); [done |].
  rewrite Hl, (bool_decide_false (salt = _)) by done. done.
Qed.

Lemma getKey_salt `{Crypto} pass known fresh key mac salt :
  getKey pass known fresh = inr (key, mac, salt) -> salt = default fresh known.
Proof.
  unfold getKey. destruct (passwordError pass); [done |].
  destruct known as [k |]; simpl; repeat case_match; intros; by simplify_eq.
Qed.

Lemma cbcDecrypt_length `{Crypto} n key iv data : length iv = BlockSize -> length data = (n * BlockSize)%nat ->
  length (cbcDecrypt n key iv data) = (n * BlockSize)%nat.
Proof.
  revert iv data. induction n as [| n IH]; intros iv data Hiv Hd; [done |]. cbn [cbcDecrypt].
  assert (length (take BlockSize data) = BlockSize) as Ht by (rewrite length_take; unfold BlockSize in *; lia).
  rewrite length_app, xorBlock_length, IH, decBlock_len; rewrite ?decBlock_len; try done;
    rewrite ?length_drop; unfold BlockSize in *; lia.
Qed.

(** ** Properties *)

Lemma encrypt_decrypts `{Crypto} (salt iv plainText : bytes) (password : string) :
  length salt = idKeySize -> Forall is_byte salt -> salt <> zeros idKeySize ->
  length iv = ivSize -> Forall is_byte iv -> plainText <> [] -> Forall is_byte plainText ->
  passwordError password = None -> length (IDKey password salt) = 64%nat -> IDKey password salt <> zeros 64 ->
  exists encoded, encrypt salt iv plainText password = inr encoded /\
    decrypt encoded password = inr plainText.
Proof.
  intros Hsl Hsb Hsz Hil Hib Hp Hpb Hpw Hkl Hkz. unfold encrypt.
  rewrite (proj2 (Nat.eqb_neq _ _)) by (by destruct plainText).
  destruct (getKey password None salt) as [e | [[key macKey] s]] eqn:Hk.
  { unfold getKey in Hk. rewrite Hpw, Hkl, bool_decide_false in Hk by done. done. }
  pose proof (getKey_salt _ _ _ _ _ _ Hk) as Hs. simpl in Hs. subst s.
  destruct (padded_blocks plainText) as [Hdl Hdn]. set (data := padded plainText) in *.
  pose proof (cbcEncrypt_length (blocksOf data) key iv data Hil Hdl) as Hcl.
  set (ct := cbcEncrypt (blocksOf data) key iv data) in *.
  assert (BlockSize <= length ct)%nat as Hct by (rewrite Hcl; unfold BlockSize in *; lia).
  rewrite (proj2 (Nat.eqb_neq _ _)) by (unfold BlockSize in *; lia).
  eexists. split; [reflexivity |]. set (buf := salt ++ iv ++ ct). unfold decrypt.
  rewrite b64_roundtrip.
  2: { unfold buf. rewrite !Forall_app. split_and!; [done | done | apply cbcEncrypt_byte | apply HMAC_byte]. }
  assert (length (buf ++ HMAC macKey buf) = 48 + length ct + 32)%nat as Hlen.
  { unfold buf. rewrite !length_app, HMAC_len, Hsl, Hil. unfold idKeySize, ivSize, macSize. lia. }
  rewrite Hlen.
  assert (((48 + length ct + 32 <? idKeySize + ivSize + BlockSize + macSize)%nat ||
    negb (Nat.eqb ((48 + length ct + 32 - idKeySize - ivSize - macSize) mod BlockSize) 0)) = false)%bool as ->.
  { apply orb_false_iff. split; [apply Nat.ltb_ge; unfold idKeySize, ivSize, macSize, BlockSize in *; lia |].
    apply negb_false_iff, Nat.eqb_eq. rewrite Hcl. unfold idKeySize, ivSize, macSize.
    replace (48 + blocksOf data * BlockSize + 32 - 32 - 16 - 32)%nat with (blocksOf data * BlockSize)%nat by lia.
    apply Nat.Div0.mod_mul. }
  assert (take idKeySize (buf ++ HMAC macKey buf) = salt) as ->.
  { unfold buf. rewrite <- !app_assoc. by rewrite take_app_length' by done. }
  rewrite (getKey_known _ _ _ Hsl Hsz Hk).
  assert (48 + length ct + 32 - macSize = length buf)%nat as ->.
  { unfold buf. rewrite !length_app, Hsl, Hil. unfold idKeySize, ivSize, macSize. lia. }
  rewrite take_app_length, drop_app_length, bool_decide_true by done. cbn [negb].
  assert (take ivSize (drop idKeySize (buf ++ HMAC macKey buf)) = iv) as ->.
  { unfold buf. rewrite <- !app_assoc, drop_app_length' by done. by rewrite take_app_length' by done. }
  assert (drop (ivSize + idKeySize) buf = ct) as ->.
  { unfold buf. rewrite app_assoc. rewrite drop_app_length'; [done |]. rewrite length_app, Hsl, Hil. done. }
  assert (blocksOf ct = blocksOf data) as ->.
  { unfold blocksOf at 1. rewrite Hcl. apply Nat.div_mul. unfold BlockSize. lia. }
  unfold ct. rewrite cbc_roundtrip; [apply unpad_padded | done | done | done | by apply padded_byte].
Qed.

(** C39: encryption is reversible.  If the configuration has at least one byte,
    the password is accepted, the salt drawn and the keys derived from password
    and salt are not all zeros, encrypting succeeds and decrypting the result
    with the same password gives the configuration back.  So does the
    conversion of files: encrypting one file into another and that one back
    writes what was read, if the files can be read and written. *)
Theorem encrypt_roundtrip `{Crypto} (salt iv plainText : bytes) (password : string) :
  length salt = idKeySize -> Forall is_byte salt -> salt <> zeros idKeySize ->
  length iv = ivSize -> Forall is_byte iv -> plainText <> [] -> Forall is_byte plainText ->
  passwordError password = None -> length (IDKey password salt) = 64%nat -> IDKey password salt <> zeros 64 ->
  exists encoded, encrypt salt iv plainText password = inr encoded /\
    decrypt encoded password = inr plainText /\
    forall read write plain cipher, write plain = Written -> write cipher = Written ->
      (read plain = Some plainText ->
       EncryptedConfig salt iv read write plain cipher password false = (None, Some (cipher, encoded))) /\
      (read cipher = Some encoded ->
       forall salt' iv', EncryptedConfig salt' iv' read write plain cipher password true = (None, Some (plain, plainText))).
Proof.
  intros. destruct (encrypt_decrypts salt iv plainText password) as (encoded & E & D); [done.. |].
  exists encoded. split_and!; [done | done |]. intros read write plain cipher Hp Hc. unfold EncryptedConfig. split.
  - intros ->. by rewrite E, Hc.
  - intros -> _ _. by rewrite D, Hp.
Qed.

(** C12: only authentic files are decrypted.  If decrypting succeeds, the file is
    the base64 form of a salt, an initialisation vector, whole cipher blocks
    and the MAC of all three under a key derived from the password and the
    salt, and the blocks decrypt to exactly the padded configuration. *)
Theorem decrypt_authentic `{Crypto} (encoded plainText : bytes) (password : string) :
  decrypt encoded password = inr plainText ->
  exists salt iv ct key macKey, b64Decode encoded = Some (salt ++ iv ++ ct ++ HMAC macKey (salt ++ iv ++ ct)) /\
    length salt = idKeySize /\ length iv = ivSize /\ (exists n, length ct = n * BlockSize)%nat /\ ct <> [] /\
    getKey password (Some salt) [] = inr (key, macKey, salt) /\
    padded plainText = cbcDecrypt (blocksOf ct) key iv ct.
Proof.
  unfold decrypt. destruct (b64Decode encoded) as [c |]; [| done].
  destruct (_ || _)%bool eqn:Hlen; [done |]. apply orb_false_iff in Hlen as [Hmin Hmod].
  apply Nat.ltb_ge in Hmin. apply negb_false_iff, Nat.eqb_eq in Hmod.
  unfold idKeySize, ivSize, macSize in Hmin, Hmod. unfold BlockSize at 1 in Hmin.
  destruct (getKey password (Some (take idKeySize c)) []) as [e | [[key macKey] s]] eqn:Hk; [done |].
  pose proof (getKey_salt _ _ _ _ _ _ Hk) as Hs. simpl in Hs. subst s.
  case_bool_decide as Hmac; [| done]. cbn [negb]. intros Hu.
  set (auth := take (length c - macSize) c) in *.
  assert (length auth = length c - 32)%nat as Hal by (unfold auth, macSize; rewrite length_take; lia).
  set (ct := drop (ivSize + idKeySize) auth) in *.
  assert (length ct = length c - 80)%nat as Hcl by (unfold ct, ivSize, idKeySize; rewrite length_drop; lia).
  assert (take idKeySize c ++ take ivSize (drop idKeySize c) ++ ct = auth) as Hauth.
  { assert (take idKeySize c = take idKeySize auth) as ->.
    { unfold auth. rewrite take_take. f_equal. unfold idKeySize, macSize. lia. }
    assert (take ivSize (drop idKeySize c) = take ivSize (drop idKeySize auth)) as ->.
    { unfold auth. rewrite !skipn_firstn_comm, take_take. f_equal. unfold idKeySize, ivSize, macSize. lia. }
    unfold ct. rewrite Nat.add_comm, <- drop_drop. by rewrite !take_drop. }
  assert (length ct = blocksOf ct * BlockSize)%nat as Hblk.
  { unfold blocksOf. replace (length c - 32 - 16 - 32)%nat with (length ct) in Hmod by lia.
    pose proof (Nat.div_mod_eq (length ct) BlockSize). lia. }
  exists (take idKeySize c), (take ivSize (drop idKeySize c)), ct, key, macKey.
  assert (length (take ivSize (drop idKeySize c)) = ivSize) as Hil.
  { rewrite length_take, length_drop. unfold ivSize, idKeySize. lia. }
  split_and!.
  - f_equal. rewrite Hauth, <- Hmac. rewrite (app_assoc _ ct), (app_assoc (take idKeySize c)), Hauth.
    unfold auth. by rewrite take_drop.
  - rewrite length_take. unfold idKeySize. lia.
  - done.
  - by exists (blocksOf ct).
  - intros E. rewrite E in Hcl. simpl in Hcl. lia.
  - done.
  - apply (unpad_inv (blocksOf ct)); [by apply cbcDecrypt_length | done].
Qed.

(** ** Witnesses *)

(** A toy cipher with the required laws. *)
#[refine] Definition sampleCrypto : Crypto := {|
  passwordError p := if (String.length p <? 8)%nat then Some "password too short" else None;
  IDKey _ _ := repeat 7 64;
  encBlock _ b := (fun x => Z.lxor (x mod 256) 90) <$> b;
  decBlock _ b := (fun x => Z.lxor (x mod 256) 90) <$> b;
  HMAC k m := repeat (foldr Z.add 0 (k ++ m) mod 256) 32;
|}.
Proof.
  - intros. by rewrite length_fmap.
  - intros _ b. apply Forall_fmap, Forall_forall. intros x _. apply lxor_byte; unfold is_byte; div_lia.
  - intros. by rewrite length_fmap.
  - intros _ b _ Hb. rewrite <- list_fmap_compose. rewrite <- (list_fmap_id b) at 2.
    apply list_fmap_ext. intros i x Hx. simpl. rewrite Forall_lookup in Hb. specialize (Hb i x Hx).
    pose proof (lxor_byte x 90 Hb ltac:(unfold is_byte; lia)) as Hl. unfold is_byte in *.
    rewrite (Z.mod_small x) by lia. rewrite Z.mod_small by lia.
    by rewrite Z.lxor_assoc, Z.lxor_nilpotent, Z.lxor_0_r.
  - intros. apply repeat_length.
  - intros k m. apply Forall_forall. intros x Hx%list_elem_of_In%repeat_spec. subst x. unfold is_byte. div_lia.
Defined.

Lemma encrypt_roundtrip_witness :
  exists encoded, @encrypt sampleCrypto (repeat 1 32) (repeat 2 16) [104; 105] "longenough" = inr encoded /\
    @decrypt sampleCrypto encoded "longenough" = inr [104; 105] /\ length encoded = 128%nat.
Proof.
  destruct (@encrypt_roundtrip sampleCrypto (repeat 1 32) (repeat 2 16) [104; 105] "longenough") as (e & E & D & _).
  { done. } { by repeat constructor. } { done. } { done. } { by repeat constructor. } { done. } { by repeat constructor. }
  { done. } { done. } { done. }
  exists e. split; [exact E |]. split; [exact D |].
  assert (inr (A := encError) (length e) = match @encrypt sampleCrypto (repeat 1 32) (repeat 2 16) [104; 105] "longenough"
    with inl e => inl e | inr e => inr (length e) end) as Hl by (rewrite E; reflexivity).
  vm_compute in Hl. by injection Hl.
Defined.

Lemma decrypt_authentic_witness :
  exists encoded salt iv ct key macKey,
    @decrypt sampleCrypto encoded "longenough" = inr [104; 105] /\
    b64Decode encoded = Some (salt ++ iv ++ ct ++ @HMAC sampleCrypto macKey (salt ++ iv ++ ct)) /\
    padded [104; 105] = @cbcDecrypt sampleCrypto (blocksOf ct) key iv ct.
Proof.
  destruct (@encrypt sampleCrypto (repeat 1 32) (repeat 2 16) [104; 105] "longenough") as [e | encoded] eqn:E;
    [vm_compute in E; discriminate |].
  assert (@decrypt sampleCrypto encoded "longenough" = inr [104; 105]) as D.
  { assert (encoded = match @encrypt sampleCrypto (repeat 1 32) (repeat 2 16) [104; 105] "longenough"
      with inl _ => [] | inr e => e end) as -> by (rewrite E; reflexivity). vm_compute. reflexivity. }
  destruct (@decrypt_authentic sampleCrypto encoded [104; 105] "longenough" D)
    as (salt & iv & ct & key & macKey & H1 & _ & _ & _ & _ & _ & H2).
  exists encoded, salt, iv, ct, key, macKey. split; [exact D |]. split; [exact H1 | exact H2].
Defined.
