(* ===== verification/ConfigLoad.v ===== *)
(** * Loading and validating the configuration (types.go, and the start of [Run])

    [loadConfig] reads the settings (from a file, or decrypted from a URL), adds
    a chain per file of the chain directory, and restores the durable state;
    [validateConfig] completes the chains and lists the problems; [startup] is
    the part of [Run] before the goroutines start.  Reading files, HTTP, URL
    parsing and YAML are an interface, [LoadEnv].  A null chain entry makes the
    program panic ([None]). *)

From Stdlib Require Import Ascii.
From S2P Require Import Prelude Types AlarmCache Samples RuntimeState Alerting State Events ChainDetails Ws Rpc Encryption.

Local Open Scope Z_scope.

(** ** The interface

    A YAML decoder fills the exported fields of the value it is given; those of
    a decoded configuration are taken from a [Config] and a map of chains. *)

Class LoadEnv := {
  httpGet : string -> string + list Z;
  readConfigFile : string -> string + list Z;
  readDir : string -> list (string * bool) * option string;    (* entries, whether directories; error *)
  readEntry : string -> string -> string + list Z;             (* a file of a directory *)
  yamlConfig : list Z -> string + Config * gomap (option ChainConfig);
  yamlChain : list Z -> string + ChainConfig;
  validURL : string -> bool;
}.

(** [&ChainConfig{}] with the exported fields of [s]; likewise the nodes. *)
Definition zeroNode (s : NodeConfig) : NodeConfig := MkNodeConfig (Url s) (AlertIfDown s) false false false "" 0.

Definition zeroChain (s : ChainConfig) : ChainConfig :=
  MkChainConfig "" None None false None None [] "" 0 false false false 0 0 0 0 0 0 0 0
    (ChainId s) (ValAddress s) (ValconsOverride s) (ExtraInfo s) (Alerts s) (PublicFallback s)
    (zeroNode <$> Nodes s).

(** The configuration [loadConfig] has built when it restores the state: the
    settings, empty channels, a fresh cache. *)
Definition zeroConfig (s : Config) (chains : gmap string ChainConfig) : Config :=
  MkConfig [] [] [] false newAlarmCache false 0 (EnableDash s) (Listen s) (HideLogs s) (NodeDownMin s)
    (NodeDownSeverity s) (Prom s) (PrometheusListenPort s) (Pagerduty s) (Discord s) (Telegram s) (Slack s)
    (Healthcheck s) chains.

Inductive loadError :=
  | PasswordRequired
  | Fetch (e : string)
  | Decrypt (e : encError)
  | ReadConfig (e : string)
  | Yaml (e : string)
  | ChainFile (name e : string)
  | NoChainsConfigured
  | LoadState (e : stateError).

Section load.
Context `{LoadEnv}.

(** ** Loading *)

Definition decodeConfig (data : list Z) : loadError + Config * gomap (option ChainConfig) :=
  match yamlConfig data with inl e => inl (Yaml e) | inr c => inr c end.

Definition loadChainConfig (dir name : string) : string + ChainConfig :=
  match readEntry dir name with
  | inl e => inl e
  | inr b => match yamlChain b with inl e => inl e | inr c => inr (zeroChain c) end
  end.

Definition isRemote (yamlFile : string) : bool := HasPrefix yamlFile "http://" || HasPrefix yamlFile "https://".

(** The settings, before the chain directory is read. *)
Definition loadSettings `{Crypto} (yamlFile password : string) : loadError + Config * gomap (option ChainConfig) :=
  if isRemote yamlFile then
    if String.eqb password "" then inl PasswordRequired
    else match httpGet yamlFile with
         | inl e => inl (Fetch e)
         | inr b => match decrypt b password with
                    | inl e => inl (Decrypt e)
                    | inr decrypted => decodeConfig decrypted
                    end
         end
  else match readConfigFile yamlFile with
       | inl e => inl (ReadConfig e)
       | inr b => decodeConfig b
       end.

Definition chainNameOf (file : string) : string := default "" (head (Split file ".")).

(** Directories and files that are not [.yml] are skipped; the first file that
    cannot be read ends the start; a file replaces a chain of the same name. *)
Fixpoint loadChainFiles (dir : string) (entries : list (string * bool)) (chains : gomap (option ChainConfig))
  : loadError + gomap (option ChainConfig) :=
  match entries with
  | [] => inr chains
  | (name, isDir) :: entries =>
      if isDir then loadChainFiles dir entries chains
      else if negb (HasSuffix name ".yml") then loadChainFiles dir entries chains
      else match loadChainConfig dir name with
           | inl e => inl (ChainFile name e)
           | inr cc => loadChainFiles dir entries (Some (<[chainNameOf name := Some cc]> (default ∅ chains)))
           end
  end.

Definition zeroChains (chains : gomap (option ChainConfig)) : gomap (option ChainConfig) :=
  (fun m : gmap string (option ChainConfig) => (fun o : option ChainConfig => zeroChain <$> o) <$> m) <$> chains.

(** The entries are used even if the directory could not be read to its end. *)
Definition loadConfig `{Crypto, JsonCodec} (now : time) (readState : string -> stateError + string)
    (yamlFile stateFile dir password : string) : option (loadError + Config) :=
  match loadSettings yamlFile password with
  | inl e => Some (inl e)
  | inr (settings, chains) =>
      match loadChainFiles dir (readDir dir).1 (zeroChains chains) with
      | inl e => Some (inl e)
      | inr chains =>
          if Nat.eqb (size (default ∅ chains)) 0 then Some (inl NoChainsConfigured)
          else if bool_decide (map_Forall (fun _ (o : option ChainConfig) => is_Some o) (default ∅ chains)) then
            let c := zeroConfig settings (omap (M := gmap string) id (default ∅ chains)) in
            match loadStateWithReader stateFile readState with
            | inl e => Some (inl (LoadState e))
            | inr (saved, _) => Some (inr (restoreSavedState now (Some saved) c).1)
            end
          else None
      end
  end.

End load.

(** ** Problems *)

Inductive problem :=
  | BadListen (listen : string)
  | OauthKey
  | ShortNodeDown
  | NotEnabled (d : notifyDest) (k : string)
  | NoAlertTypes (k : string)
  | NoNotifications (k : string).

(** [%20s]: padded on the left to twenty characters. *)
Definition pad20 (s : string) : string := spaces (20 - runeCount s) +:+ s.

Definition destLabel (d : notifyDest) : string :=
  match d with slk => "slack" | di => "discord" | pd => "pagerduty" | tg => "telegram" end.

Definition problemText (p : problem) : string :=
  match p with
  | BadListen listen => "error: The listen URL " +:+ listen +:+ " does not appear to be valid"
  | OauthKey => "error: The Pagerduty key provided appears to be an Oauth token, not a V2 Events API key."
  | ShortNodeDown =>
      "warning: setting 'node_down_alert_minutes' to less than three minutes might result in false alarms"
  | NotEnabled d k =>
      "warn: " +:+ pad20 k +:+ " is configured for " +:+ destLabel d +:+ " alerts, but it is not enabled"
  | NoAlertTypes k => "warn: " +:+ pad20 k +:+ " has no alert types configured"
  | NoNotifications k => "warn: " +:+ pad20 k +:+ " has no notifications configured"
  end.

(** A [switch] without a tag: the body of the first case that holds, and of the
    ones it falls through to, whose conditions are not looked at. *)
Record switchCase := MkCase { case_cond : bool; case_body : problem; case_fallthrough : bool }.

Fixpoint fallInto (cases : list switchCase) : list problem :=
  match cases with
  | [] => []
  | k :: rest => case_body k :: if case_fallthrough k then fallInto rest else []
  end.

Fixpoint switch (cases : list switchCase) : list problem :=
  match cases with
  | [] => []
  | k :: rest => if case_cond k then fallInto cases else switch rest
  end.

(** [`[+_-]`] *)
Definition oauthChar (a : ascii) : bool :=
  Ascii.eqb a (ascii_of_nat 43) || Ascii.eqb a (ascii_of_nat 95) || Ascii.eqb a (ascii_of_nat 45).

Definition looksLikeOauth (key : string) : bool := existsb oauthChar (String.list_ascii_of_string key).

(** ** Completing a chain *)

Definition showBLocks : nat := 512.

(** The deprecated switches turn the destinations on. *)
Definition applyDeprecated (a : AlertConfig) : AlertConfig :=
  let a := if DiscordAlerts a && negb (DC_Enabled (AC_Discord a))
           then a <| AC_Discord := AC_Discord a <| DC_Enabled := true |> |> else a in
  let a := if TelegramAlerts a && negb (TC_Enabled (AC_Telegram a))
           then a <| AC_Telegram := AC_Telegram a <| TC_Enabled := true |> |> else a in
  if PagerdutyAlerts a && negb (PD_Enabled (AC_Pagerduty a))
  then a <| AC_Pagerduty := AC_Pagerduty a <| PD_Enabled := true |> |> else a.

(** Blank settings are copied from the global ones. *)
Definition fillDefaults (gd : DiscordConfig) (gs : SlackConfig) (gt : TeleConfig) (gp : PDConfig)
    (a : AlertConfig) : AlertConfig :=
  let a := if String.eqb (DC_Webhook (AC_Discord a)) ""
           then a <| AC_Discord := AC_Discord a <| DC_Webhook := DC_Webhook gd |>
                                                <| DC_Mentions := DC_Mentions gd |> |> else a in
  let a := if String.eqb (SC_Webhook (AC_Slack a)) ""
           then a <| AC_Slack := AC_Slack a <| SC_Webhook := SC_Webhook gs |>
                                            <| SC_Mentions := SC_Mentions gs |> |> else a in
  let a := if String.eqb (TC_ApiKey (AC_Telegram a)) ""
           then a <| AC_Telegram := AC_Telegram a <| TC_ApiKey := TC_ApiKey gt |>
                                                  <| TC_Mentions := TC_Mentions gt |> |> else a in
  let a := if String.eqb (TC_Channel (AC_Telegram a)) ""
           then a <| AC_Telegram := AC_Telegram a <| TC_Channel := TC_Channel gt |> |> else a in
  if String.eqb (PD_ApiKey (AC_Pagerduty a)) ""
  then a <| AC_Pagerduty := AC_Pagerduty a <| PD_ApiKey := PD_ApiKey gp |>
                                           <| PD_DefaultSeverity := PD_DefaultSeverity gp |> |> else a.

Definition notConnected : ValInfo := zeroValInfo <| vi_Moniker := "not connected" |>.

Definition completeChain (c : Config) (k : string) (v : ChainConfig) : ChainConfig :=
  let v := match blocksResults v with
           | [] => v <| blocksResults := repeat (-1) showBLocks |>
           | _ => v
           end in
  let v := if String.eqb (cc_name v) "" then v <| cc_name := k |> else v in
  let v := publishValidatorInfo notConnected false v in
  v <| Alerts := fillDefaults (Discord c) (Slack c) (Telegram c) (Pagerduty c) (applyDeprecated (Alerts v)) |>.

(** The warnings about a completed chain. *)
Definition chainCases (c : Config) (k : string) (a : AlertConfig) : list switchCase := [
  MkCase (SC_Enabled (AC_Slack a) && negb (SC_Enabled (Slack c))) (NotEnabled slk k) true;
  MkCase (DC_Enabled (AC_Discord a) && negb (DC_Enabled (Discord c))) (NotEnabled di k) true;
  MkCase (PD_Enabled (AC_Pagerduty a) && negb (PD_Enabled (Pagerduty c))) (NotEnabled pd k) true;
  MkCase (TC_Enabled (AC_Telegram a) && negb (TC_Enabled (Telegram c))) (NotEnabled tg k) false;
  MkCase (negb (ConsecutiveAlerts a) && negb (PercentageAlerts a) && negb (AlertIfInactive a) &&
          negb (AlertIfNoServers a)) (NoAlertTypes k) true;
  MkCase (negb (PD_Enabled (AC_Pagerduty a)) && negb (DC_Enabled (AC_Discord a)) &&
          negb (TC_Enabled (AC_Telegram a)) && negb (SC_Enabled (AC_Slack a))) (NoNotifications k) false
].

Definition initialStatus (v : ChainConfig) : ChainStatus :=
  let vi := default zeroValInfo (validatorInfoSnapshot v).1 in
  MkChainStatus "status" (cc_name v) (ChainId v) (vi_Moniker vi) (vi_Bonded vi) (vi_Jailed vi)
    (vi_Tombstoned vi) (vi_Missed vi) (vi_Window vi) (Z.of_nat (length (Nodes v))) 0 0 0 "" (blockResultsSnapshot v).

(** One turn of the loop over the chains, in the map's order [order]. *)
Definition validateChain (k : string) (acc : list problem * bool * Config) : list problem * bool * Config :=
  let '(problems, wantsPublic, c) := acc in
  match Chains c !! k with
  | None => acc
  | Some v =>
      let v := completeChain c k v in
      let c := c <| Chains := <[k := v]> (Chains c) |> in
      (problems ++ switch (chainCases c k (Alerts v)), wantsPublic || PublicFallback v,
       if EnableDash c then c <| updateChan := updateChan c ++ [initialStatus v] |> else c)
  end.

(** The results: fatal, the problems, and whether the registry is to be kept
    fresh (refreshed at once and every twelve hours). *)
Definition validateConfig `{LoadEnv} (order : list string) (c : Config) : bool * list problem * bool * Config :=
  let badListen := EnableDash c && negb (validURL (Listen c)) in
  let oauth := PD_Enabled (Pagerduty c) && looksLikeOauth (PD_ApiKey (Pagerduty c)) in
  let problems := (if badListen then [BadListen (Listen c)] else []) ++ (if oauth then [OauthKey] else []) ++
                  (if NodeDownMin c <? 3 then [ShortNodeDown] else []) in
  let '(problems, wantsPublic, c) := foldl (fun acc k => validateChain k acc) (problems, false, c) order in
  (badListen || oauth, problems, wantsPublic, c).

(** ** The start of [Run] *)

Inductive started :=
  | LoadFailed (e : loadError)
  | Refused (problems : list problem)
  | Running (problems : list problem) (c : Config).

(** Up to the creation of the lifecycle, which opens the alert gate. *)
Definition startup `{LoadEnv, Crypto, JsonCodec} (now : time) (readState : string -> stateError + string)
    (order : gmap string ChainConfig -> list string) (configFile stateFile dir password : string) : option started :=
  r ← loadConfig now readState configFile stateFile dir password;
  Some (match r with
        | inl e => LoadFailed e
        | inr c =>
            let '(fatal, problems, _, c) := validateConfig (order (Chains c)) c in
            if fatal then Refused problems else Running problems (startAlertIngress c)
        end).

(** ** Lemmas *)

(** What the loop adds for one chain of [m]. *)
Definition chainProblems (c : Config) (m : gmap string ChainConfig) (k : string) : list problem :=
  from_option (fun v => switch (chainCases c k (Alerts (completeChain c k v)))) [] (m !! k).

Definition chainStatuses (c : Config) (m : gmap string ChainConfig) (k : string) : list ChainStatus :=
  from_option (fun v => [initialStatus (completeChain c k v)]) [] (m !! k).

Lemma completeChain_irrel c m u : completeChain (c <| Chains := m |> <| updateChan := u |>) = completeChain c.
Proof. by destruct c. Qed.

Lemma validateChain_eq (c : Config) (k : string) (ps : list problem) (w : bool)
    (m : gmap string ChainConfig) (u : list ChainStatus) :
  validateChain k (ps, w, c <| Chains := m |> <| updateChan := u |>) =
  (ps ++ chainProblems c m k, w || from_option PublicFallback false (m !! k),
   c <| Chains := from_option (fun v => <[k := completeChain c k v]> m) m (m !! k) |>
     <| updateChan := u ++ if EnableDash c then chainStatuses c m k else [] |>).
Proof.
  unfold validateChain, chainProblems, chainStatuses.
  change (Chains (c <| Chains := m |> <| updateChan := u |>)) with m.
  destruct (m !! k) as [v |]; cbn [from_option].
  - rewrite completeChain_irrel.
    replace (PublicFallback (completeChain c k v)) with (PublicFallback v)
      by (unfold completeChain; by destruct (blocksResults v), (String.eqb _ _)).
    f_equal. destruct c as [? ? ? ? ? ? ? []]; [reflexivity |].
    cbn [EnableDash]. rewrite app_nil_r. reflexivity.
  - rewrite app_nil_r, orb_false_r. f_equal. by destruct (EnableDash c); rewrite app_nil_r.
Qed.

Lemma validateChains_eq (c : Config) (order : list string) (ps : list problem) (w : bool)
    (m : gmap string ChainConfig) (u : list ChainStatus) :
  NoDup order ->
  exists w' m',
    foldl (fun acc k => validateChain k acc) (ps, w, c <| Chains := m |> <| updateChan := u |>) order =
    (ps ++ concat (chainProblems c m <$> order), w',
     c <| Chains := m' |>
       <| updateChan := u ++ (if EnableDash c then concat (chainStatuses c m <$> order) else []) |>) /\
    forall k, m' !! k = (if decide (k ∈ order) then completeChain c k else id) <$> m !! k.
Proof.
  revert ps w m u. induction order as [| k order IH]; intros ps w m u Hnd.
  - exists w, m. split.
    + simpl. rewrite app_nil_r. by destruct (EnableDash c); rewrite app_nil_r.
    + intros k. rewrite decide_False by (apply not_elem_of_nil). by rewrite option_fmap_id.
  - apply NoDup_cons in Hnd as [Hk Hnd]. cbn [foldl].
    set (m1 := from_option (fun v => <[k := completeChain c k v]> m) m (m !! k)).
    set (u1 := u ++ if EnableDash c then chainStatuses c m k else []).
    destruct (IH (ps ++ chainProblems c m k) (w || from_option PublicFallback false (m !! k)) m1 u1 Hnd)
      as (w' & m' & E & Hm').
    assert (forall k', k' <> k -> m1 !! k' = m !! k') as Hm1.
    { intros k' Hne. unfold m1. destruct (m !! k); simpl; [by rewrite lookup_insert_ne | done]. }
    assert (forall k', k' ∈ order -> m1 !! k' = m !! k') as Hin by (intros k' Hk'; apply Hm1; by intros ->).
    assert (chainProblems c m1 <$> order = chainProblems c m <$> order) as E1.
    { apply list_fmap_ext. intros i k' Hi. unfold chainProblems. by rewrite Hin by eauto using list_elem_of_lookup_2. }
    assert (chainStatuses c m1 <$> order = chainStatuses c m <$> order) as E2.
    { apply list_fmap_ext. intros i k' Hi. unfold chainStatuses. by rewrite Hin by eauto using list_elem_of_lookup_2. }
    exists w', m'. split.
    + rewrite validateChain_eq. fold m1 u1. rewrite E, E1, E2, fmap_cons, fmap_cons. cbn [concat]. f_equal.
      * by rewrite <- app_assoc.
      * unfold u1. destruct (EnableDash c); by rewrite <- app_assoc.
    + intros k'. rewrite Hm'. destruct (decide (k' = k)) as [-> | Hne].
      * rewrite decide_False by done. rewrite decide_True by set_solver. unfold m1.
        destruct (m !! k) eqn:Hv; simpl; [by rewrite lookup_insert_eq | by rewrite Hv].
      * rewrite Hm1 by done. destruct (decide (k' ∈ order)).
        -- by rewrite decide_True by set_solver.
        -- rewrite decide_False; [done | set_solver].
Qed.

(** The chains given by the files of the directory, in its order. *)
Definition chainFiles `{LoadEnv} (dir : string) (entries : list (string * bool)) : list (string * ChainConfig) :=
  omap (fun '(name, isDir) =>
    if isDir || negb (HasSuffix name ".yml") then None
    else match loadChainConfig dir name with
         | inl _ => None
         | inr cc => Some (chainNameOf name, cc)
         end) entries.

(** A chain's definition: the last file for it, else its entry in the settings. *)
Definition chainSource `{LoadEnv} (dir : string) (base : gomap (option ChainConfig)) (k : string) : option ChainConfig :=
  match (list_to_map (reverse (chainFiles dir (readDir dir).1)) : gmap string ChainConfig) !! k with
  | Some cc => Some cc
  | None => mget base k ≫= id
  end.

Lemma loadChainFiles_spec `{LoadEnv} dir entries chains chains' :
  loadChainFiles dir entries chains = inr chains' ->
  (forall k, default ∅ chains' !! k =
    match (list_to_map (reverse (chainFiles dir entries)) : gmap string ChainConfig) !! k with
    | Some cc => Some (Some cc)
    | None => default ∅ chains !! k
    end) /\
  Forall (fun '(name, isDir) => isDir = false -> HasSuffix name ".yml" = true ->
            exists cc, loadChainConfig dir name = inr cc) entries.
Proof.
  revert chains. induction entries as [| [name isDir] entries IH]; intros chains; cbn [loadChainFiles].
  { intros [= ->]. split; [| constructor]. intros k. by rewrite ?lookup_empty. }
  unfold chainFiles. cbn [omap list_omap]. fold (chainFiles dir entries).
  destruct isDir; cbn [orb].
  { intros [IH1 IH2]%IH. split; [done |]. by constructor. }
  destruct (HasSuffix name ".yml") eqn:Hs; cbn [negb].
  2: { intros [IH1 IH2]%IH. split; [done |]. constructor; [intros _ Hs2; congruence | done]. }
  destruct (loadChainConfig dir name) as [e | cc] eqn:El; [done |].
  intros [IH1 IH2]%IH. split; [| constructor; eauto]. intros k. rewrite IH1. cbn [default].
  rewrite reverse_cons, list_to_map_app, lookup_union.
  destruct ((list_to_map (reverse _) : gmap string ChainConfig) !! k) as [cc' |]; simpl.
  - by destruct (decide (chainNameOf name = k)) as [<- | Hne]; [rewrite lookup_insert_eq | rewrite lookup_insert_ne].
  - destruct (decide (chainNameOf name = k)) as [<- | Hne].
    + by rewrite !lookup_insert_eq.
    + rewrite !lookup_insert_ne by done. by rewrite lookup_empty.
Qed.

(** [cc] has the settings of [s]. *)
Definition same_exported (s cc : ChainConfig) : Prop :=
  ChainId cc = ChainId s /\ ValAddress cc = ValAddress s /\ ValconsOverride cc = ValconsOverride s /\
  ExtraInfo cc = ExtraInfo s /\ Alerts cc = Alerts s /\
  PublicFallback cc = PublicFallback s /\
  (fun n => (Url n, AlertIfDown n)) <$> Nodes cc = (fun n => (Url n, AlertIfDown n)) <$> Nodes s.

(** Nothing about the chain is known yet. *)
Definition unstarted (cc : ChainConfig) : Prop :=
  cc_name cc = "" /\ client cc = None /\ wsclient cc = None /\ valInfo cc = None /\ lastValInfo cc = None /\
  lastBlockTime cc = 0 /\ lastBlockAlarm cc = false /\ percentageAlarm cc = false.

Lemma restoredChain_settings s k cc :
  same_exported cc (restoredChain s k cc) /\ (unstarted cc -> unstarted (restoredChain s k cc)).
Proof.
  unfold restoredChain, countNoNodes. set (cc1 := from_option _ _ (mget _ _)).
  assert (same_exported cc cc1 /\ (unstarted cc -> unstarted cc1)) as [H1 H2]
    by (unfold cc1; by destruct (mget _ _)).
  destruct (ss_NodesDown s) as [nd |]; [| done].
  set (cc2 := from_option _ _ (nd !! k)).
  assert (same_exported cc cc2 /\ (unstarted cc -> unstarted cc2)) as [H3 H4].
  { unfold cc2. destruct (nd !! k) as [nodes |]; [| done]. cbn [from_option]. split; [| done].
    destruct H1 as (? & ? & ? & ? & ? & ? & Hn). split_and!; try done. simpl. rewrite <- Hn, <- list_fmap_compose.
    apply list_fmap_ext. intros _ n _. unfold restoredNode. simpl.
    destruct (mget nodes (Url n)) as [t |]; [by destruct (IsZero t) | done]. }
  by destruct (Nat.eqb _ _).
Qed.

Lemma zeroChain_settings s : same_exported s (zeroChain s) /\ unstarted (zeroChain s).
Proof.
  split; [| done]. split_and!; try done. simpl. rewrite <- list_fmap_compose. by apply list_fmap_ext.
Qed.

Lemma restoreSavedState_rest now s c :
  let c' := (restoreSavedState now (Some s) c).1 in
  alertChan c' = alertChan c /\ updateChan c' = updateChan c /\ accepting c' = accepting c /\
  EnableDash c' = EnableDash c /\ (cache_ok (alarms c) -> cache_ok (alarms c')).
Proof.
  cbv zeta. split_and!; try by (unfold restoreSavedState; destruct (restoreAlarms _ _ _ _), (ss_NodesDown s)).
  rewrite restoreSavedState_alarms. destruct (ss_Alarms s) as [a |]; [| done].
  unfold cache_ok. rewrite restoreAlarms_all. by destruct (AllAlarms a).
Qed.

(** What a successful load has done. *)
Lemma loadConfig_inr `{LoadEnv, Crypto, JsonCodec} now readState yamlFile stateFile dir password c :
  loadConfig now readState yamlFile stateFile dir password = Some (inr c) ->
  exists settings base chains saved info, loadSettings yamlFile password = inr (settings, base) /\
    loadChainFiles dir (readDir dir).1 (zeroChains base) = inr chains /\
    size (default ∅ chains) <> 0%nat /\ map_Forall (fun _ (o : option ChainConfig) => is_Some o) (default ∅ chains) /\
    loadStateWithReader stateFile readState = inr (saved, info) /\
    c = (restoreSavedState now (Some saved) (zeroConfig settings (omap (M := gmap string) id (default ∅ chains)))).1.
Proof.
  unfold loadConfig. destruct (loadSettings yamlFile password) as [e | [settings base]]; [done |].
  destruct (loadChainFiles _ _ _) as [e | chains] eqn:Ef; [done |].
  destruct (Nat.eqb_spec (size (default ∅ chains)) 0) as [| Hn]; [done |].
  case_bool_decide as Hs; [| done].
  destruct (loadStateWithReader stateFile readState) as [e | [saved info]] eqn:El; [done |].
  intros [= <-]. exists settings, base, chains, saved, info. by split_and!.
Qed.

(** Where a loaded chain comes from. *)
Lemma loaded_chain `{LoadEnv} dir base chains k :
  loadChainFiles dir (readDir dir).1 (zeroChains base) = inr chains ->
  map_Forall (fun _ (o : option ChainConfig) => is_Some o) (default ∅ chains) ->
  match omap (M := gmap string) id (default ∅ chains) !! k with
  | Some cc => unstarted cc /\ exists s, chainSource dir base k = Some s /\ same_exported s cc
  | None => chainSource dir base k = None
  end.
Proof.
  intros [Hl _]%loadChainFiles_spec Hall. rewrite lookup_omap. specialize (Hl k). unfold chainSource.
  destruct ((list_to_map _ : gmap string ChainConfig) !! k) as [cc |] eqn:Ef; rewrite Hl; simpl.
  - apply elem_of_list_to_map_2 in Ef. rewrite elem_of_reverse in Ef. unfold chainFiles in Ef.
    apply list_elem_of_omap in Ef as ([name isDir] & _ & Hx).
    destruct (isDir || negb (HasSuffix name ".yml")); [done |].
    unfold loadChainConfig in Hx. destruct (readEntry dir name); [done |]. destruct (yamlChain _) as [| s]; [done |].
    simplify_eq. split; [apply zeroChain_settings |]. eexists. split; [done |]. by split_and!.
  - unfold zeroChains, mget. destruct base as [b |]; simpl; [| by rewrite lookup_empty].
    rewrite lookup_fmap. destruct (b !! k) as [[s |] |] eqn:Eb; simpl; [| | done].
    + split; [apply zeroChain_settings |]. exists s. split; [done | apply zeroChain_settings].
    + done.
Qed.

(** Restoring the state into a loaded chain. *)
Lemma restored_chain_inv now saved c k cc' :
  Chains (restoreSavedState now (Some saved) c).1 !! k = Some cc' ->
  exists cc, Chains c !! k = Some cc /\ cc' = restoredChain saved k cc.
Proof.
  rewrite restoreSavedState_chain. destruct (Chains c !! k) as [cc |]; [| done]. intros [= <-]. eauto.
Qed.

Lemma completeChain_facts c k v :
  cc_name v = "" -> cc_name (completeChain c k v) = k /\ valInfo (completeChain c k v) = Some notConnected /\
  blocksResults (completeChain c k v) =
    match blocksResults v with [] => repeat (-1) showBLocks | bs => bs end /\
  Nodes (completeChain c k v) = Nodes v /\ ChainId (completeChain c k v) = ChainId v /\
  Alerts (completeChain c k v) =
    fillDefaults (Discord c) (Slack c) (Telegram c) (Pagerduty c) (applyDeprecated (Alerts v)).
Proof. intros Hn. unfold completeChain. destruct (blocksResults v) eqn:Eb; cbn -[repeat]; rewrite Hn; by rewrite ?Eb. Qed.

Lemma validateConfig_eq `{LoadEnv} order c :
  NoDup order ->
  exists w m', validateConfig order c =
    ((EnableDash c && negb (validURL (Listen c))) ||
       (PD_Enabled (Pagerduty c) && looksLikeOauth (PD_ApiKey (Pagerduty c))),
     ((if EnableDash c && negb (validURL (Listen c)) then [BadListen (Listen c)] else []) ++
      (if PD_Enabled (Pagerduty c) && looksLikeOauth (PD_ApiKey (Pagerduty c)) then [OauthKey] else []) ++
      (if NodeDownMin c <? 3 then [ShortNodeDown] else [])) ++ concat (chainProblems c (Chains c) <$> order), w,
     c <| Chains := m' |> <| updateChan := updateChan c ++
       (if EnableDash c then concat (chainStatuses c (Chains c) <$> order) else []) |>) /\
    forall k, m' !! k = (if decide (k ∈ order) then completeChain c k else id) <$> Chains c !! k.
Proof.
  intros Hnd. unfold validateConfig.
  lazymatch goal with |- context [foldl _ (?p, false, c) order] =>
    destruct (validateChains_eq c order p false (Chains c) (updateChan c) Hnd) as (w & m' & E & Hm') end.
  exists w, m'. split; [| done].
  replace (c <| Chains := Chains c |> <| updateChan := updateChan c |>) with c in E by (by destruct c).
  by rewrite E.
Qed.

(** A destination of the chain that is configured but not enabled globally, in
    the order of the switch. *)
Definition misconfigured (c : Config) (a : AlertConfig) (d : notifyDest) : bool :=
  match d with
  | slk => SC_Enabled (AC_Slack a) && negb (SC_Enabled (Slack c))
  | di => DC_Enabled (AC_Discord a) && negb (DC_Enabled (Discord c))
  | pd => PD_Enabled (AC_Pagerduty a) && negb (PD_Enabled (Pagerduty c))
  | tg => TC_Enabled (AC_Telegram a) && negb (TC_Enabled (Telegram c))
  end.

Definition upTo (d : notifyDest) : list notifyDest :=
  match d with slk => [slk] | di => [slk; di] | pd => [slk; di; pd] | tg => [slk; di; pd; tg] end.

Definition noTypes (a : AlertConfig) : bool :=
  negb (ConsecutiveAlerts a) && negb (PercentageAlerts a) && negb (AlertIfInactive a) && negb (AlertIfNoServers a).

Definition noDestinations (a : AlertConfig) : bool :=
  negb (PD_Enabled (AC_Pagerduty a)) && negb (DC_Enabled (AC_Discord a)) && negb (TC_Enabled (AC_Telegram a)) &&
  negb (SC_Enabled (AC_Slack a)).

Definition ofChain (k : string) (p : problem) : Prop :=
  match p with NotEnabled _ k' | NoAlertTypes k' | NoNotifications k' => k' = k | _ => False end.

Lemma switch_of_chain c k a : Forall (ofChain k) (switch (chainCases c k a)).
Proof.
  unfold chainCases. cbn [switch fallInto case_cond case_body case_fallthrough].
  repeat case_match; repeat (constructor; [done |]); constructor.
Qed.

(** Membership in a list of constructors, from the left and to the right. *)
Ltac member_left :=
  let H := fresh in intros H;
  first [ done | by split; [| left] | by split; [| right]
        | exfalso; repeat (apply elem_of_cons in H as [[=] | H]); by apply elem_of_nil in H ].

Ltac member_right :=
  let H := fresh in intros H;
  first [ solve [repeat first [apply list_elem_of_here | apply list_elem_of_further]]
        | exfalso; first [discriminate H | by destruct H as [H [?|?]] | by destruct H] ].

(** The warnings of one chain, case by case. *)
Lemma chain_warnings c k a :
  let mis := existsb (misconfigured c a) (upTo tg) in
  (forall d, NotEnabled d k ∈ switch (chainCases c k a) <-> existsb (misconfigured c a) (upTo d) = true) /\
  (NoAlertTypes k ∈ switch (chainCases c k a) <-> mis = false /\ noTypes a = true) /\
  (NoNotifications k ∈ switch (chainCases c k a) <-> mis = false /\ (noTypes a = true \/ noDestinations a = true)).
Proof.
  unfold chainCases. fold (noTypes a) (noDestinations a).
  change (SC_Enabled (AC_Slack a) && negb (SC_Enabled (Slack c))) with (misconfigured c a slk).
  change (DC_Enabled (AC_Discord a) && negb (DC_Enabled (Discord c))) with (misconfigured c a di).
  change (PD_Enabled (AC_Pagerduty a) && negb (PD_Enabled (Pagerduty c))) with (misconfigured c a pd).
  change (TC_Enabled (AC_Telegram a) && negb (TC_Enabled (Telegram c))) with (misconfigured c a tg).
  split_and!; [intros [] | |]; cbn [upTo existsb];
    generalize (misconfigured c a slk) (misconfigured c a di) (misconfigured c a pd) (misconfigured c a tg)
      (noTypes a) (noDestinations a); intros [] [] [] [] [] [];
    cbn [orb switch fallInto case_cond case_body case_fallthrough]; (split; [member_left | member_right]).
Qed.

Lemma chainProblems_ofChain c m k : Forall (ofChain k) (chainProblems c m k).
Proof.
  unfold chainProblems. generalize (m !! k). intros [v |]; [apply switch_of_chain | constructor].
Qed.

(** Every problem of a validated configuration is about the globals or one chain. *)
Lemma chain_problem_origin c (order : list string) (ps : list problem) k p :
  Forall (fun p => ~ ofChain k p) ps -> NoDup order -> k ∈ order -> ofChain k p ->
  p ∈ ps ++ concat (chainProblems c (Chains c) <$> order) <-> p ∈ chainProblems c (Chains c) k.
Proof.
  intros Hps Hnd Hk Hp. rewrite elem_of_app, list_elem_of_In, list_elem_of_In, in_concat.
  rewrite Forall_forall in Hps. split.
  - intros [Hin | (l & Hl & Hin)]; [by destruct (Hps p); [apply list_elem_of_In |] |].
    apply list_elem_of_In, list_elem_of_fmap in Hl as (k' & -> & _).
    destruct (decide (k' = k)) as [-> | Hne]; [by apply list_elem_of_In |]. exfalso.
    pose proof (chainProblems_ofChain c (Chains c) k') as Hf. rewrite Forall_forall in Hf.
    apply list_elem_of_In, Hf in Hin. clear -Hin Hp Hne. unfold ofChain in *. destruct p; congruence.
  - intros Hin. right. exists (chainProblems c (Chains c) k). split; [| by apply list_elem_of_In].
    apply list_elem_of_In, list_elem_of_fmap. eauto.
Qed.

Lemma global_not_chain c b1 b2 b3 k :
  Forall (fun p => ~ ofChain k p)
    ((if b1 : bool then [BadListen (Listen c)] else []) ++ (if b2 : bool then [OauthKey] else []) ++
     (if b3 : bool then [ShortNodeDown] else [])).
Proof. destruct b1, b2, b3; repeat (constructor; [by intros [] |]); constructor. Qed.

(** The loaded configuration. *)
Lemma loaded_facts `{LoadEnv, Crypto, JsonCodec} now readState yamlFile stateFile dir password c :
  loadConfig now readState yamlFile stateFile dir password = Some (inr c) ->
  exists settings base, loadSettings yamlFile password = inr (settings, base) /\
    Forall (fun '(name, isDir) => isDir = false -> HasSuffix name ".yml" = true ->
              exists cc, loadChainConfig dir name = inr cc) (readDir dir).1 /\
    Chains c <> ∅ /\
    (forall k, match Chains c !! k with
               | Some cc => unstarted cc /\ exists s, chainSource dir base k = Some s /\ same_exported s cc
               | None => chainSource dir base k = None
               end) /\
    alertChan c = [] /\ updateChan c = [] /\ accepting c = false /\ cache_ok (alarms c) /\
    is_Some (match loadStateWithReader stateFile readState with inr r => Some r | inl _ => None end).
Proof.
  intros (settings & base & chains & saved & info & E1 & E2 & Hn & Hall & E3 & ->)%loadConfig_inr.
  exists settings, base. rewrite E3.
  set (c0 := zeroConfig settings (omap (M := gmap string) id (default ∅ chains))).
  destruct (restoreSavedState_rest now saved c0) as (H1' & H2' & H3' & H4' & H5').
  assert (forall k, Chains (restoreSavedState now (Some saved) c0).1 !! k =
    restoredChain saved k <$> omap (M := gmap string) id (default ∅ chains) !! k) as Hc
    by (intros k; apply restoreSavedState_chain).
  apply loadChainFiles_spec in E2 as Hspec. destruct Hspec as [_ Hfiles].
  split_and!; [done | done | | | done | done | done | apply H5'; by eexists | done].
  - intros He. destruct (map_choose (default ∅ chains)) as (k & o & Ho);
      [by intros ?%map_size_empty_iff |].
    destruct (Hall k o Ho) as [cc ->]. specialize (Hc k). by rewrite He, lookup_empty, lookup_omap, Ho in Hc.
  - intros k. rewrite Hc. pose proof (loaded_chain dir base chains k E2 Hall) as Hk.
    destruct (omap _ _ !! k) as [cc |]; [| done]. cbn [fmap option_fmap option_map].
    destruct Hk as (Hu & s & Hs & Hse).
    destruct (restoredChain_settings saved k cc) as [Hr1 Hr2]. split; [by apply Hr2 |]. exists s. split; [done |].
    unfold same_exported in *. destruct Hse as (? & ? & ? & ? & ? & ? & ?), Hr1 as (? & ? & ? & ? & ? & ? & ?).
    split_and!; congruence.
Qed.

Lemma chainStatuses_length c (order : list string) :
  (forall k, k ∈ order -> is_Some (Chains c !! k)) ->
  length (concat (chainStatuses c (Chains c) <$> order)) = length order.
Proof.
  induction order as [| k order IH]; intros Hk; [done |]. rewrite fmap_cons. cbn [concat].
  rewrite length_app, IH by (intros; apply Hk; by right). unfold chainStatuses.
  destruct (Hk k) as [v ->]; [left |]. done.
Qed.

(** ** Theorems *)


(** C10: what the monitors can rely on.  When [Run] gets past validation, every
    chain is registered under its own name, has a block history to shift and
    validator information that says it is not connected; the alarm cache is
    usable and the alert gate open; the dashboard got one status per chain, so
    its buffered channel cannot have blocked; the listen address parses and the
    PagerDuty key is not an OAuth token. *)
Theorem startup_establishes `{LoadEnv, Crypto, JsonCodec} (now : time)
    (readState : string -> stateError + string) (order : gmap string ChainConfig -> list string)
    (configFile stateFile dir password : string) (problems : list problem) (c : Config) :
  (forall m, order m ≡ₚ (map_to_list m).*1) ->
  startup now readState order configFile stateFile dir password = Some (Running problems c) ->
  config_ok c /\ accepting c = true /\ alertChan c = [] /\ Chains c <> ∅ /\
  (forall k cc, Chains c !! k = Some cc ->
     valInfo cc = Some notConnected /\ client cc = None /\ blocksResults cc <> []) /\
  length (updateChan c) = (if EnableDash c then size (Chains c) else 0%nat) /\
  (EnableDash c = true -> validURL (Listen c) = true) /\
  (PD_Enabled (Pagerduty c) = true -> looksLikeOauth (PD_ApiKey (Pagerduty c)) = false).
Proof.
  intros Hord. unfold startup. intros (r & E & Hr)%bind_Some. destruct r as [e | c0]; [done |].
  assert (NoDup (order (Chains c0))) as Hnd by (rewrite Hord; apply NoDup_fst_map_to_list).
  destruct (validateConfig_eq (order (Chains c0)) c0 Hnd) as (w & m' & Ev & Hm). rewrite Ev in Hr.
  destruct (_ || _) eqn:Ef; [done |]. simplify_eq Hr. intros _ <-. clear Ev Hr.
  apply orb_false_iff in Ef as [Ef1 Ef2].
  assert (forall k, m' !! k = completeChain c0 k <$> Chains c0 !! k) as Hm'.
  { intros k. rewrite Hm. destruct (Chains c0 !! k) as [cc |] eqn:Ek; [| done].
    rewrite decide_True; [done |]. rewrite Hord. apply list_elem_of_fmap. exists (k, cc).
    by rewrite elem_of_map_to_list. }
  apply loaded_facts in E as (settings & base & _ & _ & Hne & Hch & Hal & Hup & _ & Hcache & _).
  assert (forall k cc, m' !! k = Some cc -> exists v, Chains c0 !! k = Some v /\ cc = completeChain c0 k v /\ unstarted v)
    as Hinv.
  { intros k cc. rewrite Hm'. specialize (Hch k). destruct (Chains c0 !! k) as [v |]; [| done].
    intros [= <-]. exists v. by destruct Hch. }
  split_and!; [split; [done |] | done | done | | | | |].
  - intros k cc (v & _ & -> & Hv & _)%Hinv. by apply completeChain_facts.
  - intros He. apply Hne, map_eq. intros k. specialize (Hm' k). change (Chains _) with m' in He.
    rewrite He, lookup_empty in Hm'. by destruct (Chains c0 !! k).
  - intros k cc (v & _ & -> & Hv)%Hinv. destruct Hv as (Hv & Hcl & _).
    destruct (completeChain_facts c0 k v Hv) as (_ & -> & Hb & _). split_and!; [done | |].
    + unfold completeChain. by destruct (blocksResults v), (String.eqb _ _).
    + rewrite Hb. by destruct (blocksResults v).
  - change (length (updateChan c0 ++ (if EnableDash c0 then concat (chainStatuses c0 (Chains c0) <$> order (Chains c0)) else []))
      = if EnableDash c0 then size m' else 0%nat).
    rewrite Hup. destruct (EnableDash c0); [| done]. cbn [app]. rewrite chainStatuses_length.
    + rewrite Hord, length_fmap, length_map_to_list, <- (size_dom (D := gset string) (Chains c0)), <- (size_dom (D := gset string) m').
      f_equal. apply set_eq. intros k. by rewrite !elem_of_dom, Hm', fmap_is_Some.
    + intros k. rewrite Hord. intros ([k' v] & -> & Hv%elem_of_map_to_list)%list_elem_of_fmap. by eexists.
  - change (EnableDash c0 = true -> validURL (Listen c0) = true). intros He. rewrite He in Ef1.
    by destruct (validURL _).
  - change (PD_Enabled (Pagerduty c0) = true -> looksLikeOauth (PD_ApiKey (Pagerduty c0)) = false).
    intros He. by rewrite He in Ef2.
Qed.

(** C31: which problems are reported.  The start is refused exactly for a listen
    address that does not parse or a PagerDuty key that looks like an OAuth
    token.  For a chain, the warning that a destination is not enabled appears
    exactly if that destination *or one before it* in the order Slack, Discord,
    PagerDuty, Telegram is configured but not enabled globally: the cases of
    the switch fall through, so a warning can be false.  The other two warnings
    appear only if all destinations are in order, and the one about missing
    notifications also whenever no alert type is configured; stalled alerts do
    not count as an alert type. *)
Theorem config_problems_exact `{LoadEnv} (order : list string) (c : Config) (k : string) (v : ChainConfig) :
  NoDup order -> k ∈ order -> Chains c !! k = Some v ->
  let '(fatal, problems, _, _) := validateConfig order c in
  let a := Alerts (completeChain c k v) in
  let anyMisconfigured := existsb (misconfigured c a) (upTo tg) in
  (fatal = true <-> (EnableDash c = true /\ validURL (Listen c) = false) \/
     (PD_Enabled (Pagerduty c) = true /\ looksLikeOauth (PD_ApiKey (Pagerduty c)) = true)) /\
  (forall d, NotEnabled d k ∈ problems <-> existsb (misconfigured c a) (upTo d) = true) /\
  (NoAlertTypes k ∈ problems <-> anyMisconfigured = false /\ noTypes a = true) /\
  (NoNotifications k ∈ problems <-> anyMisconfigured = false /\ (noTypes a = true \/ noDestinations a = true)).
Proof.
  intros Hnd Hk Hv. destruct (validateConfig_eq order c Hnd) as (w & m' & -> & _).
  assert (chainProblems c (Chains c) k = switch (chainCases c k (Alerts (completeChain c k v)))) as Ep
    by (unfold chainProblems; by rewrite Hv).
  destruct (chain_warnings c k (Alerts (completeChain c k v))) as (H1 & H2 & H3).
  split_and!.
  - destruct (EnableDash c), (validURL (Listen c)), (PD_Enabled (Pagerduty c)), (looksLikeOauth _);
      cbn [andb orb negb]; intuition congruence.
  - intros d. rewrite chain_problem_origin, Ep by (done || apply global_not_chain). apply H1.
  - rewrite chain_problem_origin, Ep by (done || apply global_not_chain). apply H2.
  - rewrite chain_problem_origin, Ep by (done || apply global_not_chain). apply H3.
Qed.

(** ** Witnesses *)

Definition sampleSettings : Config :=
  sampleConfig <| Slack := MkSlackConfig false "" [] |> <| Pagerduty := MkPDConfig true "routingkey" "critical" |>.

(** One configuration file with one chain, one more chain in [osmosis.yml]. *)
#[local] Instance sampleLoadEnv : LoadEnv := {|
  httpGet _ := inl "unreachable";
  readConfigFile p := if String.eqb p "config.yml" then inr [1] else inl "no such file";
  readDir _ := ([("sub", true); ("notes.txt", false); ("osmosis.yml", false)], None);
  readEntry _ name := if String.eqb name "osmosis.yml" then inr [2] else inl "no such file";
  yamlConfig _ := inr (sampleSettings,
                       Some {[ "Juno" := Some (sampleChain <| ChainId := "juno-1" |>) ]});
  yamlChain _ := inr sampleChain;
  validURL _ := true;
|}.

Definition noState (p : string) : stateError + string := inl ErrNotExist.

Definition keyOrder (m : gmap string ChainConfig) : list string := (map_to_list m).*1.

(** What the sample files load to. *)
Definition sampleLoaded : Config :=
  zeroConfig sampleSettings
    (<["osmosis" := zeroChain sampleChain]> {[ "Juno" := zeroChain (sampleChain <| ChainId := "juno-1" |>) ]}).


Lemma startup_establishes_witness :
  let _ := sampleCrypto in let _ := sampleCodec in
  exists problems c, startup 0 noState keyOrder "config.yml" "state.json" "chains.d" "" = Some (Running problems c) /\
    config_ok c /\ length (updateChan c) = 2%nat.
Proof.
  intros cr jc.
  destruct (startup (H0 := cr) (H1 := jc) 0 noState keyOrder "config.yml" "state.json" "chains.d" "")
    as [[e | ps | ps c] |] eqn:E;
    [vm_compute in E; discriminate E | vm_compute in E; discriminate E | | vm_compute in E; discriminate E].
  exists ps, c. split; [done |].
  destruct (startup_establishes (H0 := cr) (H1 := jc) _ _ keyOrder _ _ _ _ ps c (fun m => reflexivity _) E)
    as (Hok & _ & _ & _ & _ & Hlen & _).
  split; [exact Hok |]. rewrite Hlen.
  vm_compute in E. by injection E as _ <-.
Defined.

(** Only Slack is misconfigured, yet Telegram is reported as well. *)
Lemma config_problems_exact_witness :
  let '(fatal, problems, _, _) := validateConfig ["osmosis"; "Juno"] sampleLoaded in
  fatal <> true /\ NotEnabled tg "osmosis" ∈ problems /\
  TC_Enabled (AC_Telegram (Alerts sampleChain)) && negb (TC_Enabled (Telegram sampleLoaded)) = false.
Proof.
  assert (NoDup ["osmosis"; "Juno"]) as Hnd by (apply (bool_decide_unpack _); vm_compute; exact I).
  pose proof (config_problems_exact ["osmosis"; "Juno"] sampleLoaded "osmosis" (zeroChain sampleChain) Hnd
    (list_elem_of_here _ _) eq_refl) as Ht.
  destruct (validateConfig ["osmosis"; "Juno"] sampleLoaded) as [[[fatal problems] w] c] eqn:Ev.
  destruct Ht as (Hf & Hd & _). split_and!.
  - intros [[_ Hl] | [_ Ho]]%Hf; [vm_compute in Hl; discriminate Hl | vm_compute in Ho; discriminate Ho].
  - apply Hd. vm_compute. reflexivity.
  - reflexivity.
Defined.
