(* ===== verification/Dashboard.v ===== *)
(** * The dashboard server (dashboard/server.go)

    The goroutine that caches the status of the chains and the last log lines,
    the redaction of endpoint addresses, and the check of a websocket's origin.
    JSON encoding is an interface; serving the cached bytes over HTTP is not
    modelled.  Texts are sequences of bytes, matched rune by rune as Go's
    regular expressions do. *)

From Stdlib Require Import Ascii.
From stdpp Require Import sorting.
From S2P Require Import Prelude Types Samples.

Local Open Scope nat_scope.

(** ** The pattern for endpoint addresses

    [\W(https?|tcp|wss?)://.+\w] *)

Abbreviation text := (list ascii) (only parsing).

Definition byteIn (lo hi : nat) (a : ascii) : bool := (lo <=? nat_of_ascii a) && (nat_of_ascii a <=? hi).

(** [\w]: digits, letters and the underscore. *)
Definition isWord (a : ascii) : bool :=
  byteIn 48 57 a || byteIn 65 90 a || byteIn 95 95 a || byteIn 97 122 a.

Definition isNewline (a : ascii) : bool := byteIn 10 10 a.

(** The bytes of the first rune, as [utf8.DecodeRune] has it: a byte that does
    not begin a valid encoding is a rune of its own. *)
Definition runeWidth (l : text) : nat :=
  match l with
  | [] => 0
  | [a] => 1
  | a :: b :: rest =>
      let second :=
        if byteIn 224 224 a then byteIn 160 191 b
        else if byteIn 237 237 a then byteIn 128 159 b
        else if byteIn 240 240 a then byteIn 144 191 b
        else if byteIn 244 244 a then byteIn 128 143 b
        else byteIn 128 191 b in
      if byteIn 194 223 a && second then 2
      else if byteIn 224 239 a && second then
        match rest with c :: _ => if byteIn 128 191 c then 3 else 1 | [] => 1 end
      else if byteIn 240 244 a && second then
        match rest with
        | c :: d :: _ => if byteIn 128 191 c && byteIn 128 191 d then 4 else 1
        | _ => 1
        end
      else 1
  end.

(** The end of the last word character before the end of the line: how far the
    greedy [.+\w] reaches. *)
Fixpoint lastWordEnd (l : text) : option nat :=
  match l with
  | [] => None
  | a :: l' =>
      if isNewline a then None
      else match lastWordEnd l' with
           | Some n => Some (S n)
           | None => if isWord a then Some 1 else None
           end
  end.

Definition schemes : list text :=
  String.list_ascii_of_string <$> ["https://"; "http://"; "tcp://"; "wss://"; "ws://"].

Fixpoint startsWith (p l : text) : bool :=
  match p, l with
  | [], _ => true
  | a :: p', b :: l' => Ascii.eqb a b && startsWith p' l'
  | _ :: _, [] => false
  end.

(** A scheme and [.+\w], which takes at least two characters: where it ends. *)
Definition urlEnd (l : text) : option nat :=
  head (omap (fun p =>
    if startsWith p l then
      match lastWordEnd (drop (length p) l) with
      | Some n => if 2 <=? n then Some (length p + n) else None
      | None => None
      end
    else None) schemes).

(** The length of a match that begins here. *)
Definition matchAt (l : text) : option nat :=
  match l with
  | [] => None
  | a :: _ => if isWord a then None else (fun n => runeWidth l + n) <$> urlEnd (drop (runeWidth l) l)
  end.

(** Each turn uses up at least a byte, so the length is enough fuel. *)
Fixpoint matchFuel (fuel : nat) (l : text) : bool :=
  match fuel with
  | O => false
  | S fuel => match matchAt l with Some _ => true | None => matchFuel fuel (drop (runeWidth l) l) end
  end.

Definition MatchString (l : text) : bool := matchFuel (length l) l.

Definition redacted : text := String.list_ascii_of_string " -redacted-".

(** [ReplaceAllString]: the matches from left to right, what is between them kept. *)
Fixpoint replaceFuel (fuel : nat) (l : text) : text :=
  match fuel with
  | O => l
  | S fuel =>
      match matchAt l with
      | Some n => redacted ++ replaceFuel fuel (drop n l)
      | None => take (runeWidth l) l ++ replaceFuel fuel (drop (runeWidth l) l)
      end
  end.

Definition ReplaceAllString (l : text) : text := replaceFuel (length l) l.

(** ** The caching goroutine *)

Definition logLength : nat := 256.

Class DashJson := {
  marshalStatus : list ChainStatus -> option string;
  marshalLogs : list LogMessage -> option string;
  marshalLog : LogMessage -> option string;
}.

Record dashState := MkDashState {
  status : gmap string ChainStatus;
  logSlice : list LogMessage;
  statusCache : string;
  logCache : string;
  update : bool;
}.

#[export] Instance eta_dashState : Eta dashState := {| eta_of r :=
  MkDashState (status r) (logSlice r) (statusCache r) (logCache r) (update r) |}.

Definition initDash : dashState := MkDashState ∅ [] "{}" "[]" false.

Inductive dashInput := DashTick | DashUpdate (u : ChainStatus) | DashLog (l : LogMessage).

(** Accidentally included endpoint addresses are removed if logs are hidden. *)
Definition redactStatus (hideLogs : bool) (u : ChainStatus) : ChainStatus :=
  let err := String.list_ascii_of_string (cs_LastError u) in
  if hideLogs && MatchString err
  then u <| cs_LastError := String.string_of_list_ascii (ReplaceAllString err) |> else u.

(** The order [sort.Slice] is given; the names are keys of a map, so no two are
    equal and the order of the result is determined. *)
Definition name_le (a b : ChainStatus) : Prop := String.leb (cs_Name a) (cs_Name b) = true.

#[export] Instance name_le_dec a b : Decision (name_le a b).
Proof. unfold name_le. apply _. Defined.

Definition statusList (m : gmap string ChainStatus) : list ChainStatus := merge_sort name_le (map_to_list m).*2.

(** One turn: the new state and what is broadcast. *)
Definition serve_step `{DashJson} (hideLogs : bool) (i : dashInput) (s : dashState) : dashState * list string :=
  match i with
  | DashTick => if update s then (s <| update := false |>, [statusCache s]) else (s, [])
  | DashUpdate u =>
      let u := redactStatus hideLogs u in
      let s := s <| status := <[cs_Name u := u]> (status s) |> in
      match marshalStatus (statusList (status s)) with
      | None => (s, [])
      | Some j => (s <| statusCache := j |> <| update := true |>, [])
      end
  | DashLog l =>
      if hideLogs then (s, [])
      else
        let s := s <| logSlice := l :: (if logLength <=? length (logSlice s)
                                        then take (length (logSlice s) - 1) (logSlice s) else logSlice s) |> in
        match marshalLogs (logSlice s) with
        | None => (s, [])
        | Some j =>
            let s := s <| logCache := j |> in
            match marshalLog l with None => (s, []) | Some j => (s, [j]) end
        end
  end.

Fixpoint serve `{DashJson} (hideLogs : bool) (ins : list dashInput) (s : dashState) : dashState * list string :=
  match ins with
  | [] => (s, [])
  | i :: ins' =>
      let '(s, out) := serve_step hideLogs i s in
      let '(s, outs) := serve hideLogs ins' s in (s, out ++ outs)
  end.

(** ** The origin of a websocket request

    [parse] is [url.Parse], giving scheme and host; [equalFold] is
    [strings.EqualFold]. *)
Definition checkWebsocketOrigin (parse : string -> option (string * string)) (equalFold : string -> string -> bool)
    (origin host : string) : bool :=
  if String.eqb origin "" then true
  else match parse origin with
       | None => false
       | Some (scheme, originHost) =>
           if negb (String.eqb scheme "http") && negb (String.eqb scheme "https") then false
           else equalFold originHost host
       end.

Definition securityHeaders : list (string * string) := [
  ("Content-Security-Policy", "default-src 'self'; connect-src 'self' ws: wss:; img-src 'self' data:; style-src 'self'; script-src 'self'; object-src 'none'; base-uri 'none'; frame-ancestors 'none'");
  ("Permissions-Policy", "camera=(), geolocation=(), microphone=()");
  ("Referrer-Policy", "no-referrer");
  ("X-Application-Name", "NosNode Seer");
  ("X-Content-Type-Options", "nosniff")
].

(** The encoding of a map with the one key [enabled]. *)
Definition quote : string := String (ascii_of_nat 34) "".

Definition enabledJson (b : bool) : string :=
  "{" +:+ quote +:+ "enabled" +:+ quote +:+ ":" +:+ (if b then "true" else "false") +:+ "}".

(** ** The routes

    Every page carries the security headers; a file also how long it may be
    kept.  [Upgrade] is the websocket, which sends what is broadcast. *)
Inductive response :=
  | Json (headers : list (string * string)) (body : string)
  | Upgrade
  | StaticFile (headers : list (string * string)) (path : string).

Definition jsonHeaders : list (string * string) := securityHeaders ++ [("Content-Type", "application/json")].

Definition respond (hideLogs : bool) (s : dashState) (path : string) : response :=
  let json := Json jsonHeaders in
  if String.eqb path "/ws" then Upgrade
  else if String.eqb path "/logsenabled" then json (enabledJson (negb hideLogs))
  else if String.eqb path "/logs" then json (logCache s)
  else if String.eqb path "/state" then json (statusCache s)
  else StaticFile (("Cache-Control", "public, max-age=3600") :: securityHeaders) path.

(** ** Redaction: lemmas *)

(** What must not remain: a scheme after a character that is not part of a
    word, followed by a host, a run without blanks that has a word character
    after its first one. *)
Definition inHost (a : ascii) : bool := negb (isNewline a) && negb (byteIn 32 32 a).

Fixpoint hostRun (l : text) : text :=
  match l with a :: l' => if inHost a then a :: hostRun l' else [] | [] => [] end.

Definition addressAt (l : text) : bool :=
  existsb (fun p => startsWith p l && existsb isWord (tail (hostRun (drop (length p) l)))) schemes.

Fixpoint leaks (l : text) : bool :=
  match l with
  | [] => false
  | a :: l' => (negb (isWord a) && addressAt l') || leaks l'
  end.

Lemma startsWith_app (p l : text) : startsWith p l = true -> exists r, l = p ++ r.
Proof.
  revert l. induction p as [| a p IH]; intros l H; [by exists l |].
  destruct l as [| b l]; [done |]. simpl in H. apply andb_true_iff in H as [->%Ascii.eqb_eq H].
  destruct (IH l H) as [r ->]. by exists r.
Qed.

Lemma startsWith_refl (p r : text) : startsWith p (p ++ r) = true.
Proof. induction p as [| a p IH]; simpl; [done | by rewrite Ascii.eqb_refl]. Qed.

(** Schemes begin with a word character and contain no blank. *)
Lemma scheme_shape p : p ∈ schemes -> forallb (fun a => inHost a) p = true /\ exists a p', p = a :: p' /\ isWord a = true.
Proof.
  intros Hp. assert (forallb (fun p => forallb inHost p && match p with a :: _ => isWord a | [] => false end) schemes
    = true) as H by (vm_compute; reflexivity).
  rewrite forallb_forall in H. apply list_elem_of_In in Hp. apply H in Hp. apply andb_true_iff in Hp as [H1 H2].
  split; [done |]. destruct p as [| a p']; [done |]. eauto.
Qed.

(** A text whose first character is not part of a word does not begin with an address. *)
Lemma addressAt_head (l : text) :
  (forall a, head l = Some a -> isWord a = false) -> addressAt l = false.
Proof.
  intros Hl. apply not_true_iff_false. intros (p & Hp & [Hs _]%andb_true_iff)%existsb_exists.
  apply list_elem_of_In in Hp. destruct (scheme_shape p Hp) as [_ (a & p' & -> & Ha)].
  destruct (startsWith_app _ _ Hs) as [r ->]. by rewrite (Hl a eq_refl) in Ha.
Qed.

Lemma byteIn_bounds lo hi a : byteIn lo hi a = true <-> lo <= nat_of_ascii a <= hi.
Proof. unfold byteIn. by rewrite andb_true_iff, !Nat.leb_le. Qed.

Lemma byteIn_false lo hi a : ~ lo <= nat_of_ascii a <= hi -> byteIn lo hi a = false.
Proof. intros H. apply not_true_iff_false. by rewrite byteIn_bounds. Qed.

Lemma newline_not_word a : isNewline a = true -> isWord a = false.
Proof.
  unfold isNewline, isWord. rewrite byteIn_bounds. intros H. rewrite !byteIn_false by lia. done.
Qed.

Lemma high_not_word a : 128 <= nat_of_ascii a -> isWord a = false.
Proof. intros H. unfold isWord. rewrite !byteIn_false by lia. done. Qed.

(** The greedy match ends at the last word character of the line. *)
Lemma lastWordEnd_maximal (l : text) n :
  lastWordEnd l = Some n -> forall a, head (drop n l) = Some a -> isWord a = false.
Proof.
  revert n. induction l as [| b l IH]; intros n; simpl; [done |].
  destruct (isNewline b); [done |]. destruct (lastWordEnd l) as [m |] eqn:E.
  - intros [= <-]. by apply IH.
  - destruct (isWord b); [| done]. intros [= <-]. simpl. intros a Ha.
    destruct l as [| b' l]; [done |]. simplify_eq/=.
    destruct (isNewline a) eqn:En.
    + by apply newline_not_word.
    + destruct (lastWordEnd l); [done |]. by destruct (isWord a).
Qed.

Lemma lastWordEnd_le (l : text) n : lastWordEnd l = Some n -> n <= length l.
Proof.
  revert n. induction l as [| b l IH]; intros n; simpl; [done |].
  destruct (isNewline b); [done |]. destruct (lastWordEnd l) as [m |].
  - intros [= <-]. specialize (IH m eq_refl). lia.
  - destruct (isWord b); [| done]. intros [= <-]. lia.
Qed.

(** A word character in the host is seen by the greedy match. *)
Lemma hostRun_word (l : text) : existsb isWord (hostRun l) = true -> exists n, lastWordEnd l = Some n /\ 1 <= n.
Proof.
  induction l as [| a l IH]; simpl; [done |]. unfold inHost. destruct (isNewline a); simpl; [done |].
  destruct (byteIn 32 32 a); simpl; [done |]. intros [H | H]%orb_true_iff.
  - rewrite H. destruct (lastWordEnd l) as [n |]; eauto with lia.
  - destruct (IH H) as (n & -> & ?). exists (S n). split; [done | lia].
Qed.

Lemma hostRun_tail (l : text) :
  existsb isWord (tail (hostRun l)) = true -> exists n, lastWordEnd l = Some n /\ 2 <= n.
Proof.
  destruct l as [| a l]; simpl; [done |]. unfold inHost. destruct (isNewline a); simpl; [done |].
  destruct (byteIn 32 32 a); simpl; [done |]. intros (n & -> & ?)%hostRun_word. exists (S n). split; [done | lia].
Qed.

Lemma addressAt_urlEnd (l : text) : addressAt l = true -> is_Some (urlEnd l).
Proof.
  intros (p & Hp & [Hs Hh]%andb_true_iff)%existsb_exists. destruct (hostRun_tail _ Hh) as (n & En & Hn).
  unfold urlEnd. set (f := fun p : text => _).
  assert (length p + n ∈ omap f schemes) as Hin.
  { apply list_elem_of_omap. exists p. split; [by apply list_elem_of_In |]. unfold f.
    rewrite Hs, En. by replace (2 <=? n) with true by (symmetry; by apply Nat.leb_le). }
  destruct (omap f schemes); [by apply elem_of_nil in Hin | done].
Qed.

Lemma urlEnd_spec (l : text) e : urlEnd l = Some e ->
  exists p n, p ∈ schemes /\ startsWith p l = true /\ lastWordEnd (drop (length p) l) = Some n /\ e = length p + n.
Proof.
  unfold urlEnd. set (f := fun p : text => _). intros Hh.
  assert (e ∈ omap f schemes) as (p & Hp & Hf)%list_elem_of_omap.
  { destruct (omap f schemes); simplify_eq/=. left. }
  unfold f in Hf. destruct (startsWith p l) eqn:Hs; [| done].
  destruct (lastWordEnd _) as [n |] eqn:En; [| done]. destruct (2 <=? n); simplify_eq. eauto 10.
Qed.

(** A rune of more than one byte has no word characters. *)
Lemma runeWidth_spec (a : ascii) (l : text) :
  let w := runeWidth (a :: l) in
  exists r, take w (a :: l) = a :: r /\ Forall (fun b => isWord b = false) r /\ (r <> [] -> isWord a = false) /\
    1 <= w <= length (a :: l).
Proof.
  assert (forall b, byteIn 128 191 b = true -> isWord b = false) as Hc.
  { intros b Hb%byteIn_bounds. apply high_not_word. lia. }
  assert (exists r, take 1 (a :: l) = a :: r /\ Forall (fun b => isWord b = false) r /\ (r <> [] -> isWord a = false) /\
    1 <= 1 <= length (a :: l)) as H1 by (exists []; simpl; split_and!; [done | constructor | done | lia | lia]).
  destruct l as [| b l]; [exact H1 |]. cbn [runeWidth].
  set (second := if byteIn 224 224 a then _ else _).
  assert (second = true -> isWord b = false) as Hb.
  { unfold second. intros Hs. apply high_not_word.
    repeat (case_match; [apply byteIn_bounds in Hs; lia |]). apply byteIn_bounds in Hs. lia. }
  destruct (byteIn 194 223 a && second) eqn:E2.
  { apply andb_true_iff in E2 as [Ea%byteIn_bounds Es]. exists [b]. simpl.
    split_and!; [done | by repeat constructor; auto | intros _; apply high_not_word; lia | lia | lia]. }
  destruct (byteIn 224 239 a && second) eqn:E3.
  { apply andb_true_iff in E3 as [Ea%byteIn_bounds Es]. destruct l as [| c l]; [exact H1 |].
    destruct (byteIn 128 191 c) eqn:Ec; [| exact H1]. exists [b; c]. simpl.
    split_and!; [done | by repeat constructor; auto | intros _; apply high_not_word; lia | lia | lia]. }
  destruct (byteIn 240 244 a && second) eqn:E4; [| exact H1].
  apply andb_true_iff in E4 as [Ea%byteIn_bounds Es]. destruct l as [| c [| d l]]; [exact H1 | exact H1 |].
  destruct (byteIn 128 191 c && byteIn 128 191 d) eqn:Ec; [| exact H1].
  apply andb_true_iff in Ec as [? ?]. exists [b; c; d]. simpl.
  split_and!; [done | by repeat constructor; auto | intros _; apply high_not_word; lia | lia | lia].
Qed.

(** The replaced text is the original up to the first match, where a blank is. *)
Lemma replaceFuel_prefix (n : nat) (l : text) :
  exists pre suf out, l = pre ++ suf /\ replaceFuel n l = pre ++ out /\
    (out = suf \/ exists out', out = ascii_of_nat 32 :: out').
Proof.
  revert l. induction n as [| n IH]; intros l; [by exists [], l, l; auto |]. cbn [replaceFuel].
  destruct (matchAt l) as [m |].
  { exists [], l, (redacted ++ replaceFuel n (drop m l)). split_and!; [done | done |]. right. by eexists. }
  destruct (IH (drop (runeWidth l) l)) as (pre & suf & out & E1 & E2 & H).
  exists (take (runeWidth l) l ++ pre), suf, out. rewrite E2, <- !app_assoc, <- E1, take_drop. by split_and!.
Qed.

Lemma hostRun_app_blank (l x y : text) :
  existsb isWord (tail (hostRun (l ++ ascii_of_nat 32 :: x))) = true ->
  existsb isWord (tail (hostRun (l ++ y))) = true.
Proof.
  assert (forall l : text, existsb isWord (hostRun (l ++ ascii_of_nat 32 :: x)) = true ->
    existsb isWord (hostRun (l ++ y)) = true) as H.
  { clear l. induction l as [| a l IH]; [done |]. cbn [app hostRun]. destruct (inHost a); [| done].
    cbn [existsb]. intros [-> | H]%orb_true_iff; [done |]. rewrite (IH H). apply orb_true_r. }
  destruct l as [| a l]; [done |]. cbn [app hostRun]. destruct (inHost a); [| done]. apply H.
Qed.

(** Replacing does not create an address. *)
Lemma addressAt_replace (n : nat) (l : text) : addressAt (replaceFuel n l) = true -> addressAt l = true.
Proof.
  destruct (replaceFuel_prefix n l) as (pre & suf & out & -> & -> & [-> | [out' ->]]); [done |].
  intros (p & Hp & [Hs Hh]%andb_true_iff)%existsb_exists. apply existsb_exists. exists p. split; [done |].
  destruct (startsWith_app _ _ Hs) as [r Hr].
  destruct (scheme_shape p (proj2 (list_elem_of_In _ _) Hp)) as [Hb _].
  assert (exists pre', pre = p ++ pre') as [pre' ->].
  { apply app_eq_inv in Hr as [(k & -> & Hk) | (k & -> & Hk)]; [by exists k |].
    destruct k as [| b k]; [exists []; by rewrite !app_nil_r |]. exfalso. injection Hk as <- _.
    rewrite forallb_forall in Hb. specialize (Hb (ascii_of_nat 32)). discriminate Hb.
    apply in_or_app. right. by left. }
  rewrite <- app_assoc, startsWith_refl, drop_app_length. cbn [andb].
  rewrite <- app_assoc, drop_app_length in Hh. by eapply hostRun_app_blank.
Qed.

Lemma matchAt_None (a : ascii) (l : text) :
  isWord a = false -> matchAt (a :: l) = None -> urlEnd (drop (runeWidth (a :: l)) (a :: l)) = None.
Proof. intros Ha. unfold matchAt. rewrite Ha. by destruct (urlEnd _). Qed.

(** A match ends before a character that is not part of a word. *)
Lemma matchAt_end (l : text) m :
  matchAt l = Some m -> 1 <= m /\ forall a, head (drop m l) = Some a -> isWord a = false.
Proof.
  destruct l as [| b l]; [done |]. unfold matchAt. destruct (isWord b); [done |].
  destruct (runeWidth_spec b l) as (r & _ & _ & _ & Hw).
  revert Hw. generalize (runeWidth (b :: l)). intros w Hw.
  destruct (urlEnd _) as [e |] eqn:Ee; [| done]. cbn [fmap option_fmap option_map]. intros [= <-]. split; [lia |].
  destruct (urlEnd_spec _ _ Ee) as (p & n & _ & _ & En & ->). rewrite <- !drop_drop in *. intros a Ha.
  eapply lastWordEnd_maximal; [exact En |]. by rewrite <- Ha, !drop_drop.
Qed.

(** The first character after a replacement. *)
Lemma replaceFuel_head (n : nat) (l : text) :
  (forall a, head l = Some a -> isWord a = false) -> forall a, head (replaceFuel n l) = Some a -> isWord a = false.
Proof.
  intros Hl a. destruct (replaceFuel_prefix n l) as (pre & suf & out & E & -> & [-> | [out' ->]]).
  - rewrite <- E. apply Hl.
  - destruct pre as [| b pre]; simpl; [by intros [= <-] |]. intros [= <-]. apply Hl. by rewrite E.
Qed.

(** Bytes of a rune before something that is no address. *)
Lemma leaks_rune (r x : text) (a : ascii) :
  Forall (fun b => isWord b = false) r -> (isWord a = false -> addressAt x = false) ->
  (r <> [] -> isWord a = false) -> leaks x = false -> leaks ((a :: r) ++ x) = false.
Proof.
  revert a. induction r as [| b r IH]; intros a Hr Hx Ha Hl.
  - cbn [app leaks]. rewrite Hl, orb_false_r. destruct (isWord a) eqn:E; [done |]. by rewrite Hx.
  - apply Forall_cons in Hr as [Hb Hr].
    change (leaks ((a :: b :: r) ++ x)) with ((negb (isWord a) && addressAt ((b :: r) ++ x)) || leaks ((b :: r) ++ x)).
    rewrite (addressAt_head ((b :: r) ++ x)) by (intros c [= <-]; done). rewrite andb_false_r. cbn [orb].
    apply IH; [done | intros _; apply Hx, Ha; done | by intros _ | done].
Qed.

Lemma leaks_redacted (x : text) :
  (forall a, head x = Some a -> isWord a = false) -> leaks x = false -> leaks (redacted ++ x) = false.
Proof.
  intros Hh Hx. apply addressAt_head in Hh. unfold redacted. cbn -[addressAt isWord].
  rewrite Hx, Hh. repeat match goal with |- context [addressAt (?a :: ?l)] => 
    let H := fresh in assert (addressAt (a :: l) = false) as H by reflexivity; rewrite H; clear H end.
  by rewrite !andb_false_r.
Qed.

Lemma replaceFuel_no_leaks (n : nat) (l : text) : length l <= n -> leaks (replaceFuel n l) = false.
Proof.
  revert l. induction n as [| n IH]; intros l Hn; cbn [replaceFuel].
  { by destruct l; [| simpl in Hn; lia]. }
  destruct (matchAt l) as [m |] eqn:Em.
  - destruct (matchAt_end l m Em) as [Hm Hhead]. apply leaks_redacted; [by apply replaceFuel_head |].
    apply IH. rewrite length_drop. lia.
  - destruct l as [| a l]; [by apply IH; simpl; lia |].
    destruct (runeWidth_spec a l) as (r & -> & Hr & Ha & Hw). apply leaks_rune; [done | | done |].
    + intros Hna. apply not_true_iff_false. intros [e He]%addressAt_replace%addressAt_urlEnd.
      rewrite (matchAt_None a l Hna Em) in He. done.
    + apply IH. rewrite length_drop. lia.
Qed.

(** A text without a match leaks nothing. *)
Lemma matchFuel_false (n : nat) (l : text) : length l <= n -> matchFuel n l = false -> replaceFuel n l = l.
Proof.
  revert l. induction n as [| n IH]; intros l Hn; cbn [matchFuel replaceFuel]; [done |].
  destruct (matchAt l) as [m |]; [done |]. intros Hf. destruct l as [| a l].
  - change (replaceFuel n [] = []). apply IH; [simpl; lia | exact Hf].
  - destruct (runeWidth_spec a l) as (r & _ & _ & _ & Hw). rewrite IH; [by rewrite take_drop | | done].
    rewrite length_drop. simpl in *. lia.
Qed.

Lemma redactStatus_no_leak (u : ChainStatus) :
  leaks (String.list_ascii_of_string (cs_LastError (redactStatus true u))) = false.
Proof.
  unfold redactStatus. cbn [andb]. set (err := String.list_ascii_of_string (cs_LastError u)).
  destruct (MatchString err) eqn:Em.
  - cbn [field_set cs_LastError eta_of]. rewrite String.list_ascii_of_string_of_list_ascii. by apply replaceFuel_no_leaks.
  - fold err. rewrite <- (matchFuel_false (length err) err) by done. by apply replaceFuel_no_leaks.
Qed.

(** ** The caches: lemmas *)

Definition updatesOf (ins : list dashInput) : list ChainStatus :=
  omap (fun i => match i with DashUpdate u => Some u | _ => None end) ins.

Definition logsOf (ins : list dashInput) : list LogMessage :=
  omap (fun i => match i with DashLog l => Some l | _ => None end) ins.

(** The last update for a chain. *)
Definition lastUpdate (name : string) (ins : list dashInput) : option ChainStatus :=
  last (filter (fun u => cs_Name u = name) (updatesOf ins)).

Lemma redactStatus_name h u : cs_Name (redactStatus h u) = cs_Name u.
Proof. unfold redactStatus. by destruct (_ && _). Qed.

Section caches.
Context `{DashJson}.

Lemma serve_snoc h ins i s :
  (serve h (ins ++ [i]) s).1 = (serve_step h i (serve h ins s).1).1 /\
  (serve h (ins ++ [i]) s).2 = (serve h ins s).2 ++ (serve_step h i (serve h ins s).1).2.
Proof.
  revert s. induction ins as [| j ins IH]; intros s.
  - cbn [app serve fst snd]. destruct (serve_step h i s) as [s' out]. simpl. split; [done | by rewrite app_nil_r].
  - cbn [app serve]. destruct (serve_step h j s) as [s1 o1]. destruct (IH s1) as [IH1 IH2].
    destruct (serve h (ins ++ [i]) s1) as [s2 o2], (serve h ins s1) as [s3 o3]. simpl in *. subst.
    split; [done | by rewrite app_assoc].
Qed.

Lemma serve_step_status h i s :
  status (serve_step h i s).1 =
  match i with DashUpdate u => <[cs_Name u := redactStatus h u]> (status s) | _ => status s end.
Proof.
  destruct i as [| u | l]; unfold serve_step.
  - by destruct (update s).
  - rewrite redactStatus_name. by destruct (marshalStatus _).
  - destruct h; [done |]. destruct (marshalLogs _); [| done]. by destruct (marshalLog l).
Qed.

Lemma serve_step_out h i s :
  (forall l, is_Some (marshalLogs l)) ->
  (serve_step h i s).2 =
  match i with
  | DashTick => if update s then [statusCache s] else []
  | DashUpdate _ => []
  | DashLog l => if h then [] else option_list (marshalLog l)
  end.
Proof.
  intros Hlogs. destruct i as [| u | l]; unfold serve_step.
  - by destruct (update s).
  - rewrite redactStatus_name. by destruct (marshalStatus _).
  - destruct h; [done |]. cbv zeta. match goal with |- context [marshalLogs ?x] => destruct (Hlogs x) as [j ->] end.
    by destruct (marshalLog l).
Qed.

Lemma serve_step_logs h i s :
  logSlice (serve_step h i s).1 =
  match i with
  | DashLog l => if h then logSlice s
                 else l :: (if logLength <=? length (logSlice s)
                            then take (length (logSlice s) - 1) (logSlice s) else logSlice s)
  | _ => logSlice s
  end.
Proof.
  destruct i as [| u | l]; unfold serve_step.
  - by destruct (update s).
  - by destruct (marshalStatus _).
  - destruct h; [done |]. destruct (marshalLogs _); [| done]. by destruct (marshalLog l).
Qed.

Lemma serve_status h ins name :
  status (serve h ins initDash).1 !! name = redactStatus h <$> lastUpdate name ins.
Proof.
  induction ins as [| i ins IH] using rev_ind; [done |].
  destruct (serve_snoc h ins i initDash) as [-> _]. rewrite serve_step_status. unfold lastUpdate, updatesOf in *.
  rewrite omap_app. destruct i as [| u | l]; cbn [omap list_omap]; rewrite ?app_nil_r; [done | | done].
  rewrite filter_app. destruct (decide (cs_Name u = name)) as [<- | Hne].
  - rewrite lookup_insert_eq, filter_cons_True, filter_nil, last_snoc by done. done.
  - rewrite lookup_insert_ne, filter_cons_False, filter_nil, app_nil_r by done. done.
Qed.

Lemma serve_logs h ins :
  logSlice (serve h ins initDash).1 = if h then [] else take logLength (reverse (logsOf ins)).
Proof.
  induction ins as [| i ins IH] using rev_ind; [by destruct h |].
  destruct (serve_snoc h ins i initDash) as [-> _]. rewrite serve_step_logs, IH. unfold logsOf in *.
  rewrite omap_app. destruct i as [| u | l]; cbn [omap list_omap]; rewrite ?app_nil_r; [done | done |].
  destruct h; [done |]. rewrite reverse_snoc.
  set (r := reverse _). unfold logLength. rewrite length_take. change 256 with (S 255). rewrite firstn_cons. f_equal.
  destruct (Nat.leb_spec (S 255) (S 255 `min` length r)) as [Hle | Hlt].
  - rewrite Nat.min_l by lia. rewrite take_take. f_equal.
  - rewrite !take_ge by lia. done.
Qed.

(** What the encodings handed out are encodings of. *)
Definition encodes (h : bool) (j : string) : Prop :=
  exists l, marshalStatus l = Some j /\ Forall (fun u => exists v, u = redactStatus h v) l.

Definition sound (h : bool) (s : dashState) : Prop :=
  (statusCache s = "{}" /\ update s = false \/ encodes h (statusCache s)) /\
  map_Forall (fun _ u => exists v, u = redactStatus h v) (status s) /\
  (h = true -> logCache s = "[]").

Lemma statusList_perm m : statusList m ≡ₚ (map_to_list m).*2.
Proof. unfold statusList. apply merge_sort_Permutation. Qed.

Lemma serve_step_sound h i s :
  sound h s -> sound h (serve_step h i s).1 /\
  Forall (fun o => encodes h o \/ (h = false /\ exists l, i = DashLog l /\ marshalLog l = Some o)) (serve_step h i s).2.
Proof.
  intros Hs. pose proof Hs as (Hc & Hm & Hl). destruct i as [| u | l]; unfold serve_step.
  - destruct (update s) eqn:Eu; [| by split; [| apply Forall_nil_2]].
    destruct Hc as [[_ ?] | Hc]; [done |]. split; [| apply Forall_cons; split; [by left | apply Forall_nil_2]]. split_and!; [by right | done | done].
  - set (m := <[_ := _]> (status s)).
    assert (map_Forall (fun _ u => exists v, u = redactStatus h v) m) as Hm'
      by (apply map_Forall_insert_2; [by eexists | done]).
    change (status (s <| status := m |>)) with m.
    destruct (marshalStatus (statusList m)) as [j |] eqn:Ej; (split; [| apply Forall_nil_2]); split_and!; try done.
    right. exists (statusList m). split; [done |]. rewrite statusList_perm. apply Forall_fmap, Forall_forall.
    intros [k v] Hin%elem_of_map_to_list. by apply (Hm' k v).
  - destruct h eqn:Eh; [by split; [| apply Forall_nil_2] |].
    destruct (marshalLogs _) as [j |]; [| by split; [| apply Forall_nil_2]].
    destruct (marshalLog l) as [j' |] eqn:Ej; (split; [by split_and! |]); [| apply Forall_nil_2].
    apply Forall_cons. split; [right; eauto | apply Forall_nil_2].
Qed.

Lemma serve_sound h ins :
  sound h (serve h ins initDash).1 /\
  Forall (fun o => encodes h o \/ (h = false /\ exists l, l ∈ logsOf ins /\ marshalLog l = Some o)) (serve h ins initDash).2.
Proof.
  induction ins as [| i ins [IH1 IH2]] using rev_ind.
  { split; [| apply Forall_nil_2]. split_and!; [by left | apply map_Forall_empty | done]. }
  destruct (serve_snoc h ins i initDash) as [-> ->], (serve_step_sound h i _ IH1) as [H1 H2].
  split; [done |]. unfold logsOf. rewrite omap_app. apply Forall_app. split.
  - eapply Forall_impl; [exact IH2 |]. intros o [? | (? & l & ? & ?)]; [by left | right].
    split; [done |]. exists l. split; [apply elem_of_app; by left | done].
  - eapply Forall_impl; [exact H2 |]. intros o [? | (? & l & -> & ?)]; [by left | right].
    split; [done |]. exists l. split; [apply elem_of_app; right; simpl; left | done].
Qed.

End caches.

(** *** The order of the statuses *)

Lemma string_leb_trans s1 s2 s3 : String.leb s1 s2 = true -> String.leb s2 s3 = true -> String.leb s1 s3 = true.
Proof.
  unfold String.leb. revert s2 s3. induction s1 as [| a s1 IH]; intros [| b s2] [| c s3]; try done; cbn [String.compare].
  unfold Ascii.compare.
  destruct (N.compare_spec (N_of_ascii a) (N_of_ascii b)) as [E1 | E1 | E1],
    (N.compare_spec (N_of_ascii b) (N_of_ascii c)) as [E2 | E2 | E2],
    (N.compare_spec (N_of_ascii a) (N_of_ascii c)) as [E3 | E3 | E3]; try done; try lia.
  apply IH.
Qed.

#[export] Instance name_le_trans : Transitive name_le.
Proof. intros a b c. apply string_leb_trans. Qed.

#[export] Instance name_le_total : Total name_le.
Proof. intros a b. apply String.leb_total. Qed.

Lemma statusList_sorted m : StronglySorted name_le (statusList m).
Proof. apply (StronglySorted_merge_sort name_le); apply _. Qed.

(** Whatever sorting algorithm is used, names being keys, the result is the same. *)
Lemma statusList_unique m l :
  (forall k u, m !! k = Some u -> cs_Name u = k) ->
  l ≡ₚ (map_to_list m).*2 -> StronglySorted name_le l -> l = statusList m.
Proof.
  intros Hm Hp Hs. apply (StronglySorted_unique_strong name_le); [| done | apply statusList_sorted | by rewrite statusList_perm].
  intros u v Hu Hv H1 H2. rewrite Hp in Hu. rewrite statusList_perm in Hv.
  apply list_elem_of_fmap in Hu as ([k1 u'] & -> & Hu%elem_of_map_to_list).
  apply list_elem_of_fmap in Hv as ([k2 v'] & -> & Hv%elem_of_map_to_list). simpl in *.
  pose proof (String.leb_antisym _ _ H1 H2) as He. rewrite (Hm _ _ Hu), (Hm _ _ Hv) in He. congruence.
Qed.

Lemma serve_names `{DashJson} h ins k u : status (serve h ins initDash).1 !! k = Some u -> cs_Name u = k.
Proof.
  rewrite serve_status. unfold lastUpdate.
  destruct (last _) as [v |] eqn:El; [| done]. intros [= <-]. rewrite redactStatus_name.
  apply last_Some_elem_of in El. by apply list_elem_of_filter in El as [? _].
Qed.

(** *** What is cached and served *)

(** A list of statuses as the dashboard shows it: the last update of each chain,
    redacted, each name once, in the order of the names. *)
Definition shown (h : bool) (ins : list dashInput) (l : list ChainStatus) : Prop :=
  StronglySorted name_le l /\ NoDup (cs_Name <$> l) /\
  forall u, u ∈ l <-> exists v, lastUpdate (cs_Name v) ins = Some v /\ u = redactStatus h v.

(** An update came since the last tick. *)
Definition pending (ins : list dashInput) : bool :=
  foldl (fun b i => match i with DashTick => false | DashUpdate _ => true | DashLog _ => b end) false ins.

Lemma lastUpdate_name name ins v : lastUpdate name ins = Some v -> cs_Name v = name.
Proof. unfold lastUpdate. intros El%last_Some_elem_of. by apply list_elem_of_filter in El as [? _]. Qed.

Lemma shown_unique h ins l l' : shown h ins l -> shown h ins l' -> l' = l.
Proof.
  intros (Hs & Hn & Hl) (Hs' & Hn' & Hl').
  apply (StronglySorted_unique_strong name_le); [| done | done |].
  - intros u v (u0 & Hu & ->)%Hl' (v0 & Hv & ->)%Hl H1 H2.
    pose proof (String.leb_antisym _ _ H1 H2) as He. rewrite !redactStatus_name in He. congruence.
  - apply NoDup_Permutation; [by apply NoDup_fmap_1 in Hn' | by apply NoDup_fmap_1 in Hn |].
    intros u. by rewrite Hl, Hl'.
Qed.

Section served.
Context `{DashJson}.

Lemma serve_shown h ins : shown h ins (statusList (status (serve h ins initDash).1)).
Proof.
  split_and!; [apply statusList_sorted | |].
  - rewrite statusList_perm, <- list_fmap_compose.
    rewrite (list_fmap_ext _ fst); [apply NoDup_fst_map_to_list |].
    intros i [k u] Hku%list_elem_of_lookup_2%elem_of_map_to_list. by apply (serve_names h ins).
  - intros u. rewrite statusList_perm, list_elem_of_fmap. split.
    + intros ([k u'] & -> & Hu%elem_of_map_to_list). rewrite serve_status in Hu.
      destruct (lastUpdate k ins) as [v |] eqn:Ev; [| done]. injection Hu as <-. exists v. split; [| done].
      by rewrite (lastUpdate_name _ _ _ Ev).
    + intros (v & Hv & ->). exists (cs_Name v, redactStatus h v). split; [done |].
      apply elem_of_map_to_list. by rewrite serve_status, Hv.
Qed.

(** The caches after a sequence of inputs, if encoding does not fail. *)
Lemma serve_caches h ins (Hstatus : forall l, is_Some (marshalStatus l)) (Hlogs : forall l, is_Some (marshalLogs l)) :
  let s := (serve h ins initDash).1 in
  (updatesOf ins = [] /\ statusCache s = "{}" \/
   updatesOf ins <> [] /\ marshalStatus (statusList (status s)) = Some (statusCache s)) /\
  (if h || bool_decide (logsOf ins = []) then logCache s = "[]"
   else marshalLogs (take logLength (reverse (logsOf ins))) = Some (logCache s)) /\
  update s = pending ins.
Proof.
  cbv zeta. pose proof (serve_logs h ins) as Hl. revert Hl.
  induction ins as [| i ins IH] using rev_ind; [intros _; split_and!; [by left | by destruct h | done] |].
  specialize (IH (serve_logs h ins)). destruct IH as (Hs & Hc & Hp).
  destruct (serve_snoc h ins i initDash) as [-> _]. rewrite serve_step_status, serve_step_logs.
  unfold updatesOf, logsOf, pending in *. rewrite !omap_app, foldl_app.
  set (s := (serve h ins initDash).1) in *. clearbody s. intros Hl.
  destruct i as [| u | l]; cbn [omap list_omap foldl] in *; rewrite ?app_nil_r in *; unfold serve_step.
  - by destruct (update s) eqn:Eu; split_and!.
  - change (status (s <| status := ?m |>)) with m. rewrite redactStatus_name.
    destruct (Hstatus (statusList (<[cs_Name u := redactStatus h u]> (status s)))) as [j Ej]. rewrite Ej.
    split_and!; [right; split; [by intros [_ ?]%app_eq_nil | done] | exact Hc | done].
  - destruct h; [by split_and! |]. rewrite bool_decide_eq_false_2 by by intros [_ ?]%app_eq_nil.
    cbn [orb]. rewrite <- Hl.
    match goal with |- context [marshalLogs (logSlice (s <| logSlice := ?x |>))] =>
      change (logSlice (s <| logSlice := x |>)) with x; destruct (Hlogs x) as [j Ej]; rewrite Ej end.
    destruct (marshalLog l); split_and!; done.
Qed.

End served.

(** ** Properties *)

(** C32: what the dashboard serves.  After any sequence of updates, log lines and
    ticks, if encoding a list does not fail, [/state] answers with the empty document
    before the first update and then with the encoding of one list: the last
    update of every chain (with recognised endpoint addresses removed if logs
    are hidden), each chain once, in the order of the names (the only list of
    this kind).  [/logs] answers with the last 256 lines, newest first, or
    the empty list if logs are hidden or there are none.  The next input
    broadcasts what it should: a tick the cached statuses, exactly if an update
    came since the last tick, and a log line itself, unless logs are hidden. *)
Theorem dashboard_serves_exact `{DashJson} (hideLogs : bool) (ins : list dashInput)
    (Hstatus : forall l, is_Some (marshalStatus l)) (Hlogs : forall l, is_Some (marshalLogs l)) :
  let '(s, out) := serve hideLogs ins initDash in
  (exists body, respond hideLogs s "/state" = Json jsonHeaders body /\
     (updatesOf ins = [] /\ body = "{}" \/
      updatesOf ins <> [] /\ exists l, marshalStatus l = Some body /\ shown hideLogs ins l /\
        forall l', shown hideLogs ins l' -> l' = l)) /\
  (exists body, respond hideLogs s "/logs" = Json jsonHeaders body /\
     (if hideLogs || bool_decide (logsOf ins = []) then body = "[]"
      else marshalLogs (take 256 (reverse (logsOf ins))) = Some body)) /\
  (forall i, (serve hideLogs (ins ++ [i]) initDash).2 = out ++
     match i with
     | DashTick => if pending ins then [statusCache s] else []
     | DashUpdate _ => []
     | DashLog l => if hideLogs then [] else option_list (marshalLog l)
     end).
Proof.
  pose proof (serve_caches hideLogs ins Hstatus Hlogs) as (Hs & Hl & Hp).
  pose proof (fun i => proj2 (serve_snoc hideLogs ins i initDash)) as Hb.
  pose proof (serve_shown hideLogs ins) as Hsh. pose proof (shown_unique hideLogs ins) as Hu.
  destruct (serve hideLogs ins initDash) as [s out]. cbn [fst snd] in *. split_and!.
  - exists (statusCache s). split; [done |].
    destruct Hs as [? | [Hne Hs]]; [by left | right; split; [done | exists (statusList (status s))]]. split_and!; [done.. |].
    intros l' Hl'. by apply Hu.
  - exists (logCache s). split; [done |]. exact Hl.
  - intros i. rewrite Hb, serve_step_out by done. by rewrite Hp.
Qed.

#[local] Instance sampleDashJson : DashJson := {|
  marshalStatus l := Some (String.concat "," ((fun u => cs_Name u +:+ ": " +:+ cs_LastError u) <$> l));
  marshalLogs l := Some (String.concat "," (lm_Msg <$> l));
  marshalLog l := Some (lm_Msg l);
|}.

Lemma dashboard_serves_exact_witness :
  let u name err := MkChainStatus "status" name "" "" true false false 0 0 1 1 0 5 err [] in
  let ins := [DashUpdate (u "Osmosis" "node (tcp://10.0.0.1:26657) is down"); DashUpdate (u "Juno" ""); DashTick] in
  let s := (serve true ins initDash).1 in
  (exists body, respond true s "/state" = Json jsonHeaders body /\ body = "Juno: ,Osmosis: node  -redacted-") /\
  (serve true (ins ++ [DashTick]) initDash).2 = (serve true ins initDash).2.
Proof.
  intros u ins s.
  pose proof (dashboard_serves_exact true ins (fun _ => ltac:(by eexists)) (fun _ => ltac:(by eexists))) as Hd.
  subst s. destruct (serve true ins initDash) as [s out] eqn:Es. destruct Hd as ((body & Hb & _) & _ & Ho). split.
  - exists body. split; [exact Hb |]. cbn [respond] in Hb. injection Hb as <-.
    change s with ((s, out).1). rewrite <- Es. by vm_compute.
  - rewrite (Ho DashTick). by apply app_nil_r.
Defined.

(** What the pattern recognises is gone: if logs are hidden, everything the
    dashboard answers with (at any path) or broadcasts is an empty document,
    the note that logs are disabled, or the encoding of statuses whose error
    texts have no scheme after a character that is not part of a word, followed
    by a host of at least two characters.  An address at the very beginning of
    a text is not recognised ([address_at_start]); that the monitors put none
    into a status is the subject of Privacy.v. *)
Theorem redaction_hides_recognised `{DashJson} (ins : list dashInput) :
  let hidden j := exists l, marshalStatus l = Some j /\
    Forall (fun u => leaks (String.list_ascii_of_string (cs_LastError u)) = false) l in
  let '(s, out) := serve true ins initDash in
  (forall path headers body, respond true s path = Json headers body ->
     body = "[]" \/ body = "{}" \/ body = enabledJson false \/ hidden body) /\ Forall hidden out.
Proof.
  intros hidden. destruct (serve_sound true ins) as [(Hc & _ & Hl) Ho].
  destruct (serve true ins initDash) as [s out]. simpl in *.
  assert (forall j, encodes true j -> hidden j) as He.
  { intros j (l & Hj & Hf). exists l. split; [done |]. eapply Forall_impl; [exact Hf |].
    intros u [v ->]. apply redactStatus_no_leak. }
  split.
  - intros path headers body. unfold respond.
    repeat case_match; intros [= <- <-]; [by auto | by left; apply Hl |]. destruct Hc as [[? _] |]; auto.
  - eapply Forall_impl; [exact Ho |]. intros o [? | [? _]]; [auto | done].
Qed.

(** An error text as the monitors build it. *)
Example redacted_text :
  String.string_of_list_ascii (ReplaceAllString (String.list_ascii_of_string
    "could not get status for Osmosis: (tcp://10.0.0.1:26657) connection refused")) =
  "could not get status for Osmosis:  -redacted-".
Proof. vm_compute. reflexivity. Qed.

Example address_at_start :
  MatchString (String.list_ascii_of_string "tcp://10.0.0.1:26657 refused the connection") = false.
Proof. reflexivity. Qed.
