(* ===== verification/Metrics.v ===== *)
(** * The Prometheus exporter (prometheus.go)

    The families that are registered, how an update finds its series, and the
    counter of delivery attempts.  The Prometheus client is an interface,
    [PromLib]: a family is registered once under a valid name with its label
    names, and a series can be set only with exactly those labels and with
    label values that are valid UTF-8; everything else panics.  Serving the registry over HTTP is not modelled. *)

From Stdlib Require Import Ascii.
From S2P Require Import Prelude Types AlarmCache Delivery Samples.

Local Open Scope Z_scope.

Abbreviation labels := (gmap string string) (only parsing).

(** ** The client library *)

(** Names of letters, digits and underscores that do not begin with a digit. *)
Definition nameChar (first : bool) (a : ascii) : bool :=
  let n := Z.of_nat (nat_of_ascii a) in
  ((65 <=? n) && (n <=? 90)) || ((97 <=? n) && (n <=? 122)) || (n =? 95) || (negb first && (48 <=? n) && (n <=? 57)).

Definition validName (s : string) : bool :=
  match s with
  | EmptyString => false
  | String a s' => nameChar true a && forallb (nameChar false) (String.list_ascii_of_string s')
  end.

Definition isASCII (s : string) : bool := forallb (fun a => nat_of_ascii a <? 128)%nat (String.list_ascii_of_string s).

(** [validText] is [utf8.ValidString]. *)

Class PromLib := {
  Registry : Type;
  families : Registry -> gmap string (list string);
  gauge : Registry -> string -> labels -> option SpecFloat.spec_float;
  counter : Registry -> string -> labels -> Z;
  NewGaugeVec : string -> list string -> Registry -> option Registry;
  SetGauge : string -> labels -> SpecFloat.spec_float -> Registry -> option Registry;
  IncCounter : string -> labels -> Registry -> option Registry;
  validText : string -> bool;
  validText_ascii s : isASCII s = true -> validText s = true;
  NewGaugeVec_ok n ls r : families r !! n = None -> validName n = true -> forallb validName ls = true ->
    exists r', NewGaugeVec n ls r = Some r' /\
      families r' = <[n := ls]> (families r) /\ gauge r' = gauge r /\ counter r' = counter r;
  SetGauge_ok n ls ld v r : families r !! n = Some ls -> dom ld = (list_to_set ls : gset string) ->
    map_Forall (fun _ x => validText x = true) ld ->
    exists r', SetGauge n ld v r = Some r' /\ families r' = families r /\ counter r' = counter r /\
      forall n' ld', gauge r' n' ld' = if decide ((n', ld') = (n, ld)) then Some v else gauge r n' ld';
  SetGauge_panics n ld v r : ~ map_Forall (fun _ x => validText x = true) ld -> SetGauge n ld v r = None;
  IncCounter_ok n ls ld r : families r !! n = Some ls -> dom ld = (list_to_set ls : gset string) ->
    map_Forall (fun _ x => validText x = true) ld ->
    exists r', IncCounter n ld r = Some r' /\ families r' = families r /\ gauge r' = gauge r /\
      forall n' ld', counter r' n' ld' = counter r n' ld' + if decide ((n', ld') = (n, ld)) then 1 else 0;
}.

(** ** The families *)

Definition chainLabels : list string := ["name"; "chain_id"; "moniker"].
Definition hostLabels : list string := ["name"; "chain_id"; "moniker"; "endpoint"].

(** The table [m] of [prometheusExporter]: the family of each metric. *)
Definition gaugeFamily (t : metricType) : string * list string :=
  match t with
  | metricSigned => ("tenderduty_signed_blocks", chainLabels)
  | metricProposed => ("tenderduty_proposed_blocks", chainLabels)
  | metricMissed => ("tenderduty_missed_blocks", chainLabels)
  | metricPrevote => ("tenderduty_missed_blocks_prevote_present", chainLabels)
  | metricPrecommit => ("tenderduty_missed_blocks_precommit_present", chainLabels)
  | metricConsecutive => ("tenderduty_consecutive_missed_blocks", chainLabels)
  | metricWindowMissed => ("tenderduty_missed_blocks_for_window", chainLabels)
  | metricWindowSize => ("tenderduty_missed_block_window", chainLabels)
  | metricLastBlockSeconds => ("tenderduty_time_since_last_block", chainLabels)
  | metricLastBlockSecondsNotFinal => ("tenderduty_time_since_last_block_unfinalized", chainLabels)
  | metricTotalNodes => ("tenderduty_total_monitored_endpoints", chainLabels)
  | metricUnealthyNodes => ("tenderduty_total_unhealthy_endpoints", chainLabels)
  | metricNodeLagSeconds => ("tenderduty_endpoint_syncing_seconds_behind", hostLabels)
  | metricNodeDownSeconds => ("tenderduty_endpoint_down_seconds", hostLabels)
  end.

(** In the order the code registers them. *)
Definition registrationOrder : list metricType :=
  [metricSigned; metricProposed; metricMissed; metricPrevote; metricPrecommit; metricConsecutive; metricWindowSize;
   metricWindowMissed; metricLastBlockSeconds; metricLastBlockSecondsNotFinal; metricTotalNodes; metricUnealthyNodes;
   metricNodeLagSeconds; metricNodeDownSeconds].

(** Only the two node metrics have the endpoint as a label. *)
Definition updateLabels (u : promUpdate) : labels :=
  let lbls := <["name" := pu_name u]> (<["chain_id" := pu_chainId u]> {["moniker" := pu_moniker u]}) in
  match pu_metric u with
  | metricNodeLagSeconds | metricNodeDownSeconds => <["endpoint" := pu_endpoint u]> lbls
  | _ => lbls
  end.

Definition deliveryFamily : string := "tenderduty_notification_delivery_attempts_total".

Section exporter.
Context `{PromLib}.

Definition setStat (u : promUpdate) (r : Registry) : option Registry :=
  SetGauge (gaugeFamily (pu_metric u)).1 (updateLabels u) (pu_counter u) r.

Fixpoint registerAll (ts : list metricType) (r : Registry) : option Registry :=
  match ts with
  | [] => Some r
  | t :: ts => r ← NewGaugeVec (gaugeFamily t).1 (gaugeFamily t).2 r; registerAll ts r
  end.

Fixpoint setStats (us : list promUpdate) (r : Registry) : option Registry :=
  match us with
  | [] => Some r
  | u :: us => r ← setStat u r; setStats us r
  end.

(** The exporter, until its context is done, on the updates it receives. *)
Definition prometheusExporter (us : list promUpdate) (r : Registry) : option Registry :=
  r ← registerAll registrationOrder r; setStats us r.

Definition observeNotificationDelivery (o : string * string) (r : Registry) : option Registry :=
  IncCounter deliveryFamily (<["destination" := o.1]> {["outcome" := o.2]}) r.

Fixpoint observeAll (os : list (string * string)) (r : Registry) : option Registry :=
  match os with
  | [] => Some r
  | o :: os => r ← observeNotificationDelivery o r; observeAll os r
  end.

(** ** Lemmas *)

(** The update's label values are valid. *)
Definition validUpdate (u : promUpdate) : Prop := map_Forall (fun _ x => validText x = true) (updateLabels u).

#[export] Instance validUpdate_dec u : Decision (validUpdate u).
Proof. unfold validUpdate. apply _. Defined.

(** The families of the exporter are registered. *)
Definition registered (ts : list metricType) (r : Registry) : Prop :=
  forall t, t ∈ ts -> families r !! (gaugeFamily t).1 = Some (gaugeFamily t).2.

Lemma gaugeFamily_inj t t' : (gaugeFamily t).1 = (gaugeFamily t').1 -> t = t'.
Proof. by destruct t, t'. Qed.

Lemma updateLabels_dom u : dom (updateLabels u) = (list_to_set (gaugeFamily (pu_metric u)).2 : gset string).
Proof. unfold updateLabels. destruct (pu_metric u); cbn [gaugeFamily snd]; rewrite !dom_insert_L, dom_singleton_L; set_solver. Qed.

Lemma registerAll_ok ts : NoDup ts -> forall r, (forall t, t ∈ ts -> families r !! (gaugeFamily t).1 = None) ->
  exists r', registerAll ts r = Some r' /\ registered ts r' /\ gauge r' = gauge r /\ counter r' = counter r /\
    forall n, (forall t, t ∈ ts -> (gaugeFamily t).1 <> n) -> families r' !! n = families r !! n.
Proof.
  induction ts as [| t ts IH]; intros Hnd r Hr.
  { exists r. split_and!; [done | intros t Ht%elem_of_nil; done | done | done | done]. }
  apply NoDup_cons in Hnd as [Hni Hnd].
  destruct (NewGaugeVec_ok (gaugeFamily t).1 (gaugeFamily t).2 r) as (r1 & E1 & F1 & G1 & C1);
    [apply Hr; left | by destruct t | by destruct t |].
  destruct (IH Hnd r1) as (r' & E & Hreg & G & C & Hn).
  { intros t' Ht'. rewrite F1, lookup_insert_ne; [apply Hr; by right |]. intros ->%gaugeFamily_inj. done. }
  exists r'. cbn [registerAll]. rewrite E1. cbn [mbind option_bind]. split_and!; [done | | congruence | congruence |].
  - intros t' [-> | Ht']%elem_of_cons; [| by apply Hreg].
    rewrite Hn, F1; [apply lookup_insert_eq |]. intros t' Ht' ->%gaugeFamily_inj. done.
  - intros n Hne. rewrite Hn, F1; [apply lookup_insert_ne, Hne; left |]. intros t' Ht'. apply Hne. by right.
Qed.

(** The value an update sequence leaves in a series. *)
Definition lastValue (t : metricType) (ld : labels) (us : list promUpdate) : option SpecFloat.spec_float :=
  pu_counter <$> last (filter (fun u => pu_metric u = t /\ updateLabels u = ld) us).

Lemma setStats_ok us r : registered registrationOrder r -> Forall validUpdate us ->
  exists r', setStats us r = Some r' /\ families r' = families r /\ counter r' = counter r /\
    forall t ld, gauge r' (gaugeFamily t).1 ld =
      match lastValue t ld us with Some v => Some v | None => gauge r (gaugeFamily t).1 ld end.
Proof.
  intros Hr Hv. revert r Hr. induction Hv as [| u us Hu _ IH]; intros r Hr; [by exists r |].
  assert (pu_metric u ∈ registrationOrder) as Hin
    by (destruct (pu_metric u); unfold registrationOrder; rewrite !elem_of_cons; tauto).
  destruct (SetGauge_ok (gaugeFamily (pu_metric u)).1 (gaugeFamily (pu_metric u)).2 (updateLabels u) (pu_counter u) r)
    as (r1 & E1 & F1 & C1 & G1); [by apply Hr | apply updateLabels_dom | exact Hu |].
  destruct (IH r1) as (r' & E & F & C & G); [intros t Ht; rewrite F1; by apply Hr |].
  exists r'. cbn [setStats]. unfold setStat. rewrite E1. cbn [mbind option_bind].
  split_and!; [done | congruence | congruence |]. intros t ld. rewrite G. unfold lastValue.
  rewrite filter_cons. destruct (decide (pu_metric u = t /\ updateLabels u = ld)) as [[<- <-] | Hd].
  - rewrite last_cons. destruct (last (filter _ us)) as [v |]; [done |].
    cbn [fmap option_fmap option_map]. by rewrite G1, decide_True.
  - destruct (last (filter _ us)) as [v |]; [done |]. cbn [fmap option_fmap option_map].
    rewrite G1, decide_False; [done |]. intros [= Hg ->]. apply gaugeFamily_inj in Hg as ->. by destruct Hd.
Qed.

(** The first update with an invalid label stops the exporter. *)
Lemma setStats_panics us r : ~ Forall validUpdate us -> setStats us r = None.
Proof.
  revert r. induction us as [| u us IH]; intros r Hn; [by destruct Hn |]. cbn [setStats]. unfold setStat.
  destruct (decide (validUpdate u)) as [Hu | Hu]; [| by rewrite SetGauge_panics].
  destruct (SetGauge _ _ _ r) as [r1 |]; [| done]. cbn [mbind option_bind]. apply IH.
  intros Hus. apply Hn. by constructor.
Qed.

Lemma observeAll_ok os r : Forall (fun o => isASCII o.1 = true /\ isASCII o.2 = true) os -> families r !! deliveryFamily = Some ["destination"; "outcome"] ->
  exists r', observeAll os r = Some r' /\ families r' = families r /\
    forall n ld, counter r' n ld =
      counter r n ld + Z.of_nat (length (filter (fun o : string * string =>
        (n, ld) = (deliveryFamily, <["destination" := o.1]> {["outcome" := o.2]})) os)).
Proof.
  intros Hos. revert r. induction Hos as [| o os [Ho1 Ho2] _ IH]; intros r Hr.
  { exists r. split_and!; [done | done |]. intros n ld. simpl. lia. }
  destruct (IncCounter_ok deliveryFamily ["destination"; "outcome"] (<["destination" := o.1]> {["outcome" := o.2]}) r Hr)
    as (r1 & E1 & F1 & G1 & C1); [rewrite dom_insert_L, dom_singleton_L; set_solver |
      apply map_Forall_insert_2; [| apply map_Forall_singleton]; by apply validText_ascii |].
  destruct (IH r1) as (r' & E & F & C); [by rewrite F1 |].
  exists r'. cbn [observeAll]. unfold observeNotificationDelivery. rewrite E1. cbn [mbind option_bind].
  split_and!; [done | congruence |]. intros n ld. rewrite C, C1, filter_cons. case_decide; [| lia].
  cbn [length]. lia.
Qed.

End exporter.

(** ** Delivery outcomes *)

(** What the worker reports while it delivers a sequence of alerts. *)
Fixpoint observedBy (h : list (alertEnv * alertMsg)) (a : alarmCache) : list (string * string) :=
  match h with
  | [] => []
  | (env, msg) :: h' =>
      let '(rs, a') := deliverAlert env msg a in
      d_observed (rs pd) ++ d_observed (rs di) ++ d_observed (rs tg) ++ d_observed (rs slk) ++ observedBy h' a'
  end.

Definition acceptedCount (l : list (string * string)) : nat :=
  length (filter (fun o : string * string => o.2 = deliveryAccepted) l).

Lemma error_outcome_not_accepted e : error_outcome e <> deliveryAccepted.
Proof. by destruct e. Qed.

Lemma acceptedCount_error name e l : acceptedCount (observeError name e ++ l) = acceptedCount l.
Proof.
  unfold acceptedCount, observeError. cbn [app]. rewrite filter_cons_False; [done |]. apply error_outcome_not_accepted.
Qed.

Lemma pagerDuty_loop_accepted left attempt lastErr msg env :
  let '(_, obs, _, _, _) := pagerDuty_loop left attempt lastErr msg env in (acceptedCount obs <= 1)%nat.
Proof.
  revert attempt lastErr. induction left as [| left IH]; intros attempt lastErr; cbn [pagerDuty_loop]; [by vm_compute; lia |].
  destruct (env attempt) as [e |]; [| by vm_compute; lia].
  specialize (IH (S attempt) (Some (classifyPagerDutyError e))).
  destruct (pagerDuty_loop _ _ _ _ _) as [[[[? obs] ?] ?] ?]. cbv zeta. by rewrite acceptedCount_error.
Qed.

(** A delivery is accepted at most once, so counting acceptances counts deliveries. *)
Lemma notify_accepted_once d env msg a :
  acceptedCount (d_observed (notify d env msg a)) = if accepted_delivery (notify d env msg a) then 1%nat else 0%nat.
Proof.
  assert (acceptedCount (d_observed (notify d env msg a)) <= 1)%nat as Hle.
  { destruct (notify_attempts d env msg a) as [(Hlen & _) _]. destruct d; cbn [notify max_attempts is_pd] in *.
    - unfold notifyPagerDuty. pose proof (pagerDuty_loop_accepted pagerDutyMaxAttempts 1 None msg (ae_pagerduty env)) as Hp.
      destruct (negb _); [by vm_compute; lia |]. destruct (String.eqb _ _); [by vm_compute; lia |].
      destruct (reserveDelivery _ _ _ _) as [[] ?]; cbn [negb]; [| by vm_compute; lia].
      by destruct (pagerDuty_loop _ _ _ _ _) as [[[[? ?] ?] ?] ?].
    - unfold acceptedCount. etrans; [apply length_filter | done].
    - unfold acceptedCount. etrans; [apply length_filter | done].
    - unfold acceptedCount. etrans; [apply length_filter | done]. }
  revert Hle. unfold accepted_delivery, acceptedCount. generalize (d_observed (notify d env msg a)). intros l Hle.
  destruct (existsb _ l) eqn:E.
  - apply existsb_exists in E as (o & Hin & Ho%String.eqb_eq).
    assert (o ∈ filter (fun o : string * string => o.2 = deliveryAccepted) l) as H
      by (apply list_elem_of_filter; split; [done | by apply list_elem_of_In]).
    destruct (filter _ l); [by apply elem_of_nil in H |]. simpl in *. lia.
  - rewrite <- not_true_iff_false in E. destruct (filter _ l) as [| o l'] eqn:Ef; [done |]. exfalso. apply E.
    assert (o ∈ filter (fun o : string * string => o.2 = deliveryAccepted) l) as [Ho Hin]%list_elem_of_filter
      by (rewrite Ef; left).
    apply existsb_exists. exists o. split; [by apply list_elem_of_In | by apply String.eqb_eq].
Qed.

Definition deliveryLabels (o : string * string) : labels := <["destination" := o.1]> {["outcome" := o.2]}.

Lemma deliveryLabels_inj o o' : deliveryLabels o = deliveryLabels o' -> o = o'.
Proof.
  destruct o as [d x], o' as [d' x']. unfold deliveryLabels. simpl. intros E.
  pose proof (f_equal (lookup "destination") E) as E1. pose proof (f_equal (lookup "outcome") E) as E2.
  rewrite !lookup_insert_eq in E1. rewrite !lookup_insert_ne, !lookup_singleton_eq in E2 by done. congruence.
Qed.

Definition countOf (o : string * string) (l : list (string * string)) : nat := length (filter (fun p => p = o) l).

Lemma countOf_app o l1 l2 : countOf o (l1 ++ l2) = (countOf o l1 + countOf o l2)%nat.
Proof. unfold countOf. by rewrite filter_app, length_app. Qed.

Lemma filter_ext_elem {A} (P Q : A -> Prop) `{!forall x, Decision (P x), !forall x, Decision (Q x)} (l : list A) :
  (forall x, x ∈ l -> P x <-> Q x) -> filter P l = filter Q l.
Proof.
  induction l as [| x l IH]; intros Hl; [done |]. rewrite !filter_cons.
  assert (P x <-> Q x) as Hx by (apply Hl; left).
  rewrite IH by (intros y Hy; apply Hl; by right). repeat case_decide; tauto || done.
Qed.

(** The acceptances a delivery to [d'] reports for [d]. *)
Lemma countOf_notify d d' env msg a :
  countOf (dest_name d, deliveryAccepted) (d_observed (notify d' env msg a)) =
  if decide (d = d') then (if accepted_delivery (notify d' env msg a) then 1%nat else 0%nat) else 0%nat.
Proof.
  destruct (notify_attempts d' env msg a) as [(_ & _ & Hf & _) _]. rewrite Forall_forall in Hf.
  case_decide as Hd.
  - subst d'. rewrite <- notify_accepted_once. unfold countOf, acceptedCount. f_equal.
    apply filter_ext_elem. intros o Ho. specialize (Hf o Ho). destruct o. simpl in *. naive_solver.
  - unfold countOf. rewrite (proj2 (length_zero_iff_nil _)); [done |].
    destruct (filter _ _) as [| o l] eqn:Ef; [done |]. exfalso.
    assert (o ∈ filter (fun p => p = (dest_name d, deliveryAccepted)) (d_observed (notify d' env msg a)))
      as [-> Ho]%list_elem_of_filter by (rewrite Ef; left).
    apply Hf in Ho as [Ho _]. simpl in Ho. apply Hd. by destruct d, d'.
Qed.

(** Accepted deliveries are counted one by one. *)
Lemma countOf_observedBy d h a :
  countOf (dest_name d, deliveryAccepted) (observedBy h a) = length (accepted_log d h a).
Proof.
  revert a. induction h as [| [env msg] h IH]; intros a; [done |]. cbn [observedBy accepted_log].
  unfold deliverAlert. cbv zeta. rewrite !countOf_app, IH, !countOf_notify, length_app.
  generalize (length (accepted_log d h (d_cache (notify slk env msg (d_cache (notify tg env msg
    (d_cache (notify di env msg (d_cache (notify pd env msg a)))))))))). intros n.
  destruct d; repeat first [rewrite decide_True by done | rewrite decide_False by done];
    cbv beta iota; destruct (accepted_delivery _); cbn [length]; lia.
Qed.

(** Every reported outcome is one of the twelve pairs. *)
Lemma observedBy_labels h a :
  Forall (fun o => exists d, o.1 = dest_name d /\ o.2 ∈ outcomes) (observedBy h a).
Proof.
  revert a. induction h as [| [env msg] h IH]; intros a; [constructor |]. cbn [observedBy].
  unfold deliverAlert. cbv zeta. rewrite !Forall_app.
  split_and!; try apply IH;
    match goal with |- Forall _ (d_observed (notify ?d ?e ?m ?b)) =>
      destruct (notify_attempts d e m b) as [(_ & _ & Hf & _) _];
      eapply Forall_impl; [exact Hf | intros o Ho; by exists d]
    end.
Qed.

Lemma observedBy_ascii h a : Forall (fun o => isASCII o.1 = true /\ isASCII o.2 = true) (observedBy h a).
Proof.
  eapply Forall_impl; [apply observedBy_labels |]. intros [x y] (d & -> & Hy). split; [by destruct d |].
  simpl in *. unfold outcomes in Hy. rewrite !elem_of_cons, elem_of_nil in Hy. destruct_or?; by subst.
Qed.

(** ** Properties *)

(** C33: the gauges.  On a registry without the exporter's families, registering
    them and applying any sequence of updates whose label values (names, chain
    ids, monikers and endpoints) are valid UTF-8 does not panic (each update has
    exactly the labels of its family); afterwards every series holds the last
    value sent for it, and series nothing was sent for hold what they held.
    With an invalid value among them the exporter panics. *)
Theorem exporter_gauges_exact `{PromLib} (us : list promUpdate) (r : Registry) :
  (forall t, families r !! (gaugeFamily t).1 = None) ->
  if decide (Forall validUpdate us)
  then exists r', prometheusExporter us r = Some r' /\
    (forall t, families r' !! (gaugeFamily t).1 = Some (gaugeFamily t).2) /\
    forall t ld, gauge r' (gaugeFamily t).1 ld =
      match lastValue t ld us with Some v => Some v | None => gauge r (gaugeFamily t).1 ld end
  else prometheusExporter us r = None.
Proof.
  intros Hr. destruct (registerAll_ok registrationOrder) with (r := r) as (r1 & E1 & Hreg & G1 & _); [| by intros t _ |].
  { apply (bool_decide_unpack _). vm_compute. exact I. }
  unfold prometheusExporter. rewrite E1. cbn [mbind option_bind]. case_decide as Hv; [| by apply setStats_panics].
  destruct (setStats_ok us r1 Hreg Hv) as (r' & E & F & _ & G). exists r'. split_and!; [done | |].
  - intros t. rewrite F. apply Hreg. destruct t; unfold registrationOrder; rewrite !elem_of_cons; tauto.
  - intros t ld. by rewrite G, G1.
Qed.

(** C34: the delivery counter.  While the worker delivers any sequence of alerts,
    only the twelve series of a destination and an outcome can change, whatever
    the alerts contain; and the accepted series of a destination grows by
    exactly the number of alerts that were sent there and that it accepted by
    its answer (Slack with 200, Discord with 204, and so on). *)
Theorem delivery_series_bounded `{PromLib} (h : list (alertEnv * alertMsg)) (a : alarmCache) (r : Registry) :
  families r !! deliveryFamily = Some ["destination"; "outcome"] -> Forall (fun p => clock_ok p.1) h ->
  exists r', observeAll (observedBy h a) r = Some r' /\
    (forall n ld, counter r' n ld <> counter r n ld ->
       n = deliveryFamily /\ exists d o, o ∈ outcomes /\ ld = deliveryLabels (dest_name d, o)) /\
    forall d, counter r' deliveryFamily (deliveryLabels (dest_name d, deliveryAccepted)) =
      counter r deliveryFamily (deliveryLabels (dest_name d, deliveryAccepted)) +
        Z.of_nat (length (network_log d h a)).
Proof.
  intros Hr Hclk. destruct (observeAll_ok (observedBy h a) r (observedBy_ascii h a) Hr) as (r' & E & _ & C). exists r'. split_and!; [done | |].
  - intros n ld Hne. rewrite C in Hne.
    destruct (filter _ (observedBy h a)) as [| o l] eqn:Ef; [simpl in Hne; lia |].
    assert (o ∈ o :: l) as Ho by left. rewrite <- Ef in Ho. apply list_elem_of_filter in Ho as [[= -> ->] Ho].
    split; [done |]. pose proof (observedBy_labels h a) as Hl. rewrite Forall_forall in Hl.
    destruct (Hl o Ho) as (d & Hd & Hout). exists d, o.2. split; [done |]. unfold deliveryLabels. by rewrite Hd.
  - intros d. rewrite C, <- (accepted_log_network d h a Hclk), <- countOf_observedBy. unfold countOf. do 3 f_equal. apply filter_ext_elem. intros o _.
    split; [intros Hl; symmetry; by apply deliveryLabels_inj, (f_equal snd Hl) | by intros ->].
Qed.

(** ** Witnesses *)

(** A registry as maps. *)
Record mapRegistry := MkMapRegistry {
  mr_families : gmap string (list string);
  mr_gauges : gmap (string * labels) SpecFloat.spec_float;
  mr_counters : gmap (string * labels) Z;
}.

Definition labelsMatch (r : mapRegistry) (n : string) (ld : labels) : bool :=
  match mr_families r !! n with
  | Some ls => bool_decide (dom ld = (list_to_set ls : gset string)) &&
               bool_decide (map_Forall (fun _ x => isASCII x = true) ld)
  | None => false
  end.

#[refine] Definition sampleProm : PromLib := {|
  Registry := mapRegistry;
  families := mr_families;
  gauge r n ld := mr_gauges r !! (n, ld);
  counter r n ld := default 0 (mr_counters r !! (n, ld));
  validText := isASCII;
  NewGaugeVec n ls r :=
    match mr_families r !! n with
    | Some _ => None
    | None => if negb (validName n && forallb validName ls) then None else
        Some (MkMapRegistry (<[n := ls]> (mr_families r)) (mr_gauges r) (mr_counters r))
    end;
  SetGauge n ld v r :=
    if labelsMatch r n ld
    then Some (MkMapRegistry (mr_families r) (<[(n, ld) := v]> (mr_gauges r)) (mr_counters r)) else None;
  IncCounter n ld r :=
    if labelsMatch r n ld
    then Some (MkMapRegistry (mr_families r) (mr_gauges r)
                 (<[(n, ld) := default 0 (mr_counters r !! (n, ld)) + 1]> (mr_counters r))) else None;
|}.
Proof.
  - done.
  - intros n ls r -> -> ->. by eexists.
  - intros n ls ld v r Hn Hd Hv. unfold labelsMatch. rewrite Hn, !bool_decide_eq_true_2 by done.
    eexists. split_and!; [done | done | done |]. intros n' ld'. simpl. rewrite lookup_insert.
    by repeat case_decide.
  - intros n ld v r Hv. unfold labelsMatch. destruct (mr_families r !! n); [| done].
    by rewrite (bool_decide_eq_false_2 (map_Forall _ ld)), andb_false_r.
  - intros n ls ld r Hn Hd Hv. unfold labelsMatch. rewrite Hn, !bool_decide_eq_true_2 by done.
    eexists. split_and!; [done | done | done |]. intros n' ld'. simpl. rewrite lookup_insert.
    repeat case_decide; simplify_eq/=; lia || congruence.
Defined.

Definition sampleRegistry : mapRegistry :=
  MkMapRegistry {[deliveryFamily := ["destination"; "outcome"]]} ∅ ∅.

Definition sampleStat (v : Z) : promUpdate :=
  MkPromUpdate metricNodeDownSeconds (f64_of_Z v) "Osmosis" "osmosis-1" "NosNode" "tcp://a:26657".

Lemma exporter_gauges_exact_witness :
  exists r, @prometheusExporter sampleProm [sampleStat 1; sampleStat 2] sampleRegistry = Some r /\
    @gauge sampleProm r "tenderduty_endpoint_down_seconds" (updateLabels (sampleStat 2)) = Some (f64_of_Z 2).
Proof.
  pose proof (@exporter_gauges_exact sampleProm [sampleStat 1; sampleStat 2] sampleRegistry) as Hg.
  rewrite decide_True in Hg by (apply (bool_decide_unpack _); vm_compute; exact I).
  destruct Hg as (r & E & _ & G); [intros t; by destruct t |].
  exists r. split; [exact E |]. rewrite (G metricNodeDownSeconds). vm_compute. reflexivity.
Defined.

Lemma delivery_series_bounded_witness :
  exists r, @observeAll sampleProm (observedBy [(sampleEnv, sampleMsg)] newAlarmCache) sampleRegistry = Some r /\
    @counter sampleProm r deliveryFamily (deliveryLabels ("slack", "accepted")) = 1.
Proof.
  destruct (@delivery_series_bounded sampleProm [(sampleEnv, sampleMsg)] newAlarmCache sampleRegistry) as (r & E & _ & C);
    [done | constructor; [apply sampleEnv_ok | apply Forall_nil_2] |].
  exists r. split; [exact E |]. etransitivity; [exact (C slk) | vm_compute; reflexivity].
Defined.
