(* ===== verification/Cli.v ===== *)
(** * The command line (main.go)

    Parsing the options with Go's [flag] package, the precedence of flags,
    environment and existing files, the dispatch of [runApp], and the choice of
    the legacy working directory.  What the commands do (the monitor, the
    encryption of a configuration, the prompt for a password) are arguments;
    what is printed is named, not spelled out. *)

From Stdlib Require Import Ascii.
From S2P Require Import Prelude Types ChainDetails Ws.

Local Open Scope Z_scope.

(** ** Options *)

Definition defaultStateFile : string := ".nosnode-seer-state.json".
Definition legacyStateFile : string := ".tenderduty-state.json".
Definition canonicalContainerDirectory : string := "/var/lib/nosnode-seer".
Definition legacyContainerDirectory : string := "/var/lib/tenderduty".

Record options := MkOptions {
  configFile : string;
  chainConfigDirectory : string;
  stateFile : string;
  encryptedFile : string;
  password : string;
  dumpConfig : bool;
  encryptConfig : bool;
  decryptConfig : bool;
  showVersion : bool;
  usingLegacyState : bool;
}.

#[export] Instance eta_options : Eta options := {| eta_of r :=
  MkOptions (configFile r) (chainConfigDirectory r) (stateFile r) (encryptedFile r) (password r)
    (dumpConfig r) (encryptConfig r) (decryptConfig r) (showVersion r) (usingLegacyState r) |}.

Definition defaultOptions : options :=
  MkOptions "config.yml" "chains.d" defaultStateFile "config.yml.asc" "" false false false false false.

(** ** The flag package *)

Inductive flagError :=
  | ErrHelp
  | BadSyntax (arg : string)
  | NotDefined (name : string)
  | InvalidBool (name value : string)
  | NeedsArgument (name : string).

(** The registered flags, by kind, with what setting them does. *)
Definition stringFlag (name : string) : option (string -> options -> options) :=
  if String.eqb name "f" then Some (fun v o => o <| configFile := v |>)
  else if String.eqb name "encrypted-config" then Some (fun v o => o <| encryptedFile := v |>)
  else if String.eqb name "password" then Some (fun v o => o <| password := v |>)
  else if String.eqb name "state" then Some (fun v o => o <| stateFile := v |>)
  else if String.eqb name "cc" then Some (fun v o => o <| chainConfigDirectory := v |>)
  else None.

Definition boolFlag (name : string) : option (bool -> options -> options) :=
  if String.eqb name "example-config" then Some (fun v o => o <| dumpConfig := v |>)
  else if String.eqb name "encrypt" then Some (fun v o => o <| encryptConfig := v |>)
  else if String.eqb name "decrypt" then Some (fun v o => o <| decryptConfig := v |>)
  else if String.eqb name "version" then Some (fun v o => o <| showVersion := v |>)
  else None.

(** [strconv.ParseBool] *)
Definition ParseBool (s : string) : option bool :=
  if existsb (String.eqb s) ["1"; "t"; "T"; "TRUE"; "true"; "True"] then Some true
  else if existsb (String.eqb s) ["0"; "f"; "F"; "FALSE"; "false"; "False"] then Some false
  else None.

(** Split at the first equals sign. *)
Fixpoint cutEquals (s : string) : string * option string :=
  match s with
  | EmptyString => ("", None)
  | String a s' =>
      if Ascii.eqb a "="%char then ("", Some s')
      else let '(name, value) := cutEquals s' in (String a name, value)
  end.

Inductive flagArg := NotFlag | Terminator | Malformed | Named (name : string) (value : option string).

(** One argument, as [parseOne] reads it. *)
Definition readArg (s : string) : flagArg :=
  match s with
  | String a (String b s') =>
      if negb (Ascii.eqb a "-"%char) then NotFlag
      else
        let name := if Ascii.eqb b "-"%char then s' else String b s' in
        if Ascii.eqb b "-"%char && String.eqb s' "" then Terminator
        else match name with
             | EmptyString => Malformed
             | String c _ =>
                 if Ascii.eqb c "-"%char || Ascii.eqb c "="%char then Malformed
                 else let '(n, v) := cutEquals name in Named n v
             end
  | _ => NotFlag
  end.

(** The loop over the arguments; [actual] are the names of the flags that were set. *)
Fixpoint parseFlags (args : list string) (o : options) (actual : list string)
  : flagError + options * list string :=
  match args with
  | [] => inr (o, actual)
  | s :: rest =>
      match readArg s with
      | NotFlag | Terminator => inr (o, actual)
      | Malformed => inl (BadSyntax s)
      | Named name value =>
          match boolFlag name, stringFlag name with
          | Some set, _ =>
              match value with
              | None => parseFlags rest (set true o) (name :: actual)
              | Some v =>
                  match ParseBool v with
                  | Some b => parseFlags rest (set b o) (name :: actual)
                  | None => inl (InvalidBool name v)
                  end
              end
          | None, Some set =>
              match value, rest with
              | Some v, _ => parseFlags rest (set v o) (name :: actual)
              | None, v :: rest' => parseFlags rest' (set v o) (name :: actual)
              | None, [] => inl (NeedsArgument name)
              end
          | None, None =>
              if String.eqb name "help" || String.eqb name "h" then inl ErrHelp else inl (NotDefined name)
          end
      end
  end.

(** ** [parseOptions] *)

Definition parseOptions (args : list string) (getenv : string -> string) (fileExists : string -> bool)
  : flagError + options :=
  match parseFlags args defaultOptions [] with
  | inl e => inl e
  | inr (o, actual) =>
      let stateExplicit := existsb (String.eqb "state") actual in
      let o := if negb stateExplicit && negb (fileExists defaultStateFile) && fileExists legacyStateFile
               then o <| stateFile := legacyStateFile |> <| usingLegacyState := true |> else o in
      let o := if String.eqb (configFile o) "config.yml" && negb (String.eqb (getenv "CONFIG") "")
               then o <| configFile := getenv "CONFIG" |> else o in
      let o := if negb (String.eqb (getenv "PASSWORD") "") then o <| password := getenv "PASSWORD" |> else o in
      inr o
  end.

(** ** [runApp] *)

(** What is done, in order. *)
Inductive action :=
  | PrintUsage (e : flagError)
  | PrintVersion
  | PrintExample
  | WarnLegacyState
  | Prompt
  | EncryptedConfigCall (plain cipher pass : string) (decrypting : bool)
  | RunCall (config state dir pass : string)
  | Complain.

Section app.
Context (readPassword : option string)
        (encryptedConfig : string -> string -> string -> bool -> bool)   (* whether it fails *)
        (run : string -> string -> string -> string -> bool).

Definition runApp (args : list string) (getenv : string -> string) (fileExists : string -> bool) : Z * list action :=
  match parseOptions args getenv fileExists with
  | inl ErrHelp => (0, [PrintUsage ErrHelp])
  | inl e => (2, [PrintUsage e])
  | inr o =>
      if showVersion o then (0, [PrintVersion])
      else if dumpConfig o then (0, [PrintExample])
      else
        let warn := if usingLegacyState o then [WarnLegacyState] else [] in
        if encryptConfig o || decryptConfig o then
          let crypt pass :=
            let call := EncryptedConfigCall (configFile o) (encryptedFile o) pass (decryptConfig o) in
            if encryptedConfig (configFile o) (encryptedFile o) pass (decryptConfig o)
            then (1, [call; Complain]) else (0, [call]) in
          if String.eqb (password o) "" then
            match readPassword with
            | None => (1, warn ++ [Prompt; Complain])
            | Some pass => let '(code, acts) := crypt pass in (code, warn ++ Prompt :: acts)
            end
          else let '(code, acts) := crypt (password o) in (code, warn ++ acts)
        else
          let call := RunCall (configFile o) (stateFile o) (chainConfigDirectory o) (password o) in
          if run (configFile o) (stateFile o) (chainConfigDirectory o) (password o)
          then (1, warn ++ [call; Complain]) else (0, warn ++ [call])
  end.

End app.

(** ** The legacy working directory *)

(** [filepath.Base] *)
Definition Base (path : string) : string :=
  if String.eqb path "" then "."
  else let p := trimSlash path in
       if String.eqb p "" then "/" else default "" (last (Split p "/")).

Definition selectsConfig (arg : string) : bool :=
  String.eqb arg "-f" || String.eqb arg "--f" || HasPrefix arg "-f=" || HasPrefix arg "--f=".

Definition legacyInvocationWorkingDirectory (argv0 currentDirectory : string) (args : list string)
    (configEnvironment : string) (exists_ : string -> bool) : string :=
  if String.eqb (Base argv0) "tenderduty" then
    if exists_ legacyContainerDirectory then legacyContainerDirectory else ""
  else if negb (String.eqb currentDirectory canonicalContainerDirectory) ||
          negb (String.eqb configEnvironment "") || exists_ "config.yml" then ""
  else if existsb selectsConfig args then ""
  else if exists_ (legacyContainerDirectory +:+ "/config.yml") then legacyContainerDirectory
  else "".

(** ** [main]

    Whether a file exists depends on the working directory it is looked up
    from; [chdir] says whether the directory can be entered. *)
Definition main (readPassword : option string) (encryptedConfig : string -> string -> string -> bool -> bool)
    (run : string -> string -> string -> string -> bool) (chdir : string -> bool)
    (fileExists : string -> string -> bool) (argv0 currentDirectory : string) (args : list string)
    (getenv : string -> string) : Z * list action :=
  let directory := legacyInvocationWorkingDirectory argv0 currentDirectory args (getenv "CONFIG")
                     (fileExists currentDirectory) in
  if negb (String.eqb directory "") then
    if chdir directory then runApp readPassword encryptedConfig run args getenv (fileExists directory)
    else (1, [Complain])
  else runApp readPassword encryptedConfig run args getenv (fileExists currentDirectory).

(** ** Properties *)

(** A value given to a flag, in one of the two ways the flag package allows. *)
Definition stringArg (joined : bool) (name value : string) : list string :=
  if joined then ["--" +:+ name +:+ "=" +:+ value] else ["-" +:+ name; value].

Definition boolArg (joined : bool) (name : string) (value : bool) : list string :=
  if joined then ["-" +:+ name +:+ "=" +:+ (if value then "true" else "0")] else if value then ["--" +:+ name] else [].

(** The command line that asks for [o]; without the state file if [withState] is off. *)
Definition render (joined withState : bool) (o : options) : list string :=
  stringArg joined "f" (configFile o) ++ stringArg joined "cc" (chainConfigDirectory o) ++
  (if withState then stringArg joined "state" (stateFile o) else []) ++
  stringArg joined "encrypted-config" (encryptedFile o) ++ stringArg joined "password" (password o) ++
  boolArg joined "example-config" (dumpConfig o) ++ boolArg joined "encrypt" (encryptConfig o) ++
  boolArg joined "decrypt" (decryptConfig o) ++ boolArg joined "version" (showVersion o).

Lemma parseFlags_render joined withState o tl :
  exists actual, parseFlags (render joined withState o ++ "--" :: tl) defaultOptions [] =
    inr (o <| usingLegacyState := false |>
           <| stateFile := if withState then stateFile o else defaultStateFile |>, actual) /\
    existsb (String.eqb "state") actual = withState.
Proof.
  destruct o as [cf cd sf ef pw b1 b2 b3 b4 ls].
  destruct joined, withState, b1, b2, b3, b4; eexists; (split; [reflexivity | reflexivity]).
Qed.

(** C35: flags are read back.  For every choice of options, a command line that
    asks for them (as separate or as joined arguments, whatever the values
    contain) yields exactly them, up to the documented precedence: CONFIG
    replaces a configuration file named [config.yml], PASSWORD always replaces
    the password, and without [-state] the legacy state file is chosen exactly
    if it exists and the new one does not.  Arguments after [--] are ignored. *)
Theorem cli_flags_roundtrip (joined withState : bool) (o : options) (tl : list string)
    (getenv : string -> string) (fileExists : string -> bool) :
  let legacy := negb withState && negb (fileExists defaultStateFile) && fileExists legacyStateFile in
  parseOptions (render joined withState o ++ "--" :: tl) getenv fileExists = inr (MkOptions
    (if String.eqb (configFile o) "config.yml" && negb (String.eqb (getenv "CONFIG") "") then getenv "CONFIG"
     else configFile o)
    (chainConfigDirectory o)
    (if legacy then legacyStateFile else if withState then stateFile o else defaultStateFile)
    (encryptedFile o)
    (if String.eqb (getenv "PASSWORD") "" then password o else getenv "PASSWORD")
    (dumpConfig o) (encryptConfig o) (decryptConfig o) (showVersion o) legacy).
Proof.
  intros legacy. unfold parseOptions. destruct (parseFlags_render joined withState o tl) as (actual & -> & ->).
  fold legacy. destruct o as [cf cd sf ef pw b1 b2 b3 b4 ls].
  destruct legacy, (String.eqb cf "config.yml") eqn:Ec, (String.eqb (getenv "CONFIG") "") eqn:E1,
    (String.eqb (getenv "PASSWORD") "") eqn:E2; cbn; rewrite ?Ec, ?E1, ?E2; reflexivity.
Qed.

(** *** The configuration file that was asked for *)

Lemma cutEquals_f (s : string) (v : option string) : cutEquals s = ("f", v) ->
  s = "f" \/ exists w, s = "f=" +:+ w.
Proof.
  destruct s as [| a s]; [done |]. cbn [cutEquals]. destruct (Ascii.eqb a "="%char); [done |].
  destruct (cutEquals s) as [n w] eqn:E. intros [= -> -> ->]. destruct s as [| b s]; [by left |].
  cbn [cutEquals] in E. destruct (Ascii.eqb_spec b "="%char) as [-> |]; [by right; exists s |].
  by destruct (cutEquals s).
Qed.

(** An argument that names the flag is one of the forms that are looked for. *)
Lemma readArg_f (arg : string) (v : option string) : readArg arg = Named "f" v -> selectsConfig arg = true.
Proof.
  unfold readArg. destruct arg as [| a [| b s]]; [done | done |].
  destruct (Ascii.eqb_spec a "-"%char) as [-> |]; [| done]. cbn [negb].
  assert (forall name, (let '(n, w) := cutEquals name in Named n w) = Named "f" v ->
    name = "f" \/ exists w, name = "f=" +:+ w) as Hcut.
  { intros name. destruct (cutEquals name) as [n w] eqn:E. intros [= -> ->]. exact (cutEquals_f _ _ E). }
  destruct (Ascii.eqb_spec b "-"%char) as [-> | Hb]; cbn [andb].
  - destruct (String.eqb s ""); [done |]. destruct s as [| d s]; [done |].
    destruct (_ || _); [done |]. intros H%Hcut. destruct H as [-> | [w ->]]; [reflexivity |].
    by destruct w.
  - destruct (_ || _); [done |]. intros H%Hcut. destruct H as [[= -> ->] | [w Hw]]; [done |].
    unfold String.append in Hw. injection Hw as -> ->. by destruct w.
Qed.

Lemma boolFlag_config (name : string) (set : bool -> options -> options) (b : bool) (o : options) :
  boolFlag name = Some set -> configFile (set b o) = configFile o.
Proof. unfold boolFlag. repeat case_match; intros [= <-]; done. Qed.

Lemma stringFlag_config (name : string) (set : string -> options -> options) (v : string) (o : options) :
  stringFlag name = Some set -> name <> "f" -> configFile (set v o) = configFile o.
Proof.
  unfold stringFlag. destruct (String.eqb_spec name "f") as [-> |]; [done |].
  repeat case_match; intros [= <-]; done.
Qed.

(** Only an argument of one of these forms sets the flag [f], and only the flag
    sets the configuration file. *)
Lemma parseFlags_config (n : nat) : forall (args : list string) (o o' : options) (actual actual' : list string),
  (length args <= n)%nat -> existsb selectsConfig args = false -> parseFlags args o actual = inr (o', actual') ->
  configFile o' = configFile o /\ ("f" ∈ actual' -> "f" ∈ actual).
Proof.
  induction n as [| n IH]; intros [| s rest] o o' actual actual' Hn Hs; cbn [parseFlags]; simpl in Hn;
    try (by intros [= <- <-]); [lia |].
  cbn [existsb] in Hs. apply orb_false_iff in Hs as [Hs Hrest].
  destruct (readArg s) as [| | | name value] eqn:Er; [by intros [= <- <-] | by intros [= <- <-] | done |].
  assert (name <> "f") as Hf by (intros ->; by rewrite (readArg_f _ _ Er) in Hs).
  assert ("f" ∈ name :: actual -> "f" ∈ actual) as Hin by (intros [? | ?]%elem_of_cons; [by subst | done]).
  destruct (boolFlag name) as [set |] eqn:Eb; [| destruct (stringFlag name) as [set |] eqn:Es; [| by destruct (_ || _)]].
  - destruct value as [v |]; [destruct (ParseBool v) |]; [| done |]; intros H%IH; [| lia | done | | lia | done];
      destruct H as [-> H]; (split; [by eapply boolFlag_config | by auto]).
  - destruct value as [v |]; [| destruct rest as [| v rest]; [done |]; simpl in Hn, Hrest; apply orb_false_iff in Hrest as [_ Hrest]];
      intros H%IH; [| lia | done | | lia | done]; destruct H as [-> H]; (split; [by eapply stringFlag_config | by auto]).
Qed.

(** When the working directory is left, if the program is not invoked under its
    old name. *)
Lemma legacy_directory_taken (argv0 currentDirectory : string) (args : list string) (env : string)
    (exists_ : string -> bool) (o : options) (actual : list string) :
  Base argv0 <> "tenderduty" -> parseFlags args defaultOptions [] = inr (o, actual) ->
  legacyInvocationWorkingDirectory argv0 currentDirectory args env exists_ <> "" ->
  currentDirectory = canonicalContainerDirectory /\ env = "" /\ exists_ "config.yml" = false /\
  ("f" ∉ actual) /\ configFile o = "config.yml" /\ exists_ (legacyContainerDirectory +:+ "/config.yml") = true.
Proof.
  intros Hb Hp. unfold legacyInvocationWorkingDirectory. rewrite (proj2 (String.eqb_neq _ _) Hb).
  destruct (String.eqb_spec currentDirectory canonicalContainerDirectory), (String.eqb_spec env ""),
    (exists_ "config.yml"); try done. cbn [negb orb].
  destruct (existsb selectsConfig args) eqn:Es; [done |].
  destruct (parseFlags_config (length args) args _ _ _ _ (le_n _) Es Hp) as [Ho Ha].
  destruct (exists_ _) eqn:El; [| done]. intros _. split_and!; try done. intros Hin%Ha. by apply elem_of_nil in Hin.
Qed.

(** C36: where a configuration that was asked for is looked up.  If the program is
    not invoked under its old name and the configuration file was named, by the
    flag (in any spelling, with any value, [config.yml] included) or by CONFIG,
    the program runs in the working directory it was started in.  Without that
    it leaves the directory only from the container's directory, for a default
    configuration that is missing there and present in the old directory.
    Invoked as [tenderduty] it always moves to the old directory if that
    exists, also if a configuration file was named, and fails if it cannot. *)
Theorem cli_working_directory (readPassword : option string) (encryptedConfig : string -> string -> string -> bool -> bool)
    (run : string -> string -> string -> string -> bool) (chdir : string -> bool)
    (fileExists : string -> string -> bool) (argv0 currentDirectory : string) (args : list string)
    (getenv : string -> string) (o : options) (actual : list string) :
  parseFlags args defaultOptions [] = inr (o, actual) ->
  let started := main readPassword encryptedConfig run chdir fileExists argv0 currentDirectory args getenv in
  let runIn dir := runApp readPassword encryptedConfig run args getenv (fileExists dir) in
  let moved := if chdir legacyContainerDirectory then runIn legacyContainerDirectory else (1, [Complain]) in
  if String.eqb (Base argv0) "tenderduty"
  then started = if fileExists currentDirectory legacyContainerDirectory then moved else runIn currentDirectory
  else ("f" ∈ actual \/ getenv "CONFIG" <> "" -> started = runIn currentDirectory) /\
       (started = runIn currentDirectory \/
        started = moved /\ currentDirectory = canonicalContainerDirectory /\ configFile o = "config.yml" /\
        fileExists currentDirectory "config.yml" = false /\
        fileExists currentDirectory (legacyContainerDirectory +:+ "/config.yml") = true).
Proof.
  intros Hp started runIn moved. unfold started, main.
  set (d := legacyInvocationWorkingDirectory _ _ _ _ _).
  assert (d = "" \/ d = legacyContainerDirectory) as Hd by (unfold d, legacyInvocationWorkingDirectory; repeat case_match; auto).
  destruct (String.eqb_spec (Base argv0) "tenderduty") as [Hb | Hb].
  - unfold d, legacyInvocationWorkingDirectory. rewrite Hb, String.eqb_refl. by destruct (fileExists _ _).
  - pose proof (legacy_directory_taken argv0 currentDirectory args (getenv "CONFIG") (fileExists currentDirectory) o actual Hb Hp) as Ht.
    fold d in Ht. destruct Hd as [-> | ->]; [split; [done | by left] |].
    destruct Ht as (H1 & H2 & H3 & H4 & H5 & H6); [done |]. split; [by intros [? | ?] | right]. by split_and!.
Qed.

Definition isCall (a : action) : bool :=
  match a with EncryptedConfigCall _ _ _ _ | RunCall _ _ _ _ => true | _ => false end.

(** Membership in the short lists of actions. *)
Ltac dispatch_case :=
  cbn [app]; split_and!;
  [ by auto
  | split; [intros; first [discriminate | eexists; by split] | intros (? & ? & ?); by simplify_eq]
  | split; [intros; first [discriminate | rewrite !elem_of_cons; tauto]
           | rewrite ?elem_of_cons, ?elem_of_nil; intros; destruct_or?; first [done | discriminate]]
  | repeat (rewrite filter_cons; cbn [isCall]; repeat case_decide); rewrite ?filter_nil; cbn [length]; first [lia | done]
  | intros ? ? ? ?; rewrite ?elem_of_cons, ?elem_of_nil; split;
    [ intros; destruct_or?; simplify_eq; first [done | eexists; by split_and!]
    | intros (? & ? & ? & ? & ? & ? & ? & ? & ? & ?); simplify_eq; first [congruence | tauto] ]
  | intros ? ? ? ?; rewrite ?elem_of_cons, ?elem_of_nil; intros; destruct_or?; simplify_eq; first [done | by case_match] ].

(** What an invocation does.  The exit code is 2 exactly for a command line
    that cannot be parsed, 1 exactly if the prompt, the encryption or the
    monitor failed, and then the failure is printed; at most one of encryption
    and monitor is called; the monitor is called exactly if no other command
    was asked for, with the chosen files and the password. *)
Theorem cli_dispatch (readPassword : option string) (encryptedConfig : string -> string -> string -> bool -> bool)
    (run : string -> string -> string -> string -> bool) (args : list string) (getenv : string -> string)
    (fileExists : string -> bool) :
  let '(code, acts) := runApp readPassword encryptedConfig run args getenv fileExists in
  (code = 0 \/ code = 1 \/ code = 2) /\
  (code = 2 <-> exists e, parseOptions args getenv fileExists = inl e /\ e <> ErrHelp) /\
  (code = 1 <-> Complain ∈ acts) /\
  (length (filter (fun a => isCall a = true) acts) <= 1)%nat /\
  (forall c s d p, RunCall c s d p ∈ acts <->
     exists o, parseOptions args getenv fileExists = inr o /\ showVersion o = false /\ dumpConfig o = false /\
       encryptConfig o = false /\ decryptConfig o = false /\
       c = configFile o /\ s = stateFile o /\ d = chainConfigDirectory o /\ p = password o) /\
  (forall c s d p, RunCall c s d p ∈ acts -> code = if run c s d p then 1 else 0).
Proof.
  unfold runApp. destruct (parseOptions args getenv fileExists) as [e | o].
  { destruct e; dispatch_case. }
  destruct (showVersion o) eqn:E1; [dispatch_case |]. destruct (dumpConfig o) eqn:E2; [dispatch_case |].
  destruct (encryptConfig o) eqn:E3; [| destruct (decryptConfig o) eqn:E4]; cbn [orb].
  1,2: destruct (usingLegacyState o), (String.eqb (password o) "");
    [destruct readPassword as [pass |]; [| dispatch_case] | | destruct readPassword as [pass |]; [| dispatch_case] |];
    destruct (encryptedConfig _ _ _ _); dispatch_case.
  destruct (usingLegacyState o), (run _ _ _ _) eqn:Er; dispatch_case.
Qed.

(** ** Witnesses *)

Lemma cli_working_directory_witness :
  let start argv0 args := main None (fun _ _ _ _ => false) (fun _ _ _ _ => false) (fun _ => true)
    (fun dir f => String.eqb f "/var/lib/tenderduty/config.yml" || String.eqb f legacyContainerDirectory)
    argv0 canonicalContainerDirectory args (fun _ => "") in
  start "/usr/bin/nosnode-seer" ["--password"; "x"; "-f=config.yml"] =
    (0, [RunCall "config.yml" ".nosnode-seer-state.json" "chains.d" "x"]) /\
  legacyInvocationWorkingDirectory "/usr/bin/nosnode-seer" canonicalContainerDirectory ["-password"; "x"] ""
    (fun f => String.eqb f "/var/lib/tenderduty/config.yml") = legacyContainerDirectory.
Proof.
  split; [| reflexivity].
  destruct (cli_working_directory None (fun _ _ _ _ => false) (fun _ _ _ _ => false) (fun _ => true)
    (fun dir f => String.eqb f "/var/lib/tenderduty/config.yml" || String.eqb f legacyContainerDirectory)
    "/usr/bin/nosnode-seer" canonicalContainerDirectory ["--password"; "x"; "-f=config.yml"] (fun _ => "") _ _ eq_refl)
    as [H _].
  etransitivity; [apply H; left; vm_compute; left | reflexivity].
Defined.
