(* ===== verification/Govulncheck.v ===== *)
(** * The vulnerability baseline script (scripts/check-govulncheck.go)

    The reviewed baseline is read line by line, the report event by event, and
    the run succeeds only if both name the same findings.  Opening files,
    splitting a file into lines and decoding JSON are arguments. *)

From Stdlib Require Import Ascii.
From stdpp Require Import sorting.
From S2P Require Import Prelude ChainDetails.

Local Open Scope Z_scope.

(** ** The baseline *)

(** The UTF-8 encodings of the characters [strings.TrimSpace] removes. *)
Definition bytesString (l : list nat) : string := String.string_of_list_ascii (ascii_of_nat <$> l).

Definition spaceRunes : list string := bytesString <$>
  ([[9]; [10]; [11]; [12]; [13]; [32]; [194; 133]; [194; 160]; [225; 154; 128]] ++
   ((fun n => [226; 128; n]) <$> seq 128 11) ++
   [[226; 128; 168]; [226; 128; 169]; [226; 128; 175]; [226; 129; 159]; [227; 128; 128]])%nat.

Definition spacePrefix (s : string) : option string := head (filter (fun p => String.prefix p s = true) spaceRunes).

(** Each turn removes at least a byte. *)
Fixpoint trimLeftFuel (fuel : nat) (s : string) : string :=
  match fuel with
  | O => s
  | S fuel =>
      match spacePrefix s with
      | Some p => trimLeftFuel fuel (String.substring (String.length p) (String.length s) s)
      | None => s
      end
  end.

Fixpoint revString (s acc : string) : string :=
  match s with EmptyString => acc | String a s' => revString s' (String a acc) end.

Definition spaceSuffix (r : string) : option string :=
  head (filter (fun p => String.prefix (revString p "") r = true) spaceRunes).

(** On the reversed string, with the encodings reversed. *)
Fixpoint trimRightFuel (fuel : nat) (r : string) : string :=
  match fuel with
  | O => r
  | S fuel =>
      match spaceSuffix r with
      | Some p => trimRightFuel fuel (String.substring (String.length p) (String.length r) r)
      | None => r
      end
  end.

Definition TrimSpace (s : string) : string :=
  let s := trimLeftFuel (String.length s) s in
  revString (trimRightFuel (String.length s) (revString s "")) "".

(** The part of a line before a comment. *)
Definition allowEntry (line : string) : option string :=
  let id := TrimSpace (default "" (head (Split line "#"))) in if String.eqb id "" then None else Some id.

(** [lines]: those the scanner yields, with the error it ends with. *)
Definition loadAllowlist (file : string + list string * option string) : string + gset string :=
  match file with
  | inl e => inl e
  | inr (lines, None) => inr (list_to_set (omap allowEntry lines))
  | inr (_, Some e) => inl e
  end.

(** ** The report *)

(** A finding, if the event has one: its identifier and the functions of its trace. *)
Definition event : Type := option (string * list string).

(** An event counts if its trace reaches a function. *)
Definition reachable (e : event) : option string :=
  match e with
  | Some (osv, trace) =>
      if String.eqb osv "" then None
      else if existsb (fun f => negb (String.eqb f "")) trace then Some osv else None
  | None => None
  end.

(** The decoder's results in order; the first error ends the run. *)
Fixpoint symbolFindings (items : list (string + event)) (found : gset string) : string + gset string :=
  match items with
  | [] => inr found
  | inl e :: _ => inl e
  | inr item :: items =>
      symbolFindings items (match reachable item with Some osv => {[osv]} ∪ found | None => found end)
  end.

(** ** The comparison *)

Definition string_le (a b : string) : Prop := String.leb a b = true.

#[export] Instance string_le_dec a b : Decision (string_le a b).
Proof. unfold string_le. apply _. Defined.

Definition difference (left right : gset string) : list string :=
  merge_sort string_le (filter (fun id => id ∉ right) (elements left)).

Inductive verdict :=
  | Usage | LoadFailed (e : string) | OpenFailed (e : string) | DecodeFailed (e : string)
  | Changed (unexpected missing : list string) | Matched (n : nat).

(** [args]: the positional arguments. *)
Definition main (args : list string) (allowlist : string + list string * option string)
    (report : string + list (string + event)) : verdict :=
  match args with
  | [_] =>
      match loadAllowlist allowlist with
      | inl e => LoadFailed e
      | inr allowed =>
          match report with
          | inl e => OpenFailed e
          | inr items =>
              match symbolFindings items ∅ with
              | inl e => DecodeFailed e
              | inr found =>
                  let unexpected := difference found allowed in
                  let missing := difference allowed found in
                  match unexpected, missing with
                  | [], [] => Matched (size found)
                  | _, _ => Changed unexpected missing
                  end
              end
          end
      end
  | _ => Usage
  end.

Definition exitCode (v : verdict) : Z := match v with Usage => 2 | Matched _ => 0 | _ => 1 end.

(** ** Lemmas *)

Lemma difference_elem l r id : id ∈ difference l r <-> id ∈ l /\ id ∉ r.
Proof.
  unfold difference. rewrite merge_sort_Permutation, list_elem_of_filter, elem_of_elements. tauto.
Qed.

Lemma difference_nil l r : difference l r = [] <-> l ⊆ r.
Proof.
  split.
  - intros Hd id Hid. destruct (decide (id ∈ r)) as [| Hn]; [done |].
    assert (id ∈ difference l r) as H by (by apply difference_elem). rewrite Hd in H. by apply elem_of_nil in H.
  - intros Hs. destruct (difference l r) as [| id d] eqn:Hd; [done |]. exfalso.
    assert (id ∈ difference l r) as [H1 H2]%difference_elem by (rewrite Hd; left). by apply H2, Hs.
Qed.

(** The findings of the report: the identifiers of the events that count. *)
Lemma symbolFindings_spec items found :
  match symbolFindings items found with
  | inr s => exists evs, items = inr <$> evs /\ s = found ∪ list_to_set (omap reachable evs)
  | inl e => inl e ∈ items
  end.
Proof.
  revert found. induction items as [| [e | item] items IH]; intros found; cbn [symbolFindings].
  - exists []. split; [done |]. simpl. set_solver.
  - left.
  - specialize (IH (match reachable item with Some osv => {[osv]} ∪ found | None => found end)).
    destruct (symbolFindings items _) as [e | s]; [by right |]. destruct IH as (evs & -> & ->).
    exists (item :: evs). split; [done |]. cbn [omap list_omap]. destruct (reachable item); simpl; set_solver.
Qed.

(** ** Properties *)

(** C38: the gate.  The script succeeds exactly if it got one report, both files
    were read to their end without an error, and the symbol-reachable findings
    of the report are exactly the identifiers of the baseline; if they differ,
    the two lists it prints are the findings not in the baseline and the
    baseline entries not found. *)
Theorem baseline_gate_exact (args : list string) (allowlist : string + list string * option string)
    (report : string + list (string + event)) :
  (exitCode (main args allowlist report) = 0 <->
     exists path lines evs, args = [path] /\ allowlist = inr (lines, None) /\ report = inr (inr <$> evs) /\
       forall id, id ∈ omap reachable evs <-> id ∈ omap allowEntry lines) /\
  (forall u m, main args allowlist report = Changed u m ->
     exists lines evs, allowlist = inr (lines, None) /\ report = inr (inr <$> evs) /\
       (forall id, id ∈ u <-> id ∈ omap reachable evs /\ id ∉ omap allowEntry lines) /\
       (forall id, id ∈ m <-> id ∈ omap allowEntry lines /\ id ∉ omap reachable evs)).
Proof.
  unfold main. destruct args as [| path [|]].
  1,3: split; [split; [done |]; by intros (? & ? & ? & [=] & _) | done].
  destruct allowlist as [e | [lines [e |]]]; cbn [loadAllowlist].
  1,2: split; [split; [done |]; by intros (? & ? & ? & _ & [=] & _) | done].
  destruct report as [e | items].
  { split; [split; [done |]; by intros (? & ? & ? & _ & _ & [=] & _) | done]. }
  pose proof (symbolFindings_spec items ∅) as Hs. destruct (symbolFindings items ∅) as [e | found].
  { split; [| done]. split; [done |]. intros (? & ? & evs & _ & _ & [= ->] & _).
    apply list_elem_of_fmap in Hs as (? & ? & _). done. }
  destruct Hs as (evs & -> & ->). set (F := _ ∪ _). set (A := list_to_set _ : gset string).
  assert (forall id, id ∈ F <-> id ∈ omap reachable evs) as HF by (intros id; unfold F; set_solver).
  assert (forall id, id ∈ A <-> id ∈ omap allowEntry lines) as HA by (intros id; unfold A; set_solver).
  pose proof (difference_nil F A) as D1. pose proof (difference_nil A F) as D2.
  assert (forall u m, Changed (difference F A) (difference A F) = Changed u m ->
    exists lines' evs', inr (lines, None) = inr (lines', None) :> string + list string * option string /\
      inr (inr <$> evs) = inr (inr <$> evs') :> string + list (string + event) /\
      (forall id, id ∈ u <-> id ∈ omap reachable evs' /\ id ∉ omap allowEntry lines') /\
      (forall id, id ∈ m <-> id ∈ omap allowEntry lines' /\ id ∉ omap reachable evs')) as Hch.
  { intros u m [= <- <-]. exists lines, evs. split_and!; [done | done | |]; intros id; rewrite difference_elem, HF, HA; done. }
  assert ((exists path' lines' evs', [path] = [path'] /\
     inr (lines, None) = inr (lines', None) :> string + list string * option string /\
     inr (inr <$> evs) = inr (inr <$> evs') :> string + list (string + event) /\
     forall id, id ∈ omap reachable evs' <-> id ∈ omap allowEntry lines') <-> F ⊆ A /\ A ⊆ F) as Heq.
  { split.
    - intros (? & ? & ? & _ & [= ->] & [= He%(inj (fmap inr))] & Hid). subst. split; intros id; rewrite HF, HA; apply Hid.
    - intros [H1 H2]. exists path, lines, evs. split_and!; [done.. |]. intros id. rewrite <- HF, <- HA. split; auto. }
  rewrite Heq. destruct (difference F A) as [| u us], (difference A F) as [| m ms];
    (split; [| first [done | exact Hch]]); cbn [exitCode].
  - split; [intros _; split; [by apply D1 | by apply D2] | done].
  - split; [done |]. intros [_ H]. by apply D2 in H.
  - split; [done |]. intros [H _]. by apply D1 in H.
  - split; [done |]. intros [H _]. by apply D1 in H.
Qed.

(** The repository's own baseline format. *)
Example allowlist_lines :
  omap allowEntry ["# Symbol-reachable findings"; ""; "  GO-2026-5932 # reviewed"] = ["GO-2026-5932"].
Proof. vm_compute. reflexivity. Qed.
