(* ===== verification/WsSession.v ===== *)
(** * A websocket session ([WsRun], ws.go)

    The goroutines of [WsRun] and the channels between them, as a step relation:
    the reader routes messages to the block and vote handlers, these send
    updates to the result goroutine (all channels are unbuffered: a send and
    its receive are one step), the closer closes the socket when the context
    is done, and the main goroutine subscribes, waits, cancels and waits for
    the others.  What the result goroutine does with an update is modelled in
    the file for [ws.go]; here it has the points at which it may give
    up and the one (the dashboard's channel) at which it does not.  That channel
    is drained by the dashboard, so its work on an update ends. *)

From S2P Require Import Prelude Types Events Ws.

Local Open Scope Z_scope.

#[export] Instance destination_eq_dec : EqDecision destination.
Proof. solve_decision. Defined.

(** ** States *)

Inductive readerPC := RReading | RSending (d : destination) (r : WsReply) | RDone.
Inductive handlerPC := HIdle | HSending (u : StatusUpdate) | HDone.
(** With an update the result goroutine first counts and emits the block time
    ([ResBusy]), then shows the status on the dashboard ([ResShowing]), then
    emits the counters ([ResStats]).  Emitting gives up when the context is
    done; showing does not. *)
Inductive resultPC := ResWaiting | ResBusy | ResShowing | ResStats | ResDone.
Inductive sessionPC := Subscribing (left : nat) | WatchingEvents | Deferred | WaitingWorkers | Returned.

(** [inbox]: the messages that have arrived and were not read; [reads] and
    [delivered]: what the reader has routed and the result goroutine received,
    oldest first. *)
Record session := MkSession {
  ctxDone : bool;
  socketOpen : bool;
  inbox : list WsReply;
  reader : readerPC;
  handler : destination -> handlerPC;
  result : resultPC;
  closerDone : bool;
  smain : sessionPC;
  reads : list (destination * WsReply);
  delivered : list (destination * StatusUpdate);
}.

#[export] Instance eta_session : Eta session := {| eta_of r :=
  MkSession (ctxDone r) (socketOpen r) (inbox r) (reader r) (handler r) (result r) (closerDone r) (smain r)
    (reads r) (delivered r) |}.

(** The state in which the goroutines have just been started: a subscription to
    blocks and one to votes are to be made. *)
Definition newSession : session :=
  MkSession false true [] RReading (fun _ => HIdle) ResWaiting false (Subscribing 2) [] [].

Definition setHandler (d : destination) (p : handlerPC) (s : session) : session :=
  s <| handler := fun d' => if decide (d' = d) then p else handler s d' |>.

Section session.
Context (unmarshalBlock : string -> string + cometBFTBlockWire)
        (unmarshalVote : string -> string + cometBFTVoteWire) (address : string).

(** What a handler makes of a message. *)
Definition updateOf (d : destination) (r : WsReply) : option StatusUpdate :=
  match d with
  | toBlocks => match decodeBlockEvent unmarshalBlock (Value r) with
                | inl _ => None
                | inr ev => Some (classifyBlockEvent ev address)
                end
  | toVotes => match decodeVoteEvent unmarshalVote (Value r) with
               | inl _ => None
               | inr ev => classifyVoteEvent ev address
               end
  end.

(** ** Steps *)

(** Steps of the goroutines. *)
Inductive goStep : session -> session -> Prop :=
  (** the reader takes a message and routes it, or drops it *)
  | G_read s r l d : reader s = RReading -> inbox s = r :: l -> route r = Some d ->
      goStep s (s <| inbox := l |> <| reader := RSending d r |> <| reads := reads s ++ [(d, r)] |>)
  | G_readOther s r l : reader s = RReading -> inbox s = r :: l -> route r = None ->
      goStep s (s <| inbox := l |>)
  (** the read fails, in any case once the socket is closed *)
  | G_readError s : reader s = RReading -> socketOpen s = false ->
      goStep s (s <| reader := RDone |> <| ctxDone := true |>)
  | G_handOver s d r : reader s = RSending d r -> handler s d = HIdle ->
      goStep s (setHandler d (match updateOf d r with Some u => HSending u | None => HIdle end)
                  (s <| reader := RReading |>))
  | G_readerDone s d r : reader s = RSending d r -> ctxDone s = true -> goStep s (s <| reader := RDone |>)
  | G_send s d u : handler s d = HSending u -> result s = ResWaiting ->
      goStep s (setHandler d HIdle (s <| result := ResBusy |> <| delivered := delivered s ++ [(d, u)] |>))
  | G_handlerDone s d : handler s d <> HDone -> ctxDone s = true -> goStep s (setHandler d HDone s)
  (** an update that is not final, or without validator, is done with at once *)
  | G_processed s : result s = ResBusy -> goStep s (s <| result := ResWaiting |>)
  | G_counted s : result s = ResBusy -> goStep s (s <| result := ResShowing |>)
  | G_shown s : result s = ResShowing -> goStep s (s <| result := ResStats |>)
  | G_emitted s : result s = ResStats -> goStep s (s <| result := ResWaiting |>)
  | G_emitStopped s : result s = ResBusy \/ result s = ResStats -> ctxDone s = true -> goStep s (s <| result := ResDone |>)
  | G_resultDone s : result s = ResWaiting -> ctxDone s = true -> goStep s (s <| result := ResDone |>)
  | G_close s : closerDone s = false -> ctxDone s = true ->
      goStep s (s <| closerDone := true |> <| socketOpen := false |>)
  | G_subscribe s n : smain s = Subscribing (S n) -> socketOpen s = true -> goStep s (s <| smain := Subscribing n |>)
  | G_writeClosed s n : smain s = Subscribing (S n) -> socketOpen s = false ->
      goStep s (s <| smain := Deferred |> <| ctxDone := true |>)
  | G_subscribed s : smain s = Subscribing 0 -> goStep s (s <| smain := WatchingEvents |>)
  | G_ctxDone s : smain s = WatchingEvents -> ctxDone s = true -> goStep s (s <| smain := Deferred |>)
  | G_deferred s : smain s = Deferred ->
      goStep s (s <| smain := WaitingWorkers |> <| ctxDone := true |> <| socketOpen := false |>)
  | G_return s : smain s = WaitingWorkers -> reader s = RDone -> (forall d, handler s d = HDone) ->
      result s = ResDone -> closerDone s = true -> goStep s (s <| smain := Returned |>).

(** What comes from outside: a message, a read error on the open socket, a
    minute without blocks, a failed subscription, the end of the client or of
    the parent's context. *)
Inductive outsideStep : session -> session -> Prop :=
  | O_message s r : socketOpen s = true -> outsideStep s (s <| inbox := inbox s ++ [r] |>)
  | O_readError s : reader s = RReading -> outsideStep s (s <| reader := RDone |> <| ctxDone := true |>)
  | O_idle s : handler s toBlocks = HIdle -> outsideStep s (setHandler toBlocks HDone s <| ctxDone := true |>)
  | O_writeError s n : smain s = Subscribing (S n) -> outsideStep s (s <| smain := Deferred |> <| ctxDone := true |>)
  | O_quit s : smain s = WatchingEvents -> outsideStep s (s <| smain := Deferred |> <| ctxDone := true |>)
  | O_parent s : outsideStep s (s <| ctxDone := true |>).

Definition sessionStep (s s' : session) : Prop := goStep s s' \/ outsideStep s s'.

(** ** Termination *)

(** How much is left to do once the socket is closed. *)
Definition readerRank (p : readerPC) : nat := match p with RReading => 1 | RSending _ _ => 6 | RDone => 0 end.
Definition handlerRank (p : handlerPC) : nat := match p with HIdle => 1 | HSending _ => 5 | HDone => 0 end.
Definition resultRank (p : resultPC) : nat :=
  match p with ResWaiting => 1 | ResStats => 2 | ResShowing => 3 | ResBusy => 4 | ResDone => 0 end.
Definition smainRank (p : sessionPC) : nat :=
  match p with Subscribing n => n + 4 | WatchingEvents => 3 | Deferred => 2 | WaitingWorkers => 1 | Returned => 0 end.

Definition sessionRank (s : session) : nat :=
  (6 * length (inbox s) + readerRank (reader s) + handlerRank (handler s toBlocks) + handlerRank (handler s toVotes) +
   resultRank (result s) + (if closerDone s then 0 else 1) + smainRank (smain s))%nat.

(** What holds in every reachable state: nobody is done before the context is;
    the socket is closed only then; and the main goroutine waits, or has
    returned, only with everything in order. *)
Record session_inv (s : session) : Prop := {
  si_done : ctxDone s = false ->
    reader s <> RDone /\ (forall d, handler s d <> HDone) /\ result s <> ResDone /\ closerDone s = false /\
    socketOpen s = true /\ smain s <> Deferred;
  si_closer : closerDone s = true -> socketOpen s = false;
  si_main : smain s = WaitingWorkers \/ smain s = Returned -> ctxDone s = true /\ socketOpen s = false;
  si_returned : smain s = Returned ->
    reader s = RDone /\ (forall d, handler s d = HDone) /\ result s = ResDone /\ closerDone s = true;
}.

Lemma session_inv_new : session_inv newSession.
Proof. split; simpl; intros; destruct_or?; done. Qed.

Lemma setHandler_eq d p s : handler (setHandler d p s) d = p.
Proof. unfold setHandler. simpl. by rewrite decide_True. Qed.

Lemma setHandler_ne d d' p s : d' <> d -> handler (setHandler d p s) d' = handler s d'.
Proof. intros H. unfold setHandler. simpl. by rewrite decide_False. Qed.

(** The fields of a stepped state. *)
Ltac session_simpl :=
  cbn [ctxDone socketOpen inbox reader handler result closerDone smain reads delivered setHandler field_set] in *.

Ltac session_solve :=
  repeat match goal with
  | H : ?P -> _, H' : ?P |- _ => lazymatch type of P with Prop => specialize (H H') end
  | H : _ /\ _ |- _ => destruct H
  | H : forall d, handler ?s d = HDone, H' : handler ?s ?d0 = _ |- _ => rewrite H in H'
  | H : forall d, handler ?s d = HDone, H' : handler ?s ?d0 <> _ |- _ => rewrite H in H'
  end;
  split_and?; intros; repeat case_decide; repeat case_match; subst; try congruence; eauto.

Lemma goStep_inv s s' : goStep s s' -> session_inv s -> session_inv s'.
Proof.
  intros Hs [H1 H2 H3 H4].
  destruct Hs; (split; session_simpl; intros Hc; [| | destruct Hc as [Hc | Hc] |]);
    try (assert (smain s = WaitingWorkers \/ smain s = Returned) by tauto); session_solve.
Qed.

Lemma outsideStep_inv s s' : outsideStep s s' -> session_inv s -> session_inv s'.
Proof.
  intros Hs [H1 H2 H3 H4].
  destruct Hs; (split; session_simpl; intros Hc; [| | destruct Hc as [Hc | Hc] |]);
    try (assert (smain s = WaitingWorkers \/ smain s = Returned) by tauto); session_solve.
Qed.

Lemma session_reach_inv s : rtc sessionStep newSession s -> session_inv s.
Proof.
  intros Hr. eapply rtc_invariant; [| exact Hr | apply session_inv_new].
  intros x y [H | H]; [by apply goStep_inv | by apply outsideStep_inv].
Qed.


Ltac rank_solve :=
  unfold sessionRank; session_simpl;
  repeat match goal with d : destination |- _ => destruct d end;
  repeat first [rewrite decide_True by done | rewrite decide_False by done];
  repeat match goal with
  | H : reader ?s = _ |- _ => rewrite H
  | H : inbox ?s = _ |- _ => rewrite H
  | H : result ?s = _ |- _ => rewrite H
  | H : closerDone ?s = _ |- _ => rewrite H
  | H : smain ?s = _ |- _ => rewrite H
  | H : handler ?s ?d = _ |- _ => rewrite H
  | H : handler ?s ?d <> HDone |- _ => destruct (handler s d); [| | congruence]; clear H
  | H : result ?s = _ \/ result ?s = _ |- _ => destruct H
  end;
  repeat match goal with |- context [handlerRank (match ?o with _ => _ end)] => destruct o end;
  cbn [readerRank handlerRank resultRank smainRank length]; lia.

(** Once the context is done and the socket closed, every step of a goroutine
    brings the session closer to its end, and steps from outside do not take it
    away from it. *)
Lemma goStep_rank s s' :
  goStep s s' -> ctxDone s = true -> socketOpen s = false ->
  (sessionRank s' < sessionRank s)%nat /\ ctxDone s' = true /\ socketOpen s' = false.
Proof. intros Hs Hc Ho. destruct Hs; session_simpl; (split; [| by split]); try congruence; rank_solve. Qed.

Lemma outsideStep_rank s s' :
  outsideStep s s' -> ctxDone s = true -> socketOpen s = false ->
  (s' = s \/ (sessionRank s' < sessionRank s)%nat) /\ ctxDone s' = true /\ socketOpen s' = false.
Proof.
  intros Hs Hc Ho. destruct Hs; session_simpl; (split; [| by split]); try congruence; try (right; rank_solve).
  left. destruct s. session_simpl. by subst.
Qed.

(** No deadlock: until the main goroutine has returned some goroutine can go on. *)
Lemma session_progress s : session_inv s -> ctxDone s = true -> smain s <> Returned -> exists s', goStep s s'.
Proof.
  intros [_ _ H3 _] Hc Hm. destruct (smain s) as [[| n] | | | |] eqn:Em.
  - eexists. by apply G_subscribed.
  - destruct (socketOpen s) eqn:Eo; eexists; [by eapply G_subscribe | by eapply G_writeClosed].
  - eexists. by apply G_ctxDone.
  - eexists. by apply G_deferred.
  - destruct (H3 (or_introl eq_refl)) as [_ Ho].
    destruct (reader s) eqn:Er; [eexists; by apply G_readError | eexists; by eapply G_readerDone |].
    assert (forall d, handler s d <> HDone -> exists s', goStep s s') as Hh
      by (intros d Hd; eexists; by eapply (G_handlerDone s d)).
    destruct (handler s toBlocks) eqn:Eb; [by apply (Hh toBlocks); rewrite Eb | by apply (Hh toBlocks); rewrite Eb |].
    destruct (handler s toVotes) eqn:Ev; [by apply (Hh toVotes); rewrite Ev | by apply (Hh toVotes); rewrite Ev |].
    destruct (result s) eqn:Es;
      [eexists; by apply G_resultDone | eexists; by apply G_processed | eexists; by apply G_shown | eexists; by apply G_emitted |].
    destruct (closerDone s) eqn:Ec; [| eexists; by apply G_close].
    eexists. apply G_return; try done. by intros [].
  - done.
Qed.

Lemma session_finishes s :
  session_inv s -> ctxDone s = true -> exists s', rtc goStep s s' /\ smain s' = Returned.
Proof.
  intros Hi Hc.
  assert (exists s1, rtc goStep s s1 /\ session_inv s1 /\ ctxDone s1 = true /\ socketOpen s1 = false) as (s1 & Hr & Hi1 & Hc1 & Ho1).
  { destruct (socketOpen s) eqn:Eo; [| by exists s].
    assert (closerDone s = false) as Ecl.
    { destruct (closerDone s) eqn:E; [| done]. rewrite (si_closer s Hi E) in Eo. done. }
    exists (s <| closerDone := true |> <| socketOpen := false |>). pose proof (G_close s Ecl Hc) as Hg.
    split_and!; [by apply rtc_once | by eapply goStep_inv | done | done]. }
  assert (exists s', rtc goStep s1 s' /\ smain s' = Returned) as (s' & Hr' & Hm); [| exists s'; split; [by etrans | done]].
  clear s Hi Hc Hr. remember (sessionRank s1) as n eqn:En. revert s1 En Hi1 Hc1 Ho1.
  induction n as [n IH] using lt_wf_ind. intros s -> Hi Hc Ho.
  destruct (decide (smainRank (smain s) = 0)%nat) as [Hz | Hz].
  { exists s. split; [done |]. destruct (smain s); simpl in Hz; lia || done. }
  destruct (session_progress s Hi Hc) as [s1 Hs1]; [by intros Hm; rewrite Hm in Hz |].
  destruct (goStep_rank s s1 Hs1 Hc Ho) as (Hlt & Hc1 & Ho1).
  destruct (IH _ Hlt s1 eq_refl (goStep_inv _ _ Hs1 Hi) Hc1 Ho1) as (s' & Hr & Hm).
  exists s'. split; [by econstructor | done].
Qed.

(** ** Order of the updates *)

(** The updates the messages routed to a handler stand for, and those of them
    the result goroutine has received. *)
Definition updatesRead (d : destination) (l : list (destination * WsReply)) : list StatusUpdate :=
  omap (fun x => if decide (x.1 = d) then updateOf d x.2 else None) l.

Definition updatesDelivered (d : destination) (l : list (destination * StatusUpdate)) : list StatusUpdate :=
  omap (fun x => if decide (x.1 = d) then Some x.2 else None) l.

Definition inHandler (p : handlerPC) : list StatusUpdate := match p with HSending u => [u] | _ => [] end.

Definition inReader (d : destination) (p : readerPC) : list StatusUpdate :=
  match p with RSending d' r => if decide (d' = d) then option_list (updateOf d r) else [] | _ => [] end.

(** Everything read is delivered, in the handler's hands or in the reader's; a
    goroutine that is done may have dropped what it held. *)
Definition order_inv (s : session) : Prop :=
  forall d, match handler s d with
            | HDone => updatesDelivered d (delivered s) `prefix_of` updatesRead d (reads s)
            | h => exists x, updatesRead d (reads s) =
                     updatesDelivered d (delivered s) ++ inHandler h ++ inReader d (reader s) ++ x /\
                     (reader s <> RDone -> x = [])
            end.

Lemma updatesRead_snoc d l d' r :
  updatesRead d (l ++ [(d', r)]) = updatesRead d l ++ if decide (d' = d) then option_list (updateOf d r) else [].
Proof. unfold updatesRead. rewrite omap_app. simpl. by case_decide; [destruct (updateOf d r) |]. Qed.

Lemma updatesDelivered_snoc d l d' u :
  updatesDelivered d (l ++ [(d', u)]) = updatesDelivered d l ++ if decide (d' = d) then [u] else [].
Proof. unfold updatesDelivered. rewrite omap_app. simpl. by case_decide. Qed.

Lemma inReader_length d p : (length (inReader d p) <= 1)%nat.
Proof. destruct p as [| d' r |]; simpl; try lia. case_decide; [destruct (updateOf d r) |]; simpl; lia. Qed.

(** The invariant of one handler gives that what it delivered was read. *)
Lemma order_prefix s d : order_inv s -> updatesDelivered d (delivered s) `prefix_of` updatesRead d (reads s).
Proof.
  intros Ho. specialize (Ho d). destruct (handler s d); [| | done]; destruct Ho as (x & -> & _); apply prefix_app_r; done.
Qed.

Lemma order_handlerDone s d : order_inv s -> order_inv (setHandler d HDone s).
Proof.
  intros Ho d'. unfold setHandler. session_simpl. case_decide as Hd; [| apply Ho].
  subst d'. by apply order_prefix.
Qed.

Lemma goStep_order s s' : goStep s s' -> order_inv s -> order_inv s'.
Proof.
  intros Hs Ho. destruct Hs; try exact Ho; try (by apply order_handlerDone);
    intros d'; specialize (Ho d'); session_simpl.
  - rewrite updatesRead_snoc. destruct (handler s d') eqn:Eh; [| | by apply prefix_app_r].
    1,2: rewrite H in Ho; cbn [inReader] in *; destruct Ho as (x & -> & Hx); rewrite (Hx ltac:(done));
      exists []; (split; [| done]); cbn [inHandler app]; by rewrite ?app_nil_r, <- ?app_assoc, ?app_nil_r.
  - rewrite H in Ho. destruct (handler s d') eqn:Eh; [| | done]; destruct Ho as (x & -> & Hx); exists x; (split; [done |]);
      intros Hn; by apply Hx.
  - case_decide as Hd.
    + subst d'. rewrite H, H0 in Ho. cbn [inHandler inReader app] in *. rewrite decide_True in Ho by done.
      destruct Ho as (x & -> & Hx). rewrite (Hx ltac:(done)). destruct (updateOf d r); exists []; simpl; by rewrite ?app_nil_r.
    + rewrite H in Ho. cbn [inReader] in *. rewrite decide_False in Ho by congruence.
      destruct (handler s d'); [| | done]; destruct Ho as (x & -> & Hx); exists x; (split; [done |]); intros _; by apply Hx.
  - rewrite H in Ho. destruct (handler s d') eqn:Eh; [| | done]; destruct Ho as (x & -> & Hx);
      exists (inReader d' (RSending d r) ++ x); (split; [by cbn [inReader app] | done]).
  - rewrite updatesDelivered_snoc. case_decide as Hd.
    + subst d'. rewrite H in Ho. rewrite decide_True by done. cbn [inHandler app] in *.
      destruct Ho as (x & -> & Hx). exists x. split; [by rewrite <- app_assoc | done].
    + rewrite decide_False, app_nil_r by congruence. exact Ho.
Qed.

Lemma outsideStep_order s s' : outsideStep s s' -> order_inv s -> order_inv s'.
Proof.
  intros Hs Ho. destruct Hs; try exact Ho; try (by apply order_handlerDone).
  intros d'. specialize (Ho d'). session_simpl. rewrite H in Ho.
  destruct (handler s d'); [| | done]; destruct Ho as (x & -> & Hx); exists x; done.
Qed.

Lemma session_reach_order s : rtc sessionStep newSession s -> order_inv s.
Proof.
  intros Hr. eapply rtc_invariant; [| exact Hr |].
  - intros x y [H | H]; [by apply goStep_order | by apply outsideStep_order].
  - intros d. exists []. done.
Qed.

End session.

(** ** Properties *)

(** C13: a session ends.  Once its context is done (a read error, a minute without
    blocks, a failed subscription, the end of the client or of the parent), the
    goroutines cannot block each other: until [WsRun] has returned one of them
    can go on, and there is a run to the return.  As soon as the socket is closed every
    step of theirs brings the return closer and nothing from outside undoes
    that, so at most [sessionRank] steps remain.  When it has returned all
    goroutines are gone and the socket is closed. *)
Theorem session_ends (unmarshalBlock : string -> string + cometBFTBlockWire)
    (unmarshalVote : string -> string + cometBFTVoteWire) (address : string) (s : session) :
  let go := goStep unmarshalBlock unmarshalVote address in
  rtc (sessionStep unmarshalBlock unmarshalVote address) newSession s -> ctxDone s = true ->
  (smain s <> Returned -> exists s', go s s') /\
  (exists s', rtc go s s' /\ smain s' = Returned) /\
  (socketOpen s = false -> forall s', (go s s' -> (sessionRank s' < sessionRank s)%nat) /\
     (outsideStep s s' -> (sessionRank s' <= sessionRank s)%nat)) /\
  (smain s = Returned -> reader s = RDone /\ (forall d, handler s d = HDone) /\ result s = ResDone /\
     closerDone s = true /\ socketOpen s = false).
Proof.
  intros go Hr Hc. pose proof (session_reach_inv _ _ _ s Hr) as Hi. split_and!.
  - intros Hm. by apply session_progress.
  - by apply session_finishes.
  - intros Ho s'. split; [intros Hs; by destruct (goStep_rank _ _ _ _ _ Hs Hc Ho) |].
    intros Hs. destruct (outsideStep_rank _ _ Hs Hc Ho) as [[-> | ?] _]; lia.
  - intros Hm. destruct (si_returned s Hi Hm) as (? & ? & ? & ?).
    destruct (si_main s Hi (or_intror Hm)) as [_ ?]. by split_and!.
Qed.

(** C14: updates arrive in order.  What the result goroutine receives from a
    handler is, at any time, a prefix of the updates the messages routed to the
    handler stand for: none is duplicated, reordered or skipped; and while the
    session runs at most two of them are still on their way. *)
Theorem session_updates_in_order (unmarshalBlock : string -> string + cometBFTBlockWire)
    (unmarshalVote : string -> string + cometBFTVoteWire) (address : string) (s : session) (d : destination) :
  rtc (sessionStep unmarshalBlock unmarshalVote address) newSession s ->
  let routed := updatesRead unmarshalBlock unmarshalVote address d (reads s) in
  updatesDelivered d (delivered s) `prefix_of` routed /\
  (ctxDone s = false -> exists pending, routed = updatesDelivered d (delivered s) ++ pending /\ (length pending <= 2)%nat).
Proof.
  intros Hr routed. subst routed. pose proof (session_reach_order _ _ _ s Hr) as Ho. split; [by eapply order_prefix |].
  intros Hc. destruct (si_done s (session_reach_inv _ _ _ s Hr) Hc) as (Hrd & Hh & _).
  specialize (Ho d). specialize (Hh d).
  pose proof (inReader_length unmarshalBlock unmarshalVote address d (reader s)) as Hl.
  destruct (handler s d); [| | done]; destruct Ho as (x & -> & Hx); rewrite (Hx Hrd); eexists;
    (split; [done |]); rewrite !length_app; simpl; lia.
Qed.

(** ** Witnesses *)

(** A block message arrives, is handed over, and the parent's context ends. *)
Definition blockReply : WsReply := MkWsReply "tendermint/event/NewBlock" (Some "{}").

Definition wireBlock (payload : string) : string + cometBFTBlockWire := inr (MkBlockWire "7" "AB" ["AB"]).
Definition wireVote (payload : string) : string + cometBFTVoteWire := inl "not a vote".

Definition sampleUpdate : StatusUpdate := MkStatusUpdate 7 StatusProposed true.

Definition handedOver : session :=
  MkSession false true [] RReading (fun d => if decide (d = toBlocks) then HSending sampleUpdate else HIdle)
    ResWaiting false (Subscribing 2) [(toBlocks, blockReply)] [].

Lemma handedOver_reachable : rtc (sessionStep wireBlock wireVote "AB") newSession handedOver.
Proof.
  eapply rtc_l; [right; apply (O_message newSession blockReply); reflexivity |].
  eapply rtc_l; [left; eapply G_read; reflexivity |].
  eapply rtc_l; [left; eapply G_handOver; reflexivity |].
  apply rtc_refl.
Qed.

Lemma session_ends_witness :
  exists s, rtc (goStep wireBlock wireVote "AB") (handedOver <| ctxDone := true |>) s /\ smain s = Returned.
Proof.
  apply (session_ends wireBlock wireVote "AB" (handedOver <| ctxDone := true |>)); [| reflexivity].
  eapply rtc_r; [exact handedOver_reachable |]. right. apply O_parent.
Defined.

Lemma session_updates_in_order_witness :
  exists pending, [sampleUpdate] = updatesDelivered toBlocks (delivered handedOver) ++ pending /\ (length pending <= 2)%nat.
Proof.
  destruct (session_updates_in_order wireBlock wireVote "AB" handedOver toBlocks handedOver_reachable) as [_ H].
  exact (H eq_refl).
Defined.
