(* ===== verification/HttpClients.v ===== *)
(** * HTTP clients (client construction in cometbft_adapter.go and alert.go)

    Both constructors copy an [http.Client] before they change it, because the
    original may be shared.  Clients and transports are objects in a store, so
    that what is shared and what is fresh can be told apart; settings nobody
    here touches are one opaque value. *)

From S2P Require Import Prelude Types AlarmCache Delivery.

Local Open Scope Z_scope.

(** ** Objects *)

Record Transport := MkTransport { Proxy : option string; tr_settings : string }.

#[export] Instance eta_Transport : Eta Transport := {| eta_of r := MkTransport (Proxy r) (tr_settings r) |}.

(** A round tripper is an [*http.Transport], one of another type, or [nil]. *)
Inductive roundTripper := TransportAt (p : nat) | OtherTripper (typ : string) | NilTripper.

Record Client := MkClient { cl_Transport : roundTripper; cl_Timeout : duration; cl_settings : string }.

#[export] Instance eta_Client : Eta Client := {| eta_of r :=
  MkClient (cl_Transport r) (cl_Timeout r) (cl_settings r) |}.

Record httpStore := MkHttpStore { transports : gmap nat Transport; clients : gmap nat Client }.

#[export] Instance eta_httpStore : Eta httpStore := {| eta_of r := MkHttpStore (transports r) (clients r) |}.

Definition newTransport (t : Transport) (st : httpStore) : nat * httpStore :=
  let p := fresh (dom (transports st)) in (p, st <| transports := <[p := t]> (transports st) |>).

Definition newClient (c : Client) (st : httpStore) : nat * httpStore :=
  let p := fresh (dom (clients st)) in (p, st <| clients := <[p := c]> (clients st) |>).

(** ** The RPC client (cometbft_adapter.go)

    [DefaultHTTPClient] and [NewWithClient] are CometBFT's. [None] is the use
    of a dangling pointer. *)

Inductive clientError := ClientError (e : string) | UnexpectedTransport (typ : roundTripper).

Section adapter.
Context (DefaultHTTPClient : string -> httpStore -> string + nat * httpStore)
        (NewWithClient : string -> string -> nat -> string + string).

Definition newCometBFTRPCHTTPClient (endpoint : string) (st : httpStore)
  : option ((clientError + nat) * httpStore) :=
  match DefaultHTTPClient endpoint st with
  | inl e => Some (inl (ClientError e), st)
  | inr (client, st) =>
      c ← clients st !! client;
      match cl_Transport c with
      | TransportAt base =>
          baseTransport ← transports st !! base;
          let '(direct, st) := newTransport baseTransport st in
          let st := st <| transports := alter (fun t => t <| Proxy := None |>) direct (transports st) |> in
          let '(directClient, st) := newClient c st in
          let st := st <| clients := alter (fun c => c <| cl_Transport := TransportAt direct |>) directClient (clients st) |> in
          Some (inr directClient, st)
      | t => Some (inl (UnexpectedTransport t), st)
      end
  end.

Definition newCometBFTRPCClient (endpoint websocketPath : string) (st : httpStore)
  : option ((clientError + string) * httpStore) :=
  r ← newCometBFTRPCHTTPClient endpoint st;
  match r with
  | (inl e, st) => Some (inl e, st)
  | (inr httpClient, st) =>
      Some (match NewWithClient endpoint websocketPath httpClient with
            | inl e => inl (ClientError e)
            | inr client => inr client
            end, st)
  end.

End adapter.

(** ** The notification sender (alert.go) *)

(** [sleep] and [observe] are the clock's and the exporter's; [APIEndpoint] is a
    constant of the Telegram library. *)
Record notificationSender := MkNotificationSender {
  ns_cache : alarmCache;
  ns_httpClient : nat;
  ns_telegramEndpoint : string;
  ns_pagerDutyEndpoint : string;
}.

Definition newNotificationSender (APIEndpoint : string) (cache : option alarmCache) (client : option nat) (st : httpStore)
  : option (notificationSender * httpStore) :=
  let cache := match cache with Some a => a | None => newAlarmCache end in
  let '(client, st) := match client with
                       | Some p => (p, st)
                       | None => newClient (MkClient NilTripper 0 "") st
                       end in
  c ← clients st !! client;
  let '(bounded, st) := newClient c st in
  let st := st <| clients := alter (fun c => c <| cl_Timeout := notificationAttemptTimeout |>) bounded (clients st) |> in
  Some (MkNotificationSender cache bounded APIEndpoint "", st).

(** ** Lemmas *)

(** Everything that was there is as it was. *)
Definition keeps (st st' : httpStore) : Prop :=
  transports st ⊆ transports st' /\ clients st ⊆ clients st'.

#[export] Instance keeps_preorder : PreOrder keeps.
Proof. split; [by split |]. intros a b d [? ?] [? ?]. split; by etransitivity. Qed.

(** A new object that is then changed: nothing else is. *)
Lemma insert_alter_fresh {A} (m : gmap nat A) (x : A) (f : A -> A) :
  alter f (fresh (dom m)) (<[fresh (dom m) := x]> m) = <[fresh (dom m) := f x]> m /\
  m !! fresh (dom m) = None /\ m ⊆ <[fresh (dom m) := f x]> m.
Proof.
  assert (m !! fresh (dom m) = None) as Hn by (apply not_elem_of_dom, is_fresh).
  split_and!; [by rewrite alter_insert_eq | done | by apply insert_subseteq].
Qed.

(** ** Properties *)

(** The node is dialed directly and nothing shared changes.  If the library's
    client and its transport exist and making it changed nothing that was there,
    the client for a node has the library's settings but no proxy, its own
    transport, and every client and transport that existed before is unchanged;
    a client with a transport of another type is refused. *)
Theorem rpc_client_direct (DefaultHTTPClient : string -> httpStore -> string + nat * httpStore)
    (endpoint : string) (st : httpStore) :
  (forall p st1, DefaultHTTPClient endpoint st = inr (p, st1) -> keeps st st1 /\
     exists c, clients st1 !! p = Some c /\ forall q, cl_Transport c = TransportAt q -> is_Some (transports st1 !! q)) ->
  exists r st', newCometBFTRPCHTTPClient DefaultHTTPClient endpoint st = Some (r, st') /\ keeps st st' /\
    match r with
    | inr p => exists base st1 c q t, DefaultHTTPClient endpoint st = inr (base, st1) /\ clients st1 !! base = Some c /\
        clients st !! p = None /\ transports st !! q = None /\
        clients st' !! p = Some (c <| cl_Transport := TransportAt q |>) /\
        transports st' !! q = Some (t <| Proxy := None |>) /\
        (exists b, cl_Transport c = TransportAt b /\ transports st1 !! b = Some t)
    | inl (UnexpectedTransport t) => forall q, t <> TransportAt q
    | inl (ClientError _) => True
    end.
Proof.
  intros Hlib. unfold newCometBFTRPCHTTPClient.
  destruct (DefaultHTTPClient endpoint st) as [e | [p st1]]; [by eexists _, _ |].
  destruct (Hlib p st1 eq_refl) as (Hk & c & Hc & Ht). rewrite Hc. cbn [mbind option_bind].
  destruct (cl_Transport c) as [b | ty |] eqn:Eb; [| by eexists _, _ | by eexists _, _].
  destruct (Ht b eq_refl) as [t Hb]. rewrite Hb. cbn [mbind option_bind newTransport newClient].
  destruct (insert_alter_fresh (transports st1) t (fun t => t <| Proxy := None |>)) as (Et & Nt & St).
  destruct (insert_alter_fresh (clients st1) c
    (fun c => c <| cl_Transport := TransportAt (fresh (dom (transports st1))) |>)) as (Ec & Nc & Sc).
  set (q := fresh (dom (transports st1))) in *. set (p' := fresh (dom (clients st1))) in *.
  exists (inr p'), (MkHttpStore (<[q := t <| Proxy := None |>]> (transports st1))
                     (<[p' := c <| cl_Transport := TransportAt q |>]> (clients st1))).
  split; [rewrite <- Et, <- Ec; reflexivity |].
  split; [split; (etransitivity; [apply Hk | done]) |].
  exists p, st1, c, q, t. split_and!; [done | done | | | apply lookup_insert_eq | apply lookup_insert_eq | by exists b].
  - eapply lookup_weaken_None; [exact Nc | apply Hk].
  - eapply lookup_weaken_None; [exact Nt | apply Hk].
Qed.

(** Every notification has a deadline.  The sender's client is its own copy of
    the client it was given, with the five-second timeout; the client it was
    given, and every other, is unchanged. *)
Theorem sender_client_bounded (api : string) (cache : option alarmCache) (client : option nat) (st : httpStore) :
  (forall p, client = Some p -> is_Some (clients st !! p)) ->
  exists s st' c, newNotificationSender api cache client st = Some (s, st') /\ keeps st st' /\
    clients st !! ns_httpClient s = None /\ clients st' !! ns_httpClient s = Some c /\ cl_Timeout c = 5 * Second /\
    (forall p c0, client = Some p -> clients st !! p = Some c0 -> c <| cl_Timeout := cl_Timeout c0 |> = c0).
Proof.
  intros Hcl. unfold newNotificationSender.
  assert (exists p c st1, (match client with Some p => (p, st) | None => newClient (MkClient NilTripper 0 "") st end) = (p, st1) /\
    clients st1 !! p = Some c /\ keeps st st1 /\ (client = Some p -> st1 = st) /\ (forall q, client = Some q -> q = p)) as
    (p & c & st1 & -> & Hc & Hk & Hst & Hq).
  { destruct client as [p |].
    - destruct (Hcl p eq_refl) as [c Hc]. exists p, c, st. split_and!; [done | done | done | done | congruence].
    - destruct (insert_alter_fresh (clients st) (MkClient NilTripper 0 "") id) as (_ & _ & Sc).
      eexists _, _, (MkHttpStore _ _). split_and!; [reflexivity | apply lookup_insert_eq | by split | done | done]. }
  rewrite Hc. cbn [mbind option_bind newClient].
  destruct (insert_alter_fresh (clients st1) c (fun c => c <| cl_Timeout := notificationAttemptTimeout |>)) as (Ec & Nc & Sc).
  set (b := fresh (dom (clients st1))) in *. set (c' := c <| cl_Timeout := _ |>) in *.
  eexists (MkNotificationSender _ b _ _), (MkHttpStore (transports st1) (<[b := c']> (clients st1))), c'.
  split; [rewrite <- Ec; reflexivity |]. cbn [clients ns_httpClient].
  split_and!; [split; [apply Hk | etransitivity; [apply Hk | done]] | | apply lookup_insert_eq | done |].
  - eapply lookup_weaken_None; [exact Nc | apply Hk].
  - intros q c0 -> H0. pose proof (Hq q eq_refl) as ->. rewrite (Hst eq_refl) in Hc. assert (c = c0) as -> by congruence.
    by destruct c0.
Qed.
