(* ===== verification/Logs.v ===== *)
(** * Log lines and healthcheck pings (init.go, [pingHealthcheck] of rpc.go)

    Everything the program logs goes through one channel; the goroutine at its
    end prints the line and, if the dashboard is on and logs are not hidden,
    sends it there.  The healthcheck pings are modelled with the answers to
    the requests as an argument; each logs its outcome. *)

From Stdlib Require Import Ascii.
From S2P Require Import Prelude Types AlarmCache Samples State ConfigLoad Dashboard.

Local Open Scope Z_scope.

(** ** The log channel (init.go) *)

(** [fmt.Sprint] of a slice whose elements print as [args]. *)
Definition Sprint (args : list string) : string := "[" +:+ String.concat " " args +:+ "]".

Fixpoint TrimLeft (a : ascii) (s : string) : string :=
  match s with
  | EmptyString => ""
  | String b s' => if Ascii.eqb a b then TrimLeft a s' else s
  end.

Fixpoint TrimRight (a : ascii) (s : string) : string :=
  match s with
  | EmptyString => ""
  | String b s' =>
      match TrimRight a s' with
      | EmptyString => if Ascii.eqb a b then "" else String b ""
      | r => String b r
      end
  end.

Definition leftBracket : ascii := ascii_of_nat 91.
Definition rightBracket : ascii := ascii_of_nat 93.

Definition logLine (args : list string) : string :=
  TrimRight rightBracket (TrimLeft leftBracket (Sprint args)).

(** What one logged message puts on the dashboard's channel ([logChan] says
    whether there is one). *)
Definition forwardLog (c : Config) (logChan : bool) (ts : Z) (args : list string) : list LogMessage :=
  if EnableDash c && negb (HideLogs c) && logChan then [MkLogMessage "log" ts (logLine args)] else [].

(** ** Healthcheck pings (rpc.go) *)

(** What happens to the request of a tick: it cannot be built, it fails, or
    there is an answer, of whatever status. *)
Inductive pingReply := BadRequest (e : string) | PingFailed (e : string) | Answered (status : Z).

(** [time.NewTicker] panics on an interval that is not positive. *)
Definition NewTicker (d : duration) : option duration := if d <=? 0 then None else Some d.

(** The URL requested, if any, and the arguments of the log call. *)
Definition ping (url : string) (r : pingReply) : option string * list string :=
  match r with
  | BadRequest e => (None, ["❌ Failed to ping healthcheck URL: " +:+ e])
  | PingFailed e => (Some url, ["❌ Failed to ping healthcheck URL: " +:+ e])
  | Answered _ => (Some url, ["🏓 Successfully pinged healthcheck URL: " +:+ url])
  end.

(** The pings until the context is done, one per tick; [None] is a panic. *)
Definition pingHealthcheck (h : HealthcheckConfig) (ticks : list pingReply)
  : option (list (option string * list string)) :=
  if negb (HC_Enabled h) then Some []
  else _ ← NewTicker (wrap64 (HC_PingRate h * Second)); Some (ping (HC_PingURL h) <$> ticks).

(** Whether a request could be built. *)
Definition sendable (r : pingReply) : bool := match r with BadRequest _ => false | _ => true end.

(** ** Lemmas *)

#[local] Arguments String.append !s1 s2 /.

Lemma TrimRight_keep a b s : a <> b -> TrimRight a (s +:+ String b "") = s +:+ String b "".
Proof.
  intros Hab. induction s as [| x s IH]; simpl.
  - by rewrite (proj2 (Ascii.eqb_neq a b) Hab).
  - rewrite IH. by destruct s.
Qed.

Lemma TrimRight_drop a s : TrimRight a (s +:+ String a "") = TrimRight a s.
Proof.
  induction s as [| x s IH]; simpl; [by rewrite Ascii.eqb_refl |]. by rewrite IH.
Qed.

Lemma app_string_assoc (s1 s2 s3 : string) : (s1 +:+ s2) +:+ s3 = s1 +:+ (s2 +:+ s3).
Proof. induction s1 as [| a s1 IH]; [done |]. simpl. by rewrite IH. Qed.

(** The brackets that [Sprint] adds are removed and nothing else, unless the
    text itself begins or ends with one. *)
Lemma logLine_plain (args : list string) (a b : ascii) (s : string) :
  String.concat " " args = String a s +:+ String b "" ->
  a <> leftBracket -> b <> rightBracket -> logLine args = String a s +:+ String b "".
Proof.
  intros E Ha Hb. unfold logLine, Sprint. rewrite E.
  assert (TrimLeft leftBracket ("[" +:+ (String a s +:+ String b "") +:+ "]") =
          (String a s +:+ String b "") +:+ String rightBracket "") as ->.
  { change "[" with (String leftBracket ""). cbn [String.append TrimLeft].
    by rewrite Ascii.eqb_refl, (proj2 (Ascii.eqb_neq leftBracket a)) by congruence. }
  rewrite TrimRight_drop. apply TrimRight_keep. congruence.
Qed.

Lemma concat_singleton (x : string) : String.concat " " [x] = x.
Proof. done. Qed.

(** A line of one argument with a fixed beginning. *)
Lemma logLine_prefix (a b : ascii) (p u : string) : a <> leftBracket -> b <> rightBracket ->
  logLine [String a p +:+ (u +:+ String b "")] = String a p +:+ (u +:+ String b "").
Proof.
  intros Ha Hb. assert (String a p +:+ (u +:+ String b "") = String a (p +:+ u) +:+ String b "") as E.
  { simpl. by rewrite app_string_assoc. }
  rewrite E. by apply logLine_plain.
Qed.

(** An answered ping is logged with the URL. *)
Lemma ping_line (u : string) (b : ascii) (status : Z) : b <> rightBracket ->
  logLine (ping (u +:+ String b "") (Answered status)).2 =
    "🏓 Successfully pinged healthcheck URL: " +:+ (u +:+ String b "").
Proof. intros Hb. by apply logLine_prefix. Qed.

Lemma logsOf_logs (ls : list LogMessage) : logsOf (DashLog <$> ls) = ls.
Proof. induction ls as [| l ls IH]; [done |]. cbn. by f_equal. Qed.

(** ** Properties *)

(** The healthcheck.  If it is enabled, it panics exactly if the configured
    rate times a second, computed in 64 bits, is not positive; otherwise every
    tick makes one request to the configured URL (unless none can be built)
    and logs one line, and any answer counts as a success.  Validation does
    not look at the rate: with it left out the start is accepted with the same
    problems as before, and the program then panics. *)
Theorem healthcheck_rate_not_validated `{LoadEnv} (order : list string) (c : Config) (h : HealthcheckConfig)
    (ticks : list pingReply) :
  NoDup order -> HC_Enabled h = true ->
  (pingHealthcheck h ticks = None <-> wrap64 (HC_PingRate h * Second) <= 0) /\
  (forall out, pingHealthcheck h ticks = Some out ->
     length out = length ticks /\ Forall (fun e => length e.2 = 1%nat) out /\
     omap fst out = repeat (HC_PingURL h) (length (filter (fun r => sendable r = true) ticks))) /\
  (let check c := ((validateConfig order c).1.1.1, (validateConfig order c).1.1.2) in
   check (c <| Healthcheck := h |>) = check c).
Proof.
  intros Hnd He. unfold pingHealthcheck, NewTicker. rewrite He. cbn [negb]. split_and!.
  - destruct (Z.leb_spec (wrap64 (HC_PingRate h * Second)) 0); simpl; split; (done || lia).
  - intros out. destruct (_ <=? 0); simpl; [done |]. intros [= <-]. split_and!.
    + by rewrite length_fmap.
    + apply Forall_fmap, Forall_forall. by intros [] _.
    + induction ticks as [| r ticks IH]; [done |]. cbn [fmap list_fmap]. rewrite filter_cons.
      destruct r; simpl; first [exact IH | by f_equal].
  - cbv zeta.
    destruct (validateConfig_eq order (c <| Healthcheck := h |>) Hnd) as (w & m & -> & _).
    destruct (validateConfig_eq order c Hnd) as (w' & m' & -> & _). by destruct c.
Qed.

(** The healthcheck URL is published.  With the dashboard on and logs not
    hidden, the newest line of the dashboard's log after an answered ping
    contains the full healthcheck URL. *)
Theorem healthcheck_url_on_dashboard `{DashJson} (c : Config) (ts status : Z) (ticks : list pingReply)
    (u : string) (b : ascii) :
  EnableDash c = true -> HideLogs c = false -> HC_Enabled (Healthcheck c) = true ->
  0 < wrap64 (HC_PingRate (Healthcheck c) * Second) ->
  HC_PingURL (Healthcheck c) = u +:+ String b "" -> b <> rightBracket ->
  exists out, pingHealthcheck (Healthcheck c) (ticks ++ [Answered status]) = Some out /\
    let ins := DashLog <$> concat ((fun e => forwardLog c true ts e.2) <$> out) in
    head (logSlice (serve (HideLogs c) ins initDash).1) =
      Some (MkLogMessage "log" ts ("🏓 Successfully pinged healthcheck URL: " +:+ HC_PingURL (Healthcheck c))).
Proof.
  intros Hd Hh He Hr Hu Hb. unfold pingHealthcheck, NewTicker. rewrite He, (proj2 (Z.leb_gt _ _) Hr). cbn [negb].
  eexists. split; [reflexivity |]. cbv zeta. rewrite serve_logs, logsOf_logs, Hh, !fmap_app, concat_app.
  cbn [fmap list_fmap concat]. unfold forwardLog at 2. rewrite Hd, Hh. cbn [andb negb app].
  rewrite reverse_snoc. cbn [take logLength head]. by rewrite Hu, ping_line.
Qed.

(** ** Witnesses *)

Lemma healthcheck_rate_not_validated_witness :
  pingHealthcheck (MkHealthcheckConfig true "https://hc.example/1" 0) [] = None /\
  pingHealthcheck (MkHealthcheckConfig true "https://hc.example/1" 60) [Answered 200] <> None.
Proof.
  split.
  - apply (@healthcheck_rate_not_validated sampleLoadEnv [] sampleConfig
      (MkHealthcheckConfig true "https://hc.example/1" 0) []); [apply NoDup_nil_2 | reflexivity | vm_compute; discriminate].
  - vm_compute. discriminate.
Defined.

#[local] Existing Instance sampleDashJson.

Lemma healthcheck_url_on_dashboard_witness :
  let c := sampleConfig <| EnableDash := true |> <| HideLogs := false |>
             <| Healthcheck := MkHealthcheckConfig true "https://hc.example/1" 60 |> in
  exists out, pingHealthcheck (Healthcheck c) [Answered 204] = Some out /\
    head (logSlice (serve (HideLogs c) (DashLog <$> concat ((fun e => forwardLog c true 7 e.2) <$> out)) initDash).1) =
      Some (MkLogMessage "log" 7 "🏓 Successfully pinged healthcheck URL: https://hc.example/1").
Proof.
  intros c.
  exact (healthcheck_url_on_dashboard c 7 204 [] "https://hc.example/" (ascii_of_nat 49)
    eq_refl eq_refl eq_refl eq_refl eq_refl ltac:(discriminate)).
Defined.
