(* ===== verification/Supervise.v ===== *)
(** * Supervision (run.go: [Run] after the start, [monitorChain], [waitForContext])

    [monitorChain] as a machine that moves between the points at which it
    waits or calls something: choose an endpoint, refresh the validator, wait
    for a client, connect, listen, close, pause.  Everything else happens
    between its steps.  The goroutines that [Run] starts are listed and tied to
    the transition system of the lifecycle. *)

From S2P Require Import Prelude Types AlarmCache Delivery Samples RuntimeState Alerting Watch Events State ChainDetails Rpc Ws Lifecycle.

Local Open Scope Z_scope.

(** ** Waiting *)

(** Whether the timer won: not if the context was done at the start (the timer
    cannot be ready yet) and not if it ended during the wait. *)
Definition waitForContext (doneAtStart doneDuring : bool) : bool := negb (doneAtStart || doneDuring).

(** ** [monitorChain] *)

Inductive superPC :=
  | AtTop                                  (** the condition of the loop *)
  | Refreshing                             (** an endpoint was chosen *)
  | WaitingClient (started : time)         (** the loop at the start of [WsRun] *)
  | Connecting (remote : string) (vi : ValInfo)
  | Listening (remote : string) (vi : ValInfo)   (** the session runs *)
  | Leaving                                (** [WsRun] returns *)
  | Pausing                                (** five seconds *)
  | MonitorDone.

(** What a step meets: the time, whether the context ends during a wait, the
    network, and whether the websocket can be opened. *)
Record superInput := MkSuperInput {
  i_now : time;
  i_doneDuring : bool;
  i_env : RpcEnv;
  i_dial : string -> bool;
}.

Definition pauseThen (next stop : superPC) (i : superInput) : M Config superPC :=
  c ← getS; mret (if waitForContext (cancelled c) (i_doneDuring i) then next else stop).

(** A refresh that fails is only logged; every return of [WsRun] closes the
    websocket that is registered, if any. *)
Definition monitorChain_step (k : string) (i : superInput) (p : superPC) : M Config superPC :=
  match p with
  | AtTop =>
      c ← getS;
      if cancelled c then mret MonitorDone
      else
        e ← @newRpc (i_env i) k (i_now i);
        mret (match e with Some _ => Pausing | None => Refreshing end)
  | Refreshing =>
      _ ← @GetValInfo (i_env i) k true;
      mret (WaitingClient (i_now i))
  | WaitingClient started =>
      cc ← getChain k;
      match wsWait (i_now i) started cc with
      | Ready remote vi => mret (Connecting remote vi)
      | TimedOut => mret Leaving
      | KeepWaiting => pauseThen (WaitingClient started) Leaving i
      end
  | Connecting remote vi =>
      if i_dial i remote
      then _ ← onChain k (setWebSocket remote); mret (Listening remote vi)
      else mret Leaving
  | Listening _ _ => mret Leaving
  | Leaving =>
      _ ← onChain k (fun cc => (closeWebSocket cc).2);
      c ← getS;
      mret (if cancelled c then MonitorDone else Pausing)
  | Pausing => pauseThen AtTop MonitorDone i
  | MonitorDone => mret MonitorDone
  end.

(** Steps with what the rest of the program does before each. *)
Fixpoint monitorChain (k : string) (ins : list ((Config -> Config) * superInput)) (p : superPC)
  : M Config superPC :=
  match ins with
  | [] => mret p
  | (others, i) :: ins' =>
      _ ← modifyS others;
      p ← monitorChain_step k i p;
      monitorChain k ins' p
  end.

(** ** What [Run] starts *)

Inductive goroutine :=
  | NotificationWorker | DashServe | DrainUpdates | PrometheusExporter | DrainStats
  | PingHealthcheck | WatchChain (k : string) | MonitorHealth (k : string) | MonitorChain (k : string).

#[export] Instance goroutine_eq_dec : EqDecision goroutine.
Proof. solve_decision. Defined.

(** In the order of the source; nothing if a signal has come by then. [order] is
    the order in which the map of chains is ranged over. *)
Definition Run_starts (signalled : bool) (order : list string) (c : Config) : list goroutine :=
  if signalled then []
  else
    [NotificationWorker; if EnableDash c then DashServe else DrainUpdates;
     if Prom c then PrometheusExporter else DrainStats] ++
    (if HC_Enabled (Healthcheck c) then [PingHealthcheck] else []) ++
    concat ((fun k => [WatchChain k; MonitorHealth k; MonitorChain k]) <$> order).

(** What starting one does to the lifecycle: [startNotificationWorker],
    [startMonitor], or a goroutine nobody waits for. *)
Definition startGoroutine (g : goroutine) (s : lifecycle) : lifecycle :=
  match g with
  | NotificationWorker => s <| pc := Started |> <| worker := Idle |>
  | PingHealthcheck | WatchChain _ | MonitorHealth _ | MonitorChain _ => s <| monitors := S (monitors s) |>
  | DashServe | DrainUpdates | PrometheusExporter | DrainStats => s
  end.

(** Who reads a channel. *)
Definition readsUpdates (g : goroutine) : bool := bool_decide (g = DashServe \/ g = DrainUpdates).
Definition readsStats (g : goroutine) : bool := bool_decide (g = PrometheusExporter \/ g = DrainStats).
Definition readsAlerts (g : goroutine) : bool := bool_decide (g = NotificationWorker).

(** ** Lemmas *)

(** The chain is there, with its validator's address, and the configuration is
    in order. *)
Definition super_ok (k va : string) (c : Config) : Prop :=
  config_ok c /\ exists cc, Chains c !! k = Some cc /\ ValAddress cc = va.

(** The client answers with addresses of at least 20 bytes. *)
Definition long_addresses (va : string) (env : RpcEnv) : Prop :=
  forall remote v, @Validator env remote va = inr v -> (20 <= length (ConsensusAddress v))%nat.

Lemma onChain_super (k va : string) (f : ChainConfig -> ChainConfig) (c : Config) :
  (forall cc, cc_name (f cc) = cc_name cc /\ ValAddress (f cc) = ValAddress cc) -> super_ok k va c ->
  exists c', onChain k f c = Some (tt, c') /\ super_ok k va c' /\ cancelled c' = cancelled c.
Proof.
  intros Hf (Hok & cc & Hc & Hva). destruct (onChain_emits k f cc c Hok Hc) as (c' & E & He).
  { apply Hf. }
  exists c'. split_and!; [done | |].
  - split; [apply He |]. exists (f cc). split; [apply He | by rewrite (proj2 (Hf cc))].
  - by rewrite <- (em_rest _ _ _ _ _ He).
Qed.

Lemma GetValInfo_super (k va : string) (first : bool) (env : RpcEnv) (c : Config) :
  (20 <= String.length va)%nat -> long_addresses va env -> super_ok k va c ->
  exists r c', @GetValInfo env k first c = Some (r, c') /\ super_ok k va c' /\ cancelled c' = cancelled c.
Proof.
  intros Hl Ha (Hok & cc & Hc & <-).
  destruct (@GetValInfo_run env k first c cc Hok Hc Hl Ha) as (r & c' & E & Hr).
  exists r, c'. destruct r.
  - destruct Hr as [-> _]. split_and!; [done | by split; [| exists cc] | done].
  - destruct Hr as (next & cc' & remote & _ & _ & Hc' & Hok' & Hcan & ->).
    split_and!; [done | | done]. split; [done |]. by eexists.
Qed.

(** How many steps are left once the context is done. *)
Definition superRank (p : superPC) : nat :=
  match p with
  | Refreshing => 5 | WaitingClient _ => 4 | Connecting _ _ => 3 | Listening _ _ => 2
  | AtTop | Leaving | Pausing => 1 | MonitorDone => 0
  end.

Lemma monitorChain_step_done (k va : string) (i : superInput) (p : superPC) (c : Config) :
  (20 <= String.length va)%nat -> long_addresses va (i_env i) -> super_ok k va c -> cancelled c = true ->
  exists p' c', monitorChain_step k i p c = Some (p', c') /\ super_ok k va c' /\ cancelled c' = true /\
    (superRank p' <= superRank p - 1)%nat.
Proof.
  intros Hl Ha Hok Hcan. pose proof Hok as (_ & cc & Hc & _). destruct p; cbn [monitorChain_step].
  - rewrite (bindM_run _ _ _ _ _ (eq_refl : getS c = _)), Hcan. exists MonitorDone, c. split_and!; by try (simpl; lia).
  - destruct (GetValInfo_super k va true (i_env i) c Hl Ha Hok) as (r & c' & E & H1 & H2).
    rewrite (bindM_run _ _ _ _ _ E). eexists _, c'. split_and!; [done | done | congruence | simpl; lia].
  - rewrite (bindM_run _ _ _ _ _ (getChain_run _ _ _ Hc)).
    destruct (wsWait _ _ cc); [| | unfold pauseThen; rewrite (bindM_run _ _ _ _ _ (eq_refl : getS c = _)), Hcan];
      (eexists _, c; split_and!; [reflexivity | done | done | simpl; lia]).
  - destruct (i_dial i remote).
    + destruct (onChain_super k va (setWebSocket remote) c (fun _ => conj eq_refl eq_refl) Hok) as (c' & E & H1 & H2).
      rewrite (bindM_run _ _ _ _ _ E). eexists _, c'. split_and!; [done | done | congruence | simpl; lia].
    + eexists _, c. split_and!; [done | done | done | simpl; lia].
  - eexists _, c. split_and!; [done | done | done | simpl; lia].
  - destruct (onChain_super k va (fun cc => (closeWebSocket cc).2) c) as (c' & E & H1 & H2); [| done |].
    { intros cc'. unfold closeWebSocket. by destruct (wsclient cc'). }
    rewrite (bindM_run _ _ _ _ _ E), (bindM_run _ _ _ _ _ (eq_refl : getS c' = _)), H2, Hcan.
    exists MonitorDone, c'. split_and!; [done | done | congruence | simpl; lia].
  - unfold pauseThen. rewrite (bindM_run _ _ _ _ _ (eq_refl : getS c = _)), Hcan.
    exists MonitorDone, c. split_and!; [done | done | done | simpl; lia].
  - exists MonitorDone, c. split_and!; [done | done | done | simpl; lia].
Qed.

Lemma monitorChain_cons (k : string) (i : superInput) (ins : list ((Config -> Config) * superInput)) (p p' : superPC) (c c' : Config) :
  monitorChain_step k i p c = Some (p', c') ->
  monitorChain k ((id, i) :: ins) p c = monitorChain k ins p' c'.
Proof.
  intros E. cbn [monitorChain]. rewrite (bindM_run _ _ _ _ _ (eq_refl : modifyS id c = Some (tt, c))).
  by rewrite (bindM_run _ _ _ _ _ E).
Qed.

(** The pause after a failed selection. *)
Lemma pausing_step k i c : cancelled c = false ->
  monitorChain_step k i Pausing c = Some (if i_doneDuring i then MonitorDone else AtTop, c).
Proof.
  intros Hcan. cbn [monitorChain_step]. unfold pauseThen.
  rewrite (bindM_run _ _ _ _ _ (eq_refl : getS c = _)), Hcan. by destruct (i_doneDuring i).
Qed.

Lemma wsWait_from now started remote vi cc :
  wsWait now started cc = Ready remote vi -> client cc = Some remote /\ valInfo cc = Some vi.
Proof.
  unfold wsWait, monitoringSnapshot. rewrite !cloneValInfo_id.
  destruct (client cc), (valInfo cc); try (by destruct (Before _ _)).
  destruct (negb _); [| by destruct (Before _ _)]. by intros [= -> ->].
Qed.

(** Waiting for a client never panics and connects only with what is there. *)
Lemma waiting_step (k : string) (i : superInput) (started : time) (c : Config) (cc : ChainConfig) : Chains c !! k = Some cc ->
  exists p, monitorChain_step k i (WaitingClient started) c = Some (p, c) /\
    forall remote vi, p = Connecting remote vi -> client cc = Some remote /\ valInfo cc = Some vi.
Proof.
  intros Hc. cbn [monitorChain_step]. rewrite (bindM_run _ _ _ _ _ (getChain_run _ _ _ Hc)).
  destruct (wsWait (i_now i) started cc) as [remote vi | |] eqn:Ew.
  - eexists. split; [reflexivity |]. intros ? ? [= <- <-]. exact (wsWait_from _ _ _ _ _ Ew).
  - by eexists.
  - unfold pauseThen. rewrite (bindM_run _ _ _ _ _ (eq_refl : getS c = _)).
    eexists. split; [reflexivity |]. intros ? ?. by destruct (waitForContext _ _).
Qed.

(** Ready with the information just published. *)
Lemma wsWait_ready now started remote vi cc :
  client cc = Some remote -> valInfo cc = Some vi -> vi_Conspub vi <> [] -> wsWait now started cc = Ready remote vi.
Proof.
  intros Hc Hv Hk. unfold wsWait, monitoringSnapshot. rewrite Hc, Hv, cloneValInfo_id.
  by rewrite bool_decide_eq_false_2.
Qed.

(** The endpoint [newRpc] settles on. *)
Definition endpointChoice `{RpcEnv} (cc : ChainConfig) : option string :=
  let anyWorking := existsb (fun n => negb (nc_down n)) (Nodes cc) in
  match Url <$> head (filter (fun n => usable anyWorking cc n = true) (Nodes cc)) with
  | Some url => Some url
  | None => publicFallback cc
  end.

(** ** Properties *)

(** C20: a stopped program stops supervising.  Once the context is done,
    [monitorChain] returns after at most five of its steps, from wherever it
    is, whatever the rest of the program does to the configuration in between
    (as long as it keeps it in order) and whatever the network answers; it
    does not panic. *)
Theorem supervision_stops (k va : string) (ins : list ((Config -> Config) * superInput)) (p : superPC) (c : Config) :
  (20 <= String.length va)%nat -> super_ok k va c -> cancelled c = true -> (5 <= length ins)%nat ->
  Forall (fun x => long_addresses va (i_env x.2) /\
    forall c, super_ok k va c -> cancelled c = true -> super_ok k va (x.1 c) /\ cancelled (x.1 c) = true) ins ->
  exists c', monitorChain k ins p c = Some (MonitorDone, c').
Proof.
  intros Hl Hok Hcan Hlen Hins.
  assert (superRank p <= length ins)%nat as Hr by (destruct p; simpl; lia).
  clear Hlen. revert p c Hok Hcan Hr.
  induction Hins as [| [others i] ins [Ha Ho] Hins IH]; intros p c Hok Hcan Hr; cbn [monitorChain].
  { exists c. destruct p; simpl in Hr; try lia. done. }
  destruct (Ho c Hok Hcan) as [Hok1 Hcan1].
  rewrite (bindM_run _ _ _ _ _ (eq_refl : modifyS others c = Some (tt, others c))).
  destruct (monitorChain_step_done k va i p (others c) Hl Ha Hok1 Hcan1) as (p' & c' & E & Hok' & Hcan' & Hr').
  rewrite (bindM_run _ _ _ _ _ E). apply IH; [done | done |]. simpl in Hr. lia.
Qed.

(** C19: a round of supervision.  From the top of its loop [monitorChain] uses
    the endpoint that [newRpc] settles on.  If there is none the chain is marked
    as without nodes and no connection is attempted before a pause.  Otherwise
    that endpoint is the chain's client and, if the refresh succeeds, the
    websocket is opened to it for the validator's key that it answered with; if
    it fails, a connection is made only with information known before. *)
Theorem supervision_round (k : string) (i1 i2 i3 : superInput) (c : Config) (cc : ChainConfig) :
  config_ok c -> Chains c !! k = Some cc -> cancelled c = false -> (20 <= String.length (ValAddress cc))%nat ->
  long_addresses (ValAddress cc) (i_env i2) ->
  match @endpointChoice (i_env i1) cc with
  | None => exists c' cc', monitorChain k [(id, i1); (id, i2)] AtTop c =
        Some (if i_doneDuring i2 then MonitorDone else AtTop, c') /\
      Chains c' !! k = Some cc' /\ noNodes cc' = true
  | Some url => exists p c' cc', monitorChain k [(id, i1); (id, i2); (id, i3)] AtTop c = Some (p, c') /\
      Chains c' !! k = Some cc' /\ client cc' = Some url /\ noNodes cc' = false /\
      ((exists next, p = Connecting url next /\ valInfo cc' = Some next /\
          exists v, @Validator (i_env i2) url (ValAddress cc) = inr v /\ vi_Conspub next = ConsensusAddress v) \/
       (valInfo cc' = valInfo cc /\ forall remote vi, p = Connecting remote vi -> remote = url /\ valInfo cc = Some vi))
  end.
Proof.
  intros Hok Hc Hcan Hl Ha.
  destruct (@newRpc_run (i_env i1) k (i_now i1) c cc Hok Hc)
    as (r & c1 & cc1 & E1 & Hok1 & Hc1 & Hs & Hvi & Hcan1 & _ & Hr).
  assert (monitorChain_step k i1 AtTop c = Some (match r with Some _ => Pausing | None => Refreshing end, c1)) as S1.
  { cbn [monitorChain_step]. rewrite (bindM_run _ _ _ _ _ (eq_refl : getS c = _)), Hcan.
    by rewrite (bindM_run _ _ _ _ _ E1). }
  assert (match @endpointChoice (i_env i1) cc with
          | Some url => r = None /\ client cc1 = Some url /\ noNodes cc1 = false
          | None => r <> None /\ noNodes cc1 = true
          end) as Hr1.
  { unfold endpointChoice. destruct (Url <$> _); [done |]. destruct (publicFallback cc); [done |]. by destruct Hr as (? & ? & _). }
  clear Hr. destruct (endpointChoice cc) as [url |].
  2: { destruct Hr1 as [Hr1 Hno]. destruct r as [e |]; [| done]. exists c1, cc1.
       rewrite (monitorChain_cons _ _ _ _ _ _ _ S1), (monitorChain_cons _ _ _ _ _ _ _ (pausing_step k i2 c1 ltac:(congruence))).
       done. }
  destruct Hr1 as (-> & Hcl & Hno). rewrite (monitorChain_cons _ _ _ _ _ _ _ S1).
  pose proof (proj1 (proj2 (proj2 (proj2 Hs)))) as Hva.
  destruct (@GetValInfo_run (i_env i2) k true c1 cc1 Hok1 Hc1) as (r & c2 & E2 & Hr).
  { by rewrite Hva. } { rewrite Hva. exact Ha. }
  assert (monitorChain_step k i2 Refreshing c1 = Some (WaitingClient (i_now i2), c2)) as S2.
  { cbn [monitorChain_step]. by rewrite (bindM_run _ _ _ _ _ E2). }
  rewrite (monitorChain_cons _ _ _ _ _ _ _ S2). destruct r as [e |].
  - destruct Hr as [-> _]. destruct (waiting_step k i3 (i_now i2) c1 cc1 Hc1) as (p & S3 & Hp). exists p, c1, cc1.
    rewrite (monitorChain_cons _ _ _ _ _ _ _ S3). split_and!; try done. right. split; [done |].
    intros remote vi ->. destruct (Hp remote vi eq_refl). split; congruence.
  - destruct Hr as (next & cc2 & remote & Hrem & (v & vc & si & w & Hv & _ & _ & _ & Hn) & Hc2 & _ & _ & ->).
    assert (vi_Conspub next = ConsensusAddress v) as Hk by (by rewrite Hn).
    assert (remote = url) as -> by congruence. rewrite Hva in Hv.
    assert (monitorChain_step k i3 (WaitingClient (i_now i2)) c2 = Some (Connecting url next, c2)) as S3.
    { cbn [monitorChain_step]. rewrite (bindM_run _ _ _ _ _ (getChain_run _ _ _ Hc2)).
      erewrite wsWait_ready; [reflexivity | done | done |]. rewrite Hk. apply Ha in Hv.
      by destruct (ConsensusAddress v); [simpl in Hv; lia |]. }
    eexists _, c2, _. rewrite (monitorChain_cons _ _ _ _ _ _ _ S3). split_and!; [done | exact Hc2 | done | done |].
    left. exists next. split_and!; [done | done |]. by exists v.
Qed.

(** *** The start of the goroutines *)

(** Whether the lifecycle waits for a goroutine as a monitor. *)
Definition isMonitor (g : goroutine) : bool :=
  match g with PingHealthcheck | WatchChain _ | MonitorHealth _ | MonitorChain _ => true | _ => false end.

Lemma startAll_monitors (gs : list goroutine) (s : lifecycle) :
  pc s = Started -> Forall (fun g => g <> NotificationWorker) gs ->
  rtc mainStep s (foldl (fun s g => startGoroutine g s) s gs) /\
  pc (foldl (fun s g => startGoroutine g s) s gs) = Started /\
  monitors (foldl (fun s g => startGoroutine g s) s gs) =
    (monitors s + length (filter (fun g => isMonitor g = true) gs))%nat.
Proof.
  intros Hpc Hgs. revert s Hpc. induction Hgs as [| g gs Hg Hgs IH]; intros s Hpc; cbn [foldl].
  { split_and!; [reflexivity | done | simpl; lia]. }
  assert (pc (startGoroutine g s) = Started) as Hpc' by (by destruct g).
  destruct (IH _ Hpc') as (H1 & H2 & H3). split_and!; [| done |].
  - etransitivity; [| exact H1]. destruct g; try done; try reflexivity; by apply rtc_once, M_startMonitor.
  - rewrite H3, filter_cons. destruct g; simpl; try done; lia.
Qed.

(** The goroutines between the worker and the chains. *)
Definition runReaders (c : Config) : list goroutine :=
  [if EnableDash c then DashServe else DrainUpdates; if Prom c then PrometheusExporter else DrainStats] ++
  (if HC_Enabled (Healthcheck c) then [PingHealthcheck] else []).

Lemma filter_none {A} (f : A -> bool) (l : list A) : Forall (fun x => f x = false) l ->
  filter (fun x => f x = true) l = [].
Proof. induction 1 as [| x l Hx _ IH]; [done |]. rewrite filter_cons_False; [done | by rewrite Hx]. Qed.

Lemma chain_goroutines (order : list string) :
  let gs := concat ((fun k => [WatchChain k; MonitorHealth k; MonitorChain k]) <$> order) in
  length (filter (fun g => isMonitor g = true) gs) = (3 * length order)%nat /\
  Forall (fun g => isMonitor g = true /\ g <> PingHealthcheck) gs /\
  (forall k, (k ∈ order <-> WatchChain k ∈ gs) /\ (k ∈ order <-> MonitorHealth k ∈ gs) /\ (k ∈ order <-> MonitorChain k ∈ gs)).
Proof.
  induction order as [| k order IH]; cbn zeta; cbn [fmap list_fmap concat app].
  - split_and!; [done | apply Forall_nil_2 |]. intros k. split_and!; split; by intros ?%elem_of_nil.
  - destruct IH as (H1 & H2 & H3). split_and!.
    + rewrite !filter_cons. simpl. simpl in H1. lia.
    + by repeat (apply Forall_cons_2; [done |]).
    + intros k'. destruct (H3 k') as (Ha & Hb & Hd). rewrite !elem_of_cons, <- Ha, <- Hb, <- Hd. naive_solver.
Qed.

(** The chains' goroutines do not read the channels. *)
Definition chainGoroutines (order : list string) : list goroutine :=
  concat ((fun k => [WatchChain k; MonitorHealth k; MonitorChain k]) <$> order).

Lemma Run_starts_shape (order : list string) (c : Config) :
  Run_starts false order c = NotificationWorker :: runReaders c ++ chainGoroutines order.
Proof.
  unfold Run_starts, runReaders, chainGoroutines. by destruct (EnableDash c), (Prom c), (HC_Enabled (Healthcheck c)).
Qed.

Lemma Run_starts_readers (order : list string) (c : Config) (f : goroutine -> bool) :
  (forall g, isMonitor g = true -> f g = false) ->
  filter (fun g => f g = true) (Run_starts false order c) =
  filter (fun g => f g = true) (NotificationWorker :: runReaders c).
Proof.
  intros Hf. rewrite Run_starts_shape, app_comm_cons, filter_app, (filter_none f (chainGoroutines order)); [by rewrite app_nil_r |].
  eapply Forall_impl; [apply chain_goroutines |]. intros g [Hm _]. by apply Hf.
Qed.

Lemma Run_starts_chain (order : list string) (c : Config) (g : goroutine) :
  isMonitor g = true -> g <> PingHealthcheck -> (g ∈ Run_starts false order c <-> g ∈ chainGoroutines order).
Proof.
  intros Hm Hp. rewrite Run_starts_shape, elem_of_cons, elem_of_app. split; [| by auto].
  intros [-> | [Hr | ?]]; [done | | done]. exfalso. revert Hr. unfold runReaders.
  destruct (EnableDash c), (Prom c), (HC_Enabled (Healthcheck c)); simpl; rewrite !elem_of_cons, elem_of_nil; naive_solver.
Qed.


(** ** Witnesses *)

Definition quietInput : superInput := MkSuperInput (unix_epoch + Hour) false sampleRpcEnv (fun _ => true).

Definition superChain : ChainConfig :=
  sampleChain <| ValAddress := "osmovaloper1xyz0123456789" |> <| valInfo := None |>.
Definition superConfig : Config := sampleConfig <| Chains := {[ "Osmosis" := superChain ]} |>.

Lemma superConfig_ok : config_ok superConfig.
Proof.
  split; [exact (proj1 sampleConfig_ok) |]. intros k cc H. simpl in H. apply lookup_singleton_Some in H as [<- <-]. done.
Qed.

Lemma sample_addresses (va : string) : long_addresses va sampleRpcEnv.
Proof. intros remote v Hv. vm_compute in Hv. simplify_eq. vm_compute. lia. Qed.

Lemma supervision_stops_witness :
  exists c', monitorChain "Osmosis" (repeat (id, quietInput) 5) Refreshing (superConfig <| cancelled := true |>) =
    Some (MonitorDone, c').
Proof.
  apply (supervision_stops "Osmosis" "osmovaloper1xyz0123456789").
  - vm_compute. lia.
  - split; [exact superConfig_ok |]. by exists superChain.
  - reflexivity.
  - simpl. lia.
  - apply Forall_forall. intros x Hx. apply list_elem_of_In, repeat_spec in Hx. subst x.
    split; [apply sample_addresses | done].
Defined.

(** The first node is on another chain: the second is used. *)
Lemma supervision_round_witness :
  exists next c', monitorChain "Osmosis" (repeat (id, quietInput) 3) AtTop superConfig =
    Some (Connecting "tcp://b:26657" next, c') /\ vi_Conspub next = repeat 7 20.
Proof.
  pose proof (supervision_round "Osmosis" quietInput quietInput quietInput superConfig superChain
    superConfig_ok eq_refl eq_refl ltac:(vm_compute; lia) (sample_addresses _)) as H.
  assert (@endpointChoice sampleRpcEnv superChain = Some "tcp://b:26657") as E by (vm_compute; reflexivity).
  change (i_env quietInput) with sampleRpcEnv in H. rewrite E in H.
  destruct H as (p & c' & cc' & Erun & _ & _ & _ & [(next & -> & _ & v & Hv & Hk) | [_ Hno]]).
  - exists next, c'. split; [exact Erun |]. vm_compute in Hv. by simplify_eq.
  - exfalso. assert (exists vi, p = Connecting "tcp://b:26657" vi) as [vi ->].
    { assert ((fun x => match x.1 with Connecting r _ => r | _ => "" end) <$>
        monitorChain "Osmosis" [(id, quietInput); (id, quietInput); (id, quietInput)] AtTop superConfig = Some "tcp://b:26657") as Ep
        by (vm_compute; reflexivity).
      rewrite Erun in Ep. destruct p; simplify_eq/=. by eexists. }
    destruct (Hno _ _ eq_refl) as [_ Hvi]. vm_compute in Hvi. discriminate.
Defined.

