(* ===== verification/Privacy.v ===== *)
(** * What a dashboard without logs reveals (ws.go, rpc.go, types.go, init.go, dashboard/server.go)

    With [hide_logs] set, nothing the dashboard shows may depend on where the
    nodes are.  This is stated over two runs of the program that see the same
    blocks and differ in the addresses of the nodes, in what the probes said
    about them, in the texts of the alarms and in everything that is logged:
    the dashboards cannot be told apart.  The proof is a small relational logic
    for the state-passing computations. *)

From S2P Require Import Prelude Types AlarmCache Samples RuntimeState Alerting Events Ws State ChainDetails Rpc ConfigLoad Dashboard Logs.

Local Open Scope Z_scope.

(** ** Twins *)

(** Two chains that agree in everything but the nodes, of which there are as
    many with the same ones down, and the connections to them. *)
Definition elsewhere (w cl : option string) (ns : list NodeConfig) (cc : ChainConfig) : ChainConfig :=
  cc <| wsclient := w |> <| client := cl |> <| Nodes := ns |>.

Definition twin (cc cc' : ChainConfig) : Prop :=
  exists w cl ns, cc' = elsewhere w cl ns cc /\ nc_down <$> ns = nc_down <$> Nodes cc.

(** Two configurations with hidden logs whose chains [k] are twins, with as many
    alarms per chain; alarms, queued alerts and other chains may differ. *)
Record indistinct (k : string) (c c' : Config) : Prop := {
  id_hide : HideLogs c = true;
  id_chain : exists cc cc', Chains c !! k = Some cc /\ Chains c' !! k = Some cc' /\ twin cc cc';
  id_count : forall name, getCount name (alarms c') = getCount name (alarms c);
  id_rest : c' = c <| Chains := Chains c' |> <| alarms := alarms c' |> <| alertChan := alertChan c' |>;
}.

(** ** Runs *)

(** What happens before an update (the rest of the program), its time, whether
    the context is done, and the update. *)
Definition historyEvent : Type := (Config -> Config) * (time * bool * StatusUpdate).

Fixpoint runHistory (timeString : time -> string) (order : gmap string time -> list string) (k : string)
    (h : list historyEvent) (sign : Z) : M Config Z :=
  match h with
  | [] => mret sign
  | (others, (now, ctxDone, u)) :: h' =>
      _ ← modifyS others;
      r ← handleUpdate timeString order k now ctxDone u sign;
      match r with
      | None => mret sign
      | Some sign => runHistory timeString order k h' sign
      end
  end.

(** What reaches the dashboard: the updates sent and the lines logged. *)
Definition dashInputs (c : Config) (logged : list (Z * list string)) : list dashInput :=
  (DashUpdate <$> updateChan c) ++ (DashLog <$> concat ((fun l => forwardLog c true l.1 l.2) <$> logged)).

(** ** A relational logic *)

(** From indistinct configurations both computations return, with related
    results, in indistinct configurations. *)
Definition related {A B} (k : string) (R : A -> B -> Prop) (m : M Config A) (m' : M Config B) : Prop :=
  forall c c', indistinct k c c' ->
  exists x y d d', m c = Some (x, d) /\ m' c' = Some (y, d') /\ R x y /\ indistinct k d d'.

Lemma rel_ret {A B} k (R : A -> B -> Prop) x y : R x y -> related k R (mret x) (mret y).
Proof. intros H c c' Hi. by exists x, y, c, c'. Qed.

Lemma rel_bind {A B A' B'} k (R : A -> B -> Prop) (R' : A' -> B' -> Prop) m m' f f' :
  related k R m m' -> (forall x y, R x y -> related k R' (f x) (f' y)) -> related k R' (m ≫= f) (m' ≫= f').
Proof.
  intros Hm Hf c c' Hi. destruct (Hm c c' Hi) as (x & y & d & d' & E & E' & Hr & Hd).
  destruct (Hf x y Hr d d' Hd) as (x1 & y1 & d1 & d1' & E1 & E1' & H1). exists x1, y1, d1, d1'.
  by rewrite (bindM_run _ _ _ _ _ E), (bindM_run _ _ _ _ _ E').
Qed.

Lemma rel_getS k : related k (indistinct k) getS getS.
Proof. intros c c' Hi. by exists c, c', c, c'. Qed.

Lemma rel_getChain k : related k twin (getChain k) (getChain k).
Proof.
  intros c c' Hi. destruct (id_chain _ _ _ Hi) as (cc & cc' & H & H' & Ht). exists cc, cc', c, c'.
  unfold getChain. by rewrite H, H'.
Qed.

Lemma indistinct_put k cc cc' c c' : indistinct k c c' -> twin cc cc' ->
  indistinct k (c <| Chains := <[k := cc]> (Chains c) |>) (c' <| Chains := <[k := cc']> (Chains c') |>).
Proof.
  intros [H1 _ H3 H4] Ht. split; [done | | done |].
  - exists cc, cc'. cbn [Chains field_set eta_of]. by rewrite !lookup_insert_eq.
  - rewrite H4 at 1. by destruct c.
Qed.

Lemma rel_putChain k cc cc' : twin cc cc' -> related k eq (putChain k cc) (putChain k cc').
Proof. intros Ht c c' Hi. eexists tt, tt, _, _. split_and!; [done | done | done | by apply indistinct_put]. Qed.

Lemma rel_sendUpdate k st :
  related k eq (modifyS (fun c => c <| updateChan := updateChan c ++ [st] |>))
    (modifyS (fun c => c <| updateChan := updateChan c ++ [st] |>)).
Proof.
  intros c c' [H1 H2 H3 H4]. eexists tt, tt, _, _. split_and!; [done | done | done |]. split; [done | done | done |].
  assert (updateChan c' = updateChan c) as -> by (by rewrite H4). rewrite H4 at 1. by destruct c.
Qed.

Lemma rel_emit k b u : related k eq (stateM (emitStat b u)) (stateM (emitStat b u)).
Proof.
  intros c c' Hi. unfold stateM, emitStat. destruct b; [by exists false, false, c, c' |].
  eexists true, true, _, _. split_and!; [done | done | done |]. destruct Hi as [H1 H2 H3 H4].
  split; [done | done | done |].
  assert (statsChan c' = statsChan c) as -> by (by rewrite H4). rewrite H4 at 1. by destruct c.
Qed.

Lemma rel_emitAll k b us : related k eq (emitAll b us) (emitAll b us).
Proof.
  induction us as [| u us IH]; cbn [emitAll]; [by apply rel_ret |].
  eapply rel_bind; [apply rel_emit |]. intros x y ->. destruct y; [done | by apply rel_ret].
Qed.

(** ** Twins stay twins *)

Lemma applyStats_nodes sign cc : Nodes (applyStats sign cc) = Nodes cc.
Proof. unfold applyStats. by repeat case_match. Qed.

Lemma applyStats_twin sign cc cc' : twin cc cc' -> twin (applyStats sign cc) (applyStats sign cc').
Proof.
  intros (w & cl & ns & -> & Hd). exists w, cl, ns. rewrite applyStats_nodes. split; [| done].
  unfold applyStats, elsewhere. destruct cc. simpl. by repeat case_match.
Qed.

Lemma recordFinalBlock_twin now cc cc' : twin cc cc' ->
  (recordFinalBlock now cc').1 = (recordFinalBlock now cc).1 /\
  twin (recordFinalBlock now cc).2 (recordFinalBlock now cc').2.
Proof.
  intros (w & cl & ns & -> & Hd). split; [done |]. exists w, cl, ns.
  destruct cc. unfold recordFinalBlock, elsewhere. simpl in *. by case_match.
Qed.

Lemma nodeInfo_hidden ns ns' h info : nc_down <$> ns' = nc_down <$> ns ->
  nodeInfo true ns' h info = nodeInfo true ns h info /\ (nodeInfo true ns h info).2 = info.
Proof.
  revert ns' h info. induction ns as [| n ns IH]; intros [| n' ns'] h info E; try done.
  cbn [fmap list_fmap] in E. injection E as Ed E. cbn [nodeInfo nodeState down negb].
  unfold nodeState. cbn [down]. rewrite Ed. destruct (nc_down n); cbn [negb]; by apply IH.
Qed.

Section twins.
Context (timeString : time -> string) (order order' : gmap string time -> list string).

(** The end of [finishBlock], from the chain with its result recorded. *)
Definition report (u : StatusUpdate) (vi : ValInfo) (sign : Z) (c : Config) (blocks : list Z) (info : string)
    (cc : ChainConfig) : ChainConfig * ChainStatus * Z :=
  let cc := applyStats sign cc in
  let '(healthy, info) := nodeInfo (HideLogs c) (Nodes cc) 0 info in
  let cc := cc <| activeAlerts := getCount (cc_name cc) (alarms c) |> in
  (cc,
   MkChainStatus "status" (cc_name cc) (ChainId cc) (vi_Moniker vi) (vi_Bonded vi) (vi_Jailed vi)
     (vi_Tombstoned vi) (vi_Missed vi) (vi_Window vi) (Z.of_nat (length (Nodes cc))) healthy
     (activeAlerts cc) (Height u) (info +:+ standingInfo vi) blocks,
   healthy).

Lemma report_twin k u vi sign blocks info c c' cc cc' : indistinct k c c' -> twin cc cc' ->
  exists x x' st healthy, report u vi sign c blocks info cc = (x, st, healthy) /\
    report u vi sign c' blocks info cc' = (x', st, healthy) /\ twin x x'.
Proof.
  intros [H1 _ H3 H4] Ht. assert (HideLogs c' = true) as H1' by (by rewrite H4).
  apply (applyStats_twin sign) in Ht. unfold report. rewrite H1, H1'.
  generalize dependent (applyStats sign cc). generalize (applyStats sign cc'). clear cc cc'.
  intros cc' cc (w & cl & ns & -> & Hd).
  destruct (nodeInfo_hidden (Nodes cc) ns 0 info Hd) as [Hn _].
  change (Nodes (elsewhere w cl ns cc)) with ns. rewrite Hn.
  destruct (nodeInfo true (Nodes cc) 0 info) as [healthy info']. rewrite !H3.
  apply (f_equal length) in Hd as Hl. rewrite !length_fmap in Hl.
  set (n := getCount (cc_name cc) (alarms c)). change (getCount (cc_name (elsewhere w cl ns cc)) (alarms c)) with n.
  exists (cc <| activeAlerts := n |>), (elsewhere w cl ns cc <| activeAlerts := n |>). eexists _, healthy.
  split; [reflexivity |]. split; [| by exists w, cl, ns].
  change (Nodes (elsewhere w cl ns cc <| activeAlerts := n |>)) with ns.
  change (Nodes (cc <| activeAlerts := n |>)) with (Nodes cc). by rewrite Hl.
Qed.

(** The chain with a result recorded. *)
Definition withResult (now : time) (u : StatusUpdate) (vi : ValInfo) (sign : Z) (cc : ChainConfig) : string * ChainConfig :=
  let cc := (recordBlockResult sign cc).2 in
  if (sign <? StatusSigned) && vi_Bonded vi
  then let info := "" +:+ missedWarning vi (Height u) cc +:+ nl in (info, cc <| lastError := timeString now +:+ " " +:+ info |>)
  else ("", cc).

Lemma withResult_twin now u vi sign cc cc' : twin cc cc' ->
  (recordBlockResult sign cc').1 = (recordBlockResult sign cc).1 /\
  (withResult now u vi sign cc').1 = (withResult now u vi sign cc).1 /\
  twin (withResult now u vi sign cc).2 (withResult now u vi sign cc').2.
Proof.
  intros (w & cl & ns & -> & Hd). split; [done |]. unfold withResult.
  destruct (_ && _); (split; [done |]); exists w, cl, ns; (split; [| done]); by destruct cc.
Qed.

Lemma finishBlock_report now u vi sign ord c cc : HideLogs c = true ->
  finishBlock timeString ord now u vi sign c cc =
  report u vi sign c (recordBlockResult sign cc).1 (withResult now u vi sign cc).1 (withResult now u vi sign cc).2.
Proof.
  intros Hh. unfold finishBlock, getAlarms, withResult, report. rewrite Hh.
  destruct (recordBlockResult sign cc) as [blocks cc1]. cbn [fst snd]. by destruct (_ && _).
Qed.

Lemma finishBlock_twin k now u vi sign c c' cc cc' : indistinct k c c' -> twin cc cc' ->
  exists x x' st healthy, finishBlock timeString order now u vi sign c cc = (x, st, healthy) /\
    finishBlock timeString order' now u vi sign c' cc' = (x', st, healthy) /\ twin x x'.
Proof.
  intros Hi Ht. pose proof (id_hide _ _ _ Hi) as H1.
  assert (HideLogs c' = true) as H1' by (by rewrite (id_rest _ _ _ Hi)).
  rewrite !finishBlock_report by done. destruct (withResult_twin now u vi sign cc cc' Ht) as (-> & -> & Ht').
  by eapply report_twin.
Qed.

Lemma blockMetrics_twin cc cc' healthy : twin cc cc' -> blockMetrics cc' healthy = blockMetrics cc healthy.
Proof.
  intros (w & cl & ns & -> & Hd). apply (f_equal length) in Hd. rewrite !length_fmap in Hd.
  unfold blockMetrics. change (Nodes (elsewhere w cl ns cc)) with ns. by rewrite Hd.
Qed.

(** One update, in both runs. *)
Lemma rel_handleUpdate k now ctxDone u sign :
  related k eq (handleUpdate timeString order k now ctxDone u sign) (handleUpdate timeString order' k now ctxDone u sign).
Proof.
  unfold handleUpdate. eapply rel_bind; [apply rel_getChain |]. intros cc cc' Ht.
  assert (validatorInfoSnapshot cc' = validatorInfoSnapshot cc) as -> by (by destruct Ht as (w & cl & ns & -> & _)).
  destruct (validatorInfoSnapshot cc).1 as [vi |]; [| by apply rel_ret]. cbv zeta.
  destruct (negb (Final u)); [by apply rel_ret |].
  assert (twin (cc <| lastBlockNum := Height u |>) (cc' <| lastBlockNum := Height u |>)) as Ht1.
  { destruct Ht as (w & cl & ns & -> & Hd). exists w, cl, ns. by destruct cc. }
  destruct (recordFinalBlock_twin now _ _ Ht1) as [Hp Ht2].
  destruct (recordFinalBlock now (cc <| lastBlockNum := Height u |>)) as [prev cc1].
  destruct (recordFinalBlock now (cc' <| lastBlockNum := Height u |>)) as [prev' cc1']. cbn [fst snd] in *. subst prev'.
  eapply rel_bind; [by apply rel_putChain |]. intros _ _ _.
  eapply rel_bind; [apply rel_getS |]. intros c c' Hi.
  assert (Prom c' = Prom c) as -> by (by rewrite (id_rest _ _ _ Hi)).
  assert (forall v, mkUpdate metricLastBlockSeconds v "" cc1' = mkUpdate metricLastBlockSeconds v "" cc1) as Hmk
    by (intros v; by destruct Ht2 as (w & cl & ns & -> & _)).
  eapply (rel_bind _ eq); [rewrite Hmk; destruct (Prom c); [apply rel_emit | by apply rel_ret] |]. intros ok _ <-.
  destruct (negb ok); [by apply rel_ret |].
  eapply rel_bind; [apply rel_getS |]. clear c c' Hi. intros c c' Hi.
  assert (Prom c' = Prom c /\ EnableDash c' = EnableDash c) as [-> ->] by (by rewrite (id_rest _ _ _ Hi)).
  destruct (finishBlock_twin k now u vi (raiseSign sign (Events.Status u) (vi_Bonded vi)) c c' cc1 cc1' Hi Ht2)
    as (x & x' & st & healthy & -> & -> & Ht3).
  eapply rel_bind; [by apply rel_putChain |]. intros _ _ _.
  eapply (rel_bind _ eq); [destruct (EnableDash c); [apply rel_sendUpdate | by apply rel_ret] |]. intros _ _ _.
  rewrite (blockMetrics_twin _ _ _ Ht3).
  eapply (rel_bind _ eq); [destruct (Prom c); [apply rel_emitAll | by apply rel_ret] |]. intros ok2 _ <-.
  by apply rel_ret.
Qed.

(** A history, in both runs. *)
Lemma rel_runHistory k (h h' : list historyEvent) : forall sign,
  Forall2 (fun e e' => e'.2 = e.2 /\ forall c c', indistinct k c c' -> indistinct k (e.1 c) (e'.1 c')) h h' ->
  related k eq (runHistory timeString order k h sign) (runHistory timeString order' k h' sign).
Proof.
  intros sign Hh. revert sign. induction Hh as [| [f [[now b] u]] [f' e'] h h' [He Hf] Hh IH]; intros sign; cbn [runHistory].
  { by apply rel_ret. }
  cbn [fst snd] in He, Hf. subst e'. eapply (rel_bind _ eq).
  { intros c c' Hi. eexists tt, tt, _, _. split_and!; [done | done | done | by apply Hf]. }
  intros _ _ _. eapply rel_bind; [apply rel_handleUpdate |]. intros r _ <-. destruct r; [apply IH | by apply rel_ret].
Qed.

End twins.

(** What reaches the dashboard is the same, whatever was logged. *)
Lemma dashInputs_hidden k c c' l l' : indistinct k c c' -> dashInputs c' l' = dashInputs c l.
Proof.
  intros Hi. assert (HideLogs c' = true /\ updateChan c' = updateChan c) as [H1' Hu].
  { rewrite (id_rest _ _ _ Hi). split; [apply Hi | done]. }
  assert (forall c l, HideLogs c = true -> concat ((fun m : Z * list string => forwardLog c true m.1 m.2) <$> l) = []) as Hnone.
  { intros d ls Hh. induction ls as [| m ls IH]; [done |]. cbn [fmap list_fmap concat].
    unfold forwardLog at 1. by rewrite Hh, andb_false_r. }
  unfold dashInputs. rewrite Hu, !Hnone; [done | apply Hi | done].
Qed.

(** ** Properties *)

(** C11: hidden logs hide the nodes.  Take two configurations with logs hidden
    that agree except for the addresses of a chain's nodes and the connections
    to them, what was said about the nodes, the texts of the alarms (not their
    number) and the queued alerts.  Let both see the same blocks and votes,
    while the rest of the program keeps them in that relation, and log whatever
    they like: both get through, and the dashboards answer every request and
    broadcast everything alike.  The statuses sent at start-up and when no
    endpoint is usable are alike too.  So nothing that is shown depends on
    where the nodes are. *)
Theorem hidden_logs_hide_nodes `{DashJson} (timeString : time -> string) (order order' : gmap string time -> list string)
    (k : string) (h h' : list historyEvent) (sign : Z) (c c' : Config) (l l' : list (Z * list string)) :
  indistinct k c c' ->
  Forall2 (fun e e' => e'.2 = e.2 /\ forall c c', indistinct k c c' -> indistinct k (e.1 c) (e'.1 c')) h h' ->
  (exists r d d', runHistory timeString order k h sign c = Some (r, d) /\
     runHistory timeString order' k h' sign c' = Some (r, d') /\
     let s := serve (HideLogs d) (dashInputs d l) initDash in
     let s' := serve (HideLogs d') (dashInputs d' l') initDash in
     s'.2 = s.2 /\ forall path, respond (HideLogs d') s'.1 path = respond (HideLogs d) s.1 path) /\
  forall cc cc', Chains c !! k = Some cc -> Chains c' !! k = Some cc' ->
    initialStatus cc' = initialStatus cc /\ noEndpointStatus cc' = noEndpointStatus cc.
Proof.
  intros Hi Hh. split.
  - destruct (rel_runHistory timeString order order' k h h' sign Hh c c' Hi) as (r & _ & d & d' & E & E' & <- & Hd).
    exists r, d, d'. rewrite (dashInputs_hidden k d d' l l' Hd).
    assert (HideLogs d' = HideLogs d) as -> by (by rewrite (id_rest _ _ _ Hd)). done.
  - intros cc cc' Hc Hc'. destruct (id_chain _ _ _ Hi) as (x & x' & Hx & Hx' & Ht).
    rewrite Hc in Hx. rewrite Hc' in Hx'. injection Hx as <-. injection Hx' as <-.
    destruct Ht as (w & cl & ns & -> & Hd). apply (f_equal length) in Hd. rewrite !length_fmap in Hd.
    unfold initialStatus, noEndpointStatus. change (Nodes (elsewhere w cl ns cc)) with ns. by rewrite Hd.
Qed.

(** ** Witnesses *)

(** The same chain with its nodes elsewhere, one of them down with a telling
    message, and different lines logged. *)
Definition movedNodes : list NodeConfig :=
  [MkNodeConfig "tcp://10.0.0.7:26657" true false false false "" 0; MkNodeConfig "tcp://10.0.0.8:26657" true false false false "" 0].

Definition hiddenConfig (ns : list NodeConfig) : Config :=
  sampleConfig <| HideLogs := true |> <| EnableDash := true |>
    <| Chains := {[ "Osmosis" := sampleChain <| Nodes := ns |> ]} |>.

Lemma hidden_indistinct : indistinct "Osmosis" (hiddenConfig (Nodes sampleChain)) (hiddenConfig movedNodes).
Proof.
  split; [done | | done | done].
  exists (sampleChain <| Nodes := Nodes sampleChain |>), (sampleChain <| Nodes := movedNodes |>).
  split_and!; [done | done |]. exists None, None, movedNodes. by split.
Qed.

Lemma hidden_logs_hide_nodes_witness :
  let block := (id, (unix_epoch, false, MkStatusUpdate 7 StatusSigned true)) : historyEvent in
  exists r d d', runHistory plainTime mapOrder "Osmosis" [block] (-1) (hiddenConfig (Nodes sampleChain)) = Some (r, d) /\
    runHistory plainTime mapOrder "Osmosis" [block] (-1) (hiddenConfig movedNodes) = Some (r, d') /\
    (@serve sampleDashJson (HideLogs d') (dashInputs d' [(1, ["tcp://10.0.0.7:26657 is down"])]) initDash).2 =
    (@serve sampleDashJson (HideLogs d) (dashInputs d []) initDash).2 /\ length (updateChan d) = 1%nat.
Proof.
  intros block.
  destruct (@hidden_logs_hide_nodes sampleDashJson plainTime mapOrder mapOrder "Osmosis" [block] [block] (-1)
    (hiddenConfig (Nodes sampleChain)) (hiddenConfig movedNodes) [] [(1, ["tcp://10.0.0.7:26657 is down"])]
    hidden_indistinct) as [(r & d & d' & E & E' & Hs & _) _].
  { constructor; [by split | apply Forall2_nil_2]. }
  exists r, d, d'. split; [exact E |]. split; [exact E' |]. split; [exact Hs |].
  assert ((fun x => length (updateChan x.2)) <$>
    runHistory plainTime mapOrder "Osmosis" [block] (-1) (hiddenConfig (Nodes sampleChain)) = Some 1%nat) as El by by vm_compute.
  rewrite E in El. by injection El.
Defined.
